(* ===== verification/_CoqProject ===== *)
-Q . S2P
Prelude.v
Sched.v
SortedScheds.v
HeapSched.v
CalendarSched.v
Schedulers.v
Simulator.v
SimSpec.v
SimRun.v
Buffer.v
BufferSpec.v
BufferIter.v
BufferOps.v
BufferSer.v
Buffers.v
SeqNum.v
TcpRxBuffer.v
RxSpec.v
RxOps.v
RxBuffers.v
Int64x64.v
TimeUnits.v
