(* ===== verification/Prelude.v ===== *)
(** * ns-3: a verification library for the simulator's core, buffers and TCP

    (header completed below as the development grows) *)

From stdpp Require Export base tactics option list gmap numbers sorting.
From Stdlib Require Export ZArith Lia ZifyNat.

#[global] Open Scope Z_scope.
#[global] Set Default Proof Using "Type".

(** ** Machine integers

    C++ unsigned arithmetic is arithmetic modulo [2^w]; a conversion to a signed type of the
    same width reinterprets the bits (two's complement). *)
Definition u8 (z : Z) : Z := z mod 256.
Definition u16 (z : Z) : Z := z mod 65536.
Definition u32 (z : Z) : Z := z mod 4294967296.
Definition u64 (z : Z) : Z := z mod 18446744073709551616.
Definition i32 (z : Z) : Z := (z + 2147483648) mod 4294967296 - 2147483648.
Definition i64 (z : Z) : Z :=
  (z + 9223372036854775808) mod 18446744073709551616 - 9223372036854775808.

Definition UINT32_MAX : Z := 4294967295.
Definition UINT64_MAX : Z := 18446744073709551615.

Lemma u32_small z : 0 <= z < 4294967296 -> u32 z = z.
Proof. apply Z.mod_small. Qed.

Lemma u64_small z : 0 <= z < 18446744073709551616 -> u64 z = z.
Proof. apply Z.mod_small. Qed.

Lemma u32_range z : 0 <= u32 z < 4294967296.
Proof. by apply Z.mod_pos_bound. Qed.

Lemma u64_range z : 0 <= u64 z < 18446744073709551616.
Proof. by apply Z.mod_pos_bound. Qed.

Lemma i32_small z : -2147483648 <= z < 2147483648 -> i32 z = z.
Proof. intros. unfold i32. rewrite Z.mod_small; lia. Qed.

Lemma i64_small z : -9223372036854775808 <= z < 9223372036854775808 -> i64 z = z.
Proof. intros. unfold i64. rewrite Z.mod_small; lia. Qed.

(** [wsimp] removes the wrap-arounds whose argument is provably in range. *)
Ltac wsimp :=
  repeat match goal with
  | |- context [u32 ?z] => rewrite (u32_small z) by lia
  | |- context [u64 ?z] => rewrite (u64_small z) by lia
  | |- context [i32 ?z] => rewrite (i32_small z) by lia
  | |- context [i64 ?z] => rewrite (i64_small z) by lia
  end.

(** Congruent integers differ by a multiple of the modulus. *)
Lemma mod_eq_mul a b n : 0 < n -> a mod n = b mod n -> exists m, a = b + n * m.
Proof.
  intros Hn Heq. exists (a / n - b / n).
  rewrite (Z.div_mod a n) at 1 by lia. rewrite (Z.div_mod b n) at 1 by lia. rewrite Heq. ring.
Qed.

Lemma mod_eq_window a b n : 0 < n -> a mod n = b mod n -> b <= a < b + n -> a = b.
Proof.
  intros Hn Heq Hw. destruct (mod_eq_mul a b n Hn Heq) as [m ->]. clear Heq.
  assert (m = 0) as -> by nia. lia.
Qed.

(** 32-bit addition and subtraction. *)
Declare Scope u32_scope.
Notation "a ⊕ b" := (u32 (a + b)) (at level 50, left associativity) : u32_scope.
Notation "a ⊖ b" := (u32 (a - b)) (at level 50, left associativity) : u32_scope.
#[global] Open Scope u32_scope.

(** ** Assertions

    [NS_ASSERT] aborts the program when its condition is false; a dereference out of range is
    undefined behaviour.  Operations with either return [option], and [None] stands for both. *)
Notation "'ASSERT' b ';;' k" := (if b then k else None)
  (at level 100, b at next level, k at level 200, right associativity) : option_scope.
Notation "'let!' x ':=' e 'in' k" := (match e with Some x => k | None => None end)
  (at level 200, x pattern, e at level 100, k at level 200, right associativity).
#[global] Open Scope option_scope.

(** ** Generic list facts *)
Section lists.
Context {A : Type}.
Implicit Types l : list A.

(** Erase the first element that satisfies a test, as [std::find_if] and [erase] do. *)
Fixpoint erase_first (f : A -> bool) l : option (A * list A) :=
  match l with
  | [] => None
  | x :: l' =>
      if f x then Some (x, l')
      else let! (y, r) := erase_first f l' in Some (y, x :: r)
  end.

Lemma erase_first_Some f l x r :
  erase_first f l = Some (x, r) ->
  f x = true /\ l ≡ₚ x :: r /\ sublist r l.
Proof.
  revert x r. induction l as [|y l IH]; intros x r; simpl; [done|].
  destruct (f y) eqn:Hy.
  - intros [= <- <-]. split_and!; [done|done|by apply sublist_cons].
  - destruct (erase_first f l) as [[z r']|] eqn:Hl; [|done].
    intros [= <- <-]. destruct (IH _ _ eq_refl) as (Hf&Hp&Hs).
    split_and!; [done| |by apply sublist_skip].
    rewrite Hp. by apply Permutation_swap.
Qed.

Lemma erase_first_is_Some f l :
  (exists x, x ∈ l /\ f x = true) -> is_Some (erase_first f l).
Proof.
  intros (x&Hx&Hf). induction Hx as [y l|x y l Hx IH]; simpl.
  - rewrite Hf. eauto.
  - destruct (f y); [eauto|]. destruct (IH Hf) as [[z r] ->]. eauto.
Qed.

Lemma Forall_sublist' (P : A -> Prop) l k : sublist l k -> Forall P k -> Forall P l.
Proof. induction 1; intros Hf; inversion Hf; subst; auto. Qed.

Lemma StronglySorted_sublist (R : relation A) l k :
  sublist l k -> StronglySorted R k -> StronglySorted R l.
Proof.
  induction 1; intros Hs; [done| |]; inversion Hs; subst; [|by auto].
  constructor; [by auto|]. by eapply Forall_sublist'.
Qed.

Lemma Permutation_cons_elem l (x : A) : x ∈ l -> exists l', l ≡ₚ x :: l'.
Proof. apply elem_of_Permutation. Qed.
End lists.


(** [norm_bool] turns boolean tests in the context and the goal into propositions. *)
Ltac norm_bool :=
  repeat match goal with
  | H : (_ && _) = true |- _ => apply andb_true_iff in H; destruct H
  | H : (_ && _) = false |- _ => apply andb_false_iff in H
  | H : (_ || _) = true |- _ => apply orb_true_iff in H
  | H : (_ || _) = false |- _ => apply orb_false_iff in H; destruct H
  | H : negb _ = true |- _ => apply negb_true_iff in H
  | H : negb _ = false |- _ => apply negb_false_iff in H
  | H : (_ =? _) = true |- _ => apply Z.eqb_eq in H
  | H : (_ =? _) = false |- _ => apply Z.eqb_neq in H
  | H : (_ <? _) = true |- _ => apply Z.ltb_lt in H
  | H : (_ <? _) = false |- _ => apply Z.ltb_ge in H
  | H : (_ <=? _) = true |- _ => apply Z.leb_le in H
  | H : (_ <=? _) = false |- _ => apply Z.leb_gt in H
  end.

(** [ztest] evaluates the integer comparisons of the goal that [lia] decides. *)
Ltac ztest :=
  repeat match goal with
  | |- context [?a <=? ?b] =>
      first [rewrite (proj2 (Z.leb_le a b)) by lia | rewrite (proj2 (Z.leb_gt a b)) by lia]
  | |- context [?a <? ?b] =>
      first [rewrite (proj2 (Z.ltb_lt a b)) by lia | rewrite (proj2 (Z.ltb_ge a b)) by lia]
  | |- context [?a =? ?b] =>
      first [rewrite (proj2 (Z.eqb_eq a b)) by lia | rewrite (proj2 (Z.eqb_neq a b)) by lia]
  end.
