(* ===== verification/Sched.v ===== *)
(** * The scheduler contract ([src/core/model/scheduler.h])

    The keys that order events, the operations every scheduler class overrides, and the
    contract they owe to [DefaultSimulatorImpl].  Five implementations follow in
    [SortedScheds.v], [HeapSched.v] and [CalendarSched.v]; [Simulator.v] is proved against the
    contract only. *)

From S2P Require Export Prelude.

(** ** Keys and events *)

(** [struct EventKey]: [m_ts] is a [uint64_t], [m_uid] and [m_context] are [uint32_t]. *)
Record EventKey := mkKey { m_ts : Z; m_uid : Z; m_context : Z }.

(** [struct Event]: the pointer to the implementation ([0] is [nullptr]) and the key. *)
Record Event := mkEvent { impl : Z; key : EventKey }.

#[export] Instance EventKey_eq_dec : EqDecision EventKey.
Proof. solve_decision. Defined.
#[export] Instance Event_eq_dec : EqDecision Event.
Proof. solve_decision. Defined.

(** The comparison operators of [scheduler.h]: equality looks at the uid only, the order at the
    time stamp and then the uid. *)
Definition key_eq (a b : EventKey) : bool := m_uid a =? m_uid b.
Definition key_ne (a b : EventKey) : bool := negb (m_uid a =? m_uid b).
Definition key_lt (a b : EventKey) : bool :=
  (m_ts a <? m_ts b) || ((m_ts a =? m_ts b) && (m_uid a <? m_uid b)).
Definition key_gt (a b : EventKey) : bool :=
  (m_ts b <? m_ts a) || ((m_ts a =? m_ts b) && (m_uid b <? m_uid a)).
Definition ev_eq (a b : Event) : bool := key_eq (key a) (key b).
Definition ev_ne (a b : Event) : bool := key_ne (key a) (key b).
Definition ev_lt (a b : Event) : bool := key_lt (key a) (key b).
Definition ev_gt (a b : Event) : bool := key_gt (key a) (key b).

Notation ts e := (m_ts (key e)).
Notation uid e := (m_uid (key e)).

(** The order as a proposition linear arithmetic can use. *)
Definition key_before (a b : EventKey) : Prop :=
  m_ts a < m_ts b \/ (m_ts a = m_ts b /\ m_uid a < m_uid b).
Definition before (a b : Event) : Prop := key_before (key a) (key b).

Lemma key_lt_spec a b : key_lt a b = true <-> key_before a b.
Proof. unfold key_lt, key_before. lia. Qed.
Lemma key_lt_false a b : key_lt a b = false <-> ~ key_before a b.
Proof. unfold key_lt, key_before. lia. Qed.
Lemma key_gt_lt a b : key_gt a b = key_lt b a.
Proof. unfold key_gt, key_lt. rewrite (Z.eqb_sym (m_ts a)). done. Qed.
Lemma ev_lt_spec a b : ev_lt a b = true <-> before a b.
Proof. apply key_lt_spec. Qed.
Lemma ev_lt_false a b : ev_lt a b = false <-> ~ before a b.
Proof. apply key_lt_false. Qed.

#[export] Instance before_dec a b : Decision (before a b).
Proof. refine (cast_if (decide (ev_lt a b = true))); by rewrite <- ev_lt_spec. Defined.

(** [key_order] closes goals about the lexicographic order by linear arithmetic. *)
Ltac key_order :=
  unfold before, key_before in *; cbn in *; lia.

Lemma key_before_trans a b c : key_before a b -> key_before b c -> key_before a c.
Proof. unfold key_before. lia. Qed.
Lemma key_not_before_l a b c : key_before a b -> ~ key_before c b -> ~ key_before c a.
Proof. unfold key_before. lia. Qed.
Lemma key_le_trans a b c : ~ key_before b a -> ~ key_before c b -> ~ key_before c a.
Proof. unfold key_before. lia. Qed.
Lemma key_le_ts a b : ~ key_before b a -> m_ts a <= m_ts b.
Proof. unfold key_before. lia. Qed.

#[export] Instance before_strict : StrictOrder before.
Proof. split; [intros a H|intros a b c H1 H2]; key_order. Qed.

Lemma before_total a b : uid a <> uid b -> before a b \/ before b a.
Proof. intros. key_order. Qed.

(** ** The abstract content of a scheduler

    A scheduler holds a finite multiset of events; [es] lists it in no particular order. *)

(** [e] is the event [RemoveNext] must return. *)
Definition is_min (e : Event) (es : list Event) : Prop :=
  e ∈ es /\ forall e', e' ∈ es -> ~ before e' e.

(** Uids are unique: [DefaultSimulatorImpl] numbers the events it inserts. *)
Definition uids (es : list Event) : list Z := (fun e => uid e) <$> es.
Definition unique_uids (es : list Event) : Prop := NoDup (uids es).

#[export] Instance uids_perm : Proper ((≡ₚ) ==> (≡ₚ)) uids.
Proof. intros l1 l2 H. unfold uids. by rewrite H. Qed.
#[export] Instance unique_uids_perm : Proper ((≡ₚ) ==> iff) unique_uids.
Proof. intros l1 l2 H. unfold unique_uids. by rewrite H. Qed.
#[export] Instance is_min_perm e : Proper ((≡ₚ) ==> iff) (is_min e).
Proof. intros l1 l2 H. unfold is_min. by setoid_rewrite H. Qed.

Lemma elem_of_uids z es : z ∈ uids es <-> exists e, e ∈ es /\ uid e = z.
Proof. unfold uids. rewrite list_elem_of_fmap. naive_solver. Qed.

Lemma unique_uids_cons e es :
  unique_uids (e :: es) <-> uid e ∉ uids es /\ unique_uids es.
Proof. apply NoDup_cons. Qed.

Lemma unique_uids_inj es e1 e2 :
  unique_uids es -> e1 ∈ es -> e2 ∈ es -> uid e1 = uid e2 -> e1 = e2.
Proof.
  intros Hu H1 H2 Heq. induction es as [|e es IH]; [by apply elem_of_nil in H1|].
  apply unique_uids_cons in Hu as [Hn Hu].
  apply elem_of_cons in H1 as [->|H1], H2 as [->|H2]; auto;
    destruct Hn; apply elem_of_uids; eauto.
Qed.

Lemma is_min_unique es e1 e2 :
  unique_uids es -> is_min e1 es -> is_min e2 es -> e1 = e2.
Proof.
  intros Hu [H1 Hm1] [H2 Hm2]. destruct (decide (uid e1 = uid e2)) as [|Hne].
  - by eapply unique_uids_inj.
  - destruct (before_total _ _ Hne); [destruct (Hm2 e1)|destruct (Hm1 e2)]; done.
Qed.

Lemma is_min_cons_sorted e es :
  (forall e', e' ∈ es -> before e e') -> is_min e (e :: es).
Proof.
  intros H. split; [by left|]. intros e' [->|He']%elem_of_cons.
  - key_order.
  - specialize (H _ He'). key_order.
Qed.

(** Without repetition the minimum is strictly before all other events. *)
Lemma is_min_before e es e' :
  unique_uids es -> is_min e es -> e' ∈ es -> e' <> e -> before e e'.
Proof.
  intros Hu [He Hm] He' Hne. destruct (before_total e e') as [|Hb]; [|done|by destruct (Hm e')].
  intros Heq. by destruct Hne; eapply unique_uids_inj.
Qed.

(** ** Operations and contract *)

(** The pure virtual methods of [class Scheduler], and the constructor. *)
Class SchedulerOps (Sch : Type) := {
  CreateScheduler : Sch;
  Insert : Event -> Sch -> option Sch;
  IsEmpty : Sch -> bool;
  PeekNext : Sch -> option Event;
  RemoveNext : Sch -> option (Event * Sch);
  Remove : Event -> Sch -> option Sch
}.

(** The largest time stamp the contract covers ([2^45] time steps).  The calendar queue does
    its bucket arithmetic in [uint64_t]; up to this bound it never wraps. *)
Definition MAX_TS : Z := 35184372088832.

(** What the simulator respects when it inserts an event: a fresh uid, a time stamp that is
    not before the last event removed ([t]) and a bounded one.  Uids stay below the last value
    of [uint32_t], so that no scheduler ever holds [2^32] events. *)
Definition insertable (t : Z) (es : list Event) (ev : Event) : Prop :=
  uid ev ∉ uids es /\ t <= ts ev < MAX_TS /\ 0 <= uid ev < UINT32_MAX.

(** Unique uids and time stamps between the clock [t] and the bound. *)
Definition wf_events (t : Z) (es : list Event) : Prop :=
  unique_uids es /\ forall e, e ∈ es -> t <= ts e < MAX_TS /\ 0 <= uid e < UINT32_MAX.

#[export] Instance wf_events_perm t : Proper ((≡ₚ) ==> iff) (wf_events t).
Proof. intros l1 l2 H. unfold wf_events. setoid_rewrite H. done. Qed.

Lemma wf_events_nil t : wf_events t [].
Proof. split; [constructor|]. intros e He. by apply elem_of_nil in He. Qed.

Lemma wf_events_insert t es ev :
  wf_events t es -> insertable t es ev -> wf_events t (ev :: es).
Proof.
  intros [Hu Hb] [Hn Ht]. split; [by apply unique_uids_cons|].
  intros e [->|He]%elem_of_cons; auto.
Qed.

Lemma wf_events_tail t es ev : wf_events t (ev :: es) -> wf_events t es.
Proof.
  intros [Hu Hb]. split; [by apply unique_uids_cons in Hu as [_ ?]|].
  intros e He. apply Hb. by right.
Qed.

Lemma wf_events_elem t es e : wf_events t es -> e ∈ es -> insertable t [] e.
Proof.
  intros [_ Hb] He. split; [by apply not_elem_of_nil|by apply Hb].
Qed.

Lemma wf_events_length t es : wf_events t es -> Z.of_nat (length es) <= UINT32_MAX.
Proof.
  intros [Hu Hb].
  replace (length es) with (length (uids es)) by apply length_fmap.
  replace UINT32_MAX with (Z.of_nat (length (seqZ 0 UINT32_MAX)))
    by (rewrite length_seqZ; unfold UINT32_MAX; lia).
  apply Nat2Z.inj_le, submseteq_length, NoDup_submseteq; [done|].
  intros z (e&He&<-)%elem_of_uids. apply elem_of_seqZ. destruct (Hb e He). lia.
Qed.

Lemma wf_events_weaken t t' es : t' <= t -> wf_events t es -> wf_events t' es.
Proof. intros Ht [Hu Hb]. split; [done|]. intros e He. specialize (Hb e He). lia. Qed.

(** Removing the minimum lets the clock advance to it. *)
Lemma wf_events_advance t es e :
  wf_events t (e :: es) -> is_min e (e :: es) -> wf_events (ts e) es.
Proof.
  intros Hwf [_ Hm]. split; [by eapply wf_events_tail|].
  intros e' He'. destruct Hwf as [_ Hb]. specialize (Hb e'). specialize (Hm e').
  destruct Hb as [[_ ?] ?]; [by right|]. split; [split|]; [|done..].
  destruct (decide (ts e <= ts e')) as [|Hlt]; [done|]. destruct Hm; [by right|]. key_order.
Qed.

(** The queue part of the contract.  [sch_rep s t es] says that [s] is a well-formed scheduler
    that holds exactly the events [es] and whose events are all at [t] or later. *)
Class SchedulerQueue (Sch : Type) `{SchedulerOps Sch} := {
  sch_rep : Sch -> Z -> list Event -> Prop;
  sch_rep_perm s t es es' : es ≡ₚ es' -> sch_rep s t es -> sch_rep s t es';
  sch_rep_wf s t es : sch_rep s t es -> wf_events t es;
  sch_rep_advance s t t' es :
    t <= t' -> wf_events t' es -> sch_rep s t es -> sch_rep s t' es;
  create_ok : sch_rep CreateScheduler 0 [];
  insert_ok s t es ev :
    sch_rep s t es -> insertable t es ev ->
    exists s', Insert ev s = Some s' /\ sch_rep s' t (ev :: es);
  is_empty_ok s t es : sch_rep s t es -> IsEmpty s = bool_decide (es = []);
  peek_next_ok s t es :
    sch_rep s t es -> es <> [] -> exists e, PeekNext s = Some e /\ is_min e es;
  remove_next_ok s t es :
    sch_rep s t es -> es <> [] ->
    exists e s' es', RemoveNext s = Some (e, s') /\ es ≡ₚ e :: es' /\
                     is_min e es /\ sch_rep s' (ts e) es'
}.

(** A combined form of the last two laws, from which an implementation builds the instance:
    [PeekNext] and [RemoveNext] find the same event. *)
Definition next_law `{SchedulerOps Sch} (rep : Sch -> Z -> list Event -> Prop) : Prop :=
  forall s t es, rep s t es -> es <> [] ->
  exists e s' es', PeekNext s = Some e /\ RemoveNext s = Some (e, s') /\ es ≡ₚ e :: es' /\
                   is_min e es /\ rep s' (ts e) es'.

Lemma next_law_peek `{SchedulerOps Sch} (rep : Sch -> Z -> list Event -> Prop) :
  next_law rep -> forall s t es, rep s t es -> es <> [] ->
  exists e, PeekNext s = Some e /\ is_min e es.
Proof. intros Hl s t es Hs Hne. destruct (Hl s t es Hs Hne) as (e&?&?&?&_&_&?&_). eauto. Qed.

Lemma next_law_remove `{SchedulerOps Sch} (rep : Sch -> Z -> list Event -> Prop) :
  next_law rep -> forall s t es, rep s t es -> es <> [] ->
  exists e s' es', RemoveNext s = Some (e, s') /\ es ≡ₚ e :: es' /\
                   is_min e es /\ rep s' (ts e) es'.
Proof.
  intros Hl s t es Hs Hne. destruct (Hl s t es Hs Hne) as (e&s'&es'&_&?&?&?&?).
  by exists e, s', es'.
Qed.

(** The rest of the contract: removal of an arbitrary event. *)
Class SchedulerRemove (Sch : Type) `{SchedulerQueue Sch} := {
  remove_ok s t es ev :
    sch_rep s t es -> ev ∈ es ->
    exists s' es', Remove ev s = Some s' /\ es ≡ₚ ev :: es' /\ sch_rep s' t es'
}.

(** ** Sorted insertion

    [ListScheduler::Insert] and [CalendarScheduler::DoInsert] share this loop: the new event goes
    before the first event it precedes, or at the end. *)
Fixpoint insert_sorted (order : EventKey -> EventKey -> bool) (ev : Event) (l : list Event)
    : list Event :=
  match l with
  | [] => [ev]
  | e :: l' => if order (key ev) (key e) then ev :: e :: l' else e :: insert_sorted order ev l'
  end.

Section insert_sorted.
Context (order : EventKey -> EventKey -> bool) (R : relation Event) `{!Transitive R}.
Context (HR : forall a b, order (key a) (key b) = true <-> R a b).

Lemma insert_sorted_perm ev l : insert_sorted order ev l ≡ₚ ev :: l.
Proof using Type.
  induction l as [|e l IH]; simpl; [done|]. case_match; [done|].
  rewrite IH. by apply Permutation_swap.
Qed.

Lemma insert_sorted_sorted ev l :
  (forall e, e ∈ l -> R ev e \/ R e ev) ->
  StronglySorted R l -> StronglySorted R (insert_sorted order ev l).
Proof using All.
  intros Htot Hs. induction Hs as [|e l Hs IH He]; simpl; [by repeat constructor|].
  destruct (order (key ev) (key e)) eqn:Ho.
  - apply HR in Ho. constructor; [by constructor|]. constructor; [done|].
    eapply Forall_impl; [done|]. intros x Hx. by etrans.
  - constructor.
    + apply IH. intros x Hx. apply Htot. by right.
    + rewrite Forall_forall in He |- *. intros x Hx.
      rewrite insert_sorted_perm in Hx.
      apply elem_of_cons in Hx as [->|Hx]; [|by apply He].
      destruct (Htot e) as [Hr|Hr]; [by left| |done]. apply HR in Hr. congruence.
Qed.
End insert_sorted.

(** ** Consequences of the contract *)

(** Insert events one after the other. *)
Fixpoint fill `{SchedulerOps Sch} (evs : list Event) (s : Sch) : option Sch :=
  match evs with
  | [] => Some s
  | e :: evs => let! s' := Insert e s in fill evs s'
  end.
Section contract.
Context `{SchedulerQueue Sch}.

Lemma fill_ok evs s t es :
  sch_rep s t es -> wf_events t (evs ++ es) ->
  exists s', fill evs s = Some s' /\ sch_rep s' t (evs ++ es).
Proof.
  revert s es. induction evs as [|e evs IH]; intros s es Hs Hwf; [by exists s|]. simpl in *.
  destruct (insert_ok s t es e) as (s'&->&Hs'); [done| |].
  - destruct Hwf as [Hu Hb]. split; [|apply Hb; by left].
    apply unique_uids_cons in Hu as [Hn _]. intros Hin. apply Hn.
    unfold uids in *. rewrite fmap_app. apply elem_of_app. by right.
  - destruct (IH s' (e :: es) Hs') as (s''&->&Hs'').
    { by rewrite <- Permutation_middle. }
    exists s''. split; [done|]. eapply sch_rep_perm; [|done]. by rewrite Permutation_middle.
Qed.

(** [RemoveNext] until the scheduler is empty ([fuel] bounds the number of iterations). *)
Fixpoint drain (fuel : nat) (s : Sch) : option (list Event) :=
  if IsEmpty s then Some []
  else match fuel with
       | O => None
       | S fuel =>
           let! (e, s') := RemoveNext s in
           let! l := drain fuel s' in Some (e :: l)
       end.

Lemma drain_sorted fuel s t es :
  sch_rep s t es -> (length es <= fuel)%nat ->
  exists l, drain fuel s = Some l /\ l ≡ₚ es /\ StronglySorted before l.
Proof.
  revert s t es. induction fuel as [|fuel IH]; intros s t es Hs Hlen.
  - destruct es; [|simpl in Hlen; lia]. simpl. rewrite (is_empty_ok _ _ _ Hs). simpl.
    eexists; split_and!; [done|done|constructor].
  - destruct (decide (es = [])) as [->|Hne].
    { simpl. rewrite (is_empty_ok _ _ _ Hs). eexists; split_and!; [done|done|constructor]. }
    simpl. rewrite (is_empty_ok _ _ _ Hs), bool_decide_eq_false_2 by done.
    destruct (remove_next_ok _ _ _ Hs Hne) as (e&s'&es'&->&Hp&Hmin&Hs').
    destruct (IH _ _ _ Hs') as (l&->&Hl&Hsort).
    { rewrite Hp in Hlen. simpl in Hlen. lia. }
    eexists; split_and!; [done|by rewrite Hl, Hp|].
    constructor; [done|]. apply Forall_forall. intros e' He'.
    destruct (sch_rep_wf _ _ _ Hs) as [Hu _].
    rewrite Hl in He'. rewrite Hp in Hu, Hmin.
    apply (is_min_before _ _ _ Hu Hmin); [by right|].
    intros ->. apply unique_uids_cons in Hu as [Hn _]. apply Hn, elem_of_uids; eauto.
Qed.
End contract.
