(* ===== verification/SortedScheds.v ===== *)
(** * The sorted and library-backed schedulers

    [ListScheduler], [MapScheduler] and [PriorityQueueScheduler] ([src/core/model]), each with
    its instance of the scheduler contract. *)

From S2P Require Import Sched.

(** ** ListScheduler: a [std::list] kept sorted *)
Module ListScheduler.
(** [m_events] *)
Definition t : Type := list Event.

Definition Insert (ev : Event) (m_events : t) : option t :=
  Some (insert_sorted key_lt ev m_events).

Definition IsEmpty (m_events : t) : bool :=
  match m_events with [] => true | _ => false end.

(** [front] of an empty list is undefined. *)
Definition PeekNext (m_events : t) : option Event := head m_events.

Definition RemoveNext (m_events : t) : option (Event * t) :=
  match m_events with
  | [] => None
  | next :: rest => Some (next, rest)
  end.

(** The first event with the uid is erased, after the assertion that it is the same
    implementation; no such event fails the final assertion. *)
Definition Remove (ev : Event) (m_events : t) : option t :=
  let! (e, rest) := erase_first (fun i => m_uid (key i) =? m_uid (key ev)) m_events in
  ASSERT impl ev =? impl e ;; Some rest.

#[global] Instance ops : SchedulerOps t := {
  CreateScheduler := [];
  Sched.Insert := Insert;
  Sched.IsEmpty := IsEmpty;
  Sched.PeekNext := PeekNext;
  Sched.RemoveNext := RemoveNext;
  Sched.Remove := Remove
}.

Definition rep (s : t) (tm : Z) (es : list Event) : Prop :=
  s ≡ₚ es /\ StronglySorted before s /\ wf_events tm es.

Lemma head_is_min e s : StronglySorted before (e :: s) -> is_min e (e :: s).
Proof.
  intros Hs. apply is_min_cons_sorted. inversion Hs as [|?? _ Hf]; subst.
  by apply Forall_forall.
Qed.

Lemma erase_uid s e : 
  unique_uids s -> e ∈ s ->
  exists r, erase_first (fun i => m_uid (key i) =? uid e) s = Some (e, r) /\
            s ≡ₚ e :: r /\ sublist r s.
Proof.
  intros Hu He.
  destruct (erase_first_is_Some (fun i => m_uid (key i) =? uid e) s) as [[x r] Hx].
  { exists e. split; [done|]. apply Z.eqb_refl. }
  pose proof (erase_first_Some _ _ _ _ Hx) as (Hf&Hp&Hsub).
  assert (x = e) as ->.
  { apply (unique_uids_inj s); auto; [rewrite Hp; by left|by apply Z.eqb_eq]. }
  eauto.
Qed.

Lemma list_rep_wf s tm es : rep s tm es -> wf_events tm es.
Proof. by intros (?&?&?). Qed.

Lemma list_rep_advance s tm tm' es : tm <= tm' -> wf_events tm' es -> rep s tm es -> rep s tm' es.
Proof. by intros _ ? (?&?&?). Qed.

Lemma list_create_rep : rep [] 0 [].
Proof. split_and!; [done|constructor|apply wf_events_nil]. Qed.

Lemma list_rep_perm s tm es es' : es ≡ₚ es' -> rep s tm es -> rep s tm es'.
Proof. intros Hp (?&?&?). unfold rep. by rewrite <- Hp. Qed.

Lemma list_insert_rep s tm es ev :
  rep s tm es -> insertable tm es ev ->
  exists s', Insert ev s = Some s' /\ rep s' tm (ev :: es).
Proof.
  intros (Hp&Hs&Hwf) Hins. eexists. split; [done|].
  split_and!; [by rewrite insert_sorted_perm, Hp| |by apply wf_events_insert].
  apply insert_sorted_sorted with (R := before);
    [apply _|intros; apply key_lt_spec| |done].
  intros e He. apply before_total. intros Heq. destruct Hins as [Hn _].
  apply Hn, elem_of_uids. exists e. by rewrite <- Hp.
Qed.

Lemma list_is_empty_rep s tm es : rep s tm es -> IsEmpty s = bool_decide (es = []).
Proof.
  intros (Hp&_). destruct s; simpl.
  - apply Permutation_nil_l in Hp as <-. done.
  - rewrite bool_decide_eq_false_2; [done|]. intros ->. by apply Permutation_nil_r in Hp.
Qed.

Lemma list_next_rep : next_law rep.
Proof.
  intros s tm es (Hp&Hs&Hwf) Hne. destruct s as [|e s]; [by apply Permutation_nil_l in Hp|].
  apply head_is_min in Hs as Hmin. exists e, s, s.
  rewrite <- Hp in Hwf. rewrite <- Hp.
  split_and!; try done. split_and!; [done|by inversion Hs|by eapply wf_events_advance].
Qed.

Lemma list_remove_rep s tm es ev :
  rep s tm es -> ev ∈ es ->
  exists s' es', Remove ev s = Some s' /\ es ≡ₚ ev :: es' /\ rep s' tm es'.
Proof.
  intros (Hp&Hs&Hwf) Hev. rewrite <- Hp in Hev, Hwf.
  destruct (erase_uid s ev) as (r&Hx&Hpr&Hsub); [by destruct Hwf|done|].
  exists r, r. unfold Remove. rewrite Hx, Z.eqb_refl. split_and!; [done|by rewrite <- Hp|].
  rewrite Hpr in Hwf. split_and!; [done| |by eapply wf_events_tail].
  by eapply StronglySorted_sublist.
Qed.

#[global] Instance queue : SchedulerQueue t := {
  sch_rep := rep;
  sch_rep_perm := list_rep_perm;
  sch_rep_wf := list_rep_wf;
  sch_rep_advance := list_rep_advance;
  create_ok := list_create_rep;
  insert_ok := list_insert_rep;
  is_empty_ok := list_is_empty_rep;
  peek_next_ok := next_law_peek rep list_next_rep;
  remove_next_ok := next_law_remove rep list_next_rep
}.

#[global] Instance remove : SchedulerRemove t := { remove_ok := list_remove_rep }.
End ListScheduler.

(** ** MapScheduler: a [std::map] from keys to implementations

    [std::map] keeps its entries sorted by [operator<] on keys, and holds no two equivalent
    keys; the three operations the scheduler uses are written on the sorted list of entries. *)
Module MapScheduler.
Definition EventMap : Type := list (EventKey * Z).

(** [std::map::insert]: the new map and whether the entry was inserted. *)
Fixpoint map_insert (k : EventKey) (v : Z) (m : EventMap) : EventMap * bool :=
  match m with
  | [] => ([(k, v)], true)
  | (k', v') :: m' =>
      if key_lt k k' then ((k, v) :: m, true)
      else if key_lt k' k then let (r, b) := map_insert k v m' in ((k', v') :: r, b)
      else (m, false)
  end.

(** [std::map::find] compares with [operator<] both ways. *)
Definition key_equiv (k k' : EventKey) : bool := negb (key_lt k k') && negb (key_lt k' k).

Definition Insert (ev : Event) (m_list : EventMap) : option EventMap :=
  let (m, inserted) := map_insert (key ev) (impl ev) m_list in
  ASSERT inserted ;; Some m.

Definition IsEmpty (m_list : EventMap) : bool :=
  match m_list with [] => true | _ => false end.

Definition PeekNext (m_list : EventMap) : option Event :=
  let! (k, v) := head m_list in Some (mkEvent v k).

Definition RemoveNext (m_list : EventMap) : option (Event * EventMap) :=
  match m_list with
  | [] => None
  | (k, v) :: rest => Some (mkEvent v k, rest)
  end.

(** [find], the assertion on the implementation (undefined when [find] returned [end]),
    [erase]. *)
Definition Remove (ev : Event) (m_list : EventMap) : option EventMap :=
  let! (i, rest) := erase_first (fun i => key_equiv (fst i) (key ev)) m_list in
  ASSERT snd i =? impl ev ;; Some rest.

#[global] Instance ops : SchedulerOps EventMap := {
  CreateScheduler := [];
  Sched.Insert := Insert;
  Sched.IsEmpty := IsEmpty;
  Sched.PeekNext := PeekNext;
  Sched.RemoveNext := RemoveNext;
  Sched.Remove := Remove
}.

Definition entry_event (i : EventKey * Z) : Event := mkEvent (snd i) (fst i).
Definition contents (m : EventMap) : list Event := entry_event <$> m.

(** The map scheduler is the list scheduler on its entries. *)
Definition rep (m : EventMap) (tm : Z) (es : list Event) : Prop :=
  ListScheduler.rep (contents m) tm es.

Lemma map_insert_fresh ev m :
  uid ev ∉ uids (contents m) ->
  let (m', inserted) := map_insert (key ev) (impl ev) m in
  inserted = true /\ contents m' = insert_sorted key_lt ev (contents m).
Proof.
  induction m as [|[k v] m IH]; simpl; intros Hn; [by destruct ev|].
  unfold uids in Hn. simpl in Hn. rewrite not_elem_of_cons in Hn. destruct Hn as [Hne Hn].
  destruct (key_lt (key ev) k) eqn:Hlt; [by destruct ev|].
  replace (key_lt k (key ev)) with true.
  - specialize (IH Hn). destruct (map_insert _ _ _). destruct IH as [-> IH]. simpl.
    by rewrite IH.
  - symmetry. apply key_lt_spec. apply key_lt_false in Hlt. key_order.
Qed.

Lemma erase_key m ev :
  unique_uids (contents m) -> ev ∈ contents m ->
  exists r, erase_first (fun i => key_equiv (fst i) (key ev)) m = Some ((key ev, impl ev), r) /\
            erase_first (fun i => m_uid (key i) =? uid ev) (contents m) = Some (ev, contents r).
Proof.
  induction m as [|[k v] m IH]; simpl; intros Hu Hev; [by apply elem_of_nil in Hev|].
  apply elem_of_cons in Hev as [->|Hev]; simpl.
  - replace (key_equiv k _) with true by (unfold key_equiv, key_lt; cbn; lia).
    rewrite Z.eqb_refl. by exists m.
  - apply unique_uids_cons in Hu as [Hn Hu]. destruct (IH Hu Hev) as (r&->&->).
    assert (m_uid k <> uid ev).
    { intros Heq. apply Hn, elem_of_uids. by exists ev. }
    assert (key_equiv k (key ev) = false) as ->.
    { unfold key_equiv, key_lt. lia. }
    rewrite (proj2 (Z.eqb_neq _ _)) by done. by exists ((k, v) :: r).
Qed.

Lemma map_insert_rep m tm es ev :
  rep m tm es -> insertable tm es ev ->
  exists m', Insert ev m = Some m' /\ rep m' tm (ev :: es).
Proof.
  intros Hr Hins. destruct (ListScheduler.list_insert_rep _ _ _ _ Hr Hins) as (s'&[= <-]&Hr').
  pose proof (map_insert_fresh ev m) as Hm. unfold Insert.
  destruct (map_insert (key ev) (impl ev) m) as [m' b]. destruct Hm as [-> Hm].
  { destruct Hr as (Hp&_), Hins as [Hn _]. by rewrite Hp. }
  exists m'. split; [done|]. unfold rep. by rewrite Hm.
Qed.

Lemma map_is_empty_rep m tm es : rep m tm es -> IsEmpty m = bool_decide (es = []).
Proof.
  intros Hr. rewrite <- (ListScheduler.list_is_empty_rep _ _ _ Hr). by destruct m.
Qed.

Lemma map_next_rep : next_law rep.
Proof.
  intros m tm es Hr Hne.
  destruct (ListScheduler.list_next_rep _ _ _ Hr Hne) as (e&s'&es'&Hpk&Hrm&Hp&Hmin&Hr').
  destruct m as [|[k v] m]; [done|]. simpl in Hrm. injection Hrm as <- <-.
  by exists (mkEvent v k), m, es'.
Qed.

Lemma map_remove_rep m tm es ev :
  rep m tm es -> ev ∈ es ->
  exists m' es', Remove ev m = Some m' /\ es ≡ₚ ev :: es' /\ rep m' tm es'.
Proof.
  intros Hr Hev. destruct (ListScheduler.list_remove_rep _ _ _ _ Hr Hev) as (s'&es'&Hrm&Hp&Hr').
  destruct (erase_key m ev) as (r&Hk&Hl).
  { destruct Hr as (Hp'&_&Hwf&_). by rewrite Hp'. }
  { destruct Hr as (Hp'&_). by rewrite Hp'. }
  unfold ListScheduler.Remove in Hrm. rewrite Hl, Z.eqb_refl in Hrm. injection Hrm as <-.
  exists r, es'. unfold Remove. rewrite Hk. simpl. rewrite Z.eqb_refl. done.
Qed.

#[global] Instance queue : SchedulerQueue EventMap := {
  sch_rep := rep;
  sch_rep_perm m := ListScheduler.list_rep_perm (contents m);
  sch_rep_wf m := ListScheduler.list_rep_wf (contents m);
  sch_rep_advance m := ListScheduler.list_rep_advance (contents m);
  create_ok := ListScheduler.list_create_rep;
  insert_ok := map_insert_rep;
  is_empty_ok := map_is_empty_rep;
  peek_next_ok := next_law_peek rep map_next_rep;
  remove_next_ok := next_law_remove rep map_next_rep
}.

#[global] Instance remove : SchedulerRemove EventMap := { remove_ok := map_remove_rep }.
End MapScheduler.

(** ** PriorityQueueScheduler: a [std::priority_queue] with [std::greater]

    [EventPriorityQueue] is [std::priority_queue<Event, std::vector<Event>, std::greater<>>]
    with a [remove].  The standard promises that [top] is an element no other element precedes;
    where the heap algorithms place the others in the vector [c] is not observable.  The vector
    is kept here in insertion order, [top] is found by a scan. *)
Module PriorityQueueScheduler.
Definition EventPriorityQueue : Type := list Event.

Definition push (ev : Event) (c : EventPriorityQueue) : EventPriorityQueue := c ++ [ev].

(** The element that is [std::greater] than no other one. *)
Fixpoint top (c : EventPriorityQueue) : option Event :=
  match c with
  | [] => None
  | e :: c' =>
      match top c' with
      | Some m => if ev_gt e m then Some m else Some e
      | None => Some e
      end
  end.

Definition pop (c : EventPriorityQueue) : option EventPriorityQueue :=
  let! m := top c in
  let! (_, rest) := erase_first (fun e => bool_decide (e = m)) c in Some rest.

(** [EventPriorityQueue::remove]: [std::find] with [operator==], [erase], [make_heap]. *)
Definition pq_remove (ev : Event) (c : EventPriorityQueue) : EventPriorityQueue * bool :=
  match erase_first (fun e => ev_eq e ev) c with
  | Some (_, rest) => (rest, true)
  | None => (c, false)
  end.

Definition Insert (ev : Event) (m_queue : EventPriorityQueue) : option EventPriorityQueue :=
  Some (push ev m_queue).
Definition IsEmpty (m_queue : EventPriorityQueue) : bool :=
  match m_queue with [] => true | _ => false end.
Definition PeekNext (m_queue : EventPriorityQueue) : option Event := top m_queue.
Definition RemoveNext (m_queue : EventPriorityQueue) : option (Event * EventPriorityQueue) :=
  let! ev := top m_queue in
  let! q := pop m_queue in Some (ev, q).
(** The result of [remove] is ignored. *)
Definition Remove (ev : Event) (m_queue : EventPriorityQueue) : option EventPriorityQueue :=
  Some (fst (pq_remove ev m_queue)).

#[global] Instance ops : SchedulerOps EventPriorityQueue := {
  CreateScheduler := [];
  Sched.Insert := Insert;
  Sched.IsEmpty := IsEmpty;
  Sched.PeekNext := PeekNext;
  Sched.RemoveNext := RemoveNext;
  Sched.Remove := Remove
}.

Definition rep (s : EventPriorityQueue) (tm : Z) (es : list Event) : Prop :=
  s ≡ₚ es /\ wf_events tm es.

Lemma top_min c : c <> [] -> exists m, top c = Some m /\ is_min m c.
Proof.
  induction c as [|e c IH]; [done|]. intros _. simpl.
  destruct (decide (c = [])) as [->|Hne].
  { simpl. exists e. split; [done|]. by apply is_min_cons_sorted; intros ? ?%elem_of_nil. }
  destruct (IH Hne) as (m&->&Hin&Hm).
  unfold ev_gt. rewrite key_gt_lt. destruct (key_lt (key m) (key e)) eqn:Hlt.
  - exists m. split; [done|]. split; [by right|].
    intros e' [->|He']%elem_of_cons; [|by apply Hm]. apply key_lt_spec in Hlt. key_order.
  - exists e. split; [done|]. split; [by left|]. apply key_lt_false in Hlt.
    intros e' [->|He']%elem_of_cons; [key_order|]. specialize (Hm _ He'). key_order.
Qed.

Lemma pq_is_empty_rep s tm es : rep s tm es -> IsEmpty s = bool_decide (es = []).
Proof.
  intros (Hp&_). destruct s; simpl.
  - apply Permutation_nil_l in Hp as <-. done.
  - rewrite bool_decide_eq_false_2; [done|]. intros ->. by apply Permutation_nil_r in Hp.
Qed.

Lemma pq_next_rep : next_law rep.
Proof.
  intros s tm es (Hp&Hwf) Hne. destruct (top_min s) as (m&Htop&Hmin).
  { intros ->. by apply Permutation_nil_l in Hp. }
  destruct (erase_first_is_Some (fun e => bool_decide (e = m)) s) as [[x r] Hx].
  { exists m. split; [apply Hmin|by apply bool_decide_eq_true]. }
  pose proof (erase_first_Some _ _ _ _ Hx) as (Hxm&Hpr&_).
  apply bool_decide_eq_true in Hxm as ->. rewrite <- Hp in Hwf.
  exists m, r, r. simpl. unfold RemoveNext, PeekNext, pop. rewrite Htop, Hx, <- Hp.
  split_and!; try done. rewrite Hpr in Hwf, Hmin. split; [done|by eapply wf_events_advance].
Qed.

Lemma pq_remove_rep s tm es ev :
  rep s tm es -> ev ∈ es ->
  exists s' es', Remove ev s = Some s' /\ es ≡ₚ ev :: es' /\ rep s' tm es'.
Proof.
  intros (Hp&Hwf) Hev. rewrite <- Hp in Hwf, Hev.
  destruct (ListScheduler.erase_uid s ev) as (r&Hx&Hpr&_); [by destruct Hwf|done|].
  exists r, r. simpl. unfold Remove, pq_remove, ev_eq, key_eq. rewrite Hx. simpl.
  rewrite <- Hp. rewrite Hpr in Hwf.
  split_and!; [done|done|]. split; [done|by eapply wf_events_tail].
Qed.

#[global] Program Instance queue : SchedulerQueue EventPriorityQueue := {
  sch_rep := rep;
  is_empty_ok := pq_is_empty_rep;
  peek_next_ok := next_law_peek rep pq_next_rep;
  remove_next_ok := next_law_remove rep pq_next_rep
}.
Next Obligation. intros s tm es es' Hp [??]. unfold rep. by rewrite <- Hp. Qed.
Next Obligation. by intros s tm es [??]. Qed.
Next Obligation. by intros s tm tm' es _ ? [??]. Qed.
Next Obligation. split; [done|apply wf_events_nil]. Qed.
Next Obligation.
  intros s tm es ev [Hp Hwf] Hins. eexists. split; [done|]. split.
  - unfold push. rewrite Hp. by rewrite Permutation_app_comm.
  - by apply wf_events_insert.
Qed.

#[global] Instance remove : SchedulerRemove EventPriorityQueue := { remove_ok := pq_remove_rep }.
End PriorityQueueScheduler.

(** The schedulers whose state is a list of events are told apart by their type's name. *)
#[global] Typeclasses Opaque ListScheduler.t PriorityQueueScheduler.EventPriorityQueue.
