(* ===== verification/HeapSched.v ===== *)
(** * HeapScheduler: a binary heap in a [std::vector] ([src/core/model/heap-scheduler.cc])

    The operations, loop by loop; the heap order they maintain; the queue part of the scheduler
    contract; and what [Remove] does, which keeps the heap order only when the element it moves
    does not precede its new parent. *)

From S2P Require Import Sched.

(** ** The heap order on an indexed family

    Node [i] has parent [i / 2], the root is node 1.  [g] gives the event at an index below
    [n]. *)
Definition ev_le (a b : Event) : Prop := ~ before b a.

Definition ordered (n : nat) (g : nat -> Event) : Prop :=
  forall i, (2 <= i < n)%nat -> ev_le (g (i / 2)%nat) (g i).

(** Ordered but for the edge above [k], while an event moves up. *)
Definition up_ok (n : nat) (g : nat -> Event) (k : nat) : Prop :=
  (forall i, (2 <= i < n)%nat -> i <> k -> ev_le (g (i / 2)%nat) (g i)) /\
  ((2 <= k)%nat -> forall i, (2 <= i < n)%nat -> (i / 2 = k)%nat -> ev_le (g (k / 2)%nat) (g i)).

(** Ordered but for the edges below [k], while an event moves down. *)
Definition down_ok (n : nat) (g : nat -> Event) (k : nat) : Prop :=
  (forall i, (2 <= i < n)%nat -> (i / 2)%nat <> k -> ev_le (g (i / 2)%nat) (g i)) /\
  ((2 <= k)%nat -> forall i, (2 <= i < n)%nat -> (i / 2 = k)%nat -> ev_le (g (k / 2)%nat) (g i)).

Definition fswap (a b : nat) (g : nat -> Event) (k : nat) : Event :=
  if decide (k = b) then g a else if decide (k = a) then g b else g k.

(** [fswap_cases] reduces swapped lookups; [ev_order] uses the order's transitivity. *)
Ltac fswap_cases :=
  unfold fswap; repeat case_decide; try lia;
  repeat match goal with E : (_ / 2)%nat = _ |- _ => rewrite E in * end.
Ltac ev_order := unfold ev_le in *; key_order.

Lemma up_step n g k :
  (2 <= k < n)%nat -> before (g k) (g (k / 2)%nat) ->
  up_ok n g k -> up_ok n (fswap k (k / 2) g) (k / 2).
Proof.
  intros Hk Hlt [H1 H2]. split.
  - intros i Hi Hne. pose proof (H1 i Hi) as H1i. pose proof (H2 ltac:(lia) i Hi) as H2i.
    fswap_cases; subst; ev_order.
  - intros Hk2 i Hi Hpar. pose proof (H1 (k / 2)%nat ltac:(lia) ltac:(lia)) as H1k.
    pose proof (H1 i Hi) as H1i. fswap_cases; subst; ev_order.
Qed.

Lemma up_done n g k :
  up_ok n g k -> ((2 <= k)%nat -> ev_le (g (k / 2)%nat) (g k)) -> ordered n g.
Proof.
  intros [H1 _] Hk i Hi. destruct (decide (i = k)) as [->|]; [apply Hk; lia|by apply H1].
Qed.

Lemma down_step n g k c :
  (1 <= k)%nat -> (2 <= c < n)%nat -> (c / 2 = k)%nat ->
  (forall i, (2 <= i < n)%nat -> (i / 2 = k)%nat -> ev_le (g c) (g i)) ->
  ev_le (g c) (g k) -> down_ok n g k -> down_ok n (fswap k c g) c.
Proof.
  intros Hk Hc Hck Hmin Hle [H1 H2]. split.
  - intros i Hi Hne. pose proof (H1 i Hi) as H1i. pose proof (Hmin i Hi) as Hmi.
    pose proof (fun h => H2 h c Hc Hck) as H2c. fswap_cases; subst; ev_order.
  - intros Hc2 i Hi Hpar. pose proof (H1 i Hi) as H1i. fswap_cases; subst; ev_order.
Qed.

Lemma down_done n g k :
  down_ok n g k ->
  (forall i, (2 <= i < n)%nat -> (i / 2 = k)%nat -> ev_le (g k) (g i)) -> ordered n g.
Proof.
  intros [H1 _] Hk i Hi. destruct (decide ((i / 2)%nat = k)) as [E|]; [|by apply H1].
  rewrite E. by apply Hk.
Qed.

(** The root of an ordered family precedes every other node. *)
Lemma ordered_root n g i : ordered n g -> (1 <= i < n)%nat -> ev_le (g 1%nat) (g i).
Proof.
  intros Ho. induction (lt_wf i) as [i _ IH]. intros Hi.
  destruct (decide (i = 1%nat)) as [->|]; [ev_order|].
  pose proof (Ho i ltac:(lia)). pose proof (IH (i / 2)%nat ltac:(lia) ltac:(lia)). ev_order.
Qed.

Module HeapScheduler.
(** ** The class *)

(** [BinaryHeap m_heap]; entry 0 is wasted so that the root has index 1. *)
Definition BinaryHeap : Type := list Event.

Definition empty_event : Event := mkEvent 0 (mkKey 0 0 0).
Definition create : list Event := [empty_event].

Definition Parent (id : nat) : nat := id / 2.
Definition Sibling (id : nat) : nat := id + 1.
Definition LeftChild (id : nat) : nat := id * 2.
Definition RightChild (id : nat) : nat := id * 2 + 1.
Definition Root : nat := 1.
Definition IsRoot (id : nat) : bool := (id =? Root)%nat.
Definition Last (m_heap : list Event) : nat := length m_heap - 1.
Definition IsBottom (id : nat) (m_heap : list Event) : bool := (length m_heap <=? id)%nat.

(** [Exch] swaps two entries; an index out of range fails its assertion. *)
Definition Exch (a b : nat) (m_heap : list Event) : option (list Event) :=
  let! x := m_heap !! a in
  let! y := m_heap !! b in Some (<[b := x]> (<[a := y]> m_heap)).

(** [m_heap[i]]; every caller below passes an index in range. *)
Definition entry (m_heap : list Event) (i : nat) : Event := default empty_event (m_heap !! i).

Definition IsLessStrictly (a b : nat) (m_heap : list Event) : bool :=
  ev_lt (entry m_heap a) (entry m_heap b).
Definition Smallest (a b : nat) (m_heap : list Event) : nat :=
  if IsLessStrictly a b m_heap then a else b.
Definition IsEmpty (m_heap : list Event) : bool := (length m_heap =? 1)%nat.

(** The loop of [BottomUp]; [fuel] bounds its iterations, the index halves at each one. *)
Fixpoint BottomUp_loop (fuel index : nat) (m_heap : list Event) : option (list Event) :=
  if negb (IsRoot index) && IsLessStrictly index (Parent index) m_heap then
    match fuel with
    | O => None
    | S fuel =>
        let! h := Exch index (Parent index) m_heap in BottomUp_loop fuel (Parent index) h
    end
  else Some m_heap.

Definition BottomUp (m_heap : list Event) : option (list Event) :=
  BottomUp_loop (length m_heap) (Last m_heap) m_heap.

(** [TopDown]: the loop over nodes with two children, then the node with at most one. *)
Fixpoint TopDown_loop (fuel index : nat) (m_heap : list Event) : option (list Event) :=
  if negb (IsBottom (RightChild index) m_heap) then
    let tmp := Smallest (LeftChild index) (RightChild index) m_heap in
    if IsLessStrictly index tmp m_heap then Some m_heap
    else match fuel with
         | O => None
         | S fuel => let! h := Exch index tmp m_heap in TopDown_loop fuel tmp h
         end
  else if IsBottom index m_heap then Some m_heap
  else if IsBottom (LeftChild index) m_heap then Some m_heap
  else if IsLessStrictly index (LeftChild index) m_heap then Some m_heap
  else Exch index (LeftChild index) m_heap.

Definition TopDown (start : nat) (m_heap : list Event) : option (list Event) :=
  TopDown_loop (length m_heap) start m_heap.

(** [std::vector::pop_back] *)
Definition pop_back (m_heap : list Event) : list Event := take (length m_heap - 1) m_heap.

Definition Insert (ev : Event) (m_heap : list Event) : option (list Event) :=
  BottomUp (m_heap ++ [ev]).

Definition PeekNext (m_heap : list Event) : option Event := m_heap !! Root.

Definition RemoveNext (m_heap : list Event) : option (Event * list Event) :=
  let! next := m_heap !! Root in
  let! h := Exch Root (Last m_heap) m_heap in
  let! h' := TopDown Root (pop_back h) in Some (next, h').

(** The loop of [Remove] over the indices from 1. *)
Fixpoint find_uid (u : Z) (l : list Event) (i : nat) : option nat :=
  match l with
  | [] => None
  | e :: l' => if u =? uid e then Some i else find_uid u l' (S i)
  end.

Definition Remove (ev : Event) (m_heap : list Event) : option (list Event) :=
  let! i := find_uid (uid ev) (tail m_heap) 1 in
  ASSERT impl (entry m_heap i) =? impl ev ;;
  let! h := Exch i (Last m_heap) m_heap in
  TopDown i (pop_back h).

#[global] Instance ops : SchedulerOps BinaryHeap := {
  CreateScheduler := create;
  Sched.Insert := Insert;
  Sched.IsEmpty := IsEmpty;
  Sched.PeekNext := PeekNext;
  Sched.RemoveNext := RemoveNext;
  Sched.Remove := Remove
}.

(** ** Exchanges *)

Lemma Exch_Some a b h :
  (a < length h)%nat -> (b < length h)%nat ->
  exists h', Exch a b h = Some h' /\ length h' = length h /\ h' ≡ₚ h /\
             forall k, entry h' k = fswap a b (entry h) k.
Proof.
  intros Ha Hb. unfold Exch, entry.
  destruct (lookup_lt_is_Some_2 h a Ha) as [x Hx], (lookup_lt_is_Some_2 h b Hb) as [y Hy].
  rewrite Hx, Hy. eexists; split_and!; [done|by rewrite !length_insert| |].
  - symmetry. apply Permutation_inj. split; [by rewrite !length_insert|].
    exists (fun k => if decide (k = b) then a else if decide (k = a) then b else k). split.
    + intros i j. repeat case_decide; congruence.
    + intros i. rewrite !list_lookup_insert, length_insert. 
      repeat case_decide; naive_solver.
  - intros k. unfold fswap. rewrite !list_lookup_insert, length_insert, Hx, Hy.
    repeat case_decide; naive_solver.
Qed.

(** Two vectors with the same events and the same wasted entry. *)
Definition same_events (h h' : list Event) : Prop :=
  length h' = length h /\ h' ≡ₚ h /\ entry h' 0 = entry h 0.

#[export] Instance same_events_trans : Transitive same_events.
Proof. intros h1 h2 h3 (?&?&?) (?&?&?). split_and!; [congruence|by etrans|congruence]. Qed.

Lemma same_events_tail h h' : same_events h h' -> tail h' ≡ₚ tail h.
Proof.
  intros (Hl&Hp&H0). destruct h as [|d h], h' as [|d' h']; try done.
  unfold entry in H0. simpl in *. subst. by apply Permutation_cons_inv in Hp.
Qed.

Lemma Exch_same a b h :
  (1 <= a < length h)%nat -> (1 <= b < length h)%nat ->
  exists h', Exch a b h = Some h' /\ same_events h h' /\
             (forall k, entry h' k = fswap a b (entry h) k).
Proof.
  intros Ha Hb. destruct (Exch_Some a b h) as (h'&HE&Hlen&Hp&Hf); [lia..|].
  exists h'. split_and!; [done| |done]. split_and!; [done|done|].
  rewrite Hf. unfold fswap. repeat case_decide; lia || done.
Qed.

Lemma ordered_ext n g g' : (forall k, g' k = g k) -> ordered n g -> ordered n g'.
Proof. intros Hg Ho i Hi. rewrite !Hg. by apply Ho. Qed.

Lemma up_ok_ext n g g' k : (forall k, g' k = g k) -> up_ok n g k -> up_ok n g' k.
Proof. intros Hg [H1 H2]. split; [intros i ??|intros ? i ??]; rewrite !Hg; eauto. Qed.

Lemma down_ok_ext n g g' k : (forall k, g' k = g k) -> down_ok n g k -> down_ok n g' k.
Proof. intros Hg [H1 H2]. split; [intros i ??|intros ? i ??]; rewrite !Hg; eauto. Qed.

Lemma BottomUp_loop_ok fuel index h :
  (index <= fuel)%nat -> (1 <= index < length h)%nat ->
  up_ok (length h) (entry h) index ->
  exists h', BottomUp_loop fuel index h = Some h' /\ same_events h h' /\
             ordered (length h') (entry h').
Proof.
  revert index h. induction fuel as [|fuel IH]; intros k h Hfuel Hk Hup; [lia|].
  simpl. unfold IsLessStrictly, IsRoot, Root, Parent.
  destruct (negb (k =? 1)%nat && ev_lt (entry h k) (entry h (k / 2))) eqn:Hc.
  - norm_bool. rename H into Hr, H0 into Hlt. apply Nat.eqb_neq in Hr.
    destruct (Exch_same k (k / 2) h) as (h'&->&Hs&Hf); [lia..|].
    pose proof Hs as (Hlen&_&_). apply ev_lt_spec in Hlt.
    destruct (IH (k / 2)%nat h') as (h''&->&Hs'&Ho).
    + lia.
    + lia.
    + rewrite Hlen. eapply up_ok_ext; [done|]. apply up_step; [lia|done|done].
    + exists h''. split_and!; [done|by etrans|done].
  - exists h. split_and!; [done|done|]. eapply up_done; [done|]. intros Hk2.
    norm_bool. destruct Hc as [Hc|Hc]; norm_bool.
    + apply Nat.eqb_eq in Hc. lia.
    + by apply ev_lt_false in Hc.
Qed.

Lemma Smallest_le h k :
  let c := Smallest (LeftChild k) (RightChild k) h in
  (c = k * 2 \/ c = k * 2 + 1)%nat /\
  ev_le (entry h c) (entry h (k * 2)%nat) /\ ev_le (entry h c) (entry h (k * 2 + 1)%nat).
Proof.
  unfold Smallest, IsLessStrictly, LeftChild, RightChild.
  destruct (ev_lt _ _) eqn:Hlt; [apply ev_lt_spec in Hlt|apply ev_lt_false in Hlt];
    (split; [by auto|]); ev_order.
Qed.

Lemma TopDown_loop_ok fuel index h :
  (length h <= fuel + index)%nat -> (1 <= index)%nat ->
  exists h', TopDown_loop fuel index h = Some h' /\ same_events h h' /\
             (down_ok (length h) (entry h) index -> ordered (length h') (entry h')).
Proof.
  revert index h. induction fuel as [|fuel IH]; intros k h Hfuel Hk.
  { simpl. unfold IsBottom, RightChild. rewrite !(proj2 (Nat.leb_le _ _)) by lia. simpl.
    exists h. split_and!; [done|done|]. intros Hd. eapply down_done; [done|]. intros; lia. }
  simpl. unfold IsBottom, RightChild at 1.
  destruct (Nat.leb_spec (length h) (k * 2 + 1)) as [Hr|Hr]; simpl.
  - destruct (Nat.leb_spec (length h) k) as [|Hk2].
    { exists h. split_and!; [done|done|]. intros Hd. eapply down_done; [done|]. intros; lia. }
    unfold LeftChild. destruct (Nat.leb_spec (length h) (k * 2)) as [|Hl].
    { exists h. split_and!; [done|done|]. intros Hd. eapply down_done; [done|]. intros; lia. }
    unfold IsLessStrictly. destruct (ev_lt _ _) eqn:Hlt.
    + exists h. split_and!; [done|done|]. intros Hd. eapply down_done; [done|].
      intros i Hi Hik. replace i with (k * 2)%nat by lia. apply ev_lt_spec in Hlt. ev_order.
    + apply ev_lt_false in Hlt.
      destruct (Exch_same k (k * 2) h) as (h'&->&Hs&Hf); [lia..|].
      exists h'. split_and!; [done|done|]. intros Hd. destruct Hs as (Hlen&_).
      rewrite Hlen. eapply ordered_ext; [done|].
      eapply (down_done _ _ (k * 2)%nat); [|intros; lia].
      apply down_step; [lia|lia|lia| |done|done].
      intros i Hi Hik. replace i with (k * 2)%nat by lia. ev_order.
  - destruct (Smallest_le h k) as (Hc&Hcl&Hcr). set (c := Smallest _ _ _) in *.
    unfold IsLessStrictly. destruct (ev_lt _ _) eqn:Hlt.
    + exists h. split_and!; [done|done|]. intros Hd. eapply down_done; [done|].
      intros i Hi Hik. apply ev_lt_spec in Hlt.
      assert (i = k * 2 \/ i = k * 2 + 1)%nat as [->| ->] by lia; ev_order.
    + apply ev_lt_false in Hlt.
      destruct (Exch_same k c h) as (h'&->&Hs&Hf); [lia..|]. pose proof Hs as (Hlen&_).
      destruct (IH c h') as (h''&->&Hs'&Ho); [lia..|].
      exists h''. split_and!; [done|by etrans|]. intros Hd. apply Ho. rewrite Hlen.
      eapply down_ok_ext; [done|]. apply down_step; [lia|lia|lia| |done|done].
      intros i Hi Hik. assert (i = k * 2 \/ i = k * 2 + 1)%nat as [->| ->] by lia; done.
Qed.

(** ** The representation *)

(** [m_heap] is never empty, its entries from 1 on are the events, in heap order. *)
Definition rep (h : list Event) (tm : Z) (es : list Event) : Prop :=
  h <> [] /\ tail h ≡ₚ es /\ ordered (length h) (entry h) /\ wf_events tm es.

Lemma elem_of_tail (h : list Event) x :
  x ∈ tail h -> exists i, (1 <= i < length h)%nat /\ h !! i = Some x.
Proof.
  destruct h as [|d h]; simpl; [by intros ?%elem_of_nil|].
  intros (i&Hi)%list_elem_of_lookup. exists (S i).
  pose proof (lookup_lt_Some _ _ _ Hi). split; [lia|done].
Qed.

Lemma entry_Some (h : list Event) i x : h !! i = Some x -> entry h i = x.
Proof. unfold entry. by intros ->. Qed.

Lemma entry_app_l h k i : (i < length h)%nat -> entry (h ++ k) i = entry h i.
Proof. intros. unfold entry. by rewrite lookup_app_l. Qed.

Lemma root_is_min h tm es :
  rep h tm es -> es <> [] -> h !! 1%nat = Some (entry h 1) /\ is_min (entry h 1) es.
Proof.
  intros (Hne&Hp&Ho&Hwf) Hes. destruct h as [|d [|r h]]; [done| |].
  { by apply Permutation_nil_l in Hp. }
  split; [done|]. rewrite <- Hp. split; [by left|].
  intros e' He'. apply (elem_of_tail (d :: r :: h)) in He' as (i&Hi&Hx).
  rewrite <- (entry_Some _ _ _ Hx). by apply (ordered_root (length (d :: r :: h))).
Qed.

Lemma heap_insert_rep h tm es ev :
  rep h tm es -> insertable tm es ev ->
  exists h', Insert ev h = Some h' /\ rep h' tm (ev :: es).
Proof.
  intros (Hne&Hp&Ho&Hwf) Hins.
  assert (1 <= length h)%nat as Hlen by (destruct h; [done|simpl; lia]).
  destruct (BottomUp_loop_ok (length (h ++ [ev])) (Last (h ++ [ev])) (h ++ [ev]))
    as (h'&HB&Hs&Ho').
  - unfold Last. rewrite length_app. simpl. lia.
  - unfold Last. rewrite length_app. simpl. lia.
  - unfold Last. rewrite length_app. simpl. split; [|intros; lia].
    intros i Hi Hil. rewrite !entry_app_l by lia. apply Ho. lia.
  - exists h'. split; [done|]. pose proof Hs as (Hl&_). rewrite length_app in Hl. simpl in Hl.
    split_and!; [by intros ->; simpl in Hl; lia| |done|by apply wf_events_insert].
    rewrite (same_events_tail _ _ Hs). destruct h; [done|]. simpl in *.
    by rewrite Hp, Permutation_app_comm.
Qed.

Lemma pop_back_app (h : list Event) x : pop_back (h ++ [x]) = h.
Proof.
  unfold pop_back. rewrite length_app. simpl. rewrite take_app_le by lia.
  apply take_ge. lia.
Qed.

(** The first two statements of [RemoveNext] and [Remove]: the last event replaces the one at
    [i], which leaves. *)
Lemma hole_ok i h :
  (1 <= i < length h)%nat ->
  exists h1, Exch i (Last h) h = Some h1 /\ length (pop_back h1) = (length h - 1)%nat /\
    tail h ≡ₚ entry h i :: tail (pop_back h1) /\
    forall k, (k < length h - 1)%nat ->
      entry (pop_back h1) k = if decide (k = i) then entry h (Last h) else entry h k.
Proof.
  intros Hi. destruct (Exch_same i (Last h) h) as (h1&HE&Hs&Hf); [unfold Last; lia..|].
  pose proof Hs as (Hlen&_). exists h1. split; [done|].
  destruct h1 as [|x h2 _] using rev_ind; [simpl in Hlen; lia|].
  rewrite pop_back_app. rewrite length_app in Hlen. simpl in Hlen.
  assert (x = entry h i) as ->.
  { specialize (Hf (Last h)). unfold fswap in Hf. rewrite decide_True in Hf by done.
    rewrite <- Hf. symmetry. apply entry_Some. unfold Last.
    rewrite lookup_app_r by lia. by replace (_ - _)%nat with 0%nat by lia. }
  split_and!; [lia| |].
  - rewrite <- (same_events_tail _ _ Hs). destruct h2; [simpl in *; lia|]. simpl.
    by rewrite Permutation_app_comm.
  - intros k Hk. rewrite <- (entry_app_l h2 [entry h i]) by lia. rewrite Hf.
    unfold fswap, Last. repeat case_decide; lia || done.
Qed.

Lemma hole_down_ok i h h2 :
  (1 <= i < length h)%nat -> ordered (length h) (entry h) ->
  (forall k, (k < length h - 1)%nat ->
     entry h2 k = if decide (k = i) then entry h (Last h) else entry h k) ->
  i = 1%nat \/ i = Last h \/ ev_le (entry h (i / 2)) (entry h (Last h)) ->
  down_ok (length h - 1) (entry h2) i.
Proof.
  intros Hi Ho Hf Hc. split.
  - intros j Hj Hji. rewrite !Hf by lia. pose proof (Ho j). unfold Last in *.
    repeat case_decide; try lia; subst; [|ev_order..].
    destruct Hc as [|[|]]; [lia|lia|done].
  - intros Hi2 j Hj Hji. rewrite !Hf by lia. pose proof (Ho j) as H1. pose proof (Ho i) as H2.
    rewrite Hji in H1. repeat case_decide; try lia. ev_order.
Qed.

Lemma heap_next_rep : next_law rep.
Proof.
  intros h tm es Hr Hne. destruct (root_is_min _ _ _ Hr Hne) as [Hroot Hmin].
  pose proof (lookup_lt_Some _ _ _ Hroot) as Hlen. destruct Hr as (Hnil&Hp&Ho&Hwf).
  destruct (hole_ok 1 h) as (h1&HE&Hl1&Hp1&Hf1); [lia|].
  destruct (TopDown_loop_ok (length (pop_back h1)) 1 (pop_back h1)) as (h'&HT&Hs&Ho'); [lia..|].
  exists (entry h 1), h', (tail (pop_back h1)).
  assert (es ≡ₚ entry h 1 :: tail (pop_back h1)) as Hes by by rewrite <- Hp.
  simpl. unfold PeekNext, RemoveNext, Root, TopDown. rewrite Hroot, HE, HT.
  split_and!; try done. pose proof Hs as (Hl'&_). split_and!.
  - intros ->. simpl in Hl'. lia.
  - by apply same_events_tail.
  - apply Ho'. rewrite Hl1. eapply hole_down_ok; [lia|done|done|by left].
  - rewrite Hes in Hwf, Hmin. by eapply wf_events_advance.
Qed.

Lemma heap_is_empty_rep h tm es : rep h tm es -> IsEmpty h = bool_decide (es = []).
Proof.
  intros (Hne&Hp&_). unfold IsEmpty. destruct h as [|d [|e h]]; [done| |]; simpl in *.
  - by apply Permutation_nil_l in Hp as <-.
  - rewrite bool_decide_eq_false_2; [done|]. intros ->. by apply Permutation_nil_r in Hp.
Qed.

#[global] Program Instance queue : SchedulerQueue BinaryHeap := {
  sch_rep := rep;
  insert_ok := heap_insert_rep;
  is_empty_ok := heap_is_empty_rep;
  peek_next_ok := next_law_peek rep heap_next_rep;
  remove_next_ok := next_law_remove rep heap_next_rep
}.
Next Obligation. intros h tm es es' Hp (?&?&?&?). unfold rep. by rewrite <- Hp. Qed.
Next Obligation. by intros h tm es (?&?&?&?). Qed.
Next Obligation. by intros h tm tm' es _ ? (?&?&?&?). Qed.
Next Obligation. split_and!; [done|done|intros i; simpl; lia|apply wf_events_nil]. Qed.

(** ** [Remove] *)

Lemma find_uid_Some u l i :
  (exists e, e ∈ l /\ uid e = u) ->
  exists j x, find_uid u l i = Some (i + j)%nat /\ l !! j = Some x /\ uid x = u.
Proof.
  revert i. induction l as [|e l IH]; intros i (x&Hx&Hu); [by apply elem_of_nil in Hx|].
  simpl. destruct (Z.eqb_spec u (uid e)) as [->|Hne].
  - exists 0%nat, e. by rewrite Nat.add_0_r.
  - apply elem_of_cons in Hx as [->|Hx]; [congruence|].
    destruct (IH (S i)) as (j&y&->&?&?); [by exists x|]. exists (S j), y.
    by rewrite Nat.add_succ_r.
Qed.

(** [Remove] finds the event, drops it and keeps the others, in a vector that may have lost
    the heap order. *)
Lemma remove_events h tm es ev :
  rep h tm es -> ev ∈ es ->
  exists i h1 h', (1 <= i < length h)%nat /\ h !! i = Some ev /\
    Exch i (Last h) h = Some h1 /\ TopDown i (pop_back h1) = Some h' /\
    Remove ev h = Some h' /\ es ≡ₚ ev :: tail h'.
Proof.
  intros (Hnil&Hp&Ho&Hwf) Hev. rewrite <- Hp in Hev.
  destruct h as [|d h]; [done|]. simpl in Hp, Hev.
  destruct (find_uid_Some (uid ev) h 1) as (j&x&Hfind&Hj&Hx); [eauto|].
  pose proof (lookup_lt_Some _ _ _ Hj) as Hjl. assert (x = ev) as ->.
  { destruct Hwf as [Hu _]. rewrite <- Hp in Hu. eapply unique_uids_inj; eauto.
    by eapply list_elem_of_lookup_2. }
  destruct (hole_ok (S j) (d :: h)) as (h1&HE&Hl1&Hp1&Hf1); [simpl; lia|].
  destruct (TopDown_loop_ok (length (pop_back h1)) (S j) (pop_back h1))
    as (h'&HT&Hs&_); [lia..|].
  exists (S j), h1, h'. split_and!; [simpl; lia|simpl; lia|done|done|done| |].
  - unfold Remove. simpl tail. rewrite Hfind. simpl Nat.add.
    rewrite (entry_Some (d :: h) (S j) ev) by done. rewrite Z.eqb_refl, HE. done.
  - rewrite (same_events_tail _ _ Hs), <- Hp. simpl in Hp1. rewrite Hp1.
    by rewrite (entry_Some (d :: h) (S j) ev).
Qed.

(** When the last event precedes the parent of the hole it is put in, [TopDown] returns at once
    and the edge above the hole is out of order. *)
Lemma topdown_stuck i h h2 h' fuel :
  (2 <= i < length h - 1)%nat -> ordered (length h) (entry h) ->
  length h2 = (length h - 1)%nat ->
  (forall k, (k < length h - 1)%nat ->
     entry h2 k = if decide (k = i) then entry h (Last h) else entry h k) ->
  before (entry h (Last h)) (entry h (i / 2)) ->
  TopDown_loop fuel i h2 = Some h' -> h' = h2.
Proof.
  intros Hi Ho Hl2 Hf Hlt HT.
  assert (forall j, (j < length h - 1)%nat -> (j / 2 = i)%nat ->
    ev_lt (entry h2 i) (entry h2 j) = true) as Hless.
  { intros j Hj Hji. apply ev_lt_spec. rewrite !Hf by lia.
    pose proof (Ho i). pose proof (Ho j ltac:(lia)) as Hoj. rewrite Hji in Hoj.
    repeat case_decide; try lia. ev_order. }
  assert (forall r, match fuel with O => None | S _ => r end = Some h' -> r = Some h')
    as Hfuel by (by destruct fuel).
  destruct fuel; simpl in HT; unfold IsBottom, RightChild, LeftChild, IsLessStrictly in HT;
    rewrite Hl2 in HT; destruct (Nat.leb_spec (length h - 1) (i * 2 + 1)); simpl in HT;
    destruct (Nat.leb_spec (length h - 1) i); simpl in HT; try lia;
    try (destruct (Nat.leb_spec (length h - 1) (i * 2)); simpl in HT; [by simplify_eq|]);
    try (rewrite Hless in HT by lia; by simplify_eq);
    destruct (Smallest_le h2 i) as (Hc&_); unfold LeftChild, RightChild in Hc;
    rewrite Hless in HT by lia; by simplify_eq.
Qed.

(** C13: HeapScheduler::Remove always drops exactly the event it is given, but the vector it
    leaves is in heap order if and only if the last event, which takes the place of the removed
    one, does not precede the parent of that place: the code calls TopDown only, where the moved
    event may also have to go up. *)
Theorem heap_remove_order_iff h tm es ev :
  rep h tm es -> ev ∈ es ->
  exists i h', (1 <= i < length h)%nat /\ h !! i = Some ev /\ Remove ev h = Some h' /\
    es ≡ₚ ev :: tail h' /\
    (ordered (length h') (entry h') <->
     i = 1%nat \/ i = Last h \/ ev_le (entry h (i / 2)) (entry h (Last h))).
Proof.
  intros Hr Hev. destruct (remove_events _ _ _ _ Hr Hev) as (i&h1&h'&Hi&Hx&HE&HT&HR&Hp).
  exists i, h'. do 4 (split; [done|]). destruct Hr as (Hnil&_&Ho&_).
  destruct (hole_ok i h Hi) as (h1'&HE'&Hl1&_&Hf1). rewrite HE in HE'. injection HE' as <-.
  destruct (TopDown_loop_ok (length (pop_back h1)) i (pop_back h1)) as (h''&HT'&Hs&Ho'); [lia..|].
  unfold TopDown in HT. rewrite HT in HT'. injection HT' as <-. split.
  - intros Hord. destruct (decide (i = 1%nat)); [by left|].
    destruct (decide (i = Last h)); [by right; left|]. right; right.
    intros Hlt. pose proof HT as HT2. apply (topdown_stuck i h) in HT2; try done; unfold Last in *; [|lia].
    subst h'. specialize (Hord i). rewrite Hl1, !Hf1 in Hord by lia.
    specialize (Hord ltac:(lia)). repeat case_decide; try lia. done.
  - intros Hc. apply Ho'. rewrite Hl1. by eapply hole_down_ok.
Qed.

Lemma heap_remove_order_iff_witness :
  exists i h', (1 <= i < 3)%nat /\
    [empty_event; mkEvent 1 (mkKey 1 4 0); mkEvent 2 (mkKey 2 5 0)] !! i =
      Some (mkEvent 1 (mkKey 1 4 0)) /\
    Remove (mkEvent 1 (mkKey 1 4 0))
      [empty_event; mkEvent 1 (mkKey 1 4 0); mkEvent 2 (mkKey 2 5 0)] = Some h' /\
    [mkEvent 1 (mkKey 1 4 0); mkEvent 2 (mkKey 2 5 0)] ≡ₚ mkEvent 1 (mkKey 1 4 0) :: tail h' /\
    (ordered (length h') (entry h') <->
     i = 1%nat \/ i = 2%nat \/
     ev_le (entry [empty_event; mkEvent 1 (mkKey 1 4 0); mkEvent 2 (mkKey 2 5 0)] (i / 2))
       (mkEvent 2 (mkKey 2 5 0))).
Proof.
  destruct (fill_ok [mkEvent 2 (mkKey 2 5 0); mkEvent 1 (mkKey 1 4 0)] CreateScheduler 0 [])
    as (s&E&Hs); [apply create_ok| |].
  { split; [vm_compute; repeat constructor; set_solver|].
    intros e He. set_unfold. unfold MAX_TS, UINT32_MAX.
    destruct He as [->|[->|[]]]; simpl; lia. }
  vm_compute in E. injection E as <-.
  eapply sch_rep_perm in Hs; [|apply Permutation_swap].
  exact (heap_remove_order_iff _ _ _ (mkEvent 1 (mkKey 1 4 0)) Hs ltac:(left)).
Defined.

(** Seven events, inserted in the order of the list. *)
Definition seven_events : list Event :=
  imap (fun i t => mkEvent (Z.of_nat i + 1) (mkKey t (Z.of_nat i + 4) 0)) [1; 4; 7; 6; 5; 2; 3].

(** After the removal of the event at time 6, the scheduler returns the event at time 4 before the
    one at time 3: the clock of the simulator would go back. *)
Theorem heap_remove_misorders :
  exists s s' l,
    fill seven_events CreateScheduler = Some s /\
    Remove (mkEvent 4 (mkKey 6 7 0)) s = Some s' /\
    drain 6 s' = Some l /\ (fun e => ts e) <$> l = [1; 2; 4; 3; 5; 7].
Proof.
  eexists _, _, _. split; [vm_compute; reflexivity|]. split; [vm_compute; reflexivity|].
  split; [vm_compute; reflexivity|]. reflexivity.
Qed.
End HeapScheduler.
