(* ===== verification/CalendarSched.v ===== *)
(** * CalendarScheduler ([src/core/model/calendar-scheduler.cc])

    A calendar queue: an array of buckets, one per "day" of a year of [m_nBuckets] days of
    [m_width] time steps; [m_lastBucket], [m_bucketTop] and [m_lastPrio] point at the day of the
    last event removed.  All arithmetic is on [uint32_t] and [uint64_t] as in the code. *)

From S2P Require Import Sched.

(** Division is by members of the record here: [lia] keeps quotients as atoms. *)
#[local] Ltac Zify.zify_convert_to_euclidean_division_equations_flag ::= constr:(false).

Module CalendarScheduler.

(** The members of the class; [m_reverse] selects the order inside buckets. *)
Record Calendar := mkCalendar {
  m_buckets : list (list Event);
  m_nBuckets : Z;
  m_width : Z;
  m_lastBucket : Z;
  m_bucketTop : Z;
  m_lastPrio : Z;
  m_qSize : Z;
  m_reverse : bool
}.

(** The three function members [SetReverse] installs. *)
Definition NextEvent (reverse : bool) (bucket : list Event) : option Event :=
  if reverse then last bucket else head bucket.
Definition Order (reverse : bool) (a b : EventKey) : bool :=
  if reverse then key_gt a b else key_lt a b.
Definition Pop (reverse : bool) (bucket : list Event) : list Event :=
  if reverse then take (length bucket - 1) bucket else tail bucket.

Definition SetReverse (reverse : bool) (c : Calendar) : Calendar :=
  mkCalendar (m_buckets c) (m_nBuckets c) (m_width c) (m_lastBucket c) (m_bucketTop c)
             (m_lastPrio c) (m_qSize c) reverse.

Definition set_buckets (bs : list (list Event)) (c : Calendar) : Calendar :=
  mkCalendar bs (m_nBuckets c) (m_width c) (m_lastBucket c) (m_bucketTop c)
             (m_lastPrio c) (m_qSize c) (m_reverse c).
Definition set_last (lastBucket bucketTop lastPrio : Z) (c : Calendar) : Calendar :=
  mkCalendar (m_buckets c) (m_nBuckets c) (m_width c) lastBucket bucketTop
             lastPrio (m_qSize c) (m_reverse c).
Definition set_qSize (n : Z) (c : Calendar) : Calendar :=
  mkCalendar (m_buckets c) (m_nBuckets c) (m_width c) (m_lastBucket c) (m_bucketTop c)
             (m_lastPrio c) n (m_reverse c).

(** [Hash]: [(ts / m_width) % m_nBuckets] as a [uint32_t]. *)
Definition hash_of (width nBuckets ts : Z) : Z := u32 ((ts / width) mod nBuckets).
Definition Hash (ts : Z) (c : Calendar) : Z := hash_of (m_width c) (m_nBuckets c) ts.

(** [Init]: fresh empty buckets. *)
Definition Init (nBuckets width startPrio : Z) (c : Calendar) : Calendar :=
  mkCalendar (replicate (Z.to_nat nBuckets) []) nBuckets width
             (hash_of width nBuckets startPrio) (u64 (u64 (startPrio / width + 1) * width))
             startPrio (m_qSize c) (m_reverse c).

(** The constructor, followed by the setting of attribute [Reverse]. *)
Definition create (reverse : bool) : Calendar :=
  SetReverse reverse
    (set_qSize 0 (Init 2 1 0 (mkCalendar [] 0 0 0 0 0 0 false))).

(** [m_buckets[i]]: out of range is undefined. *)
Definition bucket_at (i : Z) (c : Calendar) : option (list Event) := m_buckets c !! Z.to_nat i.
Definition put_bucket (i : Z) (b : list Event) (c : Calendar) : Calendar :=
  set_buckets (<[Z.to_nat i := b]> (m_buckets c)) c.

Definition DoInsert (ev : Event) (c : Calendar) : option Calendar :=
  let bucket := Hash (ts ev) c in
  let! b := bucket_at bucket c in
  Some (put_bucket bucket (insert_sorted (Order (m_reverse c)) ev b) c).

Fixpoint DoInsert_all (evs : list Event) (c : Calendar) : option Calendar :=
  match evs with
  | [] => Some c
  | e :: evs => let! c' := DoInsert e c in DoInsert_all evs c'
  end.

Definition IsEmpty (c : Calendar) : bool := m_qSize c =? 0.

(** The do-while loop of [PeekNext] and [DoRemoveNext]: visit the buckets from [m_lastBucket] on
    and stop at a head event inside the current day of its bucket; [upd] is what the two methods
    do with a head event of a later year.  [fuel] bounds the iterations after the first. *)
Inductive scan_result (A : Type) : Type :=
  | Found (i : Z) (next : Event) (bucketTop : Z)
  | Nothing (acc : A).
Arguments Found {A}.
Arguments Nothing {A}.

Section scan.
Context {A : Type} (upd : Z -> Event -> A -> A) (c : Calendar).

Fixpoint scan (fuel : nat) (i bucketTop : Z) (acc : A) : option (scan_result A) :=
  let! b := bucket_at i c in
  let advance (acc : A) :=
    let i' := u32 (i + 1) mod m_nBuckets c in
    let bucketTop' := u64 (bucketTop + m_width c) in
    if i' =? m_lastBucket c then Some (Nothing acc)
    else match fuel with
         | O => None
         | S fuel => scan fuel i' bucketTop' acc
         end in
  match NextEvent (m_reverse c) b with
  | Some next =>
      if ts next <? bucketTop then Some (Found i next bucketTop) else advance (upd i next acc)
  | None => advance acc
  end.
End scan.

(** [PeekNext] keeps the least event seen. *)
Definition peek_upd (i : Z) (next minEvent : Event) : Event :=
  if key_lt (key next) (key minEvent) then next else minEvent.

Definition PeekNext (c : Calendar) : option Event :=
  ASSERT negb (IsEmpty c) ;;
  let minEvent := mkEvent 0 (mkKey UINT64_MAX UINT32_MAX 0) in
  let! r := scan peek_upd c (Z.to_nat (m_nBuckets c)) (m_lastBucket c) (m_bucketTop c) minEvent in
  match r with Found _ next _ => Some next | Nothing m => Some m end.

(** [DoRemoveNext] keeps the least key seen and its bucket, initially [-1]. *)
Definition remove_upd (i : Z) (next : Event) (m : EventKey * Z) : EventKey * Z :=
  if key_lt (key next) (fst m) then (key next, i) else m.

Definition DoRemoveNext (c : Calendar) : option (Event * Calendar) :=
  ASSERT negb (IsEmpty c) ;;
  let minKey := mkKey UINT64_MAX 0 4294967295 in
  let! r := scan remove_upd c (Z.to_nat (m_nBuckets c)) (m_lastBucket c) (m_bucketTop c)
                 (minKey, -1) in
  match r with
  | Found i next bucketTop =>
      let c1 := set_last i bucketTop (ts next) c in
      let! b := bucket_at i c1 in
      Some (next, put_bucket i (Pop (m_reverse c) b) c1)
  | Nothing (minKey, minBucket) =>
      let c1 := set_last (Hash (m_ts minKey) c)
                  (u64 (u64 (m_ts minKey / m_width c + 1) * m_width c)) (m_ts minKey) c in
      ASSERT 0 <=? minBucket ;;
      let! b := bucket_at minBucket c1 in
      let! next := NextEvent (m_reverse c) b in
      Some (next, put_bucket minBucket (Pop (m_reverse c) b) c1)
  end.

Fixpoint DoRemoveNext_n (n : nat) (c : Calendar) : option (list Event * Calendar) :=
  match n with
  | O => Some ([], c)
  | S n =>
      let! (e, c1) := DoRemoveNext c in
      let! (l, c2) := DoRemoveNext_n n c1 in Some (e :: l, c2)
  end.

(** The two averaging loops of [CalculateNewWidth], over consecutive samples; [limit] is the
    cut-off of the second one. *)
Fixpoint separation (limit : option Z) (samples : list Event) (total : Z) : Z :=
  match samples with
  | cur :: (next :: _) as rest =>
      let diff := u64 (ts next - ts cur) in
      separation limit rest
        (match limit with
         | Some twiceAvg => if diff <=? twiceAvg then u64 (total + diff) else total
         | None => u64 (total + diff)
         end)
  | _ => total
  end.

Definition nSamples_of (qSize : Z) : Z :=
  let n := if qSize <=? 5 then qSize else u32 (5 + qSize / 10) in
  if 25 <? n then 25 else n.

(** The new width, and the calendar after the samples were taken out and put back. *)
Definition CalculateNewWidth (c : Calendar) : option (Z * Calendar) :=
  if m_qSize c <? 2 then Some (1, c)
  else
    let nSamples := nSamples_of (m_qSize c) in
    let! (samples, c1) := DoRemoveNext_n (Z.to_nat nSamples) c in
    let! c2 := DoInsert_all samples c1 in
    let c3 := set_last (m_lastBucket c) (m_bucketTop c) (m_lastPrio c) c2 in
    let twiceAvg := u64 (separation None samples 0 / (nSamples - 1) * 2) in
    let total := u64 (separation (Some twiceAvg) samples 0 * 3) in
    Some (Z.max total 1, c3).

Definition DoResize (newSize newWidth : Z) (c : Calendar) : option Calendar :=
  DoInsert_all (mjoin (m_buckets c)) (Init newSize newWidth (m_lastPrio c) c).

Definition Resize (newSize : Z) (c : Calendar) : option Calendar :=
  let! (newWidth, c1) := CalculateNewWidth c in DoResize newSize newWidth c1.

Definition ResizeUp (c : Calendar) : option Calendar :=
  if (u32 (m_nBuckets c * 2) <? m_qSize c) && (m_nBuckets c <? 32768)
  then Resize (u32 (m_nBuckets c * 2)) c else Some c.

Definition ResizeDown (c : Calendar) : option Calendar :=
  if m_qSize c <? m_nBuckets c / 2 then Resize (m_nBuckets c / 2) c else Some c.

Definition Insert (ev : Event) (c : Calendar) : option Calendar :=
  let! c1 := DoInsert ev c in ResizeUp (set_qSize (u32 (m_qSize c1 + 1)) c1).

Definition RemoveNext (c : Calendar) : option (Event * Calendar) :=
  ASSERT negb (IsEmpty c) ;;
  let! (ev, c1) := DoRemoveNext c in
  let! c2 := ResizeDown (set_qSize (u32 (m_qSize c1 - 1)) c1) in Some (ev, c2).

Definition Remove (ev : Event) (c : Calendar) : option Calendar :=
  ASSERT negb (IsEmpty c) ;;
  let bucket := Hash (ts ev) c in
  let! b := bucket_at bucket c in
  let! (i, rest) := erase_first (fun i => m_uid (key i) =? uid ev) b in
  ASSERT impl ev =? impl i ;;
  let c1 := put_bucket bucket rest c in
  ResizeDown (set_qSize (u32 (m_qSize c1 - 1)) c1).

#[global] Instance ops (reverse : bool) : SchedulerOps Calendar := {
  CreateScheduler := create reverse;
  Sched.Insert := Insert;
  Sched.IsEmpty := IsEmpty;
  Sched.PeekNext := PeekNext;
  Sched.RemoveNext := RemoveNext;
  Sched.Remove := Remove
}.

(** ** Buckets *)

Definition order_rel (r : bool) : relation Event := if r then flip before else before.

#[export] Instance order_rel_trans r : Transitive (order_rel r).
Proof. intros a b e. destruct r; simpl; intros; key_order. Qed.

Lemma Order_spec r a b : Order r (key a) (key b) = true <-> order_rel r a b.
Proof. destruct r; simpl; rewrite ?key_gt_lt; apply key_lt_spec. Qed.

Lemma order_rel_total r a b : uid a <> uid b -> order_rel r a b \/ order_rel r b a.
Proof. intros H. destruct (before_total _ _ H); destruct r; auto. Qed.

Lemma snoc_inv (b : list Event) : b = [] \/ exists b' e, b = b' ++ [e].
Proof. induction b as [|e b' _] using rev_ind; eauto. Qed.

(** The next event of a sorted bucket is its least one, and [Pop] removes it. *)
Lemma next_pop r b :
  StronglySorted (order_rel r) b -> b <> [] ->
  exists e, NextEvent r b = Some e /\ b ≡ₚ e :: Pop r b /\ is_min e b /\
            StronglySorted (order_rel r) (Pop r b).
Proof.
  intros Hs Hne. destruct r; simpl in *.
  - destruct (snoc_inv b) as [->|(b'&e&->)]; [done|]. exists e.
    rewrite last_snoc, length_app. simpl.
    replace (length b' + 1 - 1)%nat with (length b') by lia. rewrite take_app_length.
    apply StronglySorted_app in Hs as (Hb&Hs&_).
    split_and!; [done|by rewrite Permutation_app_comm| |done].
    rewrite Permutation_app_comm. apply is_min_cons_sorted. intros e' He'.
    apply (Hb e' e); [done|by left].
  - destruct b as [|e b]; [done|]. exists e. inversion Hs as [|?? Hs' Hf]; subst.
    split_and!; [done|done| |done]. apply is_min_cons_sorted. by apply Forall_forall.
Qed.

Lemma NextEvent_None r b : NextEvent r b = None <-> b = [].
Proof.
  destruct r; simpl; [|by destruct b]. split; [|by intros ->].
  destruct (snoc_inv b) as [->|(b'&e&->)]; [done|]. by rewrite last_snoc.
Qed.

(** ** The invariant *)

Definition MAX_BUCKETS : Z := 65536.
Definition MAX_WIDTH : Z := 3 * MAX_TS.

Definition events (c : Calendar) : list Event := mjoin (m_buckets c).
Definition day (c : Calendar) (e : Event) : Z := ts e / m_width c.

(** Every bucket is sorted and holds only events of its days. *)
Record shape (c : Calendar) : Prop := {
  ok_n : 1 <= m_nBuckets c <= MAX_BUCKETS;
  ok_len : length (m_buckets c) = Z.to_nat (m_nBuckets c);
  ok_width : 1 <= m_width c <= MAX_WIDTH;
  ok_sorted i b :
    m_buckets c !! i = Some b -> StronglySorted (order_rel (m_reverse c)) b;
  ok_day i b e :
    m_buckets c !! i = Some b -> e ∈ b -> Z.of_nat i = day c e mod m_nBuckets c
}.

(** The pointers agree with the time stamp of the last event removed. *)
Record year (c : Calendar) : Prop := {
  ok_prio : 0 <= m_lastPrio c < MAX_TS;
  ok_last : m_lastBucket c = (m_lastPrio c / m_width c) mod m_nBuckets c;
  ok_top : m_bucketTop c = (m_lastPrio c / m_width c + 1) * m_width c
}.

(** No event is earlier than the last one removed. *)
Record cal_ok (c : Calendar) : Prop := {
  ok_shape : shape c;
  ok_year : year c;
  ok_wf : wf_events (m_lastPrio c) (events c)
}.

(** The scalar members [c'] shares with [c]. *)
Definition same_params (c c' : Calendar) : Prop :=
  m_nBuckets c' = m_nBuckets c /\ m_width c' = m_width c /\
  m_qSize c' = m_qSize c /\ m_reverse c' = m_reverse c.
Definition same_pointers (c c' : Calendar) : Prop :=
  m_lastBucket c' = m_lastBucket c /\ m_bucketTop c' = m_bucketTop c /\
  m_lastPrio c' = m_lastPrio c.

#[export] Instance same_params_trans : Transitive same_params.
Proof. intros c1 c2 c3 (?&?&?&?) (?&?&?&?). split_and!; congruence. Qed.
#[export] Instance same_pointers_trans : Transitive same_pointers.
Proof. intros c1 c2 c3 (?&?&?) (?&?&?). split_and!; congruence. Qed.

Lemma day_top q w k :
  0 <= q -> q * w < MAX_TS -> 0 <= k <= MAX_BUCKETS -> 1 <= w <= MAX_WIDTH ->
  0 <= (q + 1 + k) * w < 18446744073709551616.
Proof.
  intros Hq Hqw Hk Hw. unfold MAX_TS, MAX_BUCKETS, MAX_WIDTH, MAX_TS in *.
  assert (0 <= (1 + k) * w <= 65537 * 105553116266496).
  { split; [lia|]. apply Z.mul_le_mono_nonneg; lia. }
  lia.
Qed.

Section shape.
Context (c : Calendar) (Hc : shape c).
Notation n := (m_nBuckets c).
Notation w := (m_width c).

Lemma bucket_some i : exists b, bucket_at (i mod n) c = Some b.
Proof using Hc.
  apply lookup_lt_is_Some_2. rewrite (ok_len _ Hc). destruct (ok_n _ Hc).
  apply Z2Nat.inj_lt; [apply Z.mod_pos_bound|lia|apply Z.mod_pos_bound]; lia.
Qed.

Lemma hash_day t : hash_of w n t = (t / w) mod n.
Proof using Hc.
  unfold hash_of. apply u32_small. destruct (ok_n _ Hc). unfold MAX_BUCKETS in *.
  pose proof (Z.mod_pos_bound (t / w) n). lia.
Qed.

Lemma elem_of_events e :
  e ∈ events c <-> exists b, bucket_at (day c e mod n) c = Some b /\ e ∈ b.
Proof using Hc.
  unfold events, bucket_at. rewrite list_elem_of_join. split.
  - intros (b&He&(i&Hi)%list_elem_of_lookup). exists b. split; [|done].
    rewrite <- (ok_day _ Hc i b e Hi He). by rewrite Nat2Z.id.
  - intros (b&Hb&He). exists b. split; [done|]. by eapply list_elem_of_lookup_2.
Qed.

Lemma bucket_sorted i b :
  bucket_at i c = Some b -> StronglySorted (order_rel (m_reverse c)) b.
Proof using Hc. apply (ok_sorted _ Hc). Qed.

Lemma bucket_day i b e :
  0 <= i -> bucket_at i c = Some b -> e ∈ b -> i = day c e mod n.
Proof using Hc. intros Hi Hb He. rewrite <- (ok_day _ Hc _ _ _ Hb He). lia. Qed.

Lemma bucket_events i b e : bucket_at i c = Some b -> e ∈ b -> e ∈ events c.
Proof using Type.
  intros Hb He. apply list_elem_of_join. exists b. split; [done|].
  by eapply list_elem_of_lookup_2.
Qed.
End shape.

(** Replacing one bucket. *)
Lemma put_bucket_events i b b' c :
  bucket_at i c = Some b ->
  exists r, events c ≡ₚ b ++ r /\ events (put_bucket i b' c) ≡ₚ b' ++ r.
Proof.
  unfold bucket_at, events. simpl. intros Hb.
  pose proof (lookup_lt_Some _ _ _ Hb) as Hlt.
  exists (mjoin (take (Z.to_nat i) (m_buckets c)) ++ mjoin (drop (S (Z.to_nat i)) (m_buckets c))).
  rewrite insert_take_drop by done. rewrite <- (take_drop_middle _ _ _ Hb) at 1.
  rewrite !join_app. simpl. split; rewrite !app_assoc; f_equiv; apply Permutation_app_comm.
Qed.

Lemma put_bucket_shape i b' c :
  shape c -> StronglySorted (order_rel (m_reverse c)) b' ->
  (forall e, e ∈ b' -> i = day c e mod m_nBuckets c) -> 0 <= i ->
  shape (put_bucket i b' c).
Proof.
  intros Hc Hs Hd Hi. split; simpl; try apply Hc.
  - rewrite length_insert. apply Hc.
  - intros j b. rewrite list_lookup_insert. case_decide; [intros; by simplify_eq|].
    apply (ok_sorted _ Hc).
  - intros j b e. rewrite list_lookup_insert. case_decide as Hj.
    + intros [= <-] He. destruct Hj as [<- _]. transitivity i; [lia|by apply Hd].
    + apply (ok_day _ Hc).
Qed.

(** ** Insertion *)

Lemma DoInsert_ok ev c :
  shape c -> uid ev ∉ uids (events c) ->
  exists c', DoInsert ev c = Some c' /\ shape c' /\ events c' ≡ₚ ev :: events c /\
             same_params c c' /\ same_pointers c c'.
Proof.
  intros Hc Hn. unfold DoInsert, Hash. rewrite (hash_day _ Hc).
  destruct (bucket_some _ Hc (ts ev / m_width c)) as [b Hb]. rewrite Hb.
  eexists. split; [done|].
  destruct (put_bucket_events _ _ (insert_sorted (Order (m_reverse c)) ev b) _ Hb)
    as (r&Hr&Hr').
  split_and!; [|rewrite Hr', Hr; by rewrite insert_sorted_perm|done..].
  destruct (ok_n _ Hc). apply put_bucket_shape; [done| | |apply Z.mod_pos_bound; lia].
  - eapply insert_sorted_sorted; [apply _|apply Order_spec| |by eapply bucket_sorted].
    intros e He. apply order_rel_total. intros Heq. apply Hn, elem_of_uids. exists e.
    split; [|done]. by eapply bucket_events.
  - intros e. rewrite insert_sorted_perm. intros [->|He]%elem_of_cons; [done|].
    eapply bucket_day; [done| |done|done]. apply Z.mod_pos_bound; lia.
Qed.

Lemma DoInsert_all_ok evs c :
  shape c -> unique_uids (evs ++ events c) ->
  exists c', DoInsert_all evs c = Some c' /\ shape c' /\ events c' ≡ₚ evs ++ events c /\
             same_params c c' /\ same_pointers c c'.
Proof.
  revert c. induction evs as [|e evs IH]; intros c Hc Hu; [by exists c|]. simpl in *.
  apply unique_uids_cons in Hu as [Hn Hu].
  destruct (DoInsert_ok e c) as (c1&->&Hc1&He1&Hp1&Hq1); [done| |].
  { intros Hin. apply Hn. unfold uids in *. rewrite fmap_app. apply elem_of_app. by right. }
  destruct (IH c1) as (c2&->&Hc2&He2&Hp2&Hq2); [done| |].
  - rewrite He1, <- Permutation_middle. by apply unique_uids_cons.
  - exists c2. split_and!; [done|done| |by etrans|by etrans].
    by rewrite He2, He1, <- Permutation_middle.
Qed.

(** ** The scan *)
Section scan_ok.
Context (c : Calendar) (Hc : cal_ok c).
Notation n := (m_nBuckets c).
Notation w := (m_width c).
Notation q := (m_lastPrio c / m_width c).

(** What both loops keep: the event of least key among the heads visited, as [val e i]. *)
Context {A : Type} (K : A -> EventKey) (val : Event -> Z -> A) (init : A).
Context (HK : forall e i, K (val e i) = key e) (Hinit : MAX_TS <= m_ts (K init)).

Definition least_upd (i : Z) (next : Event) (acc : A) : A :=
  if key_lt (key next) (K acc) then val next i else acc.

Definition visited (k : Z) (e : Event) : Prop :=
  exists j, 0 <= j < k /\ day c e mod n = (q + j) mod n.

Definition least (k : Z) (acc : A) : Prop :=
  (forall e, e ∈ events c -> visited k e -> ~ key_before (key e) (K acc)) /\
  (acc = init \/
   exists next b, next ∈ events c /\ bucket_at (day c next mod n) c = Some b /\
     NextEvent (m_reverse c) b = Some next /\ acc = val next (day c next mod n)).

Definition no_event_before (k : Z) : Prop := forall e, e ∈ events c -> q + k <= day c e.

Lemma w_pos : 0 < w.
Proof using Hc. destruct (ok_width _ (ok_shape _ Hc)). lia. Qed.
Lemma n_pos : 0 < n.
Proof using Hc. destruct (ok_n _ (ok_shape _ Hc)). lia. Qed.

Lemma visited_succ k e :
  0 <= k -> visited (k + 1) e <-> visited k e \/ day c e mod n = (q + k) mod n.
Proof using Type.
  intros Hk. split.
  - intros (j&Hj&Hd). destruct (decide (j = k)) as [->|]; [by right|left]. exists j.
    split; [lia|done].
  - intros [(j&Hj&Hd)|Hd]; [exists j|exists k]; (split; [lia|done]).
Qed.

Lemma visited_all e : visited n e.
Proof using Hc.
  pose proof n_pos. exists ((day c e - q) mod n). split; [by apply Z.mod_pos_bound|].
  rewrite Zplus_mod_idemp_r. f_equal. lia.
Qed.

(** The head of the bucket visited at step [k]. *)
Lemma visit k b :
  0 <= k -> bucket_at ((q + k) mod n) c = Some b ->
  (b = [] /\ NextEvent (m_reverse c) b = None /\
   forall e, e ∈ events c -> day c e mod n <> (q + k) mod n) \/
  (exists next, NextEvent (m_reverse c) b = Some next /\ next ∈ events c /\
     day c next mod n = (q + k) mod n /\
     forall e, e ∈ events c -> day c e mod n = (q + k) mod n -> ~ before e next).
Proof using Hc.
  intros Hk Hb. pose proof (ok_shape _ Hc) as Hs. pose proof n_pos as Hn.
  assert (forall e, e ∈ events c -> day c e mod n = (q + k) mod n -> e ∈ b) as Hin.
  { intros e He Hd. apply elem_of_events in He as (b'&Hb'&He); [|done].
    rewrite Hd, Hb in Hb'. by simplify_eq. }
  destruct (decide (b = [])) as [->|Hne].
  - left. split_and!; [done|by apply NextEvent_None|]. intros e He Hd.
    by apply (Hin e He), elem_of_nil in Hd.
  - right. destruct (next_pop _ _ (bucket_sorted _ Hs _ _ Hb) Hne) as (next&Hnx&_&[Hi Hm]&_).
    exists next. split_and!; [done|by eapply bucket_events| |by auto].
    symmetry. eapply bucket_day; [done|by apply Z.mod_pos_bound|done|done].
Qed.

Lemma least_step k next b :
  0 <= k -> next ∈ events c -> day c next mod n = (q + k) mod n ->
  bucket_at ((q + k) mod n) c = Some b -> NextEvent (m_reverse c) b = Some next ->
  (forall e, e ∈ events c -> day c e mod n = (q + k) mod n -> ~ before e next) ->
  forall acc, least k acc -> least (k + 1) (least_upd ((q + k) mod n) next acc).
Proof using HK.
  intros Hk Hin Hd Hb Hnx Hmin acc [Hl Hacc]. unfold least_upd.
  destruct (key_lt (key next) (K acc)) eqn:Hlt.
  - apply key_lt_spec in Hlt. split.
    + intros e He [Hv|He2]%visited_succ; [| |done]; rewrite HK.
      * specialize (Hl e He Hv). by eapply key_not_before_l.
      * by apply Hmin.
    + right. exists next, b. rewrite Hd. done.
  - apply key_lt_false in Hlt. split; [|done].
    intros e He [Hv|He2]%visited_succ; [by auto| |done].
    specialize (Hmin e He He2). by eapply key_le_trans.
Qed.

Lemma least_skip k :
  0 <= k -> (forall e, e ∈ events c -> day c e mod n <> (q + k) mod n) ->
  forall acc, least k acc -> least (k + 1) acc.
Proof using Type.
  intros Hk Hno acc [Hl Hacc]. split; [|done].
  intros e He [Hv|He2]%visited_succ; [by auto| |done]. by destruct (Hno e He).
Qed.

(** The loop's own arithmetic: the next bucket, the next day's end, the exit test. *)
Lemma next_bucket k : 0 <= k < n -> u32 ((q + k) mod n + 1) mod n = (q + (k + 1)) mod n.
Proof using Hc.
  intros Hk. pose proof n_pos. destruct (ok_n _ (ok_shape _ Hc)) as [_ Hmax].
  unfold MAX_BUCKETS in Hmax. pose proof (Z.mod_pos_bound (q + k) n ltac:(lia)).
  rewrite u32_small by lia. rewrite Zplus_mod_idemp_l. f_equal. lia.
Qed.

Lemma q_bounds : 0 <= q /\ q * w < MAX_TS.
Proof using Hc.
  destruct (ok_prio _ (ok_year _ Hc)). pose proof w_pos. split; [by apply Z.div_pos|].
  pose proof (Z.mul_div_le (m_lastPrio c) w). lia.
Qed.

Lemma next_top k : 0 <= k < n -> u64 ((q + 1 + k) * w + w) = (q + 1 + (k + 1)) * w.
Proof using Hc.
  intros Hk. destruct q_bounds. destruct (ok_n _ (ok_shape _ Hc)).
  pose proof (day_top q w (k + 1)) as Hb. rewrite u64_small; [lia|].
  replace ((q + 1 + k) * w + w) with ((q + 1 + (k + 1)) * w) by lia.
  apply Hb; [done|done|lia|apply ok_shape, Hc].
Qed.

Lemma exit_test k :
  0 <= k < n -> ((q + (k + 1)) mod n =? m_lastBucket c) = (k + 1 =? n).
Proof using Hc.
  intros Hk. pose proof n_pos. rewrite (ok_last _ (ok_year _ Hc)).
  destruct (Z.eqb_spec (k + 1) n) as [->|Hne].
  - apply Z.eqb_eq. rewrite <- Zplus_mod_idemp_r, Z_mod_same_full. f_equal. lia.
  - apply Z.eqb_neq. intros Heq.
    apply mod_eq_window in Heq; lia.
Qed.

Lemma day_lt k e : ts e < (q + 1 + k) * w <-> day c e < q + 1 + k.
Proof using Hc.
  pose proof w_pos. unfold day. split; intros Hlt.
  - apply Z.div_lt_upper_bound; lia.
  - apply Z.nle_gt. intros Hge. assert (q + 1 + k <= ts e / w) by (apply Z.div_le_lower_bound; lia). lia.
Qed.

Lemma residue_day k e :
  0 <= k < n -> no_event_before k -> e ∈ events c ->
  day c e mod n = (q + k) mod n -> day c e < q + n -> day c e = q + k.
Proof using Hc.
  intros Hk Hno He Hd Hlt. specialize (Hno e He). pose proof n_pos.
  apply (mod_eq_window _ _ n); lia.
Qed.

Lemma found_min k next :
  0 <= k < n -> no_event_before k -> next ∈ events c ->
  day c next mod n = (q + k) mod n -> ts next < (q + 1 + k) * w ->
  (forall e, e ∈ events c -> day c e mod n = (q + k) mod n -> ~ before e next) ->
  day c next = q + k /\ is_min next (events c).
Proof using Hc.
  intros Hk Hno Hin Hd Hlt Hmin. apply day_lt in Hlt.
  assert (day c next = q + k) as Heq  by (apply residue_day; first [assumption|lia]).
  split; [done|]. split; [done|]. intros e He Hb.
  destruct (decide (day c e = q + k)) as [Hde|Hne].
  - apply (Hmin e He); [by rewrite Hde|done].
  - specialize (Hno e He). assert (q + 1 + k <= day c e) as Hge by lia.
    assert (ts next < (q + 1 + k) * w) by (apply day_lt; lia).
    assert (~ ts e < (q + 1 + k) * w) by (rewrite day_lt; lia). key_order.
Qed.

Lemma later_day k :
  0 <= k < n -> no_event_before k ->
  (forall e, e ∈ events c -> day c e mod n = (q + k) mod n -> (q + 1 + k) * w <= ts e) ->
  no_event_before (k + 1).
Proof using Hc.
  intros Hk Hno Hall e He. specialize (Hno e He).
  destruct (decide (day c e = q + k)) as [Hde|]; [|lia].
  specialize (Hall e He). rewrite Hde in Hall. specialize (Hall eq_refl).
  assert (~ ts e < (q + 1 + k) * w) as Hn by lia. rewrite day_lt in Hn. lia.
Qed.

(** One pass over the year: it stops at the least event when that event lies in the current
    year, and otherwise has recorded it. *)
Lemma scan_correct fuel k acc :
  0 <= k < n -> n - 1 - k <= Z.of_nat fuel -> least k acc -> no_event_before k ->
  match scan least_upd c fuel ((q + k) mod n) ((q + 1 + k) * w) acc with
  | None => False
  | Some (Found i next bt) =>
      is_min next (events c) /\ i = day c next mod n /\ bt = (day c next + 1) * w /\
      exists b, bucket_at i c = Some b /\ NextEvent (m_reverse c) b = Some next
  | Some (Nothing acc') => least n acc'
  end.
Proof using All.
  pose proof (ok_shape _ Hc) as Hs. pose proof n_pos as Hn. pose proof w_pos as Hw.
  revert k acc. induction fuel as [|fuel IH]; intros k acc Hk Hf Hl Hno;
    destruct (bucket_some _ Hs (q + k)) as [b Hb]; simpl; rewrite Hb;
    rewrite next_bucket, exit_test by done; rewrite ?next_top by done;
    destruct (visit k b ltac:(lia) Hb) as [(->&->&Hnone)|(next&Hnx&Hin&Hd&Hmin)].
  - replace (k + 1 =? n) with true by lia.
    pose proof (least_skip k ltac:(lia) Hnone acc Hl) as Hl'.
    by replace (k + 1) with n in Hl' by lia.
  - rewrite Hnx. destruct (Z.ltb_spec (ts next) ((q + 1 + k) * w)) as [Hlt|Hge].
    + destruct (found_min k next Hk Hno Hin Hd Hlt Hmin) as [Heq Hm]. rewrite Heq.
      split_and!; [done|done|lia|by exists b].
    + replace (k + 1 =? n) with true by lia.
      pose proof (least_step k next b ltac:(lia) Hin Hd Hb Hnx Hmin acc Hl) as Hl'.
      by replace (k + 1) with n in Hl' by lia.
  - destruct (Z.eqb_spec (k + 1) n) as [Hlast|Hlast].
    { pose proof (least_skip k ltac:(lia) Hnone acc Hl) as Hl'. by rewrite Hlast in Hl'. }
    apply IH; [lia|lia|by apply least_skip; [lia|..]|].
    apply later_day; [done|done|]. intros e He Hd. by destruct (Hnone e He).
  - rewrite Hnx. destruct (Z.ltb_spec (ts next) ((q + 1 + k) * w)) as [Hlt|Hge].
    + destruct (found_min k next Hk Hno Hin Hd Hlt Hmin) as [Heq Hm]. rewrite Heq.
      split_and!; [done|done|lia|by exists b].
    + pose proof (least_step k next b ltac:(lia) Hin Hd Hb Hnx Hmin acc Hl) as Hl'.
      destruct (Z.eqb_spec (k + 1) n) as [Hlast|Hlast]; [by rewrite Hlast in Hl'|].
      apply IH; [lia|lia|done|]. apply later_day; [done|done|]. intros e He Hde.
      specialize (Hmin e He Hde). key_order.
Qed.

(** From the start of the loop, on a calendar that holds an event. *)
Lemma scan_finds_min :
  events c <> [] ->
  exists next b, is_min next (events c) /\
    bucket_at (day c next mod n) c = Some b /\ NextEvent (m_reverse c) b = Some next /\
    (scan least_upd c (Z.to_nat n) (m_lastBucket c) (m_bucketTop c) init =
       Some (Found (day c next mod n) next ((day c next + 1) * w)) \/
     scan least_upd c (Z.to_nat n) (m_lastBucket c) (m_bucketTop c) init =
       Some (Nothing (val next (day c next mod n)))).
Proof using All.
  intros Hne. pose proof n_pos as Hn. pose proof (ok_year _ Hc) as Hy.
  rewrite (ok_last _ Hy), (ok_top _ Hy).
  assert (least 0 init) as Hl0.
  { split; [|by left]. intros e _ (j&Hj&_). lia. }
  assert (no_event_before 0) as Hno0.
  { intros e He. rewrite Z.add_0_r. apply Z.div_le_mono; [apply w_pos|].
    apply (ok_wf _ Hc) in He. lia. }
  pose proof (scan_correct (Z.to_nat n) 0 init ltac:(lia) ltac:(lia) Hl0 Hno0) as Hscan.
  rewrite !Z.add_0_r in Hscan.
  destruct (scan _ _ _ _ _ _) as [[i next bt|acc]|] eqn:E; [| |done].
  - destruct Hscan as (Hm&->&->&b&Hb&Hnx). exists next, b. auto.
  - destruct Hscan as [Hl [->|(next&b&Hin&Hb&Hnx&->)]].
    + destruct (events c) as [|e l] eqn:El; [done|]. exfalso.
      destruct (Hl e); [by left|apply visited_all|]. 
      assert (e ∈ events c) as He by (rewrite El; by left).
      apply (ok_wf _ Hc) in He. left. lia.
    + exists next, b. split_and!; [|done|done|by right].
      split; [done|]. intros e He Hb'. apply (Hl e He (visited_all e)). by rewrite HK.
Qed.
End scan_ok.

(** ** Peek and removal of the next event *)

Lemma peek_upd_least : peek_upd = least_upd key (fun e _ => e).
Proof. done. Qed.
Lemma remove_upd_least : remove_upd = least_upd fst (fun e i => (key e, i)).
Proof. done. Qed.

Lemma not_empty c : m_qSize c = Z.of_nat (length (events c)) -> events c <> [] -> IsEmpty c = false.
Proof. intros Hq Hne. unfold IsEmpty. destruct (events c); [done|]. simpl in Hq. lia. Qed.

Lemma PeekNext_ok c :
  cal_ok c -> m_qSize c = Z.of_nat (length (events c)) -> events c <> [] ->
  exists e, PeekNext c = Some e /\ is_min e (events c).
Proof.
  intros Hc Hq Hne. unfold PeekNext. rewrite not_empty by done. simpl negb. cbv iota.
  rewrite peek_upd_least.
  destruct (scan_finds_min c Hc key (fun e _ => e) (mkEvent 0 (mkKey UINT64_MAX UINT32_MAX 0)))
    as (next&b&Hm&_&_&[-> | ->]); [done|done|done|by exists next..].
Qed.

Lemma set_last_shape i t p c : shape c -> shape (set_last i t p c).
Proof. intros [? ? ? ? ?]. by split. Qed.
Lemma set_qSize_shape k c : shape c -> shape (set_qSize k c).
Proof. intros [? ? ? ? ?]. by split. Qed.
Lemma set_qSize_ok k c : cal_ok c -> cal_ok (set_qSize k c).
Proof. intros [? [? ? ?] ?]. split; [by apply set_qSize_shape|by split|done]. Qed.

(** Popping the least event and moving the pointers to its day. *)
Lemma pop_ok c next b :
  cal_ok c -> is_min next (events c) -> bucket_at (day c next mod m_nBuckets c) c = Some b ->
  NextEvent (m_reverse c) b = Some next ->
  let c' := put_bucket (day c next mod m_nBuckets c) (Pop (m_reverse c) b)
              (set_last (day c next mod m_nBuckets c) ((day c next + 1) * m_width c)
                        (ts next) c) in
  cal_ok c' /\ events c ≡ₚ next :: events c' /\ same_params c c' /\ m_lastPrio c' = ts next.
Proof.
  intros Hc Hm Hb Hnx c'. pose proof (ok_shape _ Hc) as Hs. pose proof (n_pos c Hc) as Hn.
  destruct (next_pop (m_reverse c) b) as (e&He&Hp&_&Hsort).
  { by eapply bucket_sorted. }
  { intros Hnil. apply (NextEvent_None (m_reverse c)) in Hnil. congruence. }
  rewrite Hnx in He. injection He as <-.
  assert (events c ≡ₚ next :: events c') as Hev.
  { destruct (put_bucket_events _ _ (Pop (m_reverse c) b) _ Hb) as (r&Hr&Hr').
    rewrite Hr, Hp. simpl. by rewrite <- Hr'. }
  split_and!; [|done|done|done]. split.
  - apply put_bucket_shape; [by apply set_last_shape|exact Hsort| |by apply Z.mod_pos_bound].
    intros e He. apply (bucket_day c Hs _ b); [by apply Z.mod_pos_bound|done|].
    rewrite Hp. by right.
  - split; simpl; [|done|done]. destruct (ok_wf _ Hc) as [_ Hw]. destruct Hm as [Hin _].
    pose proof (ok_prio _ (ok_year _ Hc)). specialize (Hw _ Hin). lia.
  - pose proof (ok_wf _ Hc) as Hw. rewrite Hev in Hw, Hm. by eapply wf_events_advance.
Qed.

Lemma DoRemoveNext_ok c :
  cal_ok c -> m_qSize c <> 0 -> events c <> [] ->
  exists e c', DoRemoveNext c = Some (e, c') /\ cal_ok c' /\ events c ≡ₚ e :: events c' /\
    is_min e (events c) /\ same_params c c' /\ m_lastPrio c' = ts e.
Proof.
  intros Hc Hq Hne. unfold DoRemoveNext, IsEmpty. rewrite (proj2 (Z.eqb_neq _ _)) by done.
  simpl negb. cbv iota. rewrite remove_upd_least.
  destruct (scan_finds_min c Hc fst (fun e i => (key e, i)) (mkKey UINT64_MAX 0 4294967295, -1))
    as (next&b&Hm&Hb&Hnx&Hscan); [done|done|done|].
  destruct (pop_ok c next b Hc Hm Hb Hnx) as (Hc'&Hev&Hsp&Hlp).
  pose proof (n_pos c Hc) as Hn. pose proof (Z.mod_pos_bound (day c next) _ Hn) as Hi.
  exists next. eexists. split; [|done].
  unfold bucket_at in Hb. destruct Hscan as [-> | ->]; unfold bucket_at; simpl m_buckets.
  - by rewrite Hb.
  - rewrite (proj2 (Z.leb_le _ _)) by lia. rewrite Hb, Hnx. do 3 f_equal.
    destruct Hm as [Hin _]. apply (ok_wf _ Hc) in Hin.
    unfold Hash. rewrite (hash_day _ (ok_shape _ Hc)).
    pose proof (day_top (day c next) (m_width c) 0) as Hdt. rewrite Z.add_0_r in Hdt.
    destruct (ok_prio _ (ok_year _ Hc)). pose proof (w_pos c Hc) as Hw.
    assert (0 <= day c next) by (apply Z.div_pos; lia).
    assert (day c next * m_width c < MAX_TS).
    { pose proof (Z.mul_div_le (ts next) (m_width c) Hw). unfold day. lia. }
    destruct (ok_width _ (ok_shape _ Hc)).
    specialize (Hdt ltac:(done) ltac:(done) ltac:(by unfold MAX_BUCKETS) ltac:(lia)).
    f_equal. unfold day in *.
    rewrite (u64_small (ts next / m_width c + 1)) by nia. by rewrite u64_small by lia.
Qed.

(** ** Resizing *)

Lemma DoRemoveNext_n_ok k c :
  cal_ok c -> m_qSize c <> 0 -> (k <= length (events c))%nat ->
  exists l c', DoRemoveNext_n k c = Some (l, c') /\ cal_ok c' /\ events c ≡ₚ l ++ events c' /\
    StronglySorted before l /\ (forall e, e ∈ l -> 0 <= ts e < MAX_TS) /\
    length l = k /\ same_params c c'.
Proof.
  revert c. induction k as [|k IH]; intros c Hc Hq Hlen.
  { exists [], c. split_and!; try done; [constructor|by intros e ?%elem_of_nil]. }
  destruct (DoRemoveNext_ok c Hc Hq) as (e&c1&He&Hc1&Hev&Hm&Hp1&_).
  { by intros E; rewrite E in Hlen; simpl in Hlen; lia. }
  destruct (IH c1) as (l&c2&Hl&Hc2&Hev2&Hs&Hb&Hk&Hp2); [done| | |].
  { destruct Hp1 as (_&_&->&_). done. }
  { rewrite Hev in Hlen. simpl in Hlen. lia. }
  exists (e :: l), c2. simpl. rewrite He, Hl.
  assert (events c ≡ₚ e :: l ++ events c2) as Hall by (by rewrite Hev, Hev2).
  pose proof (ok_wf _ Hc) as [Hu Hw].
  split_and!; [done|done|done| | |simpl; lia|by etrans].
  - constructor; [done|]. apply Forall_forall. intros e' He'.
    rewrite Hall in Hu, Hm. apply (is_min_before _ _ _ Hu Hm).
    + right. apply elem_of_app. by left.
    + intros ->. apply unique_uids_cons in Hu as [Hn _]. apply Hn, elem_of_uids. exists e.
      split; [|done]. apply elem_of_app. by left.
  - intros e' [->|He']%elem_of_cons; [|by apply Hb].
    destruct Hm as [Hin _]. pose proof (ok_prio _ (ok_year _ Hc)). specialize (Hw _ Hin). lia.
Qed.

(** The averaging loops never wrap: the separations of sorted samples telescope. *)
Lemma separation_bounds limit cur rest total :
  StronglySorted before (cur :: rest) ->
  (forall e, e ∈ cur :: rest -> 0 <= ts e < MAX_TS) -> 0 <= total <= ts cur ->
  0 <= separation limit (cur :: rest) total < MAX_TS.
Proof.
  revert cur total. induction rest as [|next rest IH]; intros cur total Hs Hb Ht.
  { simpl. specialize (Hb cur ltac:(by left)). lia. }
  inversion Hs as [|?? Hs' Hf]; subst. apply Forall_inv in Hf.
  pose proof (Hb cur ltac:(by left)) as Hcur. pose proof (Hb next ltac:(right; by left)) as Hnext.
  assert (ts cur <= ts next) as Hle by (destruct Hf; lia). unfold MAX_TS in Hcur, Hnext.
  cbn [separation]. rewrite (u64_small (ts next - ts cur)) by lia.
  rewrite (u64_small (total + (ts next - ts cur))) by lia.
  apply IH; [done|intros e He; apply Hb; by right|]. repeat case_match; lia.
Qed.

Lemma nSamples_bounds n : 2 <= n <= UINT32_MAX -> 2 <= nSamples_of n <= n.
Proof.
  unfold UINT32_MAX. intros Hn. unfold nSamples_of.
  assert (0 <= n / 10) by (apply Z.div_pos; lia).
  assert (n / 10 * 10 <= n) by (rewrite Z.mul_comm; apply Z.mul_div_le; lia).
  rewrite u32_small by lia. repeat case_match; norm_bool; lia.
Qed.

Lemma CalculateNewWidth_ok c :
  cal_ok c -> m_qSize c = Z.of_nat (length (events c)) ->
  exists w c', CalculateNewWidth c = Some (w, c') /\ 1 <= w <= MAX_WIDTH /\ cal_ok c' /\
    events c' ≡ₚ events c /\ same_params c c' /\ same_pointers c c'.
Proof.
  intros Hc Hq. unfold CalculateNewWidth. destruct (Z.ltb_spec (m_qSize c) 2) as [|H2].
  { exists 1, c. split_and!; done. }
  pose proof (wf_events_length _ _ (ok_wf _ Hc)) as Hlen.
  pose proof (nSamples_bounds (m_qSize c) ltac:(lia)) as Hns.
  destruct (DoRemoveNext_n_ok (Z.to_nat (nSamples_of (m_qSize c))) c)
    as (l&c1&->&Hc1&Hev1&Hs&Hb&Hk&Hp1); [done|lia|lia|].
  pose proof (ok_wf _ Hc) as Hwf.
  destruct (DoInsert_all_ok l c1) as (c2&->&Hs2&Hev2&Hp2&_); [apply Hc1| |].
  { rewrite <- Hev1. apply Hwf. }
  destruct l as [|cur l]; [simpl in Hk; lia|].
  cbv zeta. set (lim := u64 (separation None (cur :: l) 0 / _ * 2)).
  pose proof (separation_bounds (Some lim) cur l 0 Hs Hb) as Hsep.
  specialize (Hb cur ltac:(by left)). specialize (Hsep ltac:(lia)).
  assert (events c2 ≡ₚ events c) as Hev by (by rewrite Hev2, Hev1).
  assert (same_params c c2) as Hp by (by etrans).
  eexists _, _. split; [done|].
  split_and!; [lia|unfold MAX_WIDTH, MAX_TS in *; rewrite u64_small by lia; lia| | |done|done].
  - destruct Hp as (Hn&Hw&_). split; simpl; [by apply set_last_shape| |].
    + pose proof (ok_year _ Hc) as Hy. split; simpl; rewrite ?Hn, ?Hw; apply Hy.
    + unfold events. simpl. unfold events in Hev. by rewrite Hev.
  - done.
Qed.

Lemma Init_ok nb w c :
  1 <= nb <= MAX_BUCKETS -> 1 <= w <= MAX_WIDTH -> 0 <= m_lastPrio c < MAX_TS ->
  shape (Init nb w (m_lastPrio c) c) /\ year (Init nb w (m_lastPrio c) c) /\
  events (Init nb w (m_lastPrio c) c) = [].
Proof.
  intros Hnb Hw Hp.
  assert (shape (Init nb w (m_lastPrio c) c)) as Hs.
  { split; simpl; [done|by rewrite length_replicate|done| |].
    - intros i b [-> _]%lookup_replicate. constructor.
    - intros i b e [-> _]%lookup_replicate He. by apply elem_of_nil in He. }
  split_and!; [done| |].
  - split; simpl; [done|apply (hash_day _ Hs)|].
    assert (0 <= m_lastPrio c / w) by (apply Z.div_pos; lia).
    pose proof (Z.mul_div_le (m_lastPrio c) w ltac:(lia)).
    pose proof (day_top (m_lastPrio c / w) w 0) as Ht. rewrite Z.add_0_r in Ht.
    specialize (Ht ltac:(done) ltac:(lia) ltac:(by unfold MAX_BUCKETS) ltac:(done)).
    rewrite (u64_small (m_lastPrio c / w + 1)) by nia. by rewrite u64_small by lia.
  - unfold events. simpl. induction (Z.to_nat nb) as [|k IH]; simpl; [done|].
    simpl in IH. done.
Qed.

Lemma Resize_ok newSize c :
  cal_ok c -> m_qSize c = Z.of_nat (length (events c)) -> 1 <= newSize <= MAX_BUCKETS ->
  exists c', Resize newSize c = Some c' /\ cal_ok c' /\ events c' ≡ₚ events c /\
    m_qSize c' = m_qSize c /\ m_lastPrio c' = m_lastPrio c.
Proof.
  intros Hc Hq Hn. unfold Resize, DoResize.
  destruct (CalculateNewWidth_ok c Hc Hq) as (w&c1&->&Hw&Hc1&Hev1&Hp1&Hq1).
  destruct (Init_ok newSize w c1) as (Hs&Hy&He); [done|done|apply Hc1|].
  destruct (DoInsert_all_ok (mjoin (m_buckets c1)) (Init newSize w (m_lastPrio c1) c1))
    as (c2&->&Hs2&Hev2&Hp2&Hq2); [done| |].
  { rewrite He, app_nil_r. apply (ok_wf _ Hc1). }
  rewrite He, app_nil_r in Hev2. change (mjoin (m_buckets c1)) with (events c1) in Hev2.
  exists c2. destruct Hp1 as (_&_&Hqs&_), Hp2 as (Hn2&Hw2&Hqs2&_).
  destruct Hq1 as (_&_&Hlp), Hq2 as (Hlb2&Hbt2&Hlp2). simpl in *.
  split_and!; [done| |by rewrite Hev2|congruence|congruence]. split; [done| |].
  - destruct Hy as [Hy1 Hy2 Hy3]. simpl in *. split; congruence.
  - rewrite Hev2, Hlp2. apply Hc1.
Qed.

(** What both automatic resizes preserve. *)
Definition resized (c c' : Calendar) : Prop :=
  cal_ok c' /\ events c' ≡ₚ events c /\ m_qSize c' = m_qSize c /\ m_lastPrio c' = m_lastPrio c.

Lemma ResizeUp_ok c :
  cal_ok c -> m_qSize c = Z.of_nat (length (events c)) ->
  exists c', ResizeUp c = Some c' /\ resized c c'.
Proof.
  intros Hc Hq. unfold ResizeUp. destruct (ok_n _ (ok_shape _ Hc)) as [H1 H2].
  unfold MAX_BUCKETS in H2. rewrite u32_small by lia.
  destruct (_ && _) eqn:E; [|by exists c].
  destruct (Resize_ok (m_nBuckets c * 2) c Hc Hq) as (c'&?&?&?&?&?).
  { norm_bool. unfold MAX_BUCKETS. lia. }
  by exists c'.
Qed.

Lemma ResizeDown_ok c :
  cal_ok c -> m_qSize c = Z.of_nat (length (events c)) ->
  exists c', ResizeDown c = Some c' /\ resized c c'.
Proof.
  intros Hc Hq. unfold ResizeDown. destruct (ok_n _ (ok_shape _ Hc)) as [H1 H2].
  pose proof (Z.mul_div_le (m_nBuckets c) 2 ltac:(lia)).
  destruct (Z.ltb_spec (m_qSize c) (m_nBuckets c / 2)); [|by exists c].
  destruct (Resize_ok (m_nBuckets c / 2) c Hc Hq) as (c'&?&?&?&?&?); [lia|].
  by exists c'.
Qed.

(** ** The contract *)

Definition rep (c : Calendar) (tm : Z) (es : list Event) : Prop :=
  cal_ok c /\ events c ≡ₚ es /\ m_qSize c = Z.of_nat (length es) /\ m_lastPrio c <= tm /\
  wf_events tm es.

Lemma resized_rep c c' tm es :
  resized c c' -> events c ≡ₚ es -> m_qSize c = Z.of_nat (length es) -> m_lastPrio c <= tm ->
  wf_events tm es -> rep c' tm es.
Proof.
  intros (Hc'&Hev&Hq&Hlp) He Hn Hle Hw.
  split_and!; [done|by rewrite Hev|congruence|congruence|done].
Qed.

Lemma cal_insert_rep c tm es ev :
  rep c tm es -> insertable tm es ev ->
  exists c', Insert ev c = Some c' /\ rep c' tm (ev :: es).
Proof.
  intros (Hc&Hp&Hq&Hlp&Hwf) Hins. pose proof (wf_events_insert _ _ _ Hwf Hins) as Hwf'.
  unfold Insert.
  destruct (DoInsert_ok ev c) as (c1&->&Hs1&Hev1&Hp1&Hq1); [apply Hc|rewrite Hp; apply Hins|].
  destruct Hp1 as (Hn&Hw&Hqs&_), Hq1 as (Hlb&Hbt&Hlp1).
  pose proof (wf_events_length _ _ Hwf') as Hlen. unfold UINT32_MAX in Hlen. simpl in Hlen.
  assert (events c1 ≡ₚ ev :: es) as Hev by (by rewrite Hev1, Hp).
  assert (cal_ok c1) as Hc1.
  { split; [done| |].
    - destruct (ok_year _ Hc). split; congruence.
    - rewrite Hev, Hlp1. by apply (wf_events_weaken tm). }
  rewrite u32_small by (rewrite Hqs; lia).
  destruct (ResizeUp_ok (set_qSize (m_qSize c1 + 1) c1)) as (c'&->&Hr).
  - by apply set_qSize_ok.
  - change (events _) with (events c1). rewrite Hev. simpl. rewrite Hqs. lia.
  - exists c'. split; [done|]. eapply resized_rep; [done|exact Hev| |simpl; congruence|done].
    simpl. rewrite Hqs. lia.
Qed.

Lemma cal_is_empty_rep c tm es : rep c tm es -> IsEmpty c = bool_decide (es = []).
Proof.
  intros (_&_&Hq&_). unfold IsEmpty. rewrite Hq. by destruct es.
Qed.

Lemma cal_peek_rep c tm es :
  rep c tm es -> es <> [] -> exists e, PeekNext c = Some e /\ is_min e es.
Proof.
  intros (Hc&Hp&Hq&_) Hne. destruct (PeekNext_ok c Hc) as (e&?&?).
  - by rewrite Hp.
  - intros E. rewrite E in Hp. by apply Permutation_nil_l in Hp.
  - exists e. by rewrite <- Hp.
Qed.

Lemma cal_remove_next_rep c tm es :
  rep c tm es -> es <> [] ->
  exists e c' es', RemoveNext c = Some (e, c') /\ es ≡ₚ e :: es' /\ is_min e es /\
    rep c' (ts e) es'.
Proof.
  intros (Hc&Hp&Hq&Hlp&Hwf) Hne.
  assert (events c <> []) as Hne'.
  { intros E. rewrite E in Hp. by apply Permutation_nil_l in Hp. }
  assert (m_qSize c <> 0) as Hq0 by (destruct es; [done|simpl in Hq; lia]).
  destruct (DoRemoveNext_ok c Hc Hq0 Hne') as (e&c1&HR&Hc1&Hev&Hm&Hp1&Hlp1).
  unfold RemoveNext, IsEmpty. rewrite (proj2 (Z.eqb_neq _ _)) by done. simpl. rewrite HR.
  destruct Hp1 as (_&_&Hqs&_). rewrite <- Hp in Hwf. rewrite Hp in Hm.
  pose proof (wf_events_length _ _ Hwf) as Hlen. unfold UINT32_MAX in Hlen.
  rewrite Hev in Hlen, Hwf. simpl in Hlen.
  assert (m_qSize c1 - 1 = Z.of_nat (length (events c1))) as Hq1.
  { rewrite Hqs, Hq, <- Hp, Hev. simpl. lia. }
  rewrite u32_small by lia.
  destruct (ResizeDown_ok (set_qSize (m_qSize c1 - 1) c1)) as (c'&->&Hr);
    [by apply set_qSize_ok|done|].
  exists e, c', (events c1). split; [done|]. split; [by rewrite <- Hp|]. split; [done|].
  eapply resized_rep; [done|done|done|simpl; lia|].
  rewrite <- Hp, Hev in Hm. by eapply wf_events_advance.
Qed.

Lemma cal_remove_rep c tm es ev :
  rep c tm es -> ev ∈ es ->
  exists c' es', Remove ev c = Some c' /\ es ≡ₚ ev :: es' /\ rep c' tm es'.
Proof.
  intros (Hc&Hp&Hq&Hlp&Hwf) Hin. pose proof (ok_shape _ Hc) as Hs.
  assert (m_qSize c <> 0) as Hq0 by (destruct es; [by apply elem_of_nil in Hin|simpl in Hq; lia]).
  unfold Remove, IsEmpty, Hash. rewrite (proj2 (Z.eqb_neq _ _)) by done. simpl.
  rewrite (hash_day _ Hs). fold (day c ev).
  rewrite <- Hp in Hin. apply (elem_of_events _ Hs) in Hin as (b&Hb&Hinb). rewrite Hb.
  destruct (erase_first_is_Some (fun i => m_uid (key i) =? uid ev) b) as [[x r] Hx].
  { exists ev. split; [done|]. apply Z.eqb_refl. }
  rewrite Hx. pose proof (erase_first_Some _ _ _ _ Hx) as (Hf&Hpb&Hsub).
  destruct (put_bucket_events _ _ r _ Hb) as (o&Ho&Ho').
  assert (x = ev) as ->.
  { apply (unique_uids_inj (events c)); [apply (ok_wf _ Hc)| | |by apply Z.eqb_eq].
    - rewrite Ho, Hpb. by left.
    - by eapply bucket_events. }
  rewrite Z.eqb_refl. set (c1 := put_bucket _ r c) in *.
  assert (events c ≡ₚ ev :: events c1) as Hev by (by rewrite Ho, Hpb, Ho').
  pose proof (n_pos c Hc) as Hn.
  assert (cal_ok c1) as Hc1.
  { split.
    - apply put_bucket_shape; [done| | |by apply Z.mod_pos_bound].
      + eapply StronglySorted_sublist; [done|]. by eapply bucket_sorted.
      + intros e He. apply (bucket_day c Hs _ b); [by apply Z.mod_pos_bound|done|].
        rewrite Hpb. by right.
    - destruct (ok_year _ Hc). by split.
    - pose proof (ok_wf _ Hc) as Hw. rewrite Hev in Hw. by eapply wf_events_tail. }
  pose proof (wf_events_length _ _ Hwf) as Hlen. unfold UINT32_MAX in Hlen.
  assert (m_qSize c - 1 = Z.of_nat (length (events c1))) as Hq1.
  { rewrite Hq, <- Hp, Hev. simpl. lia. }
  rewrite u32_small by (simpl; lia).
  destruct (ResizeDown_ok (set_qSize (m_qSize c - 1) c1)) as (c'&->&Hr);
    [by apply set_qSize_ok|done|].
  exists c', (events c1). split; [done|]. split; [by rewrite <- Hp|].
  rewrite <- Hp, Hev in Hwf. eapply resized_rep; [done|done|done|done|by eapply wf_events_tail].
Qed.

#[global] Program Instance queue (reverse : bool) : @SchedulerQueue Calendar (ops reverse) := {
  sch_rep := rep;
  insert_ok := cal_insert_rep;
  is_empty_ok := cal_is_empty_rep;
  peek_next_ok := cal_peek_rep;
  remove_next_ok := cal_remove_next_rep
}.
Next Obligation.
  intros r c tm es es' Hp (?&?&?&?&?). unfold rep. rewrite <- Hp. done.
Qed.
Next Obligation. by intros r c tm es (?&?&?&?&?). Qed.
Next Obligation. intros r c tm tm' es ?? (?&?&?&?&?). split_and!; try done; lia. Qed.
Next Obligation.
  intros r. split_and!; [|by destruct r|done|done|apply wf_events_nil].
  destruct (Init_ok 2 1 (mkCalendar [] 0 0 0 0 0 0 r)) as (Hs&Hy&He); [done|done|done|].
  split.
  - destruct Hs as [? ? ? ? ?]. by split.
  - destruct Hy as [? ? ?]. by split.
  - unfold events in *. simpl in *. apply wf_events_nil.
Qed.

#[global] Instance remove (reverse : bool) :
  @SchedulerRemove Calendar (ops reverse) (queue reverse) := { remove_ok := cal_remove_rep }.
End CalendarScheduler.
