(* ===== verification/Schedulers.v ===== *)
(** * All schedulers agree

    The contract of [Sched.v] instantiated at the six scheduler classes: they return the same
    events in the same order, so the choice of a scheduler never changes a simulation. *)

From S2P Require Import Sched SortedScheds HeapSched CalendarSched.

(** Insert the events, then remove them all. *)
Definition sort_with (Sch : Type) `{SchedulerOps Sch} (evs : list Event) : option (list Event) :=
  let! s := fill evs CreateScheduler in drain (length evs) s.

(** Insert the events, cancel one, then remove the others. *)
Definition sort_without (Sch : Type) `{SchedulerOps Sch} (ev : Event) (evs : list Event)
    : option (list Event) :=
  let! s := fill evs CreateScheduler in let! s := Remove ev s in drain (length evs) s.

(** There is only one sorted list with given events. *)
Lemma sorted_unique l k :
  l ≡ₚ k -> StronglySorted before l -> StronglySorted before k -> l = k.
Proof.
  intros Hp Hl. revert k Hp. induction Hl as [|a l Hl IH Ha]; intros k Hp Hk.
  - by apply Permutation_nil_l in Hp.
  - destruct Hk as [|b k Hk Hb]; [by apply Permutation_nil_r in Hp|].
    assert (a = b) as ->.
    { assert (b ∈ a :: l) as [?|Hbl]%elem_of_cons by (rewrite Hp; by left); [done|].
      assert (a ∈ b :: k) as [?|Hak]%elem_of_cons by (rewrite <- Hp; by left); [done|].
      rewrite Forall_forall in Ha, Hb. specialize (Ha _ Hbl). specialize (Hb _ Hak). key_order. }
    f_equal. apply IH; [|done]. by apply Permutation_cons_inv in Hp.
Qed.

Section sort.
Context {Sch : Type} {HO : SchedulerOps Sch} {HQ : SchedulerQueue Sch}.

Lemma sort_with_ok evs :
  wf_events 0 evs ->
  exists l, sort_with Sch evs = Some l /\ l ≡ₚ evs /\ StronglySorted before l.
Proof using HQ.
  intros Hwf. unfold sort_with.
  destruct (fill_ok evs CreateScheduler 0 []) as (s&->&Hs);
    [apply create_ok|by rewrite app_nil_r|]. rewrite app_nil_r in Hs.
  by apply drain_sorted with 0.
Qed.

Lemma sort_without_ok {HR : SchedulerRemove Sch} ev evs :
  wf_events 0 evs -> ev ∈ evs ->
  exists l, sort_without Sch ev evs = Some l /\ ev :: l ≡ₚ evs /\ StronglySorted before l.
Proof.
  intros Hwf Hev. unfold sort_without.
  destruct (fill_ok evs CreateScheduler 0 []) as (s&->&Hs);
    [apply create_ok|by rewrite app_nil_r|]. rewrite app_nil_r in Hs.
  destruct (remove_ok s 0 evs ev Hs Hev) as (s'&es'&->&Hp&Hs').
  destruct (drain_sorted (length evs) s' 0 es' Hs') as (l&->&Hl&Hsort).
  { rewrite Hp. simpl. lia. }
  exists l. split_and!; [done|by rewrite Hl|done].
Qed.
End sort.

Lemma perm_rest (l evs k : list Event) ev : ev :: k ≡ₚ evs -> ev :: l ≡ₚ evs -> k ≡ₚ l.
Proof. intros H1 H2. apply (Permutation_cons_inv (a := ev)). by rewrite H1, H2. Qed.

(** [same_as ok] compares the result that [Ok] gives for a scheduler with the list at hand. *)
Ltac same_as ok :=
  destruct ok as (?&->&?&?); f_equal; apply sorted_unique; first [done|by etrans|by eapply perm_rest].

(** C3: All the scheduler classes return the same events in the same order: inserting any
    well-formed set of events and removing until the scheduler is empty gives the one sorted list,
    for the list, map, priority-queue, heap and both calendar schedulers. *)
Theorem schedulers_agree evs :
  wf_events 0 evs ->
  exists l, l ≡ₚ evs /\ StronglySorted before l /\
    sort_with ListScheduler.t evs = Some l /\
    sort_with MapScheduler.EventMap evs = Some l /\
    sort_with PriorityQueueScheduler.EventPriorityQueue evs = Some l /\
    sort_with HeapScheduler.BinaryHeap evs = Some l /\
    @sort_with _ (CalendarScheduler.ops false) evs = Some l /\
    @sort_with _ (CalendarScheduler.ops true) evs = Some l.
Proof.
  intros Hwf. destruct (sort_with_ok (Sch := ListScheduler.t) _ Hwf) as (l&Hl&Hp&Hs).
  exists l. split_and!; try done.
  - same_as (sort_with_ok (Sch := MapScheduler.EventMap) _ Hwf).
  - same_as (sort_with_ok (Sch := PriorityQueueScheduler.EventPriorityQueue) _ Hwf).
  - same_as (sort_with_ok (Sch := HeapScheduler.BinaryHeap) _ Hwf).
  - same_as (sort_with_ok (HO := CalendarScheduler.ops false) _ Hwf).
  - same_as (sort_with_ok (HO := CalendarScheduler.ops true) _ Hwf).
Qed.

(** C14: The list, map, priority-queue and both calendar schedulers still agree when a pending
    event is removed in between: they drain to the sorted list of the other events. *)
Theorem schedulers_agree_after_remove ev evs :
  wf_events 0 evs -> ev ∈ evs ->
  exists l, ev :: l ≡ₚ evs /\ StronglySorted before l /\
    sort_without ListScheduler.t ev evs = Some l /\
    sort_without MapScheduler.EventMap ev evs = Some l /\
    sort_without PriorityQueueScheduler.EventPriorityQueue ev evs = Some l /\
    @sort_without _ (CalendarScheduler.ops false) ev evs = Some l /\
    @sort_without _ (CalendarScheduler.ops true) ev evs = Some l.
Proof.
  intros Hwf Hev. destruct (sort_without_ok (Sch := ListScheduler.t) _ _ Hwf Hev) as (l&Hl&Hp&Hs).
  exists l. split_and!; try done.
  - same_as (sort_without_ok (Sch := MapScheduler.EventMap) _ _ Hwf Hev).
  - same_as (sort_without_ok (Sch := PriorityQueueScheduler.EventPriorityQueue) _ _ Hwf Hev).
  - same_as (sort_without_ok (HO := CalendarScheduler.ops false) _ _ Hwf Hev).
  - same_as (sort_without_ok (HO := CalendarScheduler.ops true) _ _ Hwf Hev).
Qed.

(** ** Witnesses *)
Definition four_events : list Event :=
  [mkEvent 1 (mkKey 30 4 0); mkEvent 2 (mkKey 10 5 0); mkEvent 3 (mkKey 30 6 0);
   mkEvent 4 (mkKey 20 7 0)].

Lemma four_events_wf : wf_events 0 four_events.
Proof.
  split; [vm_compute; repeat constructor; set_solver|].
  intros e He. set_unfold. unfold MAX_TS, UINT32_MAX. naive_solver lia.
Qed.

Lemma schedulers_agree_witness :
  exists l, l ≡ₚ four_events /\ StronglySorted before l /\
    sort_with ListScheduler.t four_events = Some l /\
    sort_with MapScheduler.EventMap four_events = Some l /\
    sort_with PriorityQueueScheduler.EventPriorityQueue four_events = Some l /\
    sort_with HeapScheduler.BinaryHeap four_events = Some l /\
    @sort_with _ (CalendarScheduler.ops false) four_events = Some l /\
    @sort_with _ (CalendarScheduler.ops true) four_events = Some l.
Proof. apply schedulers_agree, four_events_wf. Defined.

Lemma schedulers_agree_after_remove_witness :
  exists l, mkEvent 4 (mkKey 20 7 0) :: l ≡ₚ four_events /\ StronglySorted before l /\
    sort_without ListScheduler.t (mkEvent 4 (mkKey 20 7 0)) four_events = Some l /\
    sort_without MapScheduler.EventMap (mkEvent 4 (mkKey 20 7 0)) four_events = Some l /\
    sort_without PriorityQueueScheduler.EventPriorityQueue (mkEvent 4 (mkKey 20 7 0)) four_events
      = Some l /\
    @sort_without _ (CalendarScheduler.ops false) (mkEvent 4 (mkKey 20 7 0)) four_events = Some l /\
    @sort_without _ (CalendarScheduler.ops true) (mkEvent 4 (mkKey 20 7 0)) four_events = Some l.
Proof. apply schedulers_agree_after_remove; [apply four_events_wf|set_solver]. Defined.
