(* ===== verification/Simulator.v ===== *)
(** * DefaultSimulatorImpl ([src/core/model/default-simulator-impl.cc])

    The simulation engine over any scheduler, event identifiers ([event-id.h]), event
    implementations ([event-impl.cc]) and the main loop, with the user's callbacks as programs
    over the simulator's interface. *)

From S2P Require Import Sched.

(** ** Event identifiers *)

(** [EventId::UID] *)
Definition UID_INVALID : Z := 0.
Definition UID_NOW : Z := 1.
Definition UID_DESTROY : Z := 2.
Definition UID_RESERVED : Z := 3.
Definition UID_VALID : Z := 4.

(** [Simulator::NO_CONTEXT] *)
Definition NO_CONTEXT : Z := 4294967295.

Record EventId := mkEventId {
  m_eventImpl : Z;
  id_ts : Z;
  id_context : Z;
  id_uid : Z
}.

#[export] Instance EventId_eq_dec : EqDecision EventId.
Proof. solve_decision. Defined.

(** [operator==] on identifiers *)
Definition id_eq (a b : EventId) : bool :=
  (id_uid a =? id_uid b) && (id_context a =? id_context b) &&
  (id_ts a =? id_ts b) && (m_eventImpl a =? m_eventImpl b).

(** The entry another thread leaves in [m_eventsWithContext]. *)
Record EventWithContext := mkEventWithContext {
  ewc_context : Z;
  ewc_timestamp : Z;
  ewc_event : Z
}.

(** ** The engine's state

    [m_cancelled] is the set of [EventImpl] objects whose [m_cancel] flag is set.  Reference
    counts ([Ref], [Unref]) only free memory and have no counterpart. *)
Record Sim (Sch : Type) := mkSim {
  m_eventsWithContext : list EventWithContext;
  m_eventsWithContextEmpty : bool;
  m_destroyEvents : list EventId;
  m_stop : bool;
  m_events : Sch;
  m_uid : Z;
  m_currentUid : Z;
  m_currentTs : Z;
  m_currentContext : Z;
  m_eventCount : Z;
  m_unscheduledEvents : Z;
  m_cancelled : gset Z
}.
Arguments mkSim {Sch}.
Arguments m_eventsWithContext {Sch}.
Arguments m_eventsWithContextEmpty {Sch}.
Arguments m_destroyEvents {Sch}.
Arguments m_stop {Sch}.
Arguments m_events {Sch}.
Arguments m_uid {Sch}.
Arguments m_currentUid {Sch}.
Arguments m_currentTs {Sch}.
Arguments m_currentContext {Sch}.
Arguments m_eventCount {Sch}.
Arguments m_unscheduledEvents {Sch}.
Arguments m_cancelled {Sch}.

(** ** User callbacks

    [EventImpl::Notify] runs user code.  A callback is a program over the interface of the
    simulator, with the answers of the calls as continuations and a user state [U] that it reads
    at the start and returns at the end. *)
Inductive Prog (U : Type) : Type :=
  | Ret (u : U)
  | CallSchedule (delay ev : Z) (k : EventId -> Prog U)
  | CallScheduleNow (ev : Z) (k : EventId -> Prog U)
  | CallScheduleWithContext (context delay ev : Z) (k : Prog U)
  | CallScheduleDestroy (ev : Z) (k : EventId -> Prog U)
  | CallCancel (id : EventId) (k : Prog U)
  | CallRemove (id : EventId) (k : Prog U)
  | CallIsExpired (id : EventId) (k : bool -> Prog U)
  | CallGetDelayLeft (id : EventId) (k : Z -> Prog U)
  | CallNow (k : Z -> Prog U)
  | CallGetContext (k : Z -> Prog U)
  | CallStop (k : Prog U).
Arguments Ret {U}.
Arguments CallSchedule {U}.
Arguments CallScheduleNow {U}.
Arguments CallScheduleWithContext {U}.
Arguments CallScheduleDestroy {U}.
Arguments CallCancel {U}.
Arguments CallRemove {U}.
Arguments CallIsExpired {U}.
Arguments CallGetDelayLeft {U}.
Arguments CallNow {U}.
Arguments CallGetContext {U}.
Arguments CallStop {U}.

(** ** The operations *)
Section engine.
Context {Sch : Type} `{!SchedulerOps Sch}.

(** The constructor, and the scheduler [SetImplementation] installs. *)
Definition create : Sim Sch :=
  mkSim [] true [] false CreateScheduler UID_VALID UID_INVALID 0 NO_CONTEXT 0 0 ∅.

Definition set_events (q : Sch) (s : Sim Sch) : Sim Sch :=
  mkSim (m_eventsWithContext s) (m_eventsWithContextEmpty s) (m_destroyEvents s) (m_stop s) q
    (m_uid s) (m_currentUid s) (m_currentTs s) (m_currentContext s) (m_eventCount s)
    (m_unscheduledEvents s) (m_cancelled s).

Definition set_stop (b : bool) (s : Sim Sch) : Sim Sch :=
  mkSim (m_eventsWithContext s) (m_eventsWithContextEmpty s) (m_destroyEvents s) b (m_events s)
    (m_uid s) (m_currentUid s) (m_currentTs s) (m_currentContext s) (m_eventCount s)
    (m_unscheduledEvents s) (m_cancelled s).

Definition set_destroy (l : list EventId) (s : Sim Sch) : Sim Sch :=
  mkSim (m_eventsWithContext s) (m_eventsWithContextEmpty s) l (m_stop s) (m_events s)
    (m_uid s) (m_currentUid s) (m_currentTs s) (m_currentContext s) (m_eventCount s)
    (m_unscheduledEvents s) (m_cancelled s).

(** [m_uid++] *)
Definition incr_uid (s : Sim Sch) : Sim Sch :=
  mkSim (m_eventsWithContext s) (m_eventsWithContextEmpty s) (m_destroyEvents s) (m_stop s)
    (m_events s) (u32 (m_uid s + 1)) (m_currentUid s) (m_currentTs s) (m_currentContext s)
    (m_eventCount s) (m_unscheduledEvents s) (m_cancelled s).

(** [m_unscheduledEvents] is an [int]. *)
Definition add_unscheduled (d : Z) (s : Sim Sch) : Sim Sch :=
  mkSim (m_eventsWithContext s) (m_eventsWithContextEmpty s) (m_destroyEvents s) (m_stop s)
    (m_events s) (m_uid s) (m_currentUid s) (m_currentTs s) (m_currentContext s)
    (m_eventCount s) (i32 (m_unscheduledEvents s + d)) (m_cancelled s).

(** [EventImpl::Cancel] and [EventImpl::IsCancelled]. *)
Definition impl_Cancel (ev : Z) (s : Sim Sch) : Sim Sch :=
  mkSim (m_eventsWithContext s) (m_eventsWithContextEmpty s) (m_destroyEvents s) (m_stop s)
    (m_events s) (m_uid s) (m_currentUid s) (m_currentTs s) (m_currentContext s)
    (m_eventCount s) (m_unscheduledEvents s) ({[ev]} ∪ m_cancelled s).
Definition impl_IsCancelled (ev : Z) (s : Sim Sch) : bool := bool_decide (ev ∈ m_cancelled s).

Definition IsFinished (s : Sim Sch) : bool := IsEmpty (m_events s) || m_stop s.
Definition Stop (s : Sim Sch) : Sim Sch := set_stop true s.
Definition Now (s : Sim Sch) : Z := i64 (m_currentTs s).
Definition GetContext (s : Sim Sch) : Z := m_currentContext s.
Definition GetEventCount (s : Sim Sch) : Z := m_eventCount s.
Definition GetMaximumSimulationTime : Z := 9223372036854775807.

(** The common tail of the scheduling methods: number the event and insert it. *)
Definition insert_event (context tAbsolute ev : Z) (s : Sim Sch) : option (Event * Sim Sch) :=
  let e := mkEvent ev (mkKey (u64 tAbsolute) (m_uid s) context) in
  let s1 := add_unscheduled 1 (incr_uid s) in
  let! q := Insert e (m_events s1) in Some (e, set_events q s1).

Definition event_id (e : Event) : EventId :=
  mkEventId (impl e) (ts e) (Sched.m_context (key e)) (uid e).

(** [Schedule]: the delay is asserted not to be negative. *)
Definition Schedule (delay ev : Z) (s : Sim Sch) : option (EventId * Sim Sch) :=
  ASSERT 0 <=? delay ;;
  let tAbsolute := i64 (delay + i64 (m_currentTs s)) in
  let! (e, s') := insert_event (GetContext s) tAbsolute ev s in Some (event_id e, s').

(** [ScheduleWithContext] called from the main thread: no assertion on the delay. *)
Definition ScheduleWithContext (context delay ev : Z) (s : Sim Sch) : option (Sim Sch) :=
  let tAbsolute := i64 (delay + i64 (m_currentTs s)) in
  let! (_, s') := insert_event context tAbsolute ev s in Some s'.

(** [ScheduleWithContext] called from another thread, under the mutex. *)
Definition ScheduleWithContext_other (context delay ev : Z) (s : Sim Sch) : Sim Sch :=
  mkSim (m_eventsWithContext s ++ [mkEventWithContext context (u64 delay) ev]) false
    (m_destroyEvents s) (m_stop s) (m_events s) (m_uid s) (m_currentUid s) (m_currentTs s)
    (m_currentContext s) (m_eventCount s) (m_unscheduledEvents s) (m_cancelled s).

Definition ScheduleNow (ev : Z) (s : Sim Sch) : option (EventId * Sim Sch) := Schedule 0 ev s.

(** [Stop(delay)]: schedule [stopEvent], the event whose callback is [Simulator::Stop]. *)
Definition Stop_after (stopEvent delay : Z) (s : Sim Sch) : option (EventId * Sim Sch) :=
  Schedule delay stopEvent s.

Definition ScheduleDestroy (ev : Z) (s : Sim Sch) : EventId * Sim Sch :=
  let id := mkEventId ev (m_currentTs s) 4294967295 UID_DESTROY in
  (id, incr_uid (set_destroy (m_destroyEvents s ++ [id]) s)).

Definition IsExpired (id : EventId) (s : Sim Sch) : bool :=
  if id_uid id =? UID_DESTROY then
    if (m_eventImpl id =? 0) || impl_IsCancelled (m_eventImpl id) s then true
    else negb (existsb (fun i => id_eq i id) (m_destroyEvents s))
  else
    (m_eventImpl id =? 0) || (id_ts id <? m_currentTs s) ||
    ((id_ts id =? m_currentTs s) && (id_uid id <=? m_currentUid s)) ||
    impl_IsCancelled (m_eventImpl id) s.

Definition GetDelayLeft (id : EventId) (s : Sim Sch) : Z :=
  if IsExpired id s then 0 else i64 (u64 (id_ts id - m_currentTs s)).

Definition Cancel (id : EventId) (s : Sim Sch) : Sim Sch :=
  if negb (IsExpired id s) then impl_Cancel (m_eventImpl id) s else s.

(** [Simulator::Remove]: a destroy event leaves its list; an expired event is ignored; another one
    leaves the scheduler and is cancelled. *)
Definition remove_event (id : EventId) (s : Sim Sch) : option (Sim Sch) :=
  if id_uid id =? UID_DESTROY then
    match erase_first (fun i => id_eq i id) (m_destroyEvents s) with
    | Some (_, l) => Some (set_destroy l s)
    | None => Some s
    end
  else if IsExpired id s then Some s
  else
    let event := mkEvent (m_eventImpl id) (mkKey (id_ts id) (id_uid id) (id_context id)) in
    let! q := Remove event (m_events s) in
    Some (add_unscheduled (-1) (impl_Cancel (impl event) (set_events q s))).

(** [ProcessEventsWithContext]: swap the queue out, then number and insert its entries. *)
Fixpoint insert_with_context (l : list EventWithContext) (s : Sim Sch) : option (Sim Sch) :=
  match l with
  | [] => Some s
  | w :: l =>
      let! (_, s') :=
        insert_event (ewc_context w) (m_currentTs s + ewc_timestamp w) (ewc_event w) s in
      insert_with_context l s'
  end.

Definition ProcessEventsWithContext (s : Sim Sch) : option (Sim Sch) :=
  if m_eventsWithContextEmpty s then Some s
  else
    let pending := m_eventsWithContext s in
    let s1 := mkSim [] true (m_destroyEvents s) (m_stop s) (m_events s) (m_uid s)
      (m_currentUid s) (m_currentTs s) (m_currentContext s) (m_eventCount s)
      (m_unscheduledEvents s) (m_cancelled s) in
    insert_with_context pending s1.

(** The loop of [SetScheduler]: move every event to the new scheduler. *)
Fixpoint transfer {Sch' : Type} `{!SchedulerOps Sch'} (fuel : nat) (q : Sch) (q' : Sch')
    : option Sch' :=
  if IsEmpty q then Some q'
  else match fuel with
       | O => None
       | S fuel =>
           let! (next, q1) := RemoveNext q in
           let! q2 := Insert next q' in transfer fuel q1 q2
       end.

(** [DoDispose]: take the events of other threads in, then empty the scheduler; the result is the
    list of events released, in order. *)
Definition DoDispose (fuel : nat) (s : Sim Sch) : option (list Event) :=
  let! s1 := ProcessEventsWithContext s in drain fuel (m_events s1).

(** The bookkeeping of [ProcessOneEvent] before [Invoke]. *)
Definition begin_event (s : Sim Sch) : option (Event * Sim Sch) :=
  let! (next, q) := RemoveNext (m_events s) in
  ASSERT m_currentTs s <=? ts next ;;
  Some (next,
    mkSim (m_eventsWithContext s) (m_eventsWithContextEmpty s) (m_destroyEvents s) (m_stop s) q
      (m_uid s) (uid next) (ts next) (Sched.m_context (key next)) (u64 (m_eventCount s + 1))
      (i32 (m_unscheduledEvents s - 1)) (m_cancelled s)).

(** A callback runs to its end. *)
Fixpoint run_prog {U : Type} (p : Prog U) (s : Sim Sch) : option (U * Sim Sch) :=
  match p with
  | Ret u => Some (u, s)
  | CallSchedule delay ev k => let! (id, s') := Schedule delay ev s in run_prog (k id) s'
  | CallScheduleNow ev k => let! (id, s') := ScheduleNow ev s in run_prog (k id) s'
  | CallScheduleWithContext context delay ev k =>
      let! s' := ScheduleWithContext context delay ev s in run_prog k s'
  | CallScheduleDestroy ev k => let (id, s') := ScheduleDestroy ev s in run_prog (k id) s'
  | CallCancel id k => run_prog k (Cancel id s)
  | CallRemove id k => let! s' := remove_event id s in run_prog k s'
  | CallIsExpired id k => run_prog (k (IsExpired id s)) s
  | CallGetDelayLeft id k => run_prog (k (GetDelayLeft id s)) s
  | CallNow k => run_prog (k (Now s)) s
  | CallGetContext k => run_prog (k (GetContext s)) s
  | CallStop k => run_prog k (Stop s)
  end.

(** *** The main loop

    [notify] is the user code, by event implementation.  [arrivals n] are the calls to
    [ScheduleWithContext] other threads complete while the [n]-th event runs. *)
Context {U : Type} (notify : Z -> U -> Prog U) (arrivals : Z -> list EventWithContext).

(** [EventImpl::Invoke] *)
Definition Invoke (ev : Z) (u : U) (s : Sim Sch) : option (U * Sim Sch) :=
  if impl_IsCancelled ev s then Some (u, s) else run_prog (notify ev u) s.

Fixpoint other_threads (l : list EventWithContext) (s : Sim Sch) : Sim Sch :=
  match l with
  | [] => s
  | w :: l =>
      other_threads l (ScheduleWithContext_other (ewc_context w) (ewc_timestamp w) (ewc_event w) s)
  end.

Definition ProcessOneEvent (u : U) (s : Sim Sch) : option (Event * U * Sim Sch) :=
  let! (next, s1) := begin_event s in
  let! (u', s2) := Invoke (impl next) u s1 in
  let s3 := other_threads (arrivals (m_eventCount s2)) s2 in
  let! s4 := ProcessEventsWithContext s3 in
  Some (next, u', s4).

(** The while loop of [Run], for at most [fuel] events: the events executed, in order, and
    whether the loop has ended. *)
Fixpoint Run_loop (fuel : nat) (u : U) (s : Sim Sch) : option (list Event * bool * U * Sim Sch) :=
  if IsEmpty (m_events s) || m_stop s then Some ([], true, u, s)
  else match fuel with
       | O => Some ([], false, u, s)
       | S fuel =>
           let! (e, u1, s1) := ProcessOneEvent u s in
           let! (l, ended, u2, s2) := Run_loop fuel u1 s1 in
           Some (e :: l, ended, u2, s2)
       end.

Definition Run (fuel : nat) (u : U) (s : Sim Sch) : option (list Event * bool * U * Sim Sch) :=
  let! s1 := ProcessEventsWithContext s in
  let! (l, ended, u', s2) := Run_loop fuel u (set_stop false s1) in
  ASSERT negb ended || negb (IsEmpty (m_events s2)) || (m_unscheduledEvents s2 =? 0) ;;
  Some (l, ended, u', s2).

(** [Destroy]: invoke the destroy events that are not cancelled, in order; a callback may add
    more. *)
Fixpoint Destroy (fuel : nat) (u : U) (s : Sim Sch) : option (U * Sim Sch) :=
  match m_destroyEvents s with
  | [] => Some (u, s)
  | id :: rest =>
      match fuel with
      | O => None
      | S fuel =>
          let! (u1, s1) := Invoke (m_eventImpl id) u (set_destroy rest s) in Destroy fuel u1 s1
      end
  end.
End engine.

(** [SetScheduler] on an engine that already holds events. *)
Definition SetScheduler {Sch Sch' : Type} `{!SchedulerOps Sch, !SchedulerOps Sch'}
    (fuel : nat) (s : Sim Sch) : option (Sim Sch') :=
  let! q := transfer fuel (m_events s) CreateScheduler in
  Some (mkSim (m_eventsWithContext s) (m_eventsWithContextEmpty s) (m_destroyEvents s)
    (m_stop s) q (m_uid s) (m_currentUid s) (m_currentTs s) (m_currentContext s)
    (m_eventCount s) (m_unscheduledEvents s) (m_cancelled s)).
