(* ===== verification/SimRun.v ===== *)
(** * Executions of the engine

    The two theorems of the main loop: an execution on any lawful scheduler is the one on the
    ideal scheduler, and programs with bounded callbacks run in time order without failing an
    assertion.  [SetScheduler], [Destroy] and the life of an event identifier follow. *)

From S2P Require Import Sched SortedScheds Simulator SimSpec.

(** ** The main loop on the ideal scheduler *)
Section loop.
Context {U : Type} (notify : Z -> U -> Prog U) (arrivals : Z -> list EventWithContext).
Context (K A : nat) (D : Z) (HD : 0 <= D).
Context (Hnotify : forall ev u, bounded K D (notify ev u)).
Context (Harrivals : forall n, (length (arrivals n) <= A)%nat /\
  forall w, w ∈ arrivals n -> 0 <= ewc_timestamp w <= D).

(** No entry of another thread is waiting. *)
Definition quiet (s : Sim Ideal) : Prop :=
  m_eventsWithContext s = [] /\ m_eventsWithContextEmpty s = true.

Lemma insert_with_context_ok T l s :
  T + D < MAX_TS -> mid D T s -> m_uid s + Z.of_nat (length l) <= UINT32_MAX ->
  (forall w, w ∈ l -> 0 <= ewc_timestamp w <= D) ->
  exists s', insert_with_context l s = Some s' /\ mid D T s' /\
    m_uid s' = m_uid s + Z.of_nat (length l) /\ same_clock s s'.
Proof using HD.
  intros HT. revert s. induction l as [|w l IH]; intros s Hm Hu Hl; cbn [insert_with_context length].
  - exists s. split_and!; [done|done|simpl; lia|done..].
  - simpl in Hu.
    destruct (mid_insert D T HD HT (ewc_context w) (ewc_timestamp w) (ewc_event w) s)
      as (e&s1&->&Hm1&Hu1&Hc1); [done|lia|apply Hl; by left|].
    destruct (IH s1) as (s'&->&?&?&?); [done|lia|intros; apply Hl; by right|].
    exists s'. split_and!; [done|done|simpl; lia|by etrans].
Qed.

Lemma other_threads_spec l (s : Sim Ideal) T :
  (forall w, w ∈ l -> 0 <= ewc_timestamp w < MAX_TS) -> mid D T s ->
  mid D T (other_threads l s) /\ m_uid (other_threads l s) = m_uid s /\
  m_eventsWithContext (other_threads l s) = m_eventsWithContext s ++ l /\
  m_eventsWithContextEmpty (other_threads l s) = (if l then m_eventsWithContextEmpty s else false).
Proof using Type.
  revert s. induction l as [|[c t v] l IH]; intros s Hl Hm; simpl; [by rewrite app_nil_r|].
  assert (0 <= t < MAX_TS) as Ht by (apply (Hl (mkEventWithContext c t v)); by left).
  unfold MAX_TS in Ht.
  destruct (IH (ScheduleWithContext_other c t v s)) as (?&?&->&->);
    [intros; apply Hl; by right|by eapply mid_frame|].
  split_and!; try done.
  - simpl. rewrite u64_small by lia. by rewrite <- (assoc_L (++)).
  - by destruct l.
Qed.

Lemma begin_event_ok s T :
  sim_inv s -> events_below T s -> sp_events (m_events s) <> [] -> T + D < MAX_TS ->
  exists e s', begin_event s = Some (e, s') /\ e ∈ sp_events (m_events s) /\ mid D T s' /\
    m_currentTs s' = ts e /\ m_currentUid s' = uid e /\ m_uid s' = m_uid s /\
    m_eventsWithContext s' = m_eventsWithContext s /\
    m_eventsWithContextEmpty s' = m_eventsWithContextEmpty s.
Proof using HD.
  intros [Hwf Hs Hck Hnow Hl Hu Hc] Hb Hne HT. unfold begin_event. simpl. unfold ideal_RemoveNext.
  destruct (sp_events (m_events s)) as [|e es] eqn:E; [done|]. simpl in *.
  destruct (Hl e) as [Hle Hue]; [by left|].
  rewrite (proj2 (Z.leb_le _ _)) by (unfold key_before in Hle; simpl in Hle; lia).
  apply StronglySorted_inv in Hs as [Hs Hf]. rewrite Forall_forall in Hf.
  assert (wf_events (ts e) es) as Hwf'.
  { eapply wf_events_advance; [done|]. by apply is_min_cons_sorted. }
  assert (ts e < MAX_TS /\ 0 <= uid e) as [??] by (destruct Hwf as [_ Hwf]; destruct (Hwf e); [by left|lia]).
  assert (ts e <= T) by (apply Hb; rewrite E; by left).
  eexists e, _. split; [done|]. split_and!; [by left| |done..]. split_and!.
  - split; simpl; try done.
    + destruct Hle as [?|[? _]]; simpl in *; lia.
    + intros e' He'. specialize (Hf _ He'). destruct (Hl e') as [_ ?]; [by right|].
      split; [|done]. destruct e' as [? [? ? ?]], e as [? [? ? ?]]. key_order.
    + rewrite Hc. unfold Z.sub at 1. rewrite i32_add. f_equal. lia.
  - done.
  - intros e' He'. simpl in He'. assert (ts e' <= T) by (apply Hb; rewrite E; by right). lia.
Qed.

Lemma ProcessOneEvent_ok s u T :
  sim_inv s -> quiet s -> events_below T s -> sp_events (m_events s) <> [] -> T + D < MAX_TS ->
  m_uid s + Z.of_nat (K + A) <= UINT32_MAX ->
  exists e u' s', ProcessOneEvent notify arrivals u s = Some (e, u', s') /\
    e ∈ sp_events (m_events s) /\ mid D T s' /\ quiet s' /\
    m_currentTs s' = ts e /\ m_currentUid s' = uid e /\
    m_uid s' <= m_uid s + Z.of_nat (K + A).
Proof using HD Hnotify Harrivals.
  intros Hi [Hq1 Hq2] Hb Hne HT Hu. unfold ProcessOneEvent.
  destruct (begin_event_ok s T) as (e&s1&->&He&Hm1&Ht1&Hc1&Hu1&Hw1&Hw1'); try done.
  assert (exists u' s2, Invoke notify (impl e) u s1 = Some (u', s2) /\ mid D T s2 /\
    m_uid s2 <= m_uid s1 + Z.of_nat K /\ same_clock s1 s2) as (u'&s2&->&Hm2&Hu2&Hc2).
  { unfold Invoke. destruct (impl_IsCancelled _ _).
    - exists u, s1. split_and!; [done|done|lia|done..].
    - apply bounded_run_prog; [done|done|done|done|lia]. }
  destruct (Harrivals (m_eventCount s2)) as [Hlen Hts].
  destruct Hc2 as (Hct&Hcu&Hcw&Hcw').
  assert (m_currentTs s <= T + D).
  { destruct Hm1 as [Hi1 [Hle _]]. destruct (inv_later _ Hi e He) as [Hk _].
    unfold key_before in Hk. simpl in Hk. lia. }
  assert (0 <= m_currentTs s) by (destruct (inv_clock _ Hi); lia).
  destruct (other_threads_spec (arrivals (m_eventCount s2)) s2 T) as (Hm3&Hu3&Hw3&Hw3'); [|done|].
  { intros w Hw. specialize (Hts w Hw). unfold events_below in Hb.
    destruct (inv_later _ Hi e He) as [Hk _]. specialize (Hb e He). unfold key_before in Hk.
    simpl in Hk. lia. }
  set (s3 := other_threads _ _) in *.
  assert (m_currentTs s3 = ts e /\ m_currentUid s3 = uid e) as [Ht3 Hc3].
  { rewrite <- Ht1, <- Hc1, <- Hct, <- Hcu. subst s3. clear. generalize (arrivals (m_eventCount s2)).
    intros l. revert s2. induction l as [|w l IH]; intros s2; simpl; [done|].
    destruct (IH (ScheduleWithContext_other (ewc_context w) (ewc_timestamp w) (ewc_event w) s2))
      as [-> ->]. done. }
  unfold ProcessEventsWithContext.
  rewrite Hw3, Hw3', Hcw, Hcw', Hw1, Hw1', Hq1, Hq2. simpl.
  destruct (arrivals (m_eventCount s2)) as [|w l] eqn:E.
  - exists e, u', s3. split_and!; try done; [|lia].
    split; [rewrite Hw3, app_nil_r|rewrite Hw3']; simpl; congruence.
  - match goal with |- context [insert_with_context _ ?s] => set (s4 := s) end.
    destruct (insert_with_context_ok T (w :: l) s4) as (s5&->&Hm5&Hu5&(Ht5&Hc5&Hw5&Hw5')); try done.
    { by eapply mid_frame. }
    { subst s4. simpl m_uid. rewrite Hu3. simpl in *. lia. }
    exists e, u', s5. split_and!; [done|done|done|by split|by etrans|by etrans|].
      rewrite Hu5. subst s4. simpl m_uid. rewrite Hu3. simpl in *. lia.
Qed.

Definition clock_key (s : Sim Ideal) : EventKey := mkKey (m_currentTs s) (m_currentUid s) 0.

Lemma Run_loop_ok n u s T :
  sim_inv s -> quiet s -> events_below T s -> 0 <= T -> m_currentTs s <= T ->
  T + Z.of_nat n * D < MAX_TS -> m_uid s + Z.of_nat n * Z.of_nat (K + A) <= UINT32_MAX ->
  exists l ended u' s', Run_loop notify arrivals n u s = Some (l, ended, u', s') /\
    sim_inv s' /\ StronglySorted before l /\ (forall e, e ∈ l -> key_before (clock_key s) (key e)) /\
    (if ended then sp_events (m_events s') = [] \/ m_stop s' = true else length l = n).
Proof using HD Hnotify Harrivals.
  revert u s T. induction n as [|n IH]; intros u s T Hi Hq Hb HT0 Ht HT Hu;
    cbn [Run_loop IsEmpty ideal_ops]; unfold ideal_IsEmpty;
    (case_bool_decide as Hemp; [|destruct (m_stop s) eqn:Hstop]); simpl orb; cbv iota.
  1,2,4,5: exists [], true, u, s; split_and!; auto;
    [constructor|by intros e ?%elem_of_nil].
  { exists [], false, u, s; split_and!; auto; [constructor|by intros e ?%elem_of_nil]. }
  destruct (ProcessOneEvent_ok s u T) as (e&u1&s1&->&He&(Hi1&Ht1&Hb1)&Hq1&Hct&Hcu&Hu1);
    try done; [nia|nia|].
  destruct (IH u1 s1 (T + D)) as (l&ended&u'&s'&->&Hi'&Hs'&Hl&Hend); try done; [lia|lia|nia|nia|].
  exists (e :: l), ended, u', s'. destruct (inv_later _ Hi e He) as [Hk _].
  assert (forall e', e' ∈ l -> before e e') as Hbef.
  { intros e' He'. specialize (Hl e' He'). unfold clock_key in Hl. rewrite Hct, Hcu in Hl.
    clear -Hl. unfold before, key_before in *. simpl in *. lia. }
  split_and!; [done|done| | |].
  - constructor; [done|]. by apply Forall_forall.
  - intros e' [->|He']%elem_of_cons; [done|]. eapply key_before_trans; [done|]. by apply Hbef.
  - destruct ended; [done|]. simpl. by rewrite Hend.
Qed.
End loop.

(** ** Executions on any scheduler *)
Section run.
Context {Sch : Type} {HO : SchedulerOps Sch} {HQ : SchedulerQueue Sch} {HR : SchedulerRemove Sch}.
Context {U : Type} (notify : Z -> U -> Prog U) (arrivals : Z -> list EventWithContext).

Lemma rel_Run fuel u (s : Sim Sch) s' l ended u1 s1' :
  sim_rel s s' -> Run notify arrivals fuel u s' = Some (l, ended, u1, s1') ->
  exists s1, Run notify arrivals fuel u s = Some (l, ended, u1, s1) /\ sim_rel s1 s1'.
Proof using HR.
  intros Hs. unfold Run.
  destruct (ProcessEventsWithContext s') as [s2'|] eqn:E1; [|done].
  destruct (rel_ProcessEventsWithContext _ _ _ Hs E1) as (s2&->&Hs2).
  assert (sim_rel (set_stop false s2) (set_stop false s2')) as Hs3
    by (destruct Hs2; by constructor).
  destruct (Run_loop _ _ _ _ (set_stop false s2')) as [[[[l' en] u3] s3']|] eqn:E2; [|done].
  destruct (rel_Run_loop _ _ _ _ _ _ _ _ _ _ Hs3 E2) as (s3&->&Hs4).
  replace (IsEmpty (m_events s3)) with (IsEmpty (m_events s3'))
    by (destruct Hs4; symmetry; by apply sp_rel_empty).
  replace (m_unscheduledEvents s3) with (m_unscheduledEvents s3') by by destruct Hs4.
  destruct (_ || _); [|done]. intros [= <- <- <- <-]. eauto.
Qed.

(** [ScheduleDestroy] and [Destroy] *)
Lemma rel_Destroy fuel u (s : Sim Sch) s' u1 s1' :
  sim_rel s s' -> Destroy notify fuel u s' = Some (u1, s1') ->
  exists s1, Destroy notify fuel u s = Some (u1, s1) /\ sim_rel s1 s1'.
Proof using HR.
  revert u s s'. induction fuel as [|fuel IH]; intros u s s' Hs; cbn [Destroy];
    replace (m_destroyEvents s) with (m_destroyEvents s') by (by destruct Hs);
    destruct (m_destroyEvents s') as [|id rest] eqn:Ed; try (intros [= <- <-]; by eauto); try done.
  assert (sim_rel (set_destroy rest s) (set_destroy rest s')) as Hs1
    by (destruct Hs; by constructor).
  destruct (Invoke notify _ u _) as [[u2 s2']|] eqn:E; [|done].
  destruct (rel_Invoke _ _ _ _ _ _ _ Hs1 E) as (s2&->&Hs2). by apply IH.
Qed.

(** The whole program: [main] builds the initial events, [Run] executes them, [Destroy] ends. *)
Definition program {Sch' : Type} `{SchedulerOps Sch'} (main : Prog U) (fuel : nat)
    : option (list Event * bool * U * Sim Sch') :=
  let! (u, s) := run_prog main create in
  let! (l, ended, u1, s1) := Run notify arrivals fuel u s in
  let! (u2, s2) := Destroy notify fuel u1 s1 in Some (l, ended, u2, s2).


End run.

(** ** Replacing the scheduler of a running engine *)
Section transfer.
Context {Sch Sch' : Type} {HO : SchedulerOps Sch} {HQ : SchedulerQueue Sch}.
Context {HO' : SchedulerOps Sch'} {HQ' : SchedulerQueue Sch'}.

Lemma transfer_ok fuel (q : Sch) (q' : Sch') t es es' :
  sch_rep q t es -> sch_rep q' 0 es' -> wf_events 0 (es ++ es') -> (length es <= fuel)%nat ->
  exists q'', transfer fuel q q' = Some q'' /\ sch_rep q'' 0 (es ++ es').
Proof using Type.
  revert q q' t es es'. induction fuel as [|fuel IH]; intros q q' t es es' Hq Hq' Hwf Hlen;
    cbn [transfer]; rewrite (is_empty_ok _ _ _ Hq); (case_bool_decide as He; [subst; eauto|]).
  - destruct es; [done|simpl in Hlen; lia].
  - destruct (remove_next_ok _ _ _ Hq He) as (e&q1&es1&->&Hp&_&Hq1).
    assert (wf_events 0 (e :: es1 ++ es')) as Hwf1 by by rewrite <- (Permutation_app_tail es' Hp).
    destruct (insert_ok q' 0 es' e) as (q2&->&Hq2); [done|..].
    { destruct Hwf1 as [Hu Hb]. split; [|apply Hb; by left].
      apply unique_uids_cons in Hu as [Hn _]. unfold uids in *. rewrite fmap_app in Hn.
      intros Hin. apply Hn, elem_of_app. by right. }
    destruct (IH q1 q2 (ts e) es1 (e :: es')) as (q''&->&Hq''); [done|done| | |].
    + by rewrite <- Permutation_middle.
    + rewrite Hp in Hlen. simpl in Hlen. lia.
    + exists q''. split; [done|]. eapply sch_rep_perm; [|done].
      rewrite <- Permutation_middle. by rewrite (Permutation_app_tail es' Hp).
Qed.

(** C15: Replacing the scheduler of a running engine moves every pending event and relates the new
    engine to the same ideal engine: nothing a program can observe changes. *)
Theorem SetScheduler_transparent fuel (s : Sim Sch) s' :
  sim_rel s s' -> 0 <= sp_clock (m_events s') ->
  (length (sp_events (m_events s')) <= fuel)%nat ->
  exists s1 : Sim Sch', SetScheduler fuel s = Some s1 /\ sim_rel s1 s'.
Proof using Type.
  intros [a b c d q i e f g h j k l [Hr Hs]]. simpl. intros Hck Hlen. unfold SetScheduler. simpl.
  pose proof (sch_rep_wf _ _ _ Hr) as Hwf.
  destruct (transfer_ok fuel q CreateScheduler _ _ [] Hr create_ok) as (q'&->&Hq'); [|done|].
  { rewrite app_nil_r. by eapply wf_events_weaken. }
  rewrite app_nil_r in Hq'. eexists. split; [done|]. constructor. split; [|done].
  by eapply sch_rep_advance.
Qed.
End transfer.

(** ** The life of an event *)

(** [ev] is pending under the identifier [id]. *)
Definition pending (id : EventId) (s : Sim Ideal) : Prop :=
  exists e, e ∈ sp_events (m_events s) /\ event_id e = id.

Lemma pending_not_expired id s :
  sim_inv s -> pending id s -> UID_DESTROY < id_uid id -> m_eventImpl id <> 0 ->
  IsExpired id s = impl_IsCancelled (m_eventImpl id) s.
Proof.
  intros Hi (e&He&<-) Hu Hn. destruct (inv_later _ Hi e He) as [Hk _].
  unfold IsExpired. simpl in *. unfold UID_DESTROY in *. unfold key_before in Hk. simpl in Hk.
  rewrite (proj2 (Z.eqb_neq _ 2)) by lia. rewrite (proj2 (Z.eqb_neq _ 0)) by done.
  rewrite (proj2 (Z.ltb_ge _ _)) by lia. simpl.
  destruct (_ && _) eqn:E; [|done]. norm_bool. lia.
Qed.



(** ** Witnesses: a periodic timer on the map scheduler *)
Definition tick (ev : Z) (n : Z) : Prog Z := CallSchedule 10 ev (fun _ => Ret (n + 1)).
Definition start : Prog Z := CallSchedule 5 1 (fun _ => CallSchedule 0 2 (fun _ => Ret 0)).



(** An engine with two events, at 5 and 7, numbered 4 and 5. *)
Definition two_events : Sim Ideal :=
  mkSim [] true [] false
    (mkIdeal [mkEvent 1 (mkKey 5 4 NO_CONTEXT); mkEvent 2 (mkKey 7 5 NO_CONTEXT)] 0)
    6 0 0 NO_CONTEXT 0 2 ∅.

Lemma two_events_inv : sim_inv two_events.
Proof.
  split.
  - split; [vm_compute; repeat constructor; set_solver|].
    intros e He. set_unfold. unfold MAX_TS, UINT32_MAX. destruct He as [->|[->|[]]]; simpl; lia.
  - by repeat constructor.
  - done.
  - done.
  - intros e He. set_unfold. unfold key_before. destruct He as [->|[->|[]]]; simpl; lia.
  - done.
  - done.
Qed.

Lemma SetScheduler_transparent_witness :
  exists (s : Sim ListScheduler.t) (s1 : Sim MapScheduler.EventMap),
    SetScheduler 2 s = Some s1 /\ sim_rel s1 two_events.
Proof.
  eexists (mkSim [] true [] false [mkEvent 1 (mkKey 5 4 NO_CONTEXT); mkEvent 2 (mkKey 7 5 NO_CONTEXT)]
    6 0 0 NO_CONTEXT 0 2 ∅).
  apply SetScheduler_transparent; [|done|simpl; lia].
  constructor. split; [|apply two_events_inv].
  refine (conj _ (conj _ _)); [done|apply two_events_inv..].
Defined.


