(* ===== verification/Buffer.v ===== *)
(** * Buffer ([src/network/model/buffer.cc], [buffer.h])

    Packet bytes: reference-counted blocks shared by several [Buffer] objects, each of which sees
    a window of its block with a virtual area of zeroes inside.  This file translates the class;
    [BufferSpec.v] and [BufferIter.v] prove it against lists of bytes. *)

From S2P Require Export Prelude.

(** ** Raw memory *)

(** A block's bytes, with indices in [Z]. *)
Definition get (l : list Z) (i : Z) : Z := default 0 (l !! Z.to_nat i).
Definition put (l : list Z) (i v : Z) : list Z := <[Z.to_nat i := v]> l.

(** [memcpy] of [src] to offset [off]. *)
Definition blit (l : list Z) (off : Z) (src : list Z) : list Z :=
  take (Z.to_nat off) l ++ src ++ drop (Z.to_nat off + length src) l.

(** [n] bytes from offset [off]. *)
Definition slice (l : list Z) (off n : Z) : list Z := take (Z.to_nat n) (drop (Z.to_nat off) l).
Definition slice_at (l : list Z) (off n : Z) : option (list Z) :=
  if n <=? 0 then Some []
  else ASSERT (0 <=? off) && (off + n <=? Z.of_nat (length l)) ;; Some (slice l off n).

(** ** Data *)

(** [struct Buffer::Data]; [m_bytes] is its array [m_data], of [m_size] bytes. *)
Record Data := mkData {
  m_count : Z;
  m_size : Z;
  m_dirtyStart : Z;
  m_dirtyEnd : Z;
  m_bytes : list Z
}.

(** [class Buffer]; a pointer to a block is its number. *)
Record Buffer := mkBuffer {
  m_data : Z;
  m_maxZeroAreaStart : Z;
  m_zeroAreaStart : Z;
  m_zeroAreaEnd : Z;
  m_start : Z;
  m_end : Z
}.

(** The three states of [g_freeList]; the head of the list is the back of the vector. *)
Inductive FreeList :=
  | UNINITIALIZED
  | INITIALIZED (l : list Z)
  | DESTROYED.

(** The blocks and the static members of the class.  [m_next] numbers the next block; [m_junk] is
    the content of the memory that [new] returns, by block and index. *)
Record Mem := mkMem {
  m_heap : gmap Z Data;
  m_next : Z;
  m_junk : Z -> Z -> Z;
  g_recommendedStart : Z;
  g_maxSize : Z;
  g_freeList : FreeList
}.

Definition set_heap (h : gmap Z Data) (m : Mem) : Mem :=
  mkMem h (m_next m) (m_junk m) (g_recommendedStart m) (g_maxSize m) (g_freeList m).
Definition set_freeList (l : FreeList) (m : Mem) : Mem :=
  mkMem (m_heap m) (m_next m) (m_junk m) (g_recommendedStart m) (g_maxSize m) l.
Definition set_maxSize (n : Z) (m : Mem) : Mem :=
  mkMem (m_heap m) (m_next m) (m_junk m) (g_recommendedStart m) n (g_freeList m).
Definition set_recommendedStart (n : Z) (m : Mem) : Mem :=
  mkMem (m_heap m) (m_next m) (m_junk m) n (g_maxSize m) (g_freeList m).

Definition set_count (n : Z) (d : Data) : Data :=
  mkData n (m_size d) (m_dirtyStart d) (m_dirtyEnd d) (m_bytes d).
Definition set_dirty (s e : Z) (d : Data) : Data :=
  mkData (m_count d) (m_size d) s e (m_bytes d).
Definition set_bytes (l : list Z) (d : Data) : Data :=
  mkData (m_count d) (m_size d) (m_dirtyStart d) (m_dirtyEnd d) l.

(** [new uint8_t[...]] and the static members before the first buffer. *)
Definition initial_mem (junk : Z -> Z -> Z) : Mem := mkMem ∅ 0 junk 0 0 UNINITIALIZED.

(** Replace a block that exists. *)
Definition update (p : Z) (f : Data -> Data) (m : Mem) : option Mem :=
  let! d := m_heap m !! p in Some (set_heap (<[p := f d]> (m_heap m)) m).

(** Reads and writes of a block, within its bounds; writing nothing is always possible. *)
Definition load (p i : Z) (m : Mem) : option Z :=
  let! d := m_heap m !! p in
  ASSERT (0 <=? i) && (i <? m_size d) ;; Some (get (m_bytes d) i).
Definition load_range (p off n : Z) (m : Mem) : option (list Z) :=
  let! d := m_heap m !! p in slice_at (m_bytes d) off n.
Definition store (p off : Z) (l : list Z) (m : Mem) : option Mem :=
  match l with
  | [] => Some m
  | _ =>
      let! d := m_heap m !! p in
      ASSERT (0 <=? off) && (off + Z.of_nat (length l) <=? m_size d) ;;
      update p (set_bytes (blit (m_bytes d) off l)) m
  end.

#[global] Arguments store : simpl never.

(** [memcpy] of [n] bytes of block [src] at [soff] to block [dst] at [doff]. *)
Definition memcpy (dst doff src soff n : Z) (m : Mem) : option Mem :=
  if n =? 0 then Some m
  else
    let! s := m_heap m !! src in
    ASSERT (0 <=? soff) && (soff + n <=? m_size s) ;;
    store dst doff (slice (m_bytes s) soff n) m.

(** ** Allocation *)
Definition ALLOC_OVER_PROVISION : Z := 100.

(** The new block's dirty bounds are not initialised here: every caller sets them. *)
Definition Allocate (reqSize : Z) (m : Mem) : Z * Mem :=
  let reqSize := (if reqSize =? 0 then 1 else reqSize) ⊕ ALLOC_OVER_PROVISION in
  let d := mkData 1 reqSize 0 0 ((fun i => u8 (m_junk m (m_next m) i)) <$> seqZ 0 reqSize) in
  (m_next m,
   mkMem (<[m_next m := d]> (m_heap m)) (m_next m + 1) (m_junk m) (g_recommendedStart m)
     (g_maxSize m) (g_freeList m)).

Definition Deallocate (p : Z) (m : Mem) : option Mem :=
  let! d := m_heap m !! p in
  ASSERT m_count d =? 0 ;; Some (set_heap (delete p (m_heap m)) m).

(** [Recycle]: keep the block in the free list if it is among the largest. *)
Definition Recycle (p : Z) (m : Mem) : option Mem :=
  let! d := m_heap m !! p in
  ASSERT m_count d =? 0 ;;
  let maxSize := Z.max (g_maxSize m) (m_size d) in
  let m1 := set_maxSize maxSize m in
  match g_freeList m with
  | UNINITIALIZED => None
  | DESTROYED => Deallocate p m1
  | INITIALIZED l =>
      if (m_size d <? maxSize) || (1000 <? Z.of_nat (length l)) then Deallocate p m1
      else Some (set_freeList (INITIALIZED (p :: l)) m1)
  end.

(** [Create]: the last block of the free list that is large enough; smaller ones are freed. *)
Fixpoint Create_loop (l : list Z) (dataSize : Z) (m : Mem) : option (Z * Mem) :=
  match l with
  | [] => Some (Allocate dataSize (set_freeList (INITIALIZED []) m))
  | p :: l =>
      let! d := m_heap m !! p in
      if dataSize <=? m_size d then
        let! m1 := update p (set_count 1) (set_freeList (INITIALIZED l) m) in Some (p, m1)
      else let! m1 := Deallocate p m in Create_loop l dataSize m1
  end.

Definition Create (dataSize : Z) (m : Mem) : option (Z * Mem) :=
  match g_freeList m with
  | UNINITIALIZED => Some (Allocate dataSize (set_freeList (INITIALIZED []) m))
  | INITIALIZED l => Create_loop l dataSize m
  | DESTROYED => Some (Allocate dataSize m)
  end.

(** [m_data->m_count--], and [Recycle] when nobody is left. *)
Definition release (p : Z) (m : Mem) : option Mem :=
  let! d := m_heap m !! p in
  let m1 := set_heap (<[p := set_count (m_count d ⊖ 1) d]> (m_heap m)) m in
  if m_count d ⊖ 1 =? 0 then Recycle p m1 else Some m1.

(** ** Construction, copy, destruction *)
Definition Initialize (zeroSize : Z) (m : Mem) : option (Buffer * Mem) :=
  let! (p, m1) := Create 0 m in
  let! d := m_heap m1 !! p in
  let start := Z.min (m_size d) (g_recommendedStart m1) in
  let zend := start ⊕ zeroSize in
  Some (mkBuffer p start start zend start zend,
        set_heap (<[p := set_dirty start zend d]> (m_heap m1)) m1).

(** The copy constructor: [m_maxZeroAreaStart] takes the other buffer's [m_zeroAreaStart]. *)
Definition copy (o : Buffer) (m : Mem) : option (Buffer * Mem) :=
  let! d := m_heap m !! m_data o in
  Some (mkBuffer (m_data o) (m_zeroAreaStart o) (m_zeroAreaStart o) (m_zeroAreaEnd o)
          (m_start o) (m_end o),
        set_heap (<[m_data o := set_count (m_count d ⊕ 1) d]> (m_heap m)) m).

Definition destroy (b : Buffer) (m : Mem) : option Mem :=
  release (m_data b)
    (set_recommendedStart (Z.max (g_recommendedStart m) (m_maxZeroAreaStart b)) m).

(** [operator=] *)
Definition assign (b o : Buffer) (m : Mem) : option (Buffer * Mem) :=
  let! m1 :=
    (if m_data b =? m_data o then Some m
     else let! m1 := release (m_data b) m in
          update (m_data o) (fun d => set_count (m_count d ⊕ 1) d) m1) in
  Some (mkBuffer (m_data o) (m_maxZeroAreaStart o) (m_zeroAreaStart o) (m_zeroAreaEnd o)
          (m_start o) (m_end o),
        set_recommendedStart (Z.max (g_recommendedStart m1) (m_maxZeroAreaStart b)) m1).

Definition GetSize (b : Buffer) : Z := m_end b ⊖ m_start b.
Definition GetInternalSize (b : Buffer) : Z :=
  m_zeroAreaStart b ⊖ m_start b ⊕ m_end b ⊖ m_zeroAreaEnd b.
Definition GetInternalEnd (b : Buffer) : Z := m_end b ⊖ (m_zeroAreaEnd b ⊖ m_zeroAreaStart b).

(** [CheckInternalState]: the checks under [#if 0]. *)
Definition CheckInternalState (b : Buffer) (d : Data) : bool :=
  let offsetsOk :=
    (m_start b <=? m_zeroAreaStart b) && (m_zeroAreaStart b <=? m_zeroAreaEnd b) &&
    (m_zeroAreaEnd b <=? m_end b) in
  let dirtyOk := (m_dirtyStart d <=? m_start b) && (m_end b <=? m_dirtyEnd d) in
  let internalSizeOk :=
    (m_end b ⊖ (m_zeroAreaEnd b ⊖ m_zeroAreaStart b) <=? m_size d) &&
    (m_start b <=? m_size d) && (m_zeroAreaStart b <=? m_size d) in
  (0 <? m_count d) && offsetsOk && dirtyOk && internalSizeOk.

(** The last lines of the four resizing operations. *)
Definition track_max (b : Buffer) : Buffer :=
  mkBuffer (m_data b) (Z.max (m_maxZeroAreaStart b) (m_zeroAreaStart b)) (m_zeroAreaStart b)
    (m_zeroAreaEnd b) (m_start b) (m_end b).

(** ** Resizing *)

Definition AddAtStart (start : Z) (b : Buffer) (m : Mem) : option (Buffer * Mem) :=
  let! d := m_heap m !! m_data b in
  let isDirty := (1 <? m_count d) && (m_dirtyStart d <? m_start b) in
  if (start <=? m_start b) && negb isDirty then
    ASSERT (m_count d =? 1) || (m_start b =? m_dirtyStart d) ;;
    let s := m_start b ⊖ start in
    Some (track_max (mkBuffer (m_data b) (m_maxZeroAreaStart b) (m_zeroAreaStart b)
            (m_zeroAreaEnd b) s (m_end b)),
          set_heap (<[m_data b := set_dirty s (m_dirtyEnd d) d]> (m_heap m)) m)
  else
    let newSize := GetInternalSize b ⊕ start in
    let! (p, m1) := Create newSize m in
    let! m2 := memcpy p start (m_data b) (m_start b) (GetInternalSize b) m1 in
    let! m3 := release (m_data b) m2 in
    let delta := start - m_start b in
    let s := m_start b ⊕ delta ⊖ start in
    let e := m_end b ⊕ delta in
    let! m4 := update p (set_dirty s e) m3 in
    Some (track_max (mkBuffer p (m_maxZeroAreaStart b) (m_zeroAreaStart b ⊕ delta)
            (m_zeroAreaEnd b ⊕ delta) s e), m4).

Definition AddAtEnd (end_ : Z) (b : Buffer) (m : Mem) : option (Buffer * Mem) :=
  let! d := m_heap m !! m_data b in
  let isDirty := (1 <? m_count d) && (m_end b <? m_dirtyEnd d) in
  if (GetInternalEnd b ⊕ end_ <=? m_size d) && negb isDirty then
    ASSERT (m_count d =? 1) || (m_end b =? m_dirtyEnd d) ;;
    let e := m_end b ⊕ end_ in
    Some (track_max (mkBuffer (m_data b) (m_maxZeroAreaStart b) (m_zeroAreaStart b)
            (m_zeroAreaEnd b) (m_start b) e),
          set_heap (<[m_data b := set_dirty (m_dirtyStart d) e d]> (m_heap m)) m)
  else
    let newSize := GetInternalSize b ⊕ end_ in
    let! (p, m1) := Create newSize m in
    let! m2 := memcpy p 0 (m_data b) (m_start b) (GetInternalSize b) m1 in
    let! m3 := release (m_data b) m2 in
    let delta := - m_start b in
    let s := m_start b ⊕ delta in
    let e := m_end b ⊕ delta ⊕ end_ in
    let! m4 := update p (set_dirty s e) m3 in
    Some (track_max (mkBuffer p (m_maxZeroAreaStart b) (m_zeroAreaStart b ⊕ delta)
            (m_zeroAreaEnd b ⊕ delta) s e), m4).

Definition RemoveAtStart (start : Z) (b : Buffer) : Buffer :=
  let newStart := m_start b ⊕ start in
  track_max
    (if newStart <=? m_zeroAreaStart b then
       mkBuffer (m_data b) (m_maxZeroAreaStart b) (m_zeroAreaStart b) (m_zeroAreaEnd b)
         newStart (m_end b)
     else if newStart <=? m_zeroAreaEnd b then
       let delta := newStart ⊖ m_zeroAreaStart b in
       mkBuffer (m_data b) (m_maxZeroAreaStart b) (m_zeroAreaStart b) (m_zeroAreaEnd b ⊖ delta)
         (m_zeroAreaStart b) (m_end b ⊖ delta)
     else if newStart <=? m_end b then
       let zeroSize := m_zeroAreaEnd b ⊖ m_zeroAreaStart b in
       let s := newStart ⊖ zeroSize in
       mkBuffer (m_data b) (m_maxZeroAreaStart b) s s s (m_end b ⊖ zeroSize)
     else
       let e := m_end b ⊖ (m_zeroAreaEnd b ⊖ m_zeroAreaStart b) in
       mkBuffer (m_data b) (m_maxZeroAreaStart b) e e e e).

Definition RemoveAtEnd (end_ : Z) (b : Buffer) : Buffer :=
  let newEnd := m_end b ⊖ Z.min end_ (m_end b ⊖ m_start b) in
  track_max
    (if m_zeroAreaEnd b <? newEnd then
       mkBuffer (m_data b) (m_maxZeroAreaStart b) (m_zeroAreaStart b) (m_zeroAreaEnd b)
         (m_start b) newEnd
     else if m_zeroAreaStart b <? newEnd then
       mkBuffer (m_data b) (m_maxZeroAreaStart b) (m_zeroAreaStart b) newEnd (m_start b) newEnd
     else if m_start b <? newEnd then
       mkBuffer (m_data b) (m_maxZeroAreaStart b) newEnd newEnd (m_start b) newEnd
     else
       mkBuffer (m_data b) (m_maxZeroAreaStart b) (m_start b) (m_start b) (m_start b) (m_start b)).

Definition CreateFragment (start length : Z) (b : Buffer) (m : Mem) : option (Buffer * Mem) :=
  let! (tmp, m1) := copy b m in
  Some (RemoveAtEnd (GetSize b ⊖ (start ⊕ length)) (RemoveAtStart start tmp), m1).

(** ** Iterators *)

(** [class Buffer::Iterator] *)
Record Iterator := mkIter {
  it_zeroStart : Z;
  it_zeroEnd : Z;
  it_dataStart : Z;
  it_dataEnd : Z;
  it_current : Z;
  it_data : Z
}.

Definition set_current (i : Z) (it : Iterator) : Iterator :=
  mkIter (it_zeroStart it) (it_zeroEnd it) (it_dataStart it) (it_dataEnd it) i (it_data it).

Definition Begin (b : Buffer) : Iterator :=
  mkIter (m_zeroAreaStart b) (m_zeroAreaEnd b) (m_start b) (m_end b) (m_start b) (m_data b).
Definition End_ (b : Buffer) : Iterator :=
  mkIter (m_zeroAreaStart b) (m_zeroAreaEnd b) (m_start b) (m_end b) (m_end b) (m_data b).

Definition Next (delta : Z) (it : Iterator) : option Iterator :=
  ASSERT it_current it ⊕ delta <=? it_dataEnd it ;;
  Some (set_current (it_current it ⊕ delta) it).
Definition Prev (delta : Z) (it : Iterator) : option Iterator :=
  ASSERT delta <=? it_current it ;; Some (set_current (it_current it ⊖ delta) it).

Definition GetDistanceFrom (o it : Iterator) : option Z :=
  ASSERT it_data it =? it_data o ;;
  let diff := i32 (it_current it - it_current o) in
  Some (if diff <? 0 then u32 (- diff) else diff).

Definition IsEnd (it : Iterator) : bool := it_current it =? it_dataEnd it.
Definition IsStart (it : Iterator) : bool := it_current it =? it_dataStart it.

Definition CheckNoZero (start end_ : Z) (it : Iterator) : bool :=
  negb ((start <? it_dataStart it) || (it_dataEnd it <? end_) ||
        ((it_zeroStart it <? end_) && (start <? it_zeroEnd it) &&
         negb (it_zeroEnd it =? it_zeroStart it) && negb (start =? end_))).

Definition Check (i : Z) (it : Iterator) : bool :=
  (it_dataStart it <=? i) && negb ((it_zeroStart it <=? i) && (i <? it_zeroEnd it)) &&
  (i <=? it_dataEnd it).

Definition iter_GetSize (it : Iterator) : Z := it_dataEnd it ⊖ it_dataStart it.
Definition GetRemainingSize (it : Iterator) : Z := it_dataEnd it ⊖ it_current it.

(** The index in the block of a position after the zero area. *)
Definition past_zero (i : Z) (it : Iterator) : Z := i ⊖ (it_zeroEnd it ⊖ it_zeroStart it).

(** *** Writing *)
Definition WriteU8 (v : Z) (it : Iterator) (m : Mem) : option (Iterator * Mem) :=
  ASSERT Check (it_current it) it ;;
  let at_ := if it_current it <? it_zeroStart it then it_current it
             else past_zero (it_current it) it in
  let! m1 := store (it_data it) at_ [u8 v] m in
  Some (set_current (it_current it ⊕ 1) it, m1).

Definition WriteU8_len (v len : Z) (it : Iterator) (m : Mem) : option (Iterator * Mem) :=
  ASSERT CheckNoZero (it_current it) (it_current it ⊕ len) it ;;
  let at_ := if it_current it <=? it_zeroStart it then it_current it
             else past_zero (it_current it) it in
  let! m1 := store (it_data it) at_ (replicate (Z.to_nat len) (u8 v)) m in
  Some (set_current (it_current it ⊕ len) it, m1).

(** Several [WriteU8] in a row. *)
Fixpoint write_each (l : list Z) (it : Iterator) (m : Mem) : option (Iterator * Mem) :=
  match l with
  | [] => Some (it, m)
  | v :: l => let! (it1, m1) := WriteU8 v it m in write_each l it1 m1
  end.

(** Byte [k] of a value: [(data >> 8 * k) & 0xff]. *)
Definition byte_of (v k : Z) : Z := Z.land (Z.shiftr v (8 * k)) 255.

Definition WriteU16 (v : Z) := write_each [byte_of v 0; byte_of v 1].
Definition WriteU32 (v : Z) := write_each [byte_of v 0; byte_of v 1; byte_of v 2; byte_of v 3].
Definition WriteU64 (v : Z) :=
  write_each [byte_of v 0; byte_of v 1; byte_of v 2; byte_of v 3;
              byte_of v 4; byte_of v 5; byte_of v 6; byte_of v 7].
Definition WriteHtolsbU16 (v : Z) := write_each [byte_of v 0; byte_of v 1].
Definition WriteHtolsbU32 (v : Z) :=
  write_each [byte_of v 0; byte_of v 1; byte_of v 2; byte_of v 3].
Definition WriteHtolsbU64 (v : Z) :=
  write_each [byte_of v 0; byte_of v 1; byte_of v 2; byte_of v 3;
              byte_of v 4; byte_of v 5; byte_of v 6; byte_of v 7].
Definition WriteHtonU64 (v : Z) :=
  write_each [byte_of v 7; byte_of v 6; byte_of v 5; byte_of v 4;
              byte_of v 3; byte_of v 2; byte_of v 1; byte_of v 0].

(** The two writes that address the block directly. *)
Definition write_direct (l : list Z) (it : Iterator) (m : Mem) : option (Iterator * Mem) :=
  let n := Z.of_nat (length l) in
  ASSERT CheckNoZero (it_current it) (it_current it ⊕ n) it ;;
  let at_ := if it_current it ⊕ n <=? it_zeroStart it then it_current it
             else past_zero (it_current it) it in
  let! m1 := store (it_data it) at_ l m in
  Some (set_current (it_current it ⊕ n) it, m1).
Definition WriteHtonU16 (v : Z) := write_direct [byte_of v 1; byte_of v 0].
Definition WriteHtonU32 (v : Z) :=
  write_direct [byte_of v 3; byte_of v 2; byte_of v 1; byte_of v 0].

(** [Write (const uint8_t*, uint32_t)]: the assertion's second bound is [size] itself. *)
Definition Write_bytes (l : list Z) (it : Iterator) (m : Mem) : option (Iterator * Mem) :=
  let size := Z.of_nat (length l) in
  ASSERT CheckNoZero (it_current it) size it ;;
  let at_ := if it_current it <=? it_zeroStart it then it_current it
             else past_zero (it_current it) it in
  let! m1 := store (it_data it) at_ l m in
  Some (set_current (it_current it ⊕ size) it, m1).

(** [Write (Iterator, Iterator)]: the part before the source's zero area, the zeroes, the part
    after.  The destination index is [m_current] throughout. *)
Definition Write_range (start end_ it : Iterator) (m : Mem) : option (Iterator * Mem) :=
  ASSERT (it_data start =? it_data end_) && (it_current start <=? it_current end_) &&
         (it_zeroStart start =? it_zeroStart end_) && (it_zeroEnd start =? it_zeroEnd end_) &&
         negb (it_data it =? it_data start) ;;
  let size := it_current end_ ⊖ it_current start in
  ASSERT CheckNoZero (it_current it) (it_current it ⊕ size) it ;;
  let n1 := if it_current start <=? it_zeroStart start
            then Z.min size (it_zeroStart start ⊖ it_current start) else 0 in
  let! m1 := memcpy (it_data it) (it_current it) (it_data start) (it_current start) n1 m in
  let cur1 := it_current start ⊕ n1 in
  let to1 := it_current it ⊕ n1 in
  let size1 := size ⊖ n1 in
  let n2 := if cur1 <=? it_zeroEnd start then Z.min size1 (it_zeroEnd start ⊖ cur1) else 0 in
  let! m2 := store (it_data it) to1 (replicate (Z.to_nat n2) 0) m1 in
  let cur2 := cur1 ⊕ n2 in
  let to2 := to1 ⊕ n2 in
  let size2 := size1 ⊖ n2 in
  let n3 := Z.min size2 (it_dataEnd start ⊖ cur2) in
  let from := cur2 ⊖ (it_zeroEnd start ⊖ it_zeroStart start) in
  let! m3 := memcpy (it_data it) to2 (it_data start) from n3 m2 in
  Some (set_current (to2 ⊕ n3) it, m3).

(** *** Reading *)
Definition PeekU8 (it : Iterator) (m : Mem) : option Z :=
  ASSERT (it_dataStart it <=? it_current it) && (it_current it <? it_dataEnd it) ;;
  if it_current it <? it_zeroStart it then load (it_data it) (it_current it) m
  else if it_current it <? it_zeroEnd it then Some 0
  else load (it_data it) (past_zero (it_current it) it) m.

Definition ReadU8 (it : Iterator) (m : Mem) : option (Z * Iterator) :=
  let! v := PeekU8 it m in Some (v, set_current (it_current it ⊕ 1) it).

(** [n] bytes, in order: [Read (uint8_t*, uint32_t)]. *)
Fixpoint Read_bytes (n : nat) (it : Iterator) (m : Mem) : option (list Z * Iterator) :=
  match n with
  | O => Some ([], it)
  | S n =>
      let! (v, it1) := ReadU8 it m in
      let! (l, it2) := Read_bytes n it1 m in Some (v :: l, it2)
  end.

(** [data <<= 8; data |= byte], most significant byte first; [w] truncates to the type. *)
Definition shift_in (w : Z -> Z) (data byte : Z) : Z := Z.lor (w (Z.shiftl data 8)) byte.
Definition big_endian (w : Z -> Z) (l : list Z) : Z := fold_left (shift_in w) l 0.

Definition read_le (w : Z -> Z) (n : nat) (it : Iterator) (m : Mem) : option (Z * Iterator) :=
  let! (l, it1) := Read_bytes n it m in Some (big_endian w (reverse l), it1).
Definition read_be (w : Z -> Z) (n : nat) (it : Iterator) (m : Mem) : option (Z * Iterator) :=
  let! (l, it1) := Read_bytes n it m in Some (big_endian w l, it1).

Definition ReadU16 := read_le u16 2.
Definition ReadU32 := read_le u32 4.
Definition ReadU64 := read_le u64 8.
Definition ReadLsbtohU16 := read_le u16 2.
Definition ReadLsbtohU32 := read_le u32 4.
Definition ReadLsbtohU64 := read_le u64 8.
Definition SlowReadNtohU16 := read_be u16 2.
Definition SlowReadNtohU32 := read_be u32 4.
Definition ReadNtohU64 := read_be u64 8.

(** The fast path of [ReadNtohU16] and [ReadNtohU32] reads the block directly. *)
Fixpoint load_each (n : nat) (p i : Z) (m : Mem) : option (list Z) :=
  match n with
  | O => Some []
  | S n => let! v := load p i m in let! l := load_each n p (i + 1) m in Some (v :: l)
  end.
Definition read_direct (w : Z -> Z) (n : nat) (it : Iterator) (m : Mem) : option (Z * Iterator) :=
  if it_current it ⊕ Z.of_nat n <=? it_zeroStart it then
    let! l := load_each n (it_data it) (it_current it) m in
    Some (big_endian w l, set_current (it_current it ⊕ Z.of_nat n) it)
  else if it_zeroEnd it <=? it_current it then
    let! l := load_each n (it_data it) (past_zero (it_current it) it) m in
    Some (big_endian w l, set_current (it_current it ⊕ Z.of_nat n) it)
  else read_be w n it m.
Definition ReadNtohU16 := read_direct u16 2.
Definition ReadNtohU32 := read_direct u32 4.

(** [Read (Iterator, uint32_t)] *)
Definition Read_range (start : Iterator) (size : Z) (it : Iterator) (m : Mem)
    : option (Iterator * Mem) :=
  let! end_ := Next size it in Write_range it end_ start m.

(** *** Checksum *)

(** The sum of [n] 16-bit words. *)
Fixpoint sum_words (n : nat) (sum : Z) (it : Iterator) (m : Mem) : option (Z * Iterator) :=
  match n with
  | O => Some (sum, it)
  | S n => let! (w, it1) := ReadU16 it m in sum_words n (sum ⊕ w) it1 m
  end.

(** [while (sum >> 16) sum = (sum & 0xffff) + (sum >> 16)] *)
Fixpoint fold_carries (fuel : nat) (sum : Z) : option Z :=
  if Z.shiftr sum 16 =? 0 then Some sum
  else match fuel with
       | O => None
       | S fuel => fold_carries fuel (Z.land sum 65535 ⊕ Z.shiftr sum 16)
       end.

(** [CalculateIpChecksum] ([~sum] truncated to 16 bits); three foldings always suffice. *)
Definition CalculateIpChecksum (size initialChecksum : Z) (it : Iterator) (m : Mem)
    : option (Z * Iterator) :=
  let! (sum, it1) := sum_words (Z.to_nat (size / 2)) initialChecksum it m in
  let! (sum, it2) :=
    (if Z.land size 1 =? 1 then let! (v, it2) := ReadU8 it1 m in Some (sum ⊕ v, it2)
     else Some (sum, it1)) in
  let! sum := fold_carries 3 sum in Some (u16 (Z.lnot sum), it2).

(** ** Copies and concatenation *)

(** [CreateFullCopy]: a buffer without zero area. *)
Definition CreateFullCopy (b : Buffer) (m : Mem) : option (Buffer * Mem) :=
  let zeroSize := m_zeroAreaEnd b ⊖ m_zeroAreaStart b in
  if negb (zeroSize =? 0) then
    let! (tmp, m1) := Initialize 0 m in
    let! (tmp, m2) := AddAtStart zeroSize tmp m1 in
    let! (_, m3) := WriteU8_len 0 zeroSize (Begin tmp) m2 in
    let dataStart := m_zeroAreaStart b ⊖ m_start b in
    let! (tmp, m4) := AddAtStart dataStart tmp m3 in
    let! l1 := load_range (m_data b) (m_start b) dataStart m4 in
    let! (_, m5) := Write_bytes l1 (Begin tmp) m4 in
    let dataEnd := m_end b ⊖ m_zeroAreaEnd b in
    let! (tmp, m6) := AddAtEnd dataEnd tmp m5 in
    let! i := Prev dataEnd (End_ tmp) in
    let! l2 := load_range (m_data b) (m_zeroAreaStart b) dataEnd m6 in
    let! (_, m7) := Write_bytes l2 i m6 in
    Some (tmp, m7)
  else copy b m.

(** [TransformIntoRealBuffer], which [PeekData] calls first. *)
Definition TransformIntoRealBuffer (b : Buffer) (m : Mem) : option (Buffer * Mem) :=
  let! (tmp, m1) := CreateFullCopy b m in
  let! (b1, m2) := assign b tmp m1 in
  let! m3 := destroy tmp m2 in Some (b1, m3).

(** The bytes from the pointer [PeekData] returns to the end of the buffer. *)
Definition PeekData (b : Buffer) (m : Mem) : option (list Z * Buffer * Mem) :=
  let! (b1, m1) := TransformIntoRealBuffer b m in
  let! l := load_range (m_data b1) (m_start b1) (GetSize b1) m1 in Some (l, b1, m1).

(** [AddAtEnd (const Buffer&)]; [o] is another object than [b]. *)
Definition AddAtEnd_buffer (o b : Buffer) (m : Mem) : option (Buffer * Mem) :=
  let! d := m_heap m !! m_data b in
  if (m_count d =? 1) &&
     ((m_end b =? m_zeroAreaEnd b) || (m_zeroAreaStart b =? m_zeroAreaEnd b)) &&
     (m_end b =? m_dirtyEnd d) && (m_start o =? m_zeroAreaStart o) &&
     (0 <? m_zeroAreaEnd o ⊖ m_zeroAreaStart o) then
    let zs := if m_zeroAreaStart b =? m_zeroAreaEnd b then m_end b else m_zeroAreaStart b in
    let ze := m_end b ⊕ (m_zeroAreaEnd o ⊖ m_zeroAreaStart o) in
    let! m1 := update (m_data b) (set_dirty (m_dirtyStart d) ze) m in
    let endData := m_end o ⊖ m_zeroAreaEnd o in
    let! (b1, m2) :=
      AddAtEnd endData (mkBuffer (m_data b) (m_maxZeroAreaStart b) zs ze (m_start b) ze) m1 in
    let! dst := Prev endData (End_ b1) in
    let! src := Prev endData (End_ o) in
    let! (_, m3) := Write_range src (End_ o) dst m2 in Some (b1, m3)
  else
    let! (tmp, m1) := CreateFullCopy b m in
    let! (b1, m2) := assign b tmp m1 in
    let! m3 := destroy tmp m2 in
    let! (b2, m4) := AddAtEnd (GetSize o) b1 m3 in
    let! dst := Prev (GetSize o) (End_ b2) in
    let! (_, m5) := Write_range (Begin o) (End_ o) dst m4 in Some (b2, m5).

(** ** Copying out and serialization *)

(** [CopyData (uint8_t*, uint32_t)]: the bytes copied (their number is the result).  The zeroes
    come from a block of 1000. *)
Fixpoint copy_zeroes (fuel : nat) (left : Z) : option (list Z) :=
  if left <=? 0 then Some []
  else match fuel with
       | O => None
       | S fuel =>
           let toWrite := Z.min left 1000 in
           let! l := copy_zeroes fuel (left ⊖ toWrite) in
           Some (replicate (Z.to_nat toWrite) 0 ++ l)
       end.

Definition CopyData (size : Z) (b : Buffer) (m : Mem) : option (list Z) :=
  if size <=? 0 then Some []
  else
    let tmpsize := Z.min (m_zeroAreaStart b ⊖ m_start b) size in
    let! l1 := load_range (m_data b) (m_start b) tmpsize m in
    let size := size ⊖ tmpsize in
    if size <=? 0 then Some l1
    else
      let tmpsize := Z.min (m_zeroAreaEnd b ⊖ m_zeroAreaStart b) size in
      let! l2 := copy_zeroes (Z.to_nat tmpsize) tmpsize in
      let size := size ⊖ tmpsize in
      if size <=? 0 then Some (l1 ++ l2)
      else
        let tmpsize := Z.min (m_end b ⊖ m_zeroAreaEnd b) size in
        let! l3 := load_range (m_data b) (m_zeroAreaStart b) tmpsize m in Some (l1 ++ l2 ++ l3).

(** [CopyData (std::ostream*, uint32_t)] subtracts the whole first part when it goes on. *)
Definition CopyData_stream (size : Z) (b : Buffer) (m : Mem) : option (list Z) :=
  if size <=? 0 then Some []
  else
    let tmpsize := Z.min (m_zeroAreaStart b ⊖ m_start b) size in
    let! l1 := load_range (m_data b) (m_start b) tmpsize m in
    if size <=? tmpsize then Some l1
    else
      let size := size ⊖ (m_zeroAreaStart b ⊖ m_start b) in
      let tmpsize := Z.min (m_zeroAreaEnd b ⊖ m_zeroAreaStart b) size in
      let! l2 := copy_zeroes (Z.to_nat tmpsize) tmpsize in
      if size <=? tmpsize then Some (l1 ++ l2)
      else
        let size := size ⊖ tmpsize in
        let tmpsize := Z.min (m_end b ⊖ m_zeroAreaEnd b) size in
        let! l3 := load_range (m_data b) (m_zeroAreaStart b) tmpsize m in Some (l1 ++ l2 ++ l3).

(** [(n + 3) & (~0x3)] *)
Definition round4 (n : Z) : Z := Z.land (n ⊕ 3) (u32 (Z.lnot 3)).

Definition GetSerializedSize (b : Buffer) : Z :=
  let dataStart := round4 (m_zeroAreaStart b ⊖ m_start b) in
  let dataEnd := round4 (m_end b ⊖ m_zeroAreaEnd b) in
  4 ⊕ 4 ⊕ dataStart ⊕ 4 ⊕ dataEnd.

(** A [uint32_t] in memory, in the byte order of a little-endian host. *)
Definition word (v : Z) : list Z := [byte_of v 0; byte_of v 1; byte_of v 2; byte_of v 3].
Definition read_word (l : list Z) (i : Z) : option Z :=
  let! w := slice_at l i 4 in Some (big_endian u32 (reverse w)).

(** [Serialize] into [out]; [0] when [maxSize] is too small, with what was written so far. *)
Definition Serialize (out : list Z) (maxSize : Z) (b : Buffer) (m : Mem)
    : option (Z * list Z) :=
  let size := 4 in
  if maxSize <? size then Some (0, out)
  else
    let out := blit out 0 (word (m_zeroAreaEnd b ⊖ m_zeroAreaStart b)) in
    let size := size ⊕ 4 in
    if maxSize <? size then Some (0, out)
    else
      let dataStartLength := m_zeroAreaStart b ⊖ m_start b in
      let out := blit out 4 (word dataStartLength) in
      let size := size ⊕ round4 dataStartLength in
      if maxSize <? size then Some (0, out)
      else
        let! l1 := load_range (m_data b) (m_start b) dataStartLength m in
        let out := blit out 8 l1 in
        let p := 8 + 4 * (round4 dataStartLength / 4) in
        let size := size ⊕ 4 in
        if maxSize <? size then Some (0, out)
        else
          let dataEndLength := m_end b ⊖ m_zeroAreaEnd b in
          let out := blit out p (word dataEndLength) in
          let size := size ⊕ round4 dataEndLength in
          if maxSize <? size then Some (0, out)
          else
            let! l2 := load_range (m_data b) (m_zeroAreaStart b) dataEndLength m in
            Some (1, blit out (p + 4) l2).

(** [Deserialize] fills a buffer that has no block yet ([Buffer (0, false)]). *)
Definition Deserialize (buffer : list Z) (size : Z) (m : Mem) : option (Z * Buffer * Mem) :=
  let sizeCheck := size ⊖ 4 in
  ASSERT 4 <=? sizeCheck ;;
  let! zeroDataLength := read_word buffer 0 in
  let sizeCheck := sizeCheck ⊖ 4 in
  let! (b, m1) := Initialize zeroDataLength m in
  ASSERT 4 <=? sizeCheck ;;
  let! dataStartLength := read_word buffer 4 in
  let sizeCheck := sizeCheck ⊖ 4 in
  let! (b, m2) := AddAtStart dataStartLength b m1 in
  ASSERT dataStartLength <=? sizeCheck ;;
  let! l1 := slice_at buffer 8 dataStartLength in
  let! (_, m3) := Write_bytes l1 (Begin b) m2 in
  let p := 8 + 4 * (round4 dataStartLength / 4) in
  let sizeCheck := sizeCheck ⊖ round4 dataStartLength in
  ASSERT 4 <=? sizeCheck ;;
  let! dataEndLength := read_word buffer p in
  let sizeCheck := sizeCheck ⊖ 4 in
  let! (b, m4) := AddAtEnd dataEndLength b m3 in
  ASSERT dataEndLength <=? sizeCheck ;;
  let! tmp := Prev dataEndLength (End_ b) in
  let! l2 := slice_at buffer (p + 4) dataEndLength in
  let! (_, m5) := Write_bytes l2 tmp m4 in
  let sizeCheck := sizeCheck ⊖ round4 dataEndLength in
  ASSERT sizeCheck =? 0 ;;
  Some (if sizeCheck =? 0 then 1 else 0, b, m5).
