(* ===== verification/BufferSpec.v ===== *)
(** * Buffers as lists of bytes

    The invariant of the blocks and of the live buffers, the bytes a buffer stands for
    ([content]), and the effect of every operation on both.  The blocks are shared: each theorem
    also says that the other live buffers keep their bytes. *)

From S2P Require Import Buffer.

(** ** Raw memory *)
Definition is_byte (v : Z) : Prop := 0 <= v < 256.

Lemma u8_byte v : is_byte (u8 v).
Proof. apply Z.mod_pos_bound. lia. Qed.
Lemma u8_small v : is_byte v -> u8 v = v.
Proof. apply Z.mod_small. Qed.

Lemma length_blit l off src :
  0 <= off -> off + Z.of_nat (length src) <= Z.of_nat (length l) ->
  length (blit l off src) = length l.
Proof. intros. unfold blit. rewrite !length_app, length_take, length_drop. lia. Qed.

Lemma get_app_l l k i : 0 <= i < Z.of_nat (length l) -> get (l ++ k) i = get l i.
Proof. intros. unfold get. by rewrite lookup_app_l by lia. Qed.
Lemma get_app_r l k i :
  Z.of_nat (length l) <= i -> get (l ++ k) i = get k (i - Z.of_nat (length l)).
Proof. intros. unfold get. rewrite lookup_app_r by lia. do 2 f_equal. lia. Qed.

Lemma get_blit l off src i :
  0 <= off -> off + Z.of_nat (length src) <= Z.of_nat (length l) -> 0 <= i ->
  get (blit l off src) i =
    if decide (off <= i < off + Z.of_nat (length src)) then get src (i - off) else get l i.
Proof.
  intros Ho Hl Hi. unfold blit. assert (length (take (Z.to_nat off) l) = Z.to_nat off) as Ht
    by (rewrite length_take; lia).
  case_decide as Hd.
  - rewrite get_app_r by lia. rewrite get_app_l by lia. f_equal. lia.
  - destruct (decide (i < off)).
    + rewrite get_app_l by lia. unfold get. by rewrite lookup_take_lt by lia.
    + rewrite !get_app_r by lia. unfold get. rewrite lookup_drop. do 2 f_equal. lia.
Qed.

Lemma length_slice l off n :
  0 <= off -> 0 <= n -> off + n <= Z.of_nat (length l) -> Z.of_nat (length (slice l off n)) = n.
Proof. intros. unfold slice. rewrite length_take, length_drop. lia. Qed.

Lemma get_slice l off n i :
  0 <= off -> 0 <= i < n -> get (slice l off n) i = get l (off + i).
Proof.
  intros. unfold get, slice. rewrite lookup_take_lt by lia. rewrite lookup_drop. do 2 f_equal. lia.
Qed.

Lemma get_replicate n (v i : Z) : 0 <= i < Z.of_nat n -> get (replicate n v) i = v.
Proof. intros. unfold get. by rewrite lookup_replicate_2 by lia. Qed.

Lemma Forall_blit (P : Z -> Prop) l off src :
  Forall P l -> Forall P src -> Forall P (blit l off src).
Proof.
  intros. unfold blit. repeat apply Forall_app_2; [by apply Forall_take|done|by apply Forall_drop].
Qed.
Lemma Forall_slice (P : Z -> Prop) l off n : Forall P l -> Forall P (slice l off n).
Proof. intros. unfold slice. by apply Forall_take, Forall_drop. Qed.

Lemma get_byte l i : Forall is_byte l -> is_byte (get l i).
Proof.
  intros Hl. unfold get. destruct (l !! Z.to_nat i) as [v|] eqn:E; simpl; [|unfold is_byte; lia].
  by eapply Forall_lookup.
Qed.

(** ** The blocks

    [ps] lists the block of every live buffer, once per buffer. *)
Definition count_in (p : Z) (ps : list Z) : Z := Z.of_nat (length (filter (eq p) ps)).

Lemma count_in_cons p q ps :
  count_in p (q :: ps) = (if decide (p = q) then 1 else 0) + count_in p ps.
Proof. unfold count_in. rewrite filter_cons. repeat case_decide; simpl; lia. Qed.
Lemma count_in_pos p ps : p ∈ ps <-> 0 < count_in p ps.
Proof.
  induction ps as [|q ps IH].
  - rewrite elem_of_nil. unfold count_in. simpl. lia.
  - rewrite count_in_cons, elem_of_cons, IH. case_decide; unfold count_in; naive_solver lia.
Qed.
Lemma count_in_perm p ps ps' : ps ≡ₚ ps' -> count_in p ps = count_in p ps'.
Proof. intros Hp. unfold count_in. by rewrite Hp. Qed.
Lemma count_in_le p ps : count_in p ps <= Z.of_nat (length ps).
Proof. unfold count_in. apply Nat2Z.inj_le, length_filter. Qed.

Record block_ok (c : Z) (d : Data) : Prop := {
  block_count : m_count d = c;
  block_length : Z.of_nat (length (m_bytes d)) = m_size d;
  block_size : 0 <= m_size d < 4294967296;
  block_bytes : Forall is_byte (m_bytes d)
}.

Record heap_inv (m : Mem) (ps : list Z) : Prop := {
  hi_block p d : m_heap m !! p = Some d -> p < m_next m /\ block_ok (count_in p ps) d;
  hi_live p : p ∈ ps -> is_Some (m_heap m !! p);
  hi_count : Z.of_nat (length ps) < 4294967296;
  hi_start : 0 <= g_recommendedStart m < 4294967296;
  hi_free : match g_freeList m with
            | UNINITIALIZED => ps = []
            | INITIALIZED l => NoDup l /\ (forall p, p ∈ l -> is_Some (m_heap m !! p) /\ p ∉ ps)
            | DESTROYED => True
            end
}.

Lemma heap_inv_perm m ps ps' : ps ≡ₚ ps' -> heap_inv m ps -> heap_inv m ps'.
Proof.
  intros Hp [Hb Hl Hc Hs Hf]. split; try done.
  - intros p d Hd. destruct (Hb p d Hd) as [? ?]. split; [done|].
    by rewrite <- (count_in_perm p _ _ Hp).
  - intros p. rewrite <- Hp. apply Hl.
  - by rewrite <- Hp.
  - destruct (g_freeList m); [|setoid_rewrite <- Hp; done|done].
    subst. by apply Permutation_nil_l in Hp.
Qed.

(** What an operation keeps of the blocks [ps]: everything but the reference count. *)
Definition preserved (ps : list Z) (m m' : Mem) : Prop :=
  forall p d, p ∈ ps -> m_heap m !! p = Some d ->
  exists c, m_heap m' !! p = Some (set_count c d).

#[export] Instance preserved_refl ps : Reflexive (preserved ps).
Proof. intros m p d _ Hd. exists (m_count d). by destruct d. Qed.
#[export] Instance preserved_trans ps : Transitive (preserved ps).
Proof.
  intros m1 m2 m3 H12 H23 p d Hp Hd. destruct (H12 p d Hp Hd) as [c Hc].
  destruct (H23 _ _ Hp Hc) as [c' Hc']. by exists c'.
Qed.

Lemma heap_inv_initial junk : heap_inv (initial_mem junk) [].
Proof. split; simpl; try done. intros p Hp. by apply elem_of_nil in Hp. Qed.

(** *** Allocation *)
Lemma Allocate_ok n m ps l :
  heap_inv (set_freeList l m) ps -> l <> UNINITIALIZED ->
  0 <= n -> n + 101 < 4294967296 -> Z.of_nat (length ps) + 1 < 4294967296 ->
  exists p d m', Allocate n (set_freeList l m) = (p, m') /\ heap_inv m' (p :: ps) /\ p ∉ ps /\
    m_heap m' !! p = Some d /\ n <= m_size d /\
    (forall q, q ∈ ps -> m_heap m' !! q = m_heap m !! q) /\
    g_recommendedStart m' = g_recommendedStart m.
Proof.
  intros [Hb Hl Hc Hs Hf] Hu Hn Hn' Hlen. unfold Allocate, ALLOC_OVER_PROVISION. simpl in *.
  set (size := _ ⊕ _). assert (n <= size < 4294967296 /\ 0 <= size) as [Hsize Hsize'].
  { subst size. destruct (n =? 0) eqn:?; norm_bool; rewrite u32_small by lia; lia. }
  set (d := mkData 1 size 0 0 _).
  assert (m_next m ∉ ps) as Hnew.
  { intros Hin. destruct (Hl _ Hin) as [d' Hd']. destruct (Hb _ _ Hd'). lia. }
  eexists _, d, _. split; [done|]. split_and!; try done; simpl.
  - split; simpl; try done.
    + intros p d' Hd'. destruct (decide (p = m_next m)) as [->|Hne].
      * rewrite lookup_insert_eq in Hd'. injection Hd' as <-. split; [lia|]. split; simpl; try done.
        -- rewrite count_in_cons, decide_True by done.
           destruct (decide (m_next m ∈ ps)) as [|H]; [done|].
           rewrite count_in_pos in H. unfold count_in in *. lia.
        -- rewrite length_fmap, length_seqZ. lia.
        -- lia.
        -- apply Forall_fmap, Forall_true. intros i. apply u8_byte.
      * rewrite lookup_insert_ne in Hd' by done. destruct (Hb _ _ Hd') as [? ?].
        split; [lia|]. by rewrite count_in_cons, decide_False.
    + intros p [->|Hp]%elem_of_cons; [rewrite lookup_insert_eq; eauto|].
      destruct (Hl _ Hp) as [d' Hd']. rewrite lookup_insert_ne; [eauto|].
      intros <-. done.
    + rewrite Nat2Z.inj_succ. lia.
    + destruct l as [|l|]; [done| |done]. destruct Hf as [Hnd Hf]. split; [done|].
      intros p Hp. destruct (Hf p Hp) as [[d' Hd'] Hn2].
      assert (p <> m_next m) by (intros ->; destruct (Hb _ _ Hd'); lia).
      split; [rewrite lookup_insert_ne by done; eauto|]. rewrite elem_of_cons. naive_solver.
  - apply lookup_insert_eq.
  - lia.
  - intros q Hq. rewrite lookup_insert_ne; [done|]. by intros <-.
Qed.

Lemma Deallocate_ok p d m ps :
  heap_inv m ps -> m_heap m !! p = Some d -> p ∉ ps ->
  (forall l, g_freeList m = INITIALIZED l -> p ∉ l) ->
  exists m', Deallocate p m = Some m' /\ heap_inv m' ps /\
    m' = set_heap (delete p (m_heap m)) m.
Proof.
  intros [Hb Hl Hc Hs Hf] Hd Hp Hfree. unfold Deallocate. rewrite Hd.
  destruct (Hb _ _ Hd) as [_ Hok]. rewrite (block_count _ _ Hok).
  assert (count_in p ps = 0) as ->.
  { rewrite count_in_pos in Hp. unfold count_in in *. lia. }
  eexists. split; [done|]. split; [|done]. split; simpl; try done.
  - intros q d' Hd'. apply lookup_delete_Some in Hd' as [_ Hd']. by apply Hb.
  - intros q Hq. rewrite lookup_delete_ne; [by apply Hl|]. by intros ->.
  - destruct (g_freeList m) as [|l|]; [done| |done]. destruct Hf as [Hnd Hf]. split; [done|].
    intros q Hq. destruct (Hf q Hq). split; [|done]. rewrite lookup_delete_ne; [done|].
    intros ->. by destruct (Hfree l eq_refl).
Qed.

Lemma Create_ok n m ps :
  heap_inv m ps -> 0 <= n -> n + 101 < 4294967296 -> Z.of_nat (length ps) + 1 < 4294967296 ->
  exists p d m', Create n m = Some (p, m') /\ heap_inv m' (p :: ps) /\ p ∉ ps /\
    m_heap m' !! p = Some d /\ n <= m_size d /\
    (forall q, q ∈ ps -> m_heap m' !! q = m_heap m !! q) /\
    g_recommendedStart m' = g_recommendedStart m.
Proof.
  intros Hi Hn Hn' Hlen. unfold Create. destruct (g_freeList m) as [|l|] eqn:Hfl.
  - destruct (Allocate_ok n m ps (INITIALIZED [])) as (p&d&m'&->&H); try done; [|by eauto 10].
    destruct Hi as [Hb Hl Hc Hs Hf]. rewrite Hfl in Hf. subst. split; try done.
    simpl. split; [constructor|]. by intros p Hp%elem_of_nil.
  - assert (heap_inv (set_freeList (INITIALIZED l) m) ps) as Hi'.
    { destruct m, Hi. simpl in *. subst. by split. }
    assert (g_recommendedStart (set_freeList (INITIALIZED l) m) = g_recommendedStart m) as Hrec
      by done.
    clear Hi Hfl. revert m Hi' Hrec. induction l as [|p l IH]; intros m Hi Hrec; simpl.
    { destruct (Allocate_ok n m ps (INITIALIZED [])) as (p&d&m'&->&H); try done. by eauto 10. }
    pose proof Hi as [Hb Hl Hc Hs [Hnd Hf]]. simpl in *.
    destruct (Hf p) as [[d Hd] Hp]; [by left|]. rewrite Hd. destruct (Hb _ _ Hd) as [Hpn Hok].
    apply NoDup_cons in Hnd as [Hpl Hnd].
    assert (count_in p ps = 0) as Hp0.
    { rewrite count_in_pos in Hp. unfold count_in in *. lia. }
    destruct (Z.leb_spec n (m_size d)) as [Hle|Hlt].
    + unfold update. simpl. rewrite Hd. eexists p, (set_count 1 d), _. split; [done|].
      split_and!; simpl; try done; [|by rewrite lookup_insert_eq|].
      * split; simpl; try done.
        -- intros q d'. destruct (decide (q = p)) as [->|Hne].
           ++ rewrite lookup_insert_eq. intros [= <-]. split; [done|].
              destruct Hok. split; simpl; try done. rewrite count_in_cons, decide_True by done. lia.
           ++ rewrite lookup_insert_ne by done. intros Hd'. destruct (Hb _ _ Hd'). split; [done|].
              by rewrite count_in_cons, decide_False.
        -- intros q [->|Hq]%elem_of_cons; [rewrite lookup_insert_eq; eauto|].
           rewrite lookup_insert_ne; [by apply Hl|]. by intros ->.
        -- rewrite Nat2Z.inj_succ. lia.
        -- split; [done|]. intros q Hq. destruct (Hf q) as [[d' Hd'] Hq']; [by right|].
           assert (q <> p) by (by intros ->). split; [rewrite lookup_insert_ne by done; eauto|].
           rewrite elem_of_cons. naive_solver.
      * intros q Hq. rewrite lookup_insert_ne; [done|]. by intros ->.
    + assert (heap_inv (set_freeList (INITIALIZED l) m) ps) as Hi2.
      { split; simpl; try done. split; [done|]. intros q Hq. apply Hf. by right. }
      destruct (Deallocate_ok p d (set_freeList (INITIALIZED l) m) ps)
        as (m1&Hde&Hi1&Hm1); [done|done|done|by intros ? [= <-]|].
      unfold Deallocate in *. simpl in *. rewrite Hd in Hde |- *.
      destruct (m_count d =? 0); [|done].
      destruct (IH (set_heap (delete p (m_heap m)) m)) as (q&d'&m'&E&Hi3&Hq&Hd'&Hn3&Hpr&Hrec').
      { subst m1. done. } { done. }
      exists q, d', m'. split_and!; try done. intros q' Hq'. rewrite Hpr by done. simpl.
      rewrite lookup_delete_ne; [done|]. by intros ->.
  - destruct (Allocate_ok n m ps DESTROYED) as (p&d&m'&E&H); try done.
    { destruct m, Hi; simpl in *; subst. by split. }
    assert (set_freeList DESTROYED m = m) as Hm by (destruct m; simpl in *; by subst).
    rewrite Hm in E. rewrite E. eauto 10.
Qed.

(** *** Release *)
Lemma release_ok p m ps :
  heap_inv m (p :: ps) ->
  exists m', release p m = Some m' /\ heap_inv m' ps /\ preserved ps m m' /\
    g_recommendedStart m' = g_recommendedStart m.
Proof.
  intros [Hb Hl Hc Hs Hf]. unfold release. destruct (Hl p) as [d Hd]; [by left|]. rewrite Hd.
  destruct (Hb _ _ Hd) as [Hpn Hok]. pose proof (block_count _ _ Hok) as Hcnt.
  rewrite count_in_cons, decide_True in Hcnt by done.
  pose proof (count_in_le p ps) as Hle. rewrite length_cons in Hc.
  assert (0 <= count_in p ps) by (unfold count_in; lia).
  rewrite u32_small by lia. replace (m_count d - 1) with (count_in p ps) by lia.
  set (m1 := set_heap _ m).
  assert (forall q d', m_heap m1 !! q = Some d' -> q < m_next m1 /\ block_ok (count_in q ps) d') as Hb1.
  { intros q d'. subst m1. simpl. destruct (decide (q = p)) as [->|Hne].
    - rewrite lookup_insert_eq. intros [= <-]. split; [done|]. destruct Hok. by split.
    - rewrite lookup_insert_ne by done. intros Hd'. destruct (Hb _ _ Hd') as [? Hk].
      rewrite count_in_cons, decide_False in Hk by done. done. }
  assert (forall q, q ∈ ps -> is_Some (m_heap m1 !! q)) as Hl1.
  { intros q Hq. subst m1. simpl. destruct (decide (q = p)) as [->|Hne];
      [rewrite lookup_insert_eq; eauto|].
    rewrite lookup_insert_ne by done. apply Hl. by right. }
  assert (preserved ps m m1) as Hpr.
  { intros q d' Hq Hd'. subst m1. simpl. destruct (decide (q = p)) as [->|Hne].
    - rewrite lookup_insert_eq. simplify_eq. eauto.
    - rewrite lookup_insert_ne by done. exists (m_count d'). by destruct d'. }
  assert (g_freeList m <> UNINITIALIZED) as Hninit.
  { intros E. rewrite E in Hf. done. }
  assert (heap_inv m1 ps) as Hi1.
  { split; try done; [lia|]. subst m1. simpl. destruct (g_freeList m) as [|l|]; [done| |done].
    destruct Hf as [Hnd Hf]. split; [done|]. intros q Hq. destruct (Hf q Hq) as [Hq1 Hq2].
    rewrite not_elem_of_cons in Hq2. destruct Hq2. split; [|done].
    rewrite lookup_insert_ne by done. done. }
  destruct (Z.eqb_spec (count_in p ps) 0) as [E0|E0]; [|by eauto 10].
  assert (p ∉ ps) as Hp by (rewrite count_in_pos; lia).
  unfold Recycle. assert (m_heap m1 !! p = Some (set_count (count_in p ps) d)) as Hd1
    by apply lookup_insert_eq. rewrite Hd1. simpl m_count. rewrite E0. simpl.
  set (m2 := set_maxSize _ m1).
  assert (heap_inv m2 ps) as Hi2 by by destruct Hi1.
  assert (preserved ps m m2) as Hpr2 by done.
  assert (forall l, g_freeList m = INITIALIZED l -> p ∉ l) as Hpl.
  { intros l E Hin. rewrite E in Hf. destruct Hf as [_ Hf]. destruct (Hf p Hin) as [_ Hx].
    apply Hx. by left. }
  assert (exists m', Deallocate p m2 = Some m' /\ heap_inv m' ps /\ preserved ps m m' /\
    g_recommendedStart m' = g_recommendedStart m) as Hdealloc.
  { destruct (Deallocate_ok p (set_count (count_in p ps) d) m2 ps) as (m'&?&?&->); try done.
    eexists. split_and!; try done. intros q d' Hq Hd'. destruct (Hpr2 q d' Hq Hd') as [c Hc'].
    exists c. simpl. rewrite lookup_delete_ne; [done|]. by intros ->. }
  change (g_freeList m1) with (g_freeList m).
  destruct (g_freeList m) as [|l|] eqn:Hfl; [done| |done].
  destruct (_ || _); [done|]. eexists. split; [done|]. split_and!; try done.
  destruct Hi2 as [Hb2 Hl2 Hc2 Hs2 Hf2]. split; simpl; try done.
  destruct Hf as [Hnd Hf]. split; [apply NoDup_cons; split; [by apply Hpl|done]|].
  intros q [->|Hq]%elem_of_cons; [split; [eauto|done]|].
  assert (g_freeList m2 = INITIALIZED l) as E2 by done. rewrite E2 in Hf2.
  destruct Hf2 as [_ Hf2]. by apply Hf2.
Qed.

(** ** The bytes of a buffer *)

(** The byte at position [i] of the window. *)
Definition byte_at (d : Data) (b : Buffer) (i : Z) : Z :=
  if i <? m_zeroAreaStart b then get (m_bytes d) i
  else if i <? m_zeroAreaEnd b then 0
  else get (m_bytes d) (i - (m_zeroAreaEnd b - m_zeroAreaStart b)).

(** Positions [i] to [j]. *)
Definition range (d : Data) (b : Buffer) (i j : Z) : list Z := byte_at d b <$> seqZ i (j - i).

Definition content (m : Mem) (b : Buffer) : list Z :=
  match m_heap m !! m_data b with Some d => range d b (m_start b) (m_end b) | None => [] end.

Lemma content_eq m b d :
  m_heap m !! m_data b = Some d -> content m b = range d b (m_start b) (m_end b).
Proof. intros Hd. unfold content. by rewrite Hd. Qed.

Lemma length_range d b i j : Z.of_nat (length (range d b i j)) = Z.max 0 (j - i).
Proof. unfold range. rewrite length_fmap, length_seqZ. lia. Qed.

Lemma range_lookup d b i j k :
  range d b i j !! k = if decide (Z.of_nat k < j - i) then Some (byte_at d b (i + Z.of_nat k)) else None.
Proof.
  unfold range. rewrite list_lookup_fmap. case_decide as H.
  - rewrite lookup_seqZ_lt by lia. done.
  - rewrite lookup_seqZ_ge by lia. done.
Qed.

Lemma range_ext d b d' b' i j i' j' :
  j - i = j' - i' ->
  (forall k, 0 <= k < j - i -> byte_at d b (i + k) = byte_at d' b' (i' + k)) ->
  range d b i j = range d' b' i' j'.
Proof.
  intros Hl Hk. apply list_eq. intros k. rewrite !range_lookup, Hl. case_decide; [|done].
  rewrite Hk by lia. done.
Qed.

Lemma range_app d b i j k : i <= j <= k -> range d b i k = range d b i j ++ range d b j k.
Proof.
  intros H. unfold range. rewrite <- fmap_app. f_equal.
  replace (k - i) with ((j - i) + (k - j)) by lia. rewrite seqZ_app by lia. do 2 f_equal. lia.
Qed.

Lemma range_get d b i j (l : list Z) :
  Z.of_nat (length l) = j - i -> (forall k, 0 <= k < j - i -> byte_at d b (i + k) = get l k) ->
  range d b i j = l.
Proof.
  intros Hl Hk. apply list_eq. intros k. rewrite range_lookup. case_decide as H.
  - rewrite Hk by lia. unfold get. rewrite Nat2Z.id.
    destruct (lookup_lt_is_Some_2 l k) as [v ->]; [lia|done].
  - symmetry. apply lookup_ge_None_2. lia.
Qed.

Lemma range_drop d b i j n :
  0 <= n -> i + n <= j -> range d b (i + n) j = drop (Z.to_nat n) (range d b i j).
Proof.
  intros. rewrite (range_app d b i (i + n) j) by lia. rewrite drop_app_length'; [done|].
  pose proof (length_range d b i (i + n)). lia.
Qed.
Lemma range_take d b i j n :
  0 <= n -> i + n <= j -> range d b i (i + n) = take (Z.to_nat n) (range d b i j).
Proof.
  intros. rewrite (range_app d b i (i + n) j) by lia. rewrite take_app_length'; [done|].
  pose proof (length_range d b i (i + n)). lia.
Qed.

(** ** The invariant of the buffers

    [zmax] is the size of the zero area of the buffer that set the dirty bounds of the block; the
    others that share the block have a smaller one, and less of the block. *)
Record buf_ok (zmax : Z) (d : Data) (b : Buffer) : Prop := {
  ok_start : 0 <= m_start b <= m_zeroAreaStart b;
  ok_zero : m_zeroAreaStart b <= m_zeroAreaEnd b <= m_end b;
  ok_end : m_end b < 4294967296;
  ok_max : 0 <= m_maxZeroAreaStart b < 4294967296;
  ok_size : m_end b - (m_zeroAreaEnd b - m_zeroAreaStart b) <= m_size d;
  ok_dirtyStart : 0 <= m_dirtyStart d <= m_start b;
  ok_zmax : m_zeroAreaEnd b - m_zeroAreaStart b <= zmax;
  ok_dirtyEnd : m_end b - (m_zeroAreaEnd b - m_zeroAreaStart b) <= m_dirtyEnd d - zmax;
  ok_dirty : m_dirtyEnd d < 4294967296
}.

Definition bufs_ok (m : Mem) (bs : list Buffer) : Prop :=
  forall p, exists zmax, forall b, b ∈ bs -> m_data b = p ->
  exists d, m_heap m !! p = Some d /\ buf_ok zmax d b.

Notation blocks bs := (m_data <$> bs).

(** The invariant: [bs] are the live buffers. *)
Definition inv (m : Mem) (bs : list Buffer) : Prop := heap_inv m (blocks bs) /\ bufs_ok m bs.

#[export] Instance bufs_ok_perm m : Proper ((≡ₚ) ==> iff) (bufs_ok m).
Proof. intros l k H. unfold bufs_ok. by setoid_rewrite H. Qed.

Lemma inv_perm m bs bs' : bs ≡ₚ bs' -> inv m bs -> inv m bs'.
Proof.
  intros Hp [Hh Hb]. split; [|by rewrite <- Hp].
  eapply heap_inv_perm; [|done]. by apply fmap_Permutation.
Qed.

Lemma inv_buf m bs b :
  inv m bs -> b ∈ bs -> exists zmax d, m_heap m !! m_data b = Some d /\ buf_ok zmax d b.
Proof. intros [_ Hb] Hin. destruct (Hb (m_data b)) as [zmax Hz]. exists zmax. by apply Hz. Qed.

Lemma set_count_ok zmax c d b : buf_ok zmax (set_count c d) b <-> buf_ok zmax d b.
Proof. split; intros []; by split. Qed.

Lemma range_set_count c d b i j : range (set_count c d) b i j = range d b i j.
Proof. done. Qed.

Lemma preserved_content ps m m' b :
  preserved ps m m' -> m_data b ∈ ps -> is_Some (m_heap m !! m_data b) ->
  content m' b = content m b.
Proof.
  intros Hp Hin [d Hd]. destruct (Hp _ _ Hin Hd) as [c Hc].
  by rewrite (content_eq _ _ _ Hd), (content_eq _ _ _ Hc).
Qed.

Lemma preserved_bufs m m' bs :
  preserved (blocks bs) m m' -> bufs_ok m bs -> bufs_ok m' bs.
Proof.
  intros Hp Hb p. destruct (Hb p) as [zmax Hz]. exists zmax. intros b Hin Hbp.
  destruct (Hz b Hin Hbp) as (d&Hd&Hok). destruct (Hp p d) as [c Hc]; [|done|].
  - subst. by apply list_elem_of_fmap_2.
  - exists (set_count c d). split; [done|]. by apply set_count_ok.
Qed.

Lemma preserved_eq ps m m' :
  (forall q, q ∈ ps -> m_heap m' !! q = m_heap m !! q) -> preserved ps m m'.
Proof. intros H p d Hp Hd. exists (m_count d). rewrite H, Hd by done. by destruct d. Qed.

Lemma preserved_mono ps ps' m m' : ps' ⊆ ps -> preserved ps m m' -> preserved ps' m m'.
Proof. intros Hs Hp p d Hin. apply Hp. by apply Hs. Qed.

(** The other buffers keep their bytes. *)
Definition same_bytes (bs : list Buffer) (m m' : Mem) : Prop :=
  forall c, c ∈ bs -> content m' c = content m c.

#[export] Instance same_bytes_refl bs : Reflexive (same_bytes bs).
Proof. by intros m c. Qed.
#[export] Instance same_bytes_trans bs : Transitive (same_bytes bs).
Proof. intros m1 m2 m3 H1 H2 c Hc. rewrite (H2 c), (H1 c); done. Qed.

Lemma preserved_same_bytes m m' ps bs :
  heap_inv m ps -> blocks bs ⊆ ps -> preserved (blocks bs) m m' -> same_bytes bs m m'.
Proof.
  intros Hi Hs Hp c Hc. assert (m_data c ∈ blocks bs) as Hin by by apply list_elem_of_fmap_2.
  eapply preserved_content; [done|done|]. apply (hi_live _ _ Hi). by apply Hs.
Qed.

(** *** Changing one block that only the first buffer sees differently *)
Lemma heap_inv_update m ps p d d' :
  heap_inv m ps -> m_heap m !! p = Some d -> m_count d' = m_count d -> m_size d' = m_size d ->
  length (m_bytes d') = length (m_bytes d) -> Forall is_byte (m_bytes d') ->
  heap_inv (set_heap (<[p := d']> (m_heap m)) m) ps.
Proof.
  intros [Hb Hl Hc Hs Hf] Hd H1 H2 H3 H4. split; simpl; try done.
  - intros q e. destruct (decide (q = p)) as [->|Hne].
    + rewrite lookup_insert_eq. intros [= <-]. destruct (Hb _ _ Hd) as [? []]. split; [done|].
      split; [congruence|lia|lia|done].
    + rewrite lookup_insert_ne by done. apply Hb.
  - intros q Hq. destruct (decide (q = p)) as [->|Hne]; [rewrite lookup_insert_eq; eauto|].
    rewrite lookup_insert_ne by done. by apply Hl.
  - destruct (g_freeList m); [done| |done]. destruct Hf as [Hnd Hf]. split; [done|].
    intros q Hq. destruct (Hf q Hq). split; [|done].
    destruct (decide (q = p)) as [->|Hne]; [rewrite lookup_insert_eq; eauto|].
    by rewrite lookup_insert_ne.
Qed.

Lemma bufs_ok_cons m b bs :
  bufs_ok m (b :: bs) <->
  (exists zmax d, m_heap m !! m_data b = Some d /\ buf_ok zmax d b /\
    forall c, c ∈ bs -> m_data c = m_data b -> buf_ok zmax d c) /\ bufs_ok m bs.
Proof.
  split.
  - intros H. split.
    + destruct (H (m_data b)) as [zmax Hz]. destruct (Hz b) as (d&Hd&Hok); [by left|done|].
      exists zmax, d. split_and!; [done|done|]. intros c Hc Hcb.
      destruct (Hz c) as (d'&Hd'&Hok'); [by right|done|]. by simplify_eq.
    + intros p. destruct (H p) as [zmax Hz]. exists zmax. intros c Hc. apply Hz. by right.
  - intros [(zmax&d&Hd&Hok&Hcs) H] p. destruct (decide (p = m_data b)) as [->|Hne].
    + exists zmax. intros c [->|Hc]%elem_of_cons Hcb; exists d; auto.
    + destruct (H p) as [z Hz]. exists z. intros c [->|Hc]%elem_of_cons Hcb; [done|]. by apply Hz.
Qed.

(** The buffer that is alone on its block sets [zmax]. *)
Lemma count_one_alone m b bs d :
  heap_inv m (blocks (b :: bs)) -> m_heap m !! m_data b = Some d ->
  (m_count d = 1 <-> forall c, c ∈ bs -> m_data c <> m_data b).
Proof.
  intros Hi Hd. destruct (hi_block _ _ Hi _ _ Hd) as [_ Hok]. rewrite (block_count _ _ Hok).
  rewrite fmap_cons, count_in_cons, decide_True by done.
  assert (m_data b ∈ blocks bs <-> 0 < count_in (m_data b) (blocks bs)) as Hc by apply count_in_pos.
  rewrite list_elem_of_fmap in Hc. split.
  - intros H1 c Hcin Heq. assert (0 < count_in (m_data b) (blocks bs)); [|lia].
    apply Hc. by exists c.
  - intros H. assert (~ 0 < count_in (m_data b) (blocks bs)).
    { rewrite <- Hc. intros (c&Heq&Hin). by destruct (H c Hin). }
    unfold count_in in *. lia.
Qed.

Lemma count_pos m b bs d :
  heap_inv m (blocks (b :: bs)) -> m_heap m !! m_data b = Some d -> 1 <= m_count d.
Proof.
  intros Hi Hd. destruct (hi_block _ _ Hi _ _ Hd) as [_ Hok]. rewrite (block_count _ _ Hok).
  rewrite fmap_cons, count_in_cons, decide_True by done. unfold count_in. lia.
Qed.

(** ** Construction, copy and destruction *)
Lemma release_buf m bs b :
  inv m (b :: bs) ->
  exists m', release (m_data b) m = Some m' /\ inv m' bs /\ preserved (blocks bs) m m' /\
    same_bytes bs m m' /\ g_recommendedStart m' = g_recommendedStart m.
Proof.
  intros [Hh Hb]. destruct (release_ok _ _ _ Hh) as (m'&->&Hh'&Hp&Hr).
  eexists. split_and!; try done.
  - split; [done|]. apply bufs_ok_cons in Hb as [_ Hb]. by eapply preserved_bufs.
  - eapply preserved_same_bytes; [done| |done]. set_solver.
Qed.

Lemma inv_recommended n m bs :
  inv m bs -> 0 <= n < 4294967296 -> inv (set_recommendedStart n m) bs.
Proof. intros [[] Hb] ?. split; [by split|done]. Qed.

Lemma inv_max_recommended m bs b :
  inv m bs -> b ∈ bs ->
  inv (set_recommendedStart (Z.max (g_recommendedStart m) (m_maxZeroAreaStart b)) m) bs.
Proof.
  intros Hi Hin. apply inv_recommended; [done|]. destruct (inv_buf _ _ b Hi Hin) as (z&d&_&Hok).
  pose proof (ok_max _ _ _ Hok). pose proof (hi_start _ _ (proj1 Hi)). lia.
Qed.

Lemma destroy_ok m bs b :
  inv m (b :: bs) -> exists m', destroy b m = Some m' /\ inv m' bs /\ same_bytes bs m m'.
Proof.
  intros Hi. unfold destroy. eapply inv_max_recommended in Hi; [|by left].
  destruct (release_buf _ _ _ Hi) as (m'&->&?&?&?&_). by exists m'.
Qed.

(** Two objects with the same window on the same block. *)
Definition same_window (b o : Buffer) : Prop :=
  m_data b = m_data o /\ m_start b = m_start o /\ m_end b = m_end o /\
  m_zeroAreaStart b = m_zeroAreaStart o /\ m_zeroAreaEnd b = m_zeroAreaEnd o.

Lemma same_window_ok z d b o :
  same_window b o -> 0 <= m_maxZeroAreaStart b < 4294967296 -> buf_ok z d o -> buf_ok z d b.
Proof. intros (H1&H2&H3&H4&H5) Hm []. split; rewrite ?H2, ?H3, ?H4, ?H5; done. Qed.

Lemma same_window_content m b o : same_window b o -> content m b = content m o.
Proof.
  intros (H1&H2&H3&H4&H5). unfold content. rewrite H1. destruct (m_heap m !! m_data o); [|done].
  rewrite H2, H3. apply range_ext; [done|]. intros k _. unfold byte_at. by rewrite H4, H5.
Qed.

(** [m_count++] and one more object on the block. *)
Lemma share_ok m bs o :
  inv m bs -> o ∈ bs -> Z.of_nat (length bs) + 1 < 4294967296 ->
  exists d, m_heap m !! m_data o = Some d /\
  forall m', m' = set_heap (<[m_data o := set_count (m_count d ⊕ 1) d]> (m_heap m)) m ->
  forall b, same_window b o -> 0 <= m_maxZeroAreaStart b < 4294967296 ->
  inv m' (b :: bs) /\ content m' b = content m o /\ same_bytes bs m m'.
Proof.
  intros [Hh Hb] Hin Hlen. assert (m_data o ∈ blocks bs) as Hino by by apply list_elem_of_fmap_2.
  destruct (Hb (m_data o)) as [z Hz]. destruct (Hz o Hin eq_refl) as (d&Hd&Hok).
  exists d. split; [done|]. intros m' Hm' b Hw Hmax.
  assert (m_heap m' = <[m_data o := set_count (m_count d ⊕ 1) d]> (m_heap m)) as Hheap by by subst m'.
  assert (preserved (blocks bs) m m') as Hp.
  { intros q e Hq He. rewrite Hheap. destruct (decide (q = m_data o)) as [->|].
    - rewrite lookup_insert_eq. simplify_eq. eauto.
    - rewrite lookup_insert_ne by done. exists (m_count e). by destruct e. }
  destruct (hi_block _ _ Hh _ _ Hd) as [Hpn Hbl]. pose proof (block_count _ _ Hbl) as Hc.
  pose proof (count_in_le (m_data o) (blocks bs)) as Hle. rewrite length_fmap in Hle.
  assert (0 <= count_in (m_data o) (blocks bs)) by (unfold count_in; lia).
  assert (m_count d ⊕ 1 = m_count d + 1) as Hc1 by (apply u32_small; lia).
  split_and!.
  - split.
    + rewrite fmap_cons. destruct Hw as [-> _].
      destruct Hh as [Hbk Hl Hcn Hs Hf]. split; rewrite ?Hheap; subst m'; try done.
      * intros q e. destruct (decide (q = m_data o)) as [->|Hne].
        -- rewrite lookup_insert_eq. intros [= <-]. split; [done|]. destruct Hbl.
           split; simpl m_count; try done. rewrite Hc1, count_in_cons, decide_True by done. lia.
        -- rewrite lookup_insert_ne, count_in_cons, decide_False by done. by apply Hbk.
      * intros q Hq. rewrite lookup_insert_is_Some. destruct (decide (q = m_data o)); [by left|].
        right. split; [done|]. apply Hl. by apply elem_of_cons in Hq as [?|?].
      * rewrite length_cons, length_fmap. lia.
      * simpl g_freeList. destruct (g_freeList m); [by rewrite Hf in Hino; apply elem_of_nil in Hino| |done].
        destruct Hf as [Hnd Hf]. split; [done|]. intros q Hq. destruct (Hf q Hq) as [Hq1 Hq2].
        simpl m_heap. rewrite not_elem_of_cons, lookup_insert_is_Some.
        assert (q <> m_data o) by (by intros ->). auto.
    + apply bufs_ok_cons. split; [|by eapply preserved_bufs].
      exists z, (set_count (m_count d ⊕ 1) d). destruct Hw as [Hwd Hw'].
      rewrite Hwd, Hheap, lookup_insert_eq. split_and!; [done| |].
      * apply set_count_ok. eapply same_window_ok; [by split|done|done].
      * intros c Hcin Heq. apply set_count_ok. destruct (Hz c Hcin Heq) as (d'&Hd'&?).
        by simplify_eq.
  - rewrite (same_window_content _ _ _ Hw), (content_eq _ _ _ Hd).
    erewrite content_eq by (rewrite Hheap; apply lookup_insert_eq). done.
  - by eapply preserved_same_bytes.
Qed.

(** A copy shares the block. *)
Lemma copy_ok m bs o :
  inv m bs -> o ∈ bs -> Z.of_nat (length bs) + 1 < 4294967296 ->
  exists b m', copy o m = Some (b, m') /\ inv m' (b :: bs) /\ same_window b o /\
    content m' b = content m o /\ same_bytes bs m m'.
Proof.
  intros Hi Hin Hlen. destruct (share_ok _ _ _ Hi Hin Hlen) as (d&Hd&Hs).
  unfold copy. rewrite Hd. eexists _, _. split; [done|].
  destruct (inv_buf _ _ _ Hi Hin) as (z&d'&?&Hok). simplify_eq.
  edestruct Hs as (?&?&?); [done| |..|split_and!; try done]; [done|].
  destruct Hok. simpl. lia.
Qed.

(** After [b = o], [b] has the bytes of [o]. *)
Lemma assign_ok m bs b o :
  inv m (b :: bs) -> o ∈ bs ->
  exists b' m', assign b o m = Some (b', m') /\ inv m' (b' :: bs) /\ same_window b' o /\
    content m' b' = content m o /\ same_bytes bs m m'.
Proof.
  intros Hi Hin. unfold assign.
  destruct (inv_buf _ _ o Hi) as (zo&d_o&Hdo&Hoko); [by right|].
  destruct (inv_buf _ _ b Hi) as (z&d&Hd&Hok); [by left|].
  set (b' := mkBuffer (m_data o) _ _ _ _ _).
  assert (same_window b' o) as Hw by done.
  assert (0 <= m_maxZeroAreaStart b' < 4294967296) as Hmax by apply (ok_max _ _ _ Hoko).
  assert (forall m1, inv m1 (b' :: bs) -> 0 <= g_recommendedStart m1 < 4294967296 ->
    inv (set_recommendedStart (Z.max (g_recommendedStart m1) (m_maxZeroAreaStart b)) m1) (b' :: bs))
    as Hrec.
  { intros m1 Hi1 Hr. apply inv_recommended; [done|]. pose proof (ok_max _ _ _ Hok). lia. }
  destruct (Z.eqb_spec (m_data b) (m_data o)) as [E|E].
  - eexists b', _. split; [done|]. split_and!; [|done|by etrans; [|by apply (same_window_content m)]|done].
    apply Hrec; [|apply Hi]. destruct Hi as [Hh Hb]. split.
    + rewrite fmap_cons in *. simpl m_data. by rewrite <- E.
    + apply bufs_ok_cons in Hb as [_ Hb]. apply bufs_ok_cons. split; [|done].
        destruct (Hb (m_data o)) as [z1 Hz1]. destruct (Hz1 o Hin eq_refl) as (d1&Hd1&Hok1).
        exists z1, d1. split_and!; [done|by eapply same_window_ok|].
        intros c Hc Heq. destruct (Hz1 c Hc Heq) as (?&?&?). by simplify_eq.
  - destruct (release_buf _ _ _ Hi) as (m1&->&Hi1&Hp1&Hs1&Hr1).
    assert (Z.of_nat (length bs) + 1 < 4294967296) as Hlen.
    { destruct Hi as [[_ _ Hcn _ _] _]. rewrite length_fmap, length_cons in Hcn. lia. }
    destruct (share_ok _ _ _ Hi1 Hin Hlen) as (d1&Hd1&Hsh). unfold update. rewrite Hd1.
    destruct (Hsh _ eq_refl b' Hw Hmax) as (Hi2&Hc2&Hs2).
    eexists b', _. split; [done|]. split_and!; [|done| |].
    + apply Hrec; [done|]. apply Hi2.
    + etrans; [exact Hc2|]. by apply Hs1.
    + etrans; [exact Hs1|exact Hs2].
Qed.

(** ** Writing to a block *)

(** The size of the zero area and the end of the window in the block. *)
Definition zlen (b : Buffer) : Z := m_zeroAreaEnd b - m_zeroAreaStart b.
Definition phys_end (b : Buffer) : Z := m_end b - zlen b.

Lemma blit_nil l off : blit l off [] = l.
Proof. unfold blit. rewrite app_nil_l, Nat.add_0_r. apply take_drop. Qed.

Lemma set_bytes_id d : set_bytes (m_bytes d) d = d.
Proof. by destruct d. Qed.

Lemma bufs_ok_update m bs p d d' :
  bufs_ok m bs -> m_heap m !! p = Some d -> m_size d' = m_size d ->
  m_dirtyStart d' = m_dirtyStart d -> m_dirtyEnd d' = m_dirtyEnd d ->
  bufs_ok (set_heap (<[p := d']> (m_heap m)) m) bs.
Proof.
  intros Hb Hd H1 H2 H3 q. destruct (Hb q) as [z Hz]. exists z. intros b Hin Hq.
  destruct (Hz b Hin Hq) as (e&He&Hok). simpl. destruct (decide (q = p)) as [->|Hne].
  - rewrite lookup_insert_eq. exists d'. split; [done|]. simplify_eq.
    destruct Hok. split; rewrite ?H1, ?H2, ?H3; done.
  - rewrite lookup_insert_ne by done. eauto.
Qed.

Lemma store_ok m ps bs p d off l :
  heap_inv m ps -> bufs_ok m bs -> m_heap m !! p = Some d -> Forall is_byte l ->
  0 <= off -> off + Z.of_nat (length l) <= m_size d ->
  exists m', store p off l m = Some m' /\ heap_inv m' ps /\ bufs_ok m' bs /\
    m_heap m' = <[p := set_bytes (blit (m_bytes d) off l) d]> (m_heap m) /\
    g_recommendedStart m' = g_recommendedStart m.
Proof.
  intros Hh Hb Hd Hl Ho Hlen. unfold store, update.
  destruct l as [|v l'] eqn:El.
  - exists m. split_and!; try done. rewrite blit_nil, set_bytes_id. by rewrite insert_id.
  - rewrite <- El in *. rewrite Hd. destruct (hi_block _ _ Hh _ _ Hd) as [_ Hbl].
    destruct Hbl as [_ Hbytes _ Hfb].
    rewrite (proj2 (Z.leb_le 0 off)), (proj2 (Z.leb_le _ (m_size d))) by done. simpl.
    eexists. split; [done|]. split_and!; try done.
    + apply heap_inv_update with d; try done; [|by apply Forall_blit].
      simpl m_bytes. rewrite length_blit by lia. done.
    + by apply bufs_ok_update with d.
Qed.

(** A buffer is unaffected by a write outside its part of the block. *)
Lemma content_store m m' p d off l c :
  m_heap m !! p = Some d -> m_heap m' = <[p := set_bytes (blit (m_bytes d) off l) d]> (m_heap m) ->
  Z.of_nat (length (m_bytes d)) = m_size d -> 0 <= off -> off + Z.of_nat (length l) <= m_size d ->
  (m_data c = p -> exists z, buf_ok z d c) ->
  (m_data c = p -> off + Z.of_nat (length l) <= m_start c \/ phys_end c <= off) ->
  content m' c = content m c.
Proof.
  intros Hd Hm' Hlen Ho Hl Hok Hdis. unfold content. rewrite Hm'.
  destruct (decide (m_data c = p)) as [E|E]; [|by rewrite lookup_insert_ne].
  rewrite E, lookup_insert_eq, Hd. destruct (Hok E) as [z [[??] [??] ? ? ? ? ? ? ?]].
  apply range_ext; [done|]. intros k Hk. unfold byte_at. simpl m_bytes.
  specialize (Hdis E). unfold phys_end, zlen in Hdis.
  destruct (Z.ltb_spec (m_start c + k) (m_zeroAreaStart c)).
  - rewrite get_blit by lia. rewrite decide_False; [done|]. lia.
  - destruct (Z.ltb_spec (m_start c + k) (m_zeroAreaEnd c)); [done|].
    rewrite get_blit by lia. rewrite decide_False; [done|]. lia.
Qed.

Lemma preserved_store m m' p d off l ps :
  m_heap m !! p = Some d -> m_heap m' = <[p := set_bytes (blit (m_bytes d) off l) d]> (m_heap m) ->
  p ∉ ps -> preserved ps m m'.
Proof.
  intros Hd Hm' Hp. apply preserved_eq. intros q Hq. rewrite Hm'.
  rewrite lookup_insert_ne; [done|]. by intros <-.
Qed.

Lemma memcpy_ok m ps bs p d q e doff soff n :
  heap_inv m ps -> bufs_ok m bs -> m_heap m !! p = Some d -> m_heap m !! q = Some e ->
  0 <= doff -> doff + n <= m_size d -> 0 <= soff -> soff + n <= m_size e -> 0 <= n ->
  exists m', memcpy p doff q soff n m = Some m' /\ heap_inv m' ps /\ bufs_ok m' bs /\
    m_heap m' = <[p := set_bytes (blit (m_bytes d) doff (slice (m_bytes e) soff n)) d]> (m_heap m) /\
    g_recommendedStart m' = g_recommendedStart m.
Proof.
  intros Hh Hb Hd He ? ? ? ? Hn. destruct (hi_block _ _ Hh _ _ He) as [_ [_ Hle _ Hfe]].
  unfold memcpy. destruct (Z.eqb_spec n 0) as [->|Hn0].
  - exists m. split_and!; try done. unfold slice. simpl. rewrite blit_nil, set_bytes_id.
    by rewrite insert_id.
  - rewrite He. rewrite (proj2 (Z.leb_le 0 soff)), (proj2 (Z.leb_le _ (m_size e))) by done. simpl.
    apply store_ok; try done; [by apply Forall_slice|]. rewrite length_slice by lia. lia.
Qed.

(** ** Growing a buffer *)

(** The move to a new block that both [AddAtStart] and [AddAtEnd] make when there is no room. *)
Lemma move_ok m bs b z d off n :
  inv m (b :: bs) -> m_heap m !! m_data b = Some d -> buf_ok z d b ->
  0 <= off -> off + (phys_end b - m_start b) <= n -> n + 101 < 4294967296 ->
  Z.of_nat (length bs) + 2 < 4294967296 ->
  exists p m1 m2 m3 d3, Create n m = Some (p, m1) /\
    memcpy p off (m_data b) (m_start b) (phys_end b - m_start b) m1 = Some m2 /\
    release (m_data b) m2 = Some m3 /\ heap_inv m3 (p :: blocks bs) /\ bufs_ok m3 bs /\
    preserved (blocks bs) m m3 /\ m_heap m3 !! p = Some d3 /\ n <= m_size d3 /\ p ∉ blocks bs /\
    (forall k, 0 <= k < phys_end b - m_start b ->
       get (m_bytes d3) (off + k) = get (m_bytes d) (m_start b + k)).
Proof.
  intros [Hh Hb] Hd Hok Ho Hn Hlim Hlen.
  assert (0 <= phys_end b - m_start b) as Hpos.
  { unfold phys_end, zlen. destruct Hok as [[??] [??] ? ? ? ? ? ? ?]. lia. }
  destruct (Create_ok n m (blocks (b :: bs)) Hh) as (p&e&m1&Hc&Hh1&Hp&He&Hsz&Hsame&_);
    [lia|lia|rewrite length_fmap, length_cons; lia|].
  assert (p <> m_data b /\ p ∉ blocks bs) as [Hpb Hpbs].
  { rewrite fmap_cons in Hp. by apply not_elem_of_cons in Hp. }
  assert (preserved (blocks (b :: bs)) m m1) as Hp1 by by apply preserved_eq.
  assert (bufs_ok m1 (b :: bs)) as Hb1 by by eapply preserved_bufs.
  assert (m_heap m1 !! m_data b = Some d) as Hd1.
  { rewrite Hsame; [done|]. rewrite fmap_cons. by left. }
  destruct (hi_block _ _ Hh1 _ _ Hd1) as [_ Hbl].
  destruct (memcpy_ok m1 _ (b :: bs) p e (m_data b) d off (m_start b) (phys_end b - m_start b) Hh1 Hb1)
    as (m2&Hc2&Hh2&Hb2&Hheap2&_); try done; try lia.
  { destruct Hok as [[??] ? ? ? ? ? ? ? ?]. done. }
  { destruct Hok as [[??] [??] ? ? ? ? ? ? ?]. unfold phys_end, zlen. lia. }
  assert (preserved (blocks (b :: bs)) m1 m2) as Hp2.
  { apply (preserved_store _ _ _ _ _ _ _ He Hheap2 Hp). }
  destruct (release_ok (m_data b) m2 (p :: blocks bs)) as (m3&Hc3&Hh3&Hp3&_).
  { eapply heap_inv_perm; [|exact Hh2]. rewrite fmap_cons. apply Permutation_swap. }
  destruct (Hp3 p (set_bytes (blit (m_bytes e) off (slice (m_bytes d) (m_start b)
    (phys_end b - m_start b))) e)) as [c Hd3]; [by left|rewrite Hheap2; apply lookup_insert_eq|].
  assert (blocks bs ⊆ blocks (b :: bs)) as Hsub by (rewrite fmap_cons; set_solver).
  assert (preserved (blocks bs) m2 m3) as Hp3' by (eapply preserved_mono; [|done]; set_solver).
  eexists p, m1, m2, m3, _. split_and!; try done.
  - apply bufs_ok_cons in Hb2 as [_ Hb2]. by eapply preserved_bufs.
  - etrans; [eapply preserved_mono; [exact Hsub|exact Hp1]|].
    etrans; [eapply preserved_mono; [exact Hsub|exact Hp2]|done].
  - intros k Hk. simpl m_bytes. destruct (hi_block _ _ Hh1 _ _ He) as [_ Hble].
    assert (0 <= m_start b /\ phys_end b <= m_size d) as [Hst Hpe].
    { destruct Hok as [[??] [??] ? ? ? ? ? ? ?]. unfold phys_end, zlen. lia. }
    pose proof (block_length _ _ Hbl). pose proof (block_length _ _ Hble).
    pose proof (length_slice (m_bytes d) (m_start b) (phys_end b - m_start b) ltac:(lia) ltac:(lia)
      ltac:(lia)) as Hsl.
    rewrite get_blit by lia. rewrite decide_True by lia. rewrite get_slice by lia. f_equal. lia.
Qed.

(** The sum that must not wrap for a resize by [n]: every theorem on growth has this
    hypothesis. *)
Definition room (n : Z) (b : Buffer) (bs : list Buffer) : Prop :=
  0 <= n /\ m_end b + n + 101 < 4294967296 /\ Z.of_nat (length bs) + 2 < 4294967296.

Lemma GetInternalSize_ok z d b :
  buf_ok z d b -> GetInternalSize b = phys_end b - m_start b.
Proof.
  intros [[??] [??] ? ? ? ? ? ? ?]. unfold GetInternalSize, phys_end, zlen.
  rewrite (u32_small (m_zeroAreaStart b - m_start b)) by lia.
  unfold u32. rewrite Zminus_mod_idemp_l. rewrite Z.mod_small by lia. lia.
Qed.
Lemma GetInternalEnd_ok z d b : buf_ok z d b -> GetInternalEnd b = phys_end b.
Proof.
  intros [[??] [??] ? ? ? ? ? ? ?]. unfold GetInternalEnd, phys_end, zlen.
  rewrite (u32_small (m_zeroAreaEnd b - m_zeroAreaStart b)) by lia. rewrite u32_small by lia. done.
Qed.
Lemma GetSize_ok m bs b :
  inv m bs -> b ∈ bs -> GetSize b = m_end b - m_start b /\ GetSize b = Z.of_nat (length (content m b)).
Proof.
  intros Hi Hin. destruct (inv_buf _ _ _ Hi Hin) as (z&d&Hd&[[??] [??] ? ? ? ? ? ? ?]).
  rewrite (content_eq _ _ _ Hd), length_range. unfold GetSize. rewrite u32_small by lia. lia.
Qed.

(** The new bytes of a buffer: nobody else sees them. *)
Definition private_start (n : Z) (b : Buffer) (bs : list Buffer) : Prop :=
  forall c, c ∈ bs -> m_data c = m_data b -> m_start b + n <= m_start c.
Definition private_end (n : Z) (b : Buffer) (bs : list Buffer) : Prop :=
  forall c, c ∈ bs -> m_data c = m_data b -> phys_end c <= phys_end b - n.

Lemma track_max_window b : same_window (track_max b) b.
Proof. done. Qed.

(** The shared part of the two proofs when the buffer stays on its block: only the dirty bounds of
    the block change. *)
Lemma dirty_update_ok m bs b b' z d z' s e :
  inv m (b :: bs) -> m_heap m !! m_data b = Some d -> buf_ok z d b -> m_data b' = m_data b ->
  buf_ok z' (set_dirty s e d) b' ->
  (forall c, c ∈ bs -> m_data c = m_data b -> buf_ok z' (set_dirty s e d) c) ->
  let m' := set_heap (<[m_data b := set_dirty s e d]> (m_heap m)) m in
  inv m' (b' :: bs) /\ same_bytes bs m m'.
Proof.
  intros [Hh Hb] Hd Hok Hbb' Hok' Hc m'. destruct (hi_block _ _ Hh _ _ Hd) as [_ Hbl].
  split; [split|].
  - rewrite fmap_cons, Hbb'. subst m'. rewrite fmap_cons in Hh. eapply heap_inv_update; try done.
    by destruct Hbl.
  - apply bufs_ok_cons. split.
    + exists z', (set_dirty s e d). rewrite Hbb'. subst m'. simpl. rewrite lookup_insert_eq. done.
    + apply bufs_ok_cons in Hb as [_ Hb]. intros p. destruct (decide (p = m_data b)) as [->|Hne].
      * exists z'. intros c Hin Hcb. exists (set_dirty s e d). subst m'. simpl.
        rewrite lookup_insert_eq. auto.
      * destruct (Hb p) as [zp Hzp]. exists zp. intros c Hin Hcp. subst m'. simpl.
        rewrite lookup_insert_ne by done. by apply Hzp.
  - intros c Hin. unfold content. subst m'. simpl.
    destruct (decide (m_data c = m_data b)) as [E|E].
    + by rewrite E, lookup_insert_eq, Hd.
    + by rewrite lookup_insert_ne.
Qed.

(** The shared part when the buffer has moved to the block [p]. *)
Lemma moved_ok m m3 ps bs b' p d3 s e :
  heap_inv m ps -> blocks bs ⊆ ps -> heap_inv m3 (p :: blocks bs) -> bufs_ok m3 bs -> preserved (blocks bs) m m3 ->
  m_heap m3 !! p = Some d3 -> p ∉ blocks bs -> m_data b' = p ->
  buf_ok (zlen b') (set_dirty s e d3) b' ->
  exists m4, update p (set_dirty s e) m3 = Some m4 /\ inv m4 (b' :: bs) /\ same_bytes bs m m4 /\
    m_heap m4 !! p = Some (set_dirty s e d3).
Proof.
  intros Hi Hs Hh Hb Hp Hd3 Hpbs Hb' Hok. unfold update. rewrite Hd3. eexists. split; [done|].
  destruct (hi_block _ _ Hh _ _ Hd3) as [_ Hbl]. set (m4 := set_heap _ m3).
  assert (preserved (blocks bs) m3 m4) as Hp4.
  { apply preserved_eq. intros q Hq. subst m4. simpl. rewrite lookup_insert_ne; [done|].
    by intros <-. }
  assert (m_heap m4 !! p = Some (set_dirty s e d3)) as Hd4 by apply lookup_insert_eq.
  split_and!; [|eapply preserved_same_bytes; [exact Hi|done|by etrans]|done].
  split.
  - rewrite fmap_cons, Hb'. eapply heap_inv_update; try done. by destruct Hbl.
  - apply bufs_ok_cons. split; [|by eapply preserved_bufs].
    exists (zlen b'), (set_dirty s e d3). rewrite Hb'. split_and!; [done..|].
    intros c Hc Heq. destruct Hpbs. rewrite <- Heq. by apply list_elem_of_fmap_2.
Qed.

Lemma inv_tail m b bs : inv m (b :: bs) -> bufs_ok m bs.
Proof. intros [_ Hb]. by apply bufs_ok_cons in Hb as [_ ?]. Qed.

Lemma blocks_tail b bs : blocks bs ⊆ blocks (b :: bs).
Proof. rewrite fmap_cons. set_solver. Qed.

Lemma AddAtStart_ok n m bs b :
  inv m (b :: bs) -> room n b bs ->
  exists b' m' l, AddAtStart n b m = Some (b', m') /\ inv m' (b' :: bs) /\
    content m' b' = l ++ content m b /\ Z.of_nat (length l) = n /\ same_bytes bs m m' /\
    private_start n b' bs /\ m_start b' + n <= m_zeroAreaStart b' /\ zlen b' = zlen b /\
    m_end b' <= m_end b + n /\
    (m_data b' = m_data b \/ forall c, c ∈ bs -> m_data c <> m_data b').
Proof.
  intros Hi (Hn&Hlim&Hlen). pose proof Hi as [Hh Hb].
  pose proof Hb as (z&d&Hd&Hok&Hcs)%bufs_ok_cons%proj1.
  pose proof Hok as [[Hs0 Hs] [Hz Hz'] He Hmax Hsz [Hds Hds'] Hzm Hde Hdd].
  unfold AddAtStart. rewrite Hd.
  destruct (_ && negb _) eqn:Hc.
  - assert (n <= m_start b /\ (m_count d <= 1 \/ m_start b <= m_dirtyStart d)) as [Hns Hdirty]
      by (apply andb_true_iff in Hc as [Hc1 Hc2]; apply negb_true_iff, andb_false_iff in Hc2; lia).
    pose proof (count_pos _ _ _ _ Hh Hd) as Hpos.
    rewrite (proj2 (orb_true_iff _ _)) by lia. rewrite u32_small by lia.
    set (b' := track_max _).
    assert (private_start n b' bs) as Hpr.
    { intros c Hin Hcb. subst b'. simpl in *. destruct Hdirty as [H1|H1].
      - destruct (proj1 (count_one_alone _ _ _ _ Hh Hd) ltac:(lia) c Hin Hcb).
      - destruct (Hcs c Hin Hcb) as [? ? ? ? ? [??] ? ? ?]. lia. }
    destruct (dirty_update_ok m bs b b' z d z (m_start b - n) (m_dirtyEnd d) Hi Hd Hok)
      as [Hi' Hsame]; [done|split; simpl; lia| |].
    { intros c Hin Hcb. specialize (Hpr c Hin Hcb). subst b'. simpl in Hpr.
      destruct (Hcs c Hin Hcb). split; simpl; try done. lia. }
    eexists b', _, (range d b' (m_start b - n) (m_start b)).
    split_and!; [done|done| |rewrite length_range; lia|done|done|simpl; lia|done|simpl; lia
      |by left].
    rewrite (content_eq _ _ _ Hd). erewrite content_eq by apply lookup_insert_eq.
    rewrite (range_app _ b' _ (m_start b) _) by (simpl; lia). f_equal.
  - rewrite (GetInternalSize_ok _ _ _ Hok). unfold phys_end, zlen.
    rewrite (u32_small (_ + n)) by lia.
    destruct (move_ok m bs b z d n (m_end b - (m_zeroAreaEnd b - m_zeroAreaStart b) - m_start b + n)
      Hi Hd Hok) as (p&m1&m2&m3&d3&->&Hmc&Hrel&Hh3&Hb3&Hp3&Hd3&Hsz3&Hpbs&Hget);
      [lia|unfold phys_end, zlen; lia|lia|lia|].
    unfold phys_end, zlen in Hmc. rewrite Hmc, Hrel.
    replace (m_start b + (n - m_start b)) with n by lia.
    rewrite (u32_small n) by lia. rewrite Z.sub_diag. change (u32 0) with 0.
    rewrite !u32_small by lia.
    set (b' := track_max _). set (e' := m_end b + (n - m_start b)).
    destruct (moved_ok m m3 (blocks (b :: bs)) bs b' p d3 0 e' Hh (blocks_tail b bs))
      as (m4&->&Hi4&Hs4&Hd4); try done.
    { subst b' e'. unfold zlen. split; simpl; lia. }
    assert (forall c, c ∈ bs -> m_data c <> m_data b') as Hnob.
    { intros c Hin Hcb. destruct Hpbs. change p with (m_data b'). rewrite <- Hcb.
      by apply list_elem_of_fmap_2. }
    exists b', m4, (range (set_dirty 0 e' d3) b' 0 n).
    split_and!; [done|done| |rewrite length_range; lia|done| |simpl; lia|unfold zlen; simpl; lia
      |simpl; lia|by right].
    + rewrite (content_eq _ _ _ Hd), (content_eq m4 b' _ Hd4).
      rewrite (range_app _ b' _ n _) by (subst b'; simpl; lia). f_equal.
      subst b'. apply range_ext; [simpl; lia|]. intros k Hk. simpl m_end in Hk. unfold byte_at.
      simpl. unfold phys_end, zlen in Hget.
      repeat (case_match; norm_bool; try lia); [rewrite Hget by lia; f_equal; lia|].
      replace (n + k - _) with (n + (m_start b + k - (m_zeroAreaEnd b - m_zeroAreaStart b) - m_start b))
        by lia. rewrite Hget by lia. f_equal. lia.
    + intros c Hin Hcb. by destruct (Hnob c Hin).
Qed.

Lemma AddAtEnd_ok n m bs b :
  inv m (b :: bs) -> room n b bs ->
  exists b' m' l, AddAtEnd n b m = Some (b', m') /\ inv m' (b' :: bs) /\
    content m' b' = content m b ++ l /\ Z.of_nat (length l) = n /\ same_bytes bs m m' /\
    private_end n b' bs /\ m_zeroAreaEnd b' + n <= m_end b' /\ zlen b' = zlen b /\
    m_zeroAreaEnd b' - m_start b' = m_zeroAreaEnd b - m_start b /\
    (m_data b' = m_data b \/ forall c, c ∈ bs -> m_data c <> m_data b') /\
    m_end b' <= m_end b + n.
Proof.
  intros Hi (Hn&Hlim&Hlen). pose proof Hi as [Hh Hb].
  pose proof Hb as (z&d&Hd&Hok&Hcs)%bufs_ok_cons%proj1.
  pose proof Hok as [[Hs0 Hs] [Hz Hz'] He Hmax Hsz [Hds Hds'] Hzm Hde Hdd].
  unfold AddAtEnd. rewrite Hd, (GetInternalEnd_ok _ _ _ Hok). unfold phys_end, zlen.
  rewrite (u32_small (_ + n)) by lia.
  destruct (_ && negb _) eqn:Hc.
  - assert (phys_end b + n <= m_size d /\ (m_count d <= 1 \/ m_dirtyEnd d <= m_end b)) as [Hns Hdirty]
      by (unfold phys_end, zlen; apply andb_true_iff in Hc as [Hc1 Hc2];
          apply negb_true_iff, andb_false_iff in Hc2; lia).
    pose proof (count_pos _ _ _ _ Hh Hd) as Hpos. unfold phys_end, zlen in Hns.
    rewrite (proj2 (orb_true_iff _ _)) by lia. rewrite u32_small by lia.
    set (b' := track_max _).
    assert (forall c, c ∈ bs -> m_data c = m_data b ->
      buf_ok z d c /\ z = zlen b /\ phys_end c <= phys_end b) as Hothers.
    { intros c Hin Hcb. destruct Hdirty as [H1|H1].
      - destruct (proj1 (count_one_alone _ _ _ _ Hh Hd) ltac:(lia) c Hin Hcb).
      - pose proof (Hcs c Hin Hcb) as Hokc. split; [done|].
        destruct Hokc as [? ? ? ? ? [??] ? ? ?]. unfold phys_end, zlen. lia. }
    destruct (dirty_update_ok m bs b b' z d (zlen b) (m_dirtyStart d) (m_end b + n) Hi Hd Hok)
      as [Hi' Hsame]; [done|split; unfold zlen; simpl; lia| |].
    { intros c Hin Hcb. destruct (Hothers c Hin Hcb) as (Hokc&->&Hpe).
      unfold phys_end, zlen in *. destruct Hokc. split; simpl; try done; lia. }
    eexists b', _, (range d b' (m_end b) (m_end b + n)).
    split_and!; [done|done| |rewrite length_range; lia|done| |simpl; lia|done|done|by left|simpl; lia].
    + rewrite (content_eq _ _ _ Hd). erewrite content_eq by apply lookup_insert_eq.
      rewrite (range_app _ b' _ (m_end b) _) by (simpl; lia). f_equal.
    + intros c Hin Hcb. destruct (Hothers c Hin Hcb) as (_&_&Hpe). subst b'.
      unfold phys_end, zlen in *. simpl. lia.
  - rewrite (GetInternalSize_ok _ _ _ Hok). unfold phys_end, zlen.
    rewrite (u32_small (_ + n)) by lia.
    destruct (move_ok m bs b z d 0 (m_end b - (m_zeroAreaEnd b - m_zeroAreaStart b) - m_start b + n)
      Hi Hd Hok) as (p&m1&m2&m3&d3&->&Hmc&Hrel&Hh3&Hb3&Hp3&Hd3&Hsz3&Hpbs&Hget);
      [lia|unfold phys_end, zlen; lia|lia|lia|].
    unfold phys_end, zlen in Hmc. rewrite Hmc, Hrel.
    rewrite Z.add_opp_diag_r. change (u32 0) with 0.
    rewrite !(u32_small (_ + - m_start b)) by lia. rewrite !u32_small by lia.
    set (b' := track_max _). set (e' := m_end b + - m_start b + n).
    destruct (moved_ok m m3 (blocks (b :: bs)) bs b' p d3 0 e' Hh (blocks_tail b bs))
      as (m4&->&Hi4&Hs4&Hd4); try done.
    { subst b' e'. unfold zlen. split; simpl; lia. }
    assert (forall c, c ∈ bs -> m_data c <> m_data b') as Hnob.
    { intros c Hin Hcb. destruct Hpbs. change p with (m_data b'). rewrite <- Hcb.
      by apply list_elem_of_fmap_2. }
    exists b', m4, (range (set_dirty 0 e' d3) b' (m_end b - m_start b) e').
    split_and!; [done|done| |rewrite length_range; lia|done| |simpl; lia|unfold zlen; simpl; lia
      |simpl; lia|by right|simpl; lia].
    + rewrite (content_eq _ _ _ Hd), (content_eq m4 b' _ Hd4).
      rewrite (range_app _ b' _ (m_end b - m_start b) _) by (subst b'; simpl; lia). f_equal.
      subst b'. apply range_ext; [simpl; lia|]. intros k Hk. simpl m_start in *. unfold byte_at.
      simpl. unfold phys_end, zlen in Hget.
      repeat (case_match; norm_bool; try lia).
      * specialize (Hget k ltac:(lia)). by rewrite Z.add_0_l in Hget.
      * specialize (Hget (k - (m_zeroAreaEnd b - m_zeroAreaStart b)) ltac:(lia)).
        rewrite Z.add_0_l in Hget.
        replace (k - _) with (k - (m_zeroAreaEnd b - m_zeroAreaStart b)) by lia.
        rewrite Hget. f_equal. lia.
    + intros c Hin Hcb. by destruct (Hnob c Hin).
Qed.

(** ** Shrinking a buffer *)

(** Only the window changes. *)
Lemma shrink_ok m bs b b' z d :
  inv m (b :: bs) -> m_heap m !! m_data b = Some d -> m_data b' = m_data b ->
  (forall c, c ∈ bs -> m_data c = m_data b -> buf_ok z d c) -> buf_ok z d b' ->
  inv m (b' :: bs).
Proof.
  intros [Hh Hb] Hd Hdb Hcs Hok. split; [by rewrite fmap_cons, Hdb|].
  apply bufs_ok_cons. split; [|by apply bufs_ok_cons in Hb as [_ ?]].
  exists z, d. rewrite Hdb. done.
Qed.

Lemma RemoveAtStart_ok n m bs b :
  inv m (b :: bs) -> 0 <= n -> m_end b + n < 4294967296 ->
  inv m (RemoveAtStart n b :: bs) /\
  content m (RemoveAtStart n b) = drop (Z.to_nat n) (content m b).
Proof.
  intros Hi Hn Hlim. pose proof Hi as [Hh Hb].
  pose proof Hb as (z&d&Hd&Hok&Hcs)%bufs_ok_cons%proj1.
  pose proof Hok as [[Hs0 Hs] [Hz Hz'] He Hmax Hsz [Hds Hds'] Hzm Hde Hdd].
  unfold RemoveAtStart. rewrite !(u32_small (m_start b + n)) by lia.
  rewrite !(u32_small (m_zeroAreaEnd b - m_zeroAreaStart b)) by lia.
  set (b' := track_max _).
  assert (m_data b' = m_data b) as Hdb by (subst b'; simpl; repeat case_match; done).
  assert (buf_ok z d b' /\ range d b' (m_start b') (m_end b') =
    drop (Z.to_nat n) (range d b (m_start b) (m_end b))) as [Hok' Hr].
  { destruct (decide (m_start b + n <= m_end b)) as [Hin|Hout].
    - rewrite <- range_drop by lia. subst b'.
      destruct (Z.leb_spec (m_start b + n) (m_zeroAreaStart b)).
      { split; [split; simpl; lia|]. by apply range_ext. }
      destruct (Z.leb_spec (m_start b + n) (m_zeroAreaEnd b)).
      { rewrite !(u32_small (m_start b + n - m_zeroAreaStart b)) by lia.
        rewrite !u32_small by lia. split; [split; simpl; lia|]. apply range_ext; [simpl; lia|].
        intros k Hk. simpl in *. unfold byte_at. simpl.
        repeat (case_match; norm_bool; try lia). f_equal. lia. }
      rewrite (proj2 (Z.leb_le _ (m_end b))) by lia. rewrite !u32_small by lia.
      split; [split; simpl; lia|]. apply range_ext; [simpl; lia|].
      intros k Hk. simpl in *. unfold byte_at. simpl.
      repeat (case_match; norm_bool; try lia). f_equal. lia.
    - rewrite drop_ge by (pose proof (length_range d b (m_start b) (m_end b)); lia). subst b'.
      rewrite !(proj2 (Z.leb_gt _ _)) by lia. rewrite u32_small by lia.
      split; [split; simpl; lia|]. unfold range. simpl. by rewrite Z.sub_diag. }
  split; [by eapply shrink_ok|].
  rewrite (content_eq _ _ _ Hd). erewrite content_eq by (rewrite Hdb; exact Hd). done.
Qed.

Lemma RemoveAtEnd_ok n m bs b :
  inv m (b :: bs) -> 0 <= n ->
  inv m (RemoveAtEnd n b :: bs) /\
  content m (RemoveAtEnd n b) = take (length (content m b) - Z.to_nat n) (content m b).
Proof.
  intros Hi Hn. pose proof Hi as [Hh Hb].
  pose proof Hb as (z&d&Hd&Hok&Hcs)%bufs_ok_cons%proj1.
  pose proof Hok as [[Hs0 Hs] [Hz Hz'] He Hmax Hsz [Hds Hds'] Hzm Hde Hdd].
  unfold RemoveAtEnd. rewrite !(u32_small (m_end b - m_start b)) by lia.
  rewrite !u32_small by lia. set (e := m_end b - n `min` (m_end b - m_start b)).
  set (b' := track_max _).
  assert (m_data b' = m_data b) as Hdb by (subst b'; simpl; repeat case_match; done).
  assert (m_start b <= e <= m_end b) as [He1 He2] by (subst e; lia).
  rewrite (content_eq _ _ _ Hd). erewrite (content_eq _ b') by (rewrite Hdb; exact Hd).
  pose proof (length_range d b (m_start b) (m_end b)) as Hlen.
  replace (_ - Z.to_nat n)%nat with (Z.to_nat (e - m_start b)) by lia.
  rewrite <- range_take by lia. replace (m_start b + (e - m_start b)) with e by lia.
  clearbody e.
  assert (buf_ok z d b' /\ range d b' (m_start b') (m_end b') = range d b (m_start b) e) as [Hok' Hr].
  { subst b'. repeat (case_match; norm_bool);
      (split; [split; simpl; lia|]); simpl m_start; simpl m_end.
    4: { replace e with (m_start b) by lia. unfold range. by rewrite Z.sub_diag. }
    all: apply range_ext; [lia|]; intros k Hk; unfold byte_at; simpl in *;
      repeat (case_match; norm_bool; try lia); done. }
  split; [by eapply shrink_ok|done].
Qed.

(** ** Construction *)
Lemma Initialize_ok n m bs :
  inv m bs -> 0 <= n -> g_recommendedStart m + n < 4294967296 ->
  Z.of_nat (length bs) + 1 < 4294967296 ->
  exists b m', Initialize n m = Some (b, m') /\ inv m' (b :: bs) /\
    content m' b = replicate (Z.to_nat n) 0 /\ same_bytes bs m m' /\
    m_zeroAreaStart b = m_start b /\ m_zeroAreaEnd b = m_end b /\
    m_start b <= g_recommendedStart m /\ g_recommendedStart m' = g_recommendedStart m /\
    (forall c, c ∈ bs -> m_data c <> m_data b).
Proof.
  intros [Hh Hb] Hn Hlim Hlen. unfold Initialize.
  destruct (Create_ok 0 m (blocks bs) Hh) as (p&d&m1&->&Hh1&Hp&Hd&Hsz&Hsame&Hrec);
    [lia|lia|by rewrite length_fmap|]. rewrite Hd, Hrec.
  pose proof (hi_start _ _ Hh). destruct (hi_block _ _ Hh1 _ _ Hd) as [_ Hbl].
  pose proof (block_size _ _ Hbl). rewrite u32_small by lia.
  set (b := mkBuffer _ _ _ _ _ _).
  assert (preserved (blocks bs) m m1) as Hp1 by by apply preserved_eq.
  destruct (moved_ok m m1 (blocks bs) bs b p d (m_start b) (m_end b) Hh) as (m4&Hu&Hi4&Hs4&Hd4);
    try done.
  { by eapply preserved_bufs. }
  { subst b. split; unfold zlen; simpl; lia. }
  unfold update in Hu. rewrite Hd in Hu. injection Hu as <-.
  eexists b, _. split; [done|]. split_and!; try done.
  - rewrite (content_eq _ b _ Hd4). apply range_get; [rewrite length_replicate; simpl; lia|].
    intros k Hk. simpl in Hk. rewrite get_replicate by lia. unfold byte_at. simpl.
    repeat (case_match; norm_bool; try lia).
  - simpl. lia.
  - intros c Hc Heq. destruct Hp. change p with (m_data b). rewrite <- Heq.
    by apply list_elem_of_fmap_2.
Qed.
