(* ===== verification/BufferIter.v ===== *)
(** * Iterators over buffers

    Reading and writing through [Buffer::Iterator] in terms of [content]: the zero area and the
    place of the window in the block are invisible, the fast and slow paths agree, and a value
    written with any of the formats reads back. *)

From S2P Require Import Buffer BufferSpec.

(** ** Byte sequences *)

(** [blit] is associative with itself on adjacent segments. *)
Lemma blit_app l off a b :
  0 <= off -> off + Z.of_nat (length a + length b) <= Z.of_nat (length l) ->
  blit (blit l off a) (off + Z.of_nat (length a)) b = blit l off (a ++ b).
Proof.
  intros Ho Hl. unfold blit. rewrite length_app.
  replace (Z.to_nat (off + Z.of_nat (length a))) with (Z.to_nat off + length a)%nat by lia.
  rewrite (assoc_L (++) (take _ l)), take_app_length' by (rewrite length_app, length_take; lia).
  rewrite <- !(assoc_L (++)). do 3 f_equal.
  rewrite drop_app_ge by (rewrite length_take; lia). rewrite length_take, Nat.min_l by lia.
  rewrite drop_app_ge by lia. rewrite drop_drop. f_equal. lia.
Qed.

Lemma lookup_get l k : (k < length l)%nat -> l !! k = Some (get l (Z.of_nat k)).
Proof.
  intros Hk. unfold get. rewrite Nat2Z.id. destruct (lookup_lt_is_Some_2 l k Hk) as [v ->]. done.
Qed.

Lemma get_ext l k :
  length l = length k -> (forall i, 0 <= i < Z.of_nat (length l) -> get l i = get k i) -> l = k.
Proof.
  intros Hlen Hget. apply list_eq. intros i. destruct (decide (i < length l)%nat) as [H|H].
  - rewrite !lookup_get by lia. rewrite Hget by lia. done.
  - by rewrite !lookup_ge_None_2 by lia.
Qed.

(** The bytes of a value, the most significant first. *)
Fixpoint bytes_be (n : nat) (v : Z) : list Z :=
  match n with O => [] | S n => bytes_be n (v / 256) ++ [v mod 256] end.

Lemma length_bytes_be n v : length (bytes_be n v) = n.
Proof. revert v. induction n; intros v; simpl; [done|]. rewrite length_app, IHn. simpl. lia. Qed.

Lemma bytes_be_byte n v : Forall is_byte (bytes_be n v).
Proof.
  revert v. induction n; intros v; simpl; [done|]. apply Forall_app_2; [done|].
  repeat constructor; apply Z.mod_pos_bound; lia.
Qed.

Lemma lor_low x b : is_byte b -> Z.lor (x * 256) b = x * 256 + b.
Proof.
  intros [H1 H2]. rewrite Z.add_nocarry_lxor, Z.lxor_lor; [done|..];
    apply Z.bits_inj'; intros n Hn; rewrite Z.land_spec, Z.bits_0.
  all: destruct (decide (n < 8)).
  1,3: replace (x * 256) with (Z.shiftl x 8) by (rewrite Z.shiftl_mul_pow2; lia);
    rewrite Z.shiftl_spec_low by lia; done.
  all: rewrite andb_comm, (Z.bits_above_log2 b); try done; try lia.
  all: destruct (decide (b = 0)) as [->|]; [simpl; lia|];
    apply Z.lt_le_trans with 8; [apply Z.log2_lt_pow2; lia|lia].
Qed.

(** Reading the bytes of a value gives the value, in a type wide enough. *)
Lemma big_endian_bytes (W : Z) w n v :
  (forall z, w z = z mod W) -> 256 ^ Z.of_nat n <= W -> 0 < W ->
  big_endian w (bytes_be n v) = v mod 256 ^ Z.of_nat n.
Proof.
  intros Hw HW HW0. revert v HW. induction n as [|n IH]; intros v HW.
  - simpl. by rewrite Z.mod_1_r.
  - unfold big_endian in *. simpl bytes_be. rewrite fold_left_app.
    rewrite Nat2Z.inj_succ, Z.pow_succ_r in * by lia. rewrite IH by lia. simpl. unfold shift_in.
    pose proof (Z.pow_pos_nonneg 256 (Z.of_nat n) ltac:(lia) ltac:(lia)) as Hp.
    pose proof (Z.mod_pos_bound (v / 256) (256 ^ Z.of_nat n) Hp) as Hm.
    rewrite Z.shiftl_mul_pow2 by lia. change (2 ^ 8) with 256.
    rewrite Hw, Z.mod_small by nia.
    rewrite lor_low by (split; apply Z.mod_pos_bound; lia).
    rewrite Z.rem_mul_r by lia. lia.
Qed.

Lemma byte_of_eq v k : 0 <= k -> byte_of v k = (v / 256 ^ k) mod 256.
Proof.
  intros Hk. unfold byte_of. rewrite Z.shiftr_div_pow2 by lia.
  change 255 with (Z.ones 8). rewrite Z.land_ones by lia. rewrite Z.pow_mul_r by lia. done.
Qed.

Lemma bytes_be_2 v : bytes_be 2 v = [byte_of v 1; byte_of v 0].
Proof. rewrite !byte_of_eq by lia. simpl. rewrite Z.div_1_r. done. Qed.
Lemma bytes_be_4 v : bytes_be 4 v = [byte_of v 3; byte_of v 2; byte_of v 1; byte_of v 0].
Proof. rewrite !byte_of_eq by lia. simpl. rewrite !Z.div_div, Z.div_1_r by lia. done. Qed.
Lemma bytes_be_8 v :
  bytes_be 8 v = [byte_of v 7; byte_of v 6; byte_of v 5; byte_of v 4;
                  byte_of v 3; byte_of v 2; byte_of v 1; byte_of v 0].
Proof. rewrite !byte_of_eq by lia. simpl. rewrite !Z.div_div, Z.div_1_r by lia. done. Qed.

(** ** Positions *)

(** The iterator of [b] at position [i] of its window. *)
Definition iter_of (b : Buffer) (i : Z) : Iterator :=
  mkIter (m_zeroAreaStart b) (m_zeroAreaEnd b) (m_start b) (m_end b) i (m_data b).

Lemma Begin_iter b : Begin b = iter_of b (m_start b).
Proof. done. Qed.
Lemma End_iter b : End_ b = iter_of b (m_end b).
Proof. done. Qed.

Section iter.
Context (m : Mem) (bs : list Buffer) (b : Buffer) (Hi : inv m bs) (Hin : b ∈ bs).

Lemma iter_Next i n :
  0 <= n -> 0 <= i -> i + n <= m_end b -> Next n (iter_of b i) = Some (iter_of b (i + n)).
Proof using Hi Hin.
  intros. destruct (inv_buf _ _ _ Hi Hin) as (z&d&Hd&[[??] [??] ? ? ? ? ? ? ?]).
  unfold Next, set_current, iter_of. simpl. rewrite u32_small by lia.
  by rewrite (proj2 (Z.leb_le _ _)) by lia.
Qed.

Lemma iter_Prev i n :
  0 <= n <= i -> i <= m_end b -> Prev n (iter_of b i) = Some (iter_of b (i - n)).
Proof using Hi Hin.
  intros. destruct (inv_buf _ _ _ Hi Hin) as (z&d&Hd&[[??] [??] ? ? ? ? ? ? ?]).
  unfold Prev, set_current, iter_of. simpl. rewrite u32_small by lia.
  by rewrite (proj2 (Z.leb_le _ _)) by lia.
Qed.

Lemma iter_distance i j :
  m_start b <= i <= m_end b -> m_start b <= j <= m_end b -> m_end b < 2147483648 ->
  GetDistanceFrom (iter_of b i) (iter_of b j) = Some (Z.abs (j - i)).
Proof using Hi Hin.
  intros. destruct (inv_buf _ _ _ Hi Hin) as (z&d&Hd&[[??] [??] ? ? ? ? ? ? ?]).
  unfold GetDistanceFrom. simpl. rewrite Z.eqb_refl, i32_small by lia.
  f_equal. destruct (Z.ltb_spec (j - i) 0); [rewrite u32_small by lia|]; lia.
Qed.

(** *** Reading *)
Lemma PeekU8_ok i :
  m_start b <= i < m_end b ->
  PeekU8 (iter_of b i) m = Some (get (content m b) (i - m_start b)).
Proof using Hi Hin.
  intros Hb. destruct (inv_buf _ _ _ Hi Hin) as (z&d&Hd&[[??] [??] ? ? ? ? ? ? ?]).
  unfold PeekU8, iter_of. simpl. rewrite (proj2 (andb_true_iff _ _)) by lia.
  assert (get (content m b) (i - m_start b) = byte_at d b i) as ->.
  { rewrite (content_eq _ _ _ Hd). unfold get. rewrite range_lookup, decide_True by lia. simpl.
    f_equal. lia. }
  unfold byte_at, load, past_zero. rewrite Hd. simpl.
  rewrite (u32_small (m_zeroAreaEnd b - m_zeroAreaStart b)) by lia.
  repeat (case_match; norm_bool; try lia); try done; rewrite u32_small in * by lia; try done; lia.
Qed.

Lemma Read_bytes_ok n i :
  m_start b <= i -> i + Z.of_nat n <= m_end b ->
  Read_bytes n (iter_of b i) m =
    Some (slice (content m b) (i - m_start b) (Z.of_nat n), iter_of b (i + Z.of_nat n)).
Proof using Hi Hin.
  destruct (inv_buf _ _ _ Hi Hin) as (z&d&Hd&[[??] [??] ? ? ? ? ? ? ?]).
  revert i. induction n as [|n IH]; intros i Hs He; cbn [Read_bytes].
  - by rewrite Z.add_0_r.
  - unfold ReadU8. rewrite PeekU8_ok by lia.
    unfold set_current. simpl it_current. rewrite u32_small by lia.
    change (mkIter _ _ _ _ (i + 1) _) with (iter_of b (i + 1)). rewrite IH by lia.
    do 2 f_equal; [|f_equal; lia].
    assert (Z.of_nat (length (content m b)) = m_end b - m_start b) as Hlen
      by (rewrite (content_eq _ _ _ Hd), length_range; lia).
    unfold slice. rewrite !Nat2Z.id.
    rewrite (drop_S (content m b) (get (content m b) (i - m_start b)) (Z.to_nat (i - m_start b))).
    + simpl. do 3 f_equal. lia.
    + rewrite lookup_get by lia. do 2 f_equal. lia.
Qed.

Lemma read_be_ok w n i :
  m_start b <= i -> i + Z.of_nat n <= m_end b ->
  read_be w n (iter_of b i) m =
    Some (big_endian w (slice (content m b) (i - m_start b) (Z.of_nat n)),
          iter_of b (i + Z.of_nat n)).
Proof using Hi Hin. intros. unfold read_be. by rewrite Read_bytes_ok. Qed.

Lemma read_le_ok w n i :
  m_start b <= i -> i + Z.of_nat n <= m_end b ->
  read_le w n (iter_of b i) m =
    Some (big_endian w (reverse (slice (content m b) (i - m_start b) (Z.of_nat n))),
          iter_of b (i + Z.of_nat n)).
Proof using Hi Hin. intros. unfold read_le. by rewrite Read_bytes_ok. Qed.

(** The fast path sees the same bytes. *)
Lemma load_each_ok n p i d :
  m_heap m !! p = Some d -> 0 <= i -> i + Z.of_nat n <= m_size d ->
  load_each n p i m = Some ((fun k => get (m_bytes d) (i + Z.of_nat k)) <$> seq 0 n).
Proof using Type.
  intros Hd. revert i. induction n as [|n IH]; intros i H0 Hn; cbn [load_each]; [done|].
  unfold load. rewrite Hd, (proj2 (andb_true_iff _ _)) by lia. rewrite IH by lia.
  simpl. rewrite Z.add_0_r. do 2 f_equal. rewrite <- fmap_S_seq, <- list_fmap_compose.
  apply list_fmap_ext. intros k x _. simpl. f_equal. lia.
Qed.

Lemma read_direct_ok w n i :
  m_start b <= i -> i + Z.of_nat n <= m_end b ->
  read_direct w n (iter_of b i) m = read_be w n (iter_of b i) m.
Proof using Hi Hin.
  intros Hs He. destruct (inv_buf _ _ _ Hi Hin) as (z&d&Hd&[[??] [??] ? ? ? ? ? ? ?]).
  rewrite read_be_ok by done. unfold read_direct, past_zero, set_current. simpl.
  rewrite !(u32_small (i + Z.of_nat n)) by lia.
  assert (forall off, (forall k, 0 <= k < Z.of_nat n -> byte_at d b (i + k) = get (m_bytes d) (off + k)) ->
    0 <= off -> off + Z.of_nat n <= m_size d ->
    load_each n (m_data b) off m = Some (slice (content m b) (i - m_start b) (Z.of_nat n))) as Hload.
  { intros off Hk Hoff Hsz. rewrite (load_each_ok _ _ _ _ Hd) by done. f_equal.
    rewrite (content_eq _ _ _ Hd). unfold slice. rewrite <- range_drop by lia.
    replace (m_start b + (i - m_start b)) with i by lia. rewrite <- range_take by lia.
    apply list_eq. intros k. rewrite range_lookup, list_lookup_fmap. case_decide as Hd'.
    - rewrite lookup_seq_lt by lia. simpl. rewrite Hk by lia. done.
    - rewrite lookup_seq_ge by lia. done. }
  destruct (Z.leb_spec (i + Z.of_nat n) (m_zeroAreaStart b)).
  { rewrite Hload; [done| |lia|lia]. intros k Hk. unfold byte_at.
    by rewrite (proj2 (Z.ltb_lt _ _)) by lia. }
  destruct (Z.leb_spec (m_zeroAreaEnd b) i); [|by rewrite <- read_be_ok].
  rewrite (u32_small (m_zeroAreaEnd b - m_zeroAreaStart b)) by lia. rewrite u32_small by lia.
  rewrite Hload; [done| |lia|lia]. intros k Hk. unfold byte_at.
  rewrite (proj2 (Z.ltb_ge _ (m_zeroAreaStart b))) by lia.
  rewrite (proj2 (Z.ltb_ge _ (m_zeroAreaEnd b))) by lia. f_equal. lia.
Qed.
End iter.

(** ** Writing *)

(** The index in the block of position [i]. *)
Definition phys (b : Buffer) (i : Z) : Z := if i <? m_zeroAreaStart b then i else i - zlen b.

(** [n] bytes can be written at position [i]: they are in the window and outside the zero area. *)
Definition writable (b : Buffer) (i n : Z) : Prop :=
  m_start b <= i /\ i + n <= m_end b /\
  (i + n <= m_zeroAreaStart b \/ m_zeroAreaEnd b <= i \/ zlen b = 0).

(** No other buffer sees them. *)
Definition apart (b : Buffer) (i n : Z) (bs : list Buffer) : Prop :=
  forall c, c ∈ bs -> m_data c = m_data b ->
  n <= 0 \/ phys b i + n <= m_start c \/ phys_end c <= phys b i.

(** The effect of a write of [l] at position [i]. *)
Definition wrote (b : Buffer) (i : Z) (l : list Z) (bs : list Buffer) (m m' : Mem) : Prop :=
  inv m' (b :: bs) /\ content m' b = blit (content m b) (i - m_start b) l /\ same_bytes bs m m'.

Lemma wrote_nil m bs b i : inv m (b :: bs) -> wrote b i [] bs m m.
Proof. intros Hi. split_and!; [done|by rewrite blit_nil|done]. Qed.

Lemma length_content m bs b :
  inv m bs -> b ∈ bs -> Z.of_nat (length (content m b)) = m_end b - m_start b.
Proof.
  intros Hi Hin. destruct (inv_buf _ _ _ Hi Hin) as (z&d&Hd&[[??] [??] ? ? ? ? ? ? ?]).
  rewrite (content_eq _ _ _ Hd), length_range. lia.
Qed.

Lemma wrote_app m1 m2 m3 bs b i a l :
  inv m1 (b :: bs) -> m_start b <= i -> i + Z.of_nat (length a + length l) <= m_end b ->
  wrote b i a bs m1 m2 -> wrote b (i + Z.of_nat (length a)) l bs m2 m3 ->
  wrote b i (a ++ l) bs m1 m3.
Proof.
  intros Hi Hs He (H1&H2&H3) (H4&H5&H6). split_and!; [done| |by etrans].
  assert (Z.of_nat (length (content m1 b)) = m_end b - m_start b) as Hlen
    by (eapply length_content; [done|by left]).
  rewrite H5, H2, <- blit_app by lia. f_equal. lia.
Qed.

Lemma store_wrote m bs b i l at_ :
  inv m (b :: bs) -> writable b i (Z.of_nat (length l)) -> apart b i (Z.of_nat (length l)) bs ->
  Forall is_byte l -> (l = [] \/ at_ = phys b i) ->
  exists m', store (m_data b) at_ l m = Some m' /\ wrote b i l bs m m'.
Proof.
  intros Hi (Hs&He&Hz) Hap Hl [->| ->]; [exists m; split; [done|by apply wrote_nil]|].
  destruct l as [|v l'] eqn:El; [exists m; split; [done|by apply wrote_nil]|]. rewrite <- El in *.
  assert (0 < Z.of_nat (length l)) as Hpos by (subst l; simpl; lia). clear v l' El.
  destruct (inv_buf _ _ b Hi) as (z&d&Hd&Hok); [by left|].
  pose proof Hok as [[? Hst] [? ?] ? ? Hsz ? ? ? ?]. pose proof Hi as [Hh Hb].
  destruct (hi_block _ _ Hh _ _ Hd) as [_ [_ Hbytes _ _]]. unfold apart, phys, zlen in *.
  destruct (store_ok m _ (b :: bs) (m_data b) d (phys b i) l Hh Hb Hd Hl)
    as (m'&Hst'&Hh'&Hb'&Hheap&_);
    [unfold phys, zlen; case_match; norm_bool; lia..|]. unfold phys, zlen in *.
  exists m'. split; [done|]. split_and!; [done| |].
  - assert (m_heap m' !! m_data b = Some (set_bytes (blit (m_bytes d)
      (if i <? m_zeroAreaStart b then i else i - (m_zeroAreaEnd b - m_zeroAreaStart b)) l) d)) as Hd'
      by (rewrite Hheap; apply lookup_insert_eq).
    assert (Z.of_nat (length (content m b)) = m_end b - m_start b) as Hlen
      by (eapply length_content; [done|by left]).
    rewrite (content_eq _ _ _ Hd'). apply range_get; [rewrite length_blit by lia; lia|].
    intros k Hk. rewrite get_blit by lia.
    assert (get (content m b) k = byte_at d b (m_start b + k)) as ->.
    { rewrite (content_eq _ _ _ Hd). unfold get. rewrite range_lookup, decide_True by lia. simpl.
      f_equal. lia. }
    unfold byte_at. simpl m_bytes.
    destruct (Z.ltb_spec (m_start b + k) (m_zeroAreaStart b));
      [|destruct (Z.ltb_spec (m_start b + k) (m_zeroAreaEnd b))].
    + rewrite get_blit by (case_match; norm_bool; lia).
      repeat (case_match; norm_bool; try lia); try done; f_equal; lia.
    + rewrite decide_False by lia. done.
    + rewrite get_blit by (case_match; norm_bool; lia).
      repeat (case_match; norm_bool; try lia); try done; f_equal; lia.
  - intros c Hc. eapply content_store; try done; [case_match; norm_bool; lia..| |].
    + intros Hcb. destruct (Hb (m_data b)) as [z1 Hz1].
      destruct (Hz1 c) as (d1&Hd1&?); [by right|done|]. simplify_eq. eauto.
    + intros Hcb. by destruct (Hap c Hc Hcb) as [?|?]; [lia|].
Qed.

Section write.
Context (m : Mem) (bs : list Buffer) (b : Buffer) (Hi : inv m (b :: bs)).

Lemma check_no_zero i n :
  writable b i n -> 0 <= n -> CheckNoZero i (i + n) (iter_of b i) = true.
Proof using Type.
  intros (Hs&He&Hz) Hn. unfold CheckNoZero, zlen in *. simpl. apply negb_true_iff.
  repeat (apply orb_false_iff; split); [lia|lia|].
  destruct (_ && _ && _) eqn:E1; [|done]. norm_bool. lia.
Qed.

Lemma WriteU8_ok i v :
  writable b i 1 -> apart b i 1 bs ->
  exists m', WriteU8 v (iter_of b i) m = Some (iter_of b (i + 1), m') /\ wrote b i [u8 v] bs m m'.
Proof using Hi.
  intros Hw Ha. destruct (inv_buf _ _ b Hi) as (z&d&Hd&[[??] [??] ? ? ? ? ? ? ?]); [by left|].
  destruct (store_wrote m bs b i [u8 v] (phys b i) Hi Hw Ha) as (m'&Hst&Hwr);
    [repeat constructor; apply u8_byte|by right|].
  exists m'. split; [|done]. destruct Hw as (Hs&He&Hz). unfold WriteU8, zlen in *.
  assert (Check i (iter_of b i) = true) as Hc.
  { unfold Check. simpl. rewrite !andb_true_iff, negb_true_iff, andb_false_iff. lia. }
  simpl it_current. rewrite Hc. simpl. unfold past_zero, phys, zlen in *. simpl.
  rewrite (u32_small (m_zeroAreaEnd b - m_zeroAreaStart b)) by lia.
  destruct (Z.ltb_spec i (m_zeroAreaStart b)).
  - rewrite Hst. by rewrite u32_small by lia.
  - rewrite (u32_small (i - (m_zeroAreaEnd b - m_zeroAreaStart b))) by lia. rewrite Hst.
    by rewrite u32_small by lia.
Qed.

Lemma WriteU8_len_ok i v n :
  0 <= n -> writable b i n -> apart b i n bs ->
  exists m', WriteU8_len v n (iter_of b i) m = Some (iter_of b (i + n), m') /\
    wrote b i (replicate (Z.to_nat n) (u8 v)) bs m m'.
Proof using Hi.
  intros Hn Hw Ha. destruct (inv_buf _ _ b Hi) as (z&d&Hd&[[??] [??] ? ? ? ? ? ? ?]); [by left|].
  unfold WriteU8_len. simpl it_current. pose proof Hw as (Hs&He&Hz). unfold zlen in *.
  rewrite (u32_small (i + n)) by lia. rewrite check_no_zero by done. simpl.
  edestruct (store_wrote m bs b i (replicate (Z.to_nat n) (u8 v))) as (m'&Hst&Hwr);
    [done|rewrite length_replicate, Z2Nat.id by lia; done..
    |apply Forall_replicate, u8_byte| |rewrite Hst; eauto].
  destruct (decide (n = 0)) as [->|]; [by left|right]. unfold past_zero, phys, zlen. simpl.
  rewrite (u32_small (m_zeroAreaEnd b - m_zeroAreaStart b)) by lia.
  repeat (case_match; norm_bool; try lia). rewrite u32_small by lia. lia.
Qed.

Lemma write_direct_ok i l :
  writable b i (Z.of_nat (length l)) -> apart b i (Z.of_nat (length l)) bs -> Forall is_byte l ->
  exists m', write_direct l (iter_of b i) m = Some (iter_of b (i + Z.of_nat (length l)), m') /\
    wrote b i l bs m m'.
Proof using Hi.
  intros Hw Ha Hl. destruct (inv_buf _ _ b Hi) as (z&d&Hd&[[??] [??] ? ? ? ? ? ? ?]); [by left|].
  unfold write_direct. simpl it_current. pose proof Hw as (Hs&He&Hz). unfold zlen in *.
  rewrite (u32_small (i + _)) by lia. rewrite check_no_zero by (done || lia). simpl.
  edestruct (store_wrote m bs b i l) as (m'&Hst&Hwr); [done|done|done|done| |rewrite Hst; eauto].
  destruct l as [|v l']; [by left|right]. simpl length in *. unfold past_zero, phys, zlen. simpl.
  rewrite (u32_small (m_zeroAreaEnd b - m_zeroAreaStart b)) by lia.
  repeat (case_match; norm_bool; try lia); rewrite u32_small by lia; lia.
Qed.

(** The assertion of [Write] looks at [size], not at the end of the write; it never fails for a
    write that fits. *)
Lemma Write_bytes_ok i l :
  writable b i (Z.of_nat (length l)) -> apart b i (Z.of_nat (length l)) bs -> Forall is_byte l ->
  exists m', Write_bytes l (iter_of b i) m = Some (iter_of b (i + Z.of_nat (length l)), m') /\
    wrote b i l bs m m'.
Proof using Hi.
  intros Hw Ha Hl. destruct (inv_buf _ _ b Hi) as (z&d&Hd&[[??] [??] ? ? ? ? ? ? ?]); [by left|].
  unfold Write_bytes. simpl it_current. pose proof Hw as (Hs&He&Hz). unfold zlen in *.
  assert (CheckNoZero i (Z.of_nat (length l)) (iter_of b i) = true) as ->.
  { unfold CheckNoZero. simpl. apply negb_true_iff. repeat (apply orb_false_iff; split); [lia|lia|].
    destruct (_ && _ && _) eqn:E1; [|done]. norm_bool. lia. }
  simpl. rewrite (u32_small (i + _)) by lia.
  edestruct (store_wrote m bs b i l) as (m'&Hst&Hwr); [done|done|done|done| |rewrite Hst; eauto].
  destruct l as [|v l']; [by left|right]. simpl length in *. unfold past_zero, phys, zlen. simpl.
  rewrite (u32_small (m_zeroAreaEnd b - m_zeroAreaStart b)) by lia.
  repeat (case_match; norm_bool; try lia); rewrite u32_small by lia; lia.
Qed.
End write.

Lemma apart_sub b i n j k bs :
  apart b i n bs -> i <= j -> j + k <= i + n -> writable b i n -> 0 <= k -> 0 <= zlen b ->
  apart b j k bs.
Proof.
  intros Ha Hij Hjk (_&_&Hz) Hk Hzl c Hc Hcb. specialize (Ha c Hc Hcb). unfold phys, zlen in *.
  repeat (case_match; norm_bool; try lia).
Qed.

Lemma writable_sub b i n j k :
  writable b i n -> i <= j -> j + k <= i + n -> writable b j k.
Proof. unfold writable, zlen. lia. Qed.

Lemma write_each_ok m bs b i l :
  inv m (b :: bs) -> writable b i (Z.of_nat (length l)) -> apart b i (Z.of_nat (length l)) bs ->
  Forall is_byte l ->
  exists m', write_each l (iter_of b i) m = Some (iter_of b (i + Z.of_nat (length l)), m') /\
    wrote b i l bs m m'.
Proof.
  revert m i. induction l as [|v l IH]; intros m i Hi Hw Ha Hl; cbn [write_each].
  { exists m. rewrite Z.add_0_r. split; [done|by apply wrote_nil]. }
  assert (0 <= zlen b) as Hzl.
  { destruct (inv_buf _ _ b Hi) as (z&d&Hd&[[??] [??] ? ? ? ? ? ? ?]); [by left|]. unfold zlen. lia. }
  apply Forall_cons in Hl as [Hv Hl]. rewrite length_cons in *.
  destruct (WriteU8_ok m bs b Hi i v) as (m1&->&Hw1);
    [eapply writable_sub; [done|lia|lia]|eapply apart_sub; [done|lia|lia|done|lia|done]|].
  destruct (IH m1 (i + 1)) as (m2&->&Hw2); try done;
    [apply Hw1|eapply writable_sub; [done|lia|lia]|eapply apart_sub; [done|lia|lia|done|lia|done]|].
  exists m2. split; [do 3 f_equal; lia|]. rewrite u8_small in Hw1 by done.
  change (v :: l) with ([v] ++ l). destruct Hw as (?&?&_).
  eapply wrote_app; [done|done|simpl in *; lia|done|done].
Qed.

(** What was written is what is read. *)
Lemma slice_blit l off a :
  0 <= off -> off + Z.of_nat (length a) <= Z.of_nat (length l) ->
  slice (blit l off a) off (Z.of_nat (length a)) = a.
Proof.
  intros. unfold slice, blit. rewrite drop_app_length' by (rewrite length_take; lia).
  rewrite take_app_length' by lia. done.
Qed.

Lemma wrote_slice m m' bs b i l :
  inv m (b :: bs) -> m_start b <= i -> i + Z.of_nat (length l) <= m_end b ->
  wrote b i l bs m m' -> slice (content m' b) (i - m_start b) (Z.of_nat (length l)) = l.
Proof.
  intros Hi Hs He (_&->&_). apply slice_blit; [lia|].
  rewrite (length_content m (b :: bs)) by (done || by left). lia.
Qed.

(** *** The value formats *)

(** A format: how a value is written and read, and its width in bytes. *)
Record Format := mkFormat {
  fmt_width : nat;
  fmt_write : Z -> Iterator -> Mem -> option (Iterator * Mem);
  fmt_read : Iterator -> Mem -> option (Z * Iterator)
}.

(** All the formats of [Iterator], by pairs. *)
Definition formats : list Format :=
  [mkFormat 2 WriteU16 ReadU16; mkFormat 4 WriteU32 ReadU32; mkFormat 8 WriteU64 ReadU64;
   mkFormat 2 WriteHtolsbU16 ReadLsbtohU16; mkFormat 4 WriteHtolsbU32 ReadLsbtohU32;
   mkFormat 8 WriteHtolsbU64 ReadLsbtohU64;
   mkFormat 2 WriteHtonU16 ReadNtohU16; mkFormat 4 WriteHtonU32 ReadNtohU32;
   mkFormat 8 WriteHtonU64 ReadNtohU64;
   mkFormat 2 WriteHtonU16 SlowReadNtohU16; mkFormat 4 WriteHtonU32 SlowReadNtohU32].

(** [lawful f bytes]: writing is writing [bytes v], reading is decoding them. *)
Definition lawful (f : Format) (bytes : Z -> list Z) (decode : list Z -> Z) : Prop :=
  (forall v, length (bytes v) = fmt_width f /\ Forall is_byte (bytes v) /\
     decode (bytes v) = v mod 256 ^ Z.of_nat (fmt_width f)) /\
  (forall v it m, fmt_write f v it m = write_each (bytes v) it m \/
                  fmt_write f v it m = write_direct (bytes v) it m) /\
  (forall m bs b i, inv m bs -> b ∈ bs -> m_start b <= i ->
     i + Z.of_nat (fmt_width f) <= m_end b ->
     fmt_read f (iter_of b i) m =
       Some (decode (slice (content m b) (i - m_start b) (Z.of_nat (fmt_width f))),
             iter_of b (i + Z.of_nat (fmt_width f)))).

Lemma big_endian_u16 v : big_endian u16 (bytes_be 2 v) = v mod 65536.
Proof. by apply (big_endian_bytes 65536). Qed.
Lemma big_endian_u32 v : big_endian u32 (bytes_be 4 v) = v mod 4294967296.
Proof. by apply (big_endian_bytes 4294967296). Qed.
Lemma big_endian_u64 v : big_endian u64 (bytes_be 8 v) = v mod 18446744073709551616.
Proof. by apply (big_endian_bytes 18446744073709551616). Qed.

Lemma lawful_le w n f :
  (forall v, big_endian w (bytes_be n v) = v mod 256 ^ Z.of_nat n) ->
  fmt_width f = n -> (forall v, fmt_write f v = write_each (reverse (bytes_be n v))) ->
  fmt_read f = read_le w n ->
  lawful f (fun v => reverse (bytes_be n v)) (fun l => big_endian w (reverse l)).
Proof.
  intros Hb Hn Hw Hr. split_and!.
  - intros v. rewrite length_reverse, length_bytes_be, reverse_involutive, Hn, Hb.
    split_and!; [done|apply Forall_reverse, bytes_be_byte|done].
  - intros v it m. left. by rewrite Hw.
  - intros m bs b i Hi Hin Hs He. rewrite Hr, Hn in *. by eapply read_le_ok.
Qed.

Lemma lawful_be w n f :
  (forall v, big_endian w (bytes_be n v) = v mod 256 ^ Z.of_nat n) ->
  fmt_width f = n ->
  ((forall v, fmt_write f v = write_each (bytes_be n v)) \/
   (forall v, fmt_write f v = write_direct (bytes_be n v))) ->
  (fmt_read f = read_be w n \/ fmt_read f = read_direct w n) ->
  lawful f (bytes_be n) (big_endian w).
Proof.
  intros Hb Hn Hw Hr. split_and!.
  - intros v. rewrite length_bytes_be, Hn, Hb. split_and!; [done|apply bytes_be_byte|done].
  - intros v it m. destruct Hw as [Hw|Hw]; [left|right]; by rewrite Hw.
  - intros m bs b i Hi Hin Hs He. rewrite Hn in *. destruct Hr as [-> | ->].
    + by eapply read_be_ok.
    + erewrite read_direct_ok by done. by eapply read_be_ok.
Qed.

Lemma formats_lawful f : f ∈ formats -> exists bytes decode, lawful f bytes decode.
Proof.
  unfold formats. rewrite !elem_of_cons, elem_of_nil. intros Hf.
  assert (forall v, reverse (bytes_be 2 v) = [byte_of v 0; byte_of v 1]) as H2
    by (intros; by rewrite bytes_be_2).
  assert (forall v, reverse (bytes_be 4 v) = [byte_of v 0; byte_of v 1; byte_of v 2; byte_of v 3])
    as H4 by (intros; by rewrite bytes_be_4).
  assert (forall v, reverse (bytes_be 8 v) =
    [byte_of v 0; byte_of v 1; byte_of v 2; byte_of v 3;
     byte_of v 4; byte_of v 5; byte_of v 6; byte_of v 7]) as H8 by (intros; by rewrite bytes_be_8).
  repeat destruct Hf as [->|Hf]; [..|done]; eexists _, _.
  1,4: apply (lawful_le u16 2); [apply big_endian_u16|done|intros; by rewrite H2|done].
  1,3: apply (lawful_le u32 4); [apply big_endian_u32|done|intros; by rewrite H4|done].
  1,2: apply (lawful_le u64 8); [apply big_endian_u64|done|intros; by rewrite H8|done].
  1,4: apply (lawful_be u16 2);
    [apply big_endian_u16|done|right; intros; by rewrite bytes_be_2|by auto].
  1,3: apply (lawful_be u32 4);
    [apply big_endian_u32|done|right; intros; by rewrite bytes_be_4|by auto].
  apply (lawful_be u64 8);
    [apply big_endian_u64|done|left; intros; by rewrite bytes_be_8|by auto].
Qed.

