(* ===== verification/BufferOps.v ===== *)
(** * Whole-buffer operations

    Copies, fragments, concatenation, copying out, serialization and the IP checksum, in terms of
    [content]; and the cases in which the code does not do what it means to. *)

From S2P Require Import Buffer BufferSpec BufferIter.

(** ** Copying between buffers *)

Lemma load_range_ok m bs b z d off n :
  inv m bs -> m_heap m !! m_data b = Some d -> buf_ok z d b ->
  0 <= off -> off + n <= phys_end b -> 0 <= n ->
  load_range (m_data b) off n m = Some (slice (m_bytes d) off n).
Proof.
  intros [Hh _] Hd Hok Ho Hn Hn0. unfold load_range, slice_at. rewrite Hd.
  destruct (hi_block _ _ Hh _ _ Hd) as [_ [_ Hl _ _]]. pose proof (ok_size _ _ _ Hok).
  unfold phys_end, zlen in *. destruct (Z.leb_spec n 0).
  - by replace n with 0 by lia.
  - by rewrite (proj2 (andb_true_iff _ _)) by lia.
Qed.

(** The two stored parts of a window. *)
Lemma slice_range d b i j off :
  (forall k, 0 <= k < j - i -> byte_at d b (i + k) = get (m_bytes d) (off + k)) ->
  0 <= off -> i <= j -> off + (j - i) <= Z.of_nat (length (m_bytes d)) ->
  slice (m_bytes d) off (j - i) = range d b i j.
Proof.
  intros Hk Ho Hij Hl. symmetry. apply range_get; [apply length_slice; lia|].
  intros k Hkk. rewrite get_slice by lia. by apply Hk.
Qed.

Lemma slice_before d b i j :
  0 <= i <= j -> j <= m_zeroAreaStart b -> j <= Z.of_nat (length (m_bytes d)) ->
  slice (m_bytes d) i (j - i) = range d b i j.
Proof.
  intros. apply slice_range; try lia. intros k Hk. unfold byte_at.
  by rewrite (proj2 (Z.ltb_lt _ _)) by lia.
Qed.

Lemma slice_after d b i j :
  m_zeroAreaStart b <= m_zeroAreaEnd b <= i -> 0 <= m_zeroAreaStart b -> i <= j ->
  j - zlen b <= Z.of_nat (length (m_bytes d)) ->
  slice (m_bytes d) (i - zlen b) (j - i) = range d b i j.
Proof.
  unfold zlen. intros. apply slice_range; try lia. intros k Hk. unfold byte_at.
  rewrite (proj2 (Z.ltb_ge _ (m_zeroAreaStart b))) by lia.
  rewrite (proj2 (Z.ltb_ge _ (m_zeroAreaEnd b))) by lia. f_equal. lia.
Qed.

Lemma zeroes_range d b i j :
  m_zeroAreaStart b <= i <= j -> j <= m_zeroAreaEnd b ->
  replicate (Z.to_nat (j - i)) 0 = range d b i j.
Proof.
  intros. symmetry. apply range_get; [rewrite length_replicate; lia|].
  intros k Hk. rewrite get_replicate by lia. unfold byte_at.
  rewrite (proj2 (Z.ltb_ge _ (m_zeroAreaStart b))) by lia.
  by rewrite (proj2 (Z.ltb_lt _ (m_zeroAreaEnd b))) by lia.
Qed.

Lemma range_bytes m ps p d b i j :
  heap_inv m ps -> m_heap m !! p = Some d -> Forall is_byte (range d b i j).
Proof.
  intros Hh Hd. destruct (hi_block _ _ Hh _ _ Hd) as [_ [_ _ _ Hf]].
  unfold range. apply Forall_fmap, Forall_true. intros k. unfold byte_at. simpl.
  repeat case_match; try by apply get_byte. unfold is_byte. lia.
Qed.

(** [memcpy] is a store of a slice. *)
Lemma memcpy_store dst doff src soff n m d :
  m_heap m !! src = Some d -> n = 0 \/ (0 <= soff /\ soff + n <= m_size d) ->
  memcpy dst doff src soff n m = store dst doff (slice (m_bytes d) soff n) m.
Proof.
  intros Hd Hn. unfold memcpy. destruct (Z.eqb_spec n 0) as [->|Hn0].
  - done.
  - by rewrite Hd, (proj2 (andb_true_iff _ _)) by lia.
Qed.

(** The blocks of the other buffers as a write leaves them. *)
Lemma store_other p q off l m m' :
  store p off l m = Some m' -> p <> q -> m_heap m' !! q = m_heap m !! q.
Proof.
  unfold store, update. destruct l as [|v l]; [by intros [= ->]|].
  destruct (m_heap m !! p) as [d|]; [|done]. destruct (_ && _); [|done].
  intros [= <-] Hpq. simpl. by rewrite lookup_insert_ne.
Qed.

(** [Write (Iterator, Iterator)] where the destination index needs no correction. *)
Lemma Write_range_ok m bs b o i j k :
  inv m (b :: bs) -> o ∈ bs -> m_data b <> m_data o ->
  m_start o <= i <= j -> j <= m_end o -> writable b k (j - i) -> apart b k (j - i) bs ->
  (k + (j - i) <= m_zeroAreaStart b \/ zlen b = 0 \/ i = j) ->
  exists m' d, m_heap m !! m_data o = Some d /\
    Write_range (iter_of o i) (iter_of o j) (iter_of b k) m = Some (iter_of b (k + (j - i)), m') /\
    wrote b k (range d o i j) bs m m'.
Proof.
  intros Hi Ho Hbo [Hsi Hij] Hje Hw Ha Hk.
  destruct (inv_buf _ _ o Hi) as (z&d&Hd&[[Hs0 Hs] [Hz Hz'] He Hmx Hsz ? ? ? ?]); [by right|].
  destruct (inv_buf _ _ b Hi) as (zb&db&Hdb&[[??] [??] ? ? ? ? ? ? ?]); [by left|].
  destruct (hi_block _ _ (proj1 Hi) _ _ Hd) as [_ [_ Hlen _ _]].
  pose proof Hw as (Hw1&Hw2&_).
  set (n1 := if i <=? m_zeroAreaStart o then Z.min (j - i) (m_zeroAreaStart o - i) else 0).
  set (i1 := i + n1).
  set (n2 := if i1 <=? m_zeroAreaEnd o then Z.min (j - i1) (m_zeroAreaEnd o - i1) else 0).
  set (i2 := i1 + n2).
  assert (i <= i1 <= i2 /\ i2 <= j /\ (i < i1 -> i1 <= m_zeroAreaStart o) /\
    (i1 < i2 -> m_zeroAreaStart o <= i1 /\ i2 <= m_zeroAreaEnd o) /\
    (i2 < j -> m_zeroAreaEnd o <= i2)) as (Hi1&Hi2&Hr1&Hr2&Hr3).
  { subst i2 n2 i1 n1. repeat (case_match; norm_bool); lia. }
  assert (i1 = i + n1 /\ i2 = i1 + n2) as [Ei1 Ei2] by done.
  assert (forall x y m0, k <= x <= y -> y <= k + (j - i) -> inv m0 (b :: bs) ->
    m_heap m0 !! m_data o = Some d ->
    exists m1, store (m_data b) x (range d o (i + (x - k)) (i + (y - k))) m0 = Some m1 /\
      wrote b x (range d o (i + (x - k)) (i + (y - k))) bs m0 m1 /\
      m_heap m1 !! m_data o = Some d) as Hstep.
  { intros x y m0 Hx Hy Hi0 Hd0.
    pose proof (length_range d o (i + (x - k)) (i + (y - k))) as Hl.
    destruct (store_wrote m0 bs b x (range d o (i + (x - k)) (i + (y - k))) x Hi0)
      as (m1&Hst&Hwr).
    - rewrite Hl. eapply writable_sub; [done|lia|lia].
    - rewrite Hl. eapply apart_sub; [done|lia|lia|done|lia|unfold zlen; lia].
    - eapply range_bytes; [apply Hi0|done].
    - destruct (decide (x = y)) as [->|Hne]; [left|right].
      + by apply length_zero_iff_nil; lia.
      + unfold phys. destruct (Z.ltb_spec x (m_zeroAreaStart b)); [done|lia].
    - exists m1. split_and!; [done|done|]. by rewrite (store_other _ _ _ _ _ _ Hst Hbo). }
  destruct (Hstep k (k + n1) m) as (m1&Hst1&Hwr1&Hd1); [lia..|done|done|].
  destruct (Hstep (k + n1) (k + (n1 + n2)) m1) as (m2&Hst2&Hwr2&Hd2); [lia..|apply Hwr1|done|].
  destruct (Hstep (k + (n1 + n2)) (k + (j - i)) m2) as (m3&Hst3&Hwr3&Hd3); [lia..|apply Hwr2|done|].
  replace (i + (k - k)) with i in * by lia.
  replace (i + (k + n1 - k)) with i1 in * by lia.
  replace (i + (k + (n1 + n2) - k)) with i2 in * by lia.
  replace (i + (k + (j - i) - k)) with j in * by lia.
  exists m3, d. split; [done|]. split.
  - unfold Write_range. simpl. rewrite !Z.eqb_refl, (proj2 (Z.leb_le i j)) by done.
    rewrite (proj2 (Z.eqb_neq (m_data b) (m_data o))) by done. simpl.
    rewrite (u32_small (j - i)) by lia. rewrite (u32_small (k + (j - i))) by lia.
    change (mkIter (m_zeroAreaStart b) _ _ _ k _) with (iter_of b k).
    rewrite check_no_zero by (done || lia).
    replace (if i <=? m_zeroAreaStart o then _ else 0) with n1
      by (subst n1; destruct (Z.leb_spec i (m_zeroAreaStart o)); [rewrite u32_small by lia|]; done).
    rewrite (memcpy_store _ _ _ _ _ _ d) by (done || lia).
    replace (slice (m_bytes d) i n1) with (range d o i i1).
    2: { replace n1 with (i1 - i) by lia. destruct (decide (i = i1)) as [<-|].
         - unfold range. by rewrite Z.sub_diag.
         - symmetry. apply slice_before; lia. }
    rewrite Hst1. rewrite (u32_small (i + n1)), (u32_small (k + n1)) by lia. fold i1.
    replace (j - i - n1) with (j - i1) by lia. rewrite (u32_small (j - i1)) by lia.
    replace (if i1 <=? m_zeroAreaEnd o then _ else 0) with n2
      by (subst n2; destruct (Z.leb_spec i1 (m_zeroAreaEnd o)); [rewrite u32_small by lia|]; done).
    replace (replicate (Z.to_nat n2) 0) with (range d o i1 i2).
    2: { replace n2 with (i2 - i1) by lia. destruct (decide (i1 = i2)) as [E|].
         - unfold range. by rewrite E, Z.sub_diag.
         - symmetry. apply zeroes_range; lia. }
    rewrite Hst2. rewrite (u32_small (i1 + n2)) by lia. fold i2.
    rewrite (u32_small (k + n1 + n2)) by lia. replace (j - i1 - n2) with (j - i2) by lia.
    rewrite (u32_small (j - i2)), (u32_small (m_end o - i2)) by lia.
    rewrite Z.min_l by lia. rewrite (u32_small (m_zeroAreaEnd o - m_zeroAreaStart o)) by lia.
    replace (k + n1 + n2) with (k + (n1 + n2)) by lia.
    destruct (decide (i2 = j)) as [E|E].
    + rewrite E, Z.sub_diag in *. unfold memcpy. simpl.
      assert (range d o j j = []) as Hnil by (unfold range; by rewrite Z.sub_diag).
      rewrite Hnil in Hst3. injection Hst3 as <-. unfold set_current, iter_of. simpl.
      rewrite Z.add_0_r, u32_small by lia. do 3 f_equal; lia.
    + rewrite (u32_small (i2 - (m_zeroAreaEnd o - m_zeroAreaStart o))) by lia.
      rewrite (memcpy_store _ _ _ _ _ _ d) by (done || lia).
      pose proof (slice_after d o i2 j) as Hsa. unfold zlen in Hsa. rewrite Hsa by lia.
      rewrite Hst3. unfold set_current, iter_of. simpl. rewrite u32_small by lia.
      do 3 f_equal; lia.
  - rewrite (range_app d o i i2 j), (range_app d o i i1 i2) by lia.
    pose proof (length_range d o i i1). pose proof (length_range d o i1 i2).
    pose proof (length_range d o i2 j).
    eapply wrote_app; [done|lia|rewrite length_app; lia| |].
    + eapply wrote_app; [done|lia|lia|exact Hwr1|].
      by replace (k + Z.of_nat (length (range d o i i1))) with (k + n1) by lia.
    + rewrite length_app.
      by replace (k + Z.of_nat (length (range d o i i1) + length (range d o i1 i2)))
        with (k + (n1 + n2)) by lia.
Qed.

(** ** Growing and filling

    [AddAtStart] followed by writes at [Begin], and [AddAtEnd] followed by writes before [End]:
    the way headers, trailers and payloads are added. *)
Definition fresh (b : Buffer) (bs : list Buffer) : Prop :=
  forall c, c ∈ bs -> m_data c <> m_data b.

Lemma same_bytes_mono bs bs' m m' : bs' ⊆ bs -> same_bytes bs m m' -> same_bytes bs' m m'.
Proof. intros Hs H c Hc. apply H. by apply Hs. Qed.

Lemma prepend_ok n m bs b :
  inv m (b :: bs) -> room n b bs ->
  exists b' m', AddAtStart n b m = Some (b', m') /\ inv m' (b' :: bs) /\
    writable b' (m_start b') n /\ apart b' (m_start b') n bs /\
    (forall l m'', Z.of_nat (length l) = n -> wrote b' (m_start b') l bs m' m'' ->
       inv m'' (b' :: bs) /\ content m'' b' = l ++ content m b /\ same_bytes bs m m'') /\
    zlen b' = zlen b /\ m_end b' <= m_end b + n /\ (fresh b bs -> fresh b' bs) /\ same_bytes bs m m'.
Proof.
  intros Hi Hr. destruct (AddAtStart_ok n m bs b Hi Hr)
    as (b'&m'&l0&Hadd&Hi'&Hc&Hl0&Hsame&Hpriv&Hzs&Hzl&Hend&Hblk).
  assert (0 <= n) as Hn by apply Hr.
  assert (Z.of_nat (length (content m' b')) = m_end b' - m_start b') as Hlen
    by (eapply length_content; [done|by left]).
  rewrite Hc, length_app in Hlen.
  destruct (inv_buf _ _ b' Hi') as (z&d&Hd&[[??] [??] ? ? ? ? ? ? ?]); [by left|].
  exists b', m'. split_and!; try done.
  - split_and!; lia.
  - intros c Hcin Hcb. specialize (Hpriv c Hcin Hcb). unfold phys. case_match; norm_bool; lia.
  - intros l m'' Hl (Hi''&Hc''&Hs''). split_and!; [done| |by etrans].
    rewrite Hc'', Hc, Z.sub_diag. unfold blit. simpl.
    by rewrite drop_app_length' by lia.
  - intros Hf. destruct Hblk as [E|E]; [|done]. intros c Hcin. rewrite E. by apply Hf.
Qed.

Lemma append_ok n m bs b :
  inv m (b :: bs) -> room n b bs ->
  exists b' m', AddAtEnd n b m = Some (b', m') /\ inv m' (b' :: bs) /\
    Prev n (End_ b') = Some (iter_of b' (m_end b' - n)) /\
    writable b' (m_end b' - n) n /\ apart b' (m_end b' - n) n bs /\
    (forall l m'', Z.of_nat (length l) = n -> wrote b' (m_end b' - n) l bs m' m'' ->
       inv m'' (b' :: bs) /\ content m'' b' = content m b ++ l /\ same_bytes bs m m'') /\
    zlen b' = zlen b /\ m_end b' <= m_end b + n /\ (fresh b bs -> fresh b' bs) /\ same_bytes bs m m' /\
    (m_data b' = m_data b \/ fresh b' bs).
Proof.
  intros Hi Hr. destruct (AddAtEnd_ok n m bs b Hi Hr)
    as (b'&m'&l0&Hadd&Hi'&Hc&Hl0&Hsame&Hpriv&Hze&Hzl&Hzm&Hblk&Hend).
  assert (0 <= n) as Hn by apply Hr.
  assert (Z.of_nat (length (content m' b')) = m_end b' - m_start b') as Hlen
    by (eapply length_content; [done|by left]).
  rewrite Hc, length_app in Hlen.
  destruct (inv_buf _ _ b' Hi') as (z&d&Hd&[[??] [??] ? ? ? ? ? ? ?]); [by left|].
  exists b', m'. split_and!; try done.
  - rewrite End_iter. eapply iter_Prev; [done|by left|lia|lia].
  - split_and!; lia.
  - intros c Hcin Hcb. specialize (Hpriv c Hcin Hcb). unfold phys, phys_end in *.
    case_match; norm_bool; lia.
  - intros l m'' Hl (Hi''&Hc''&Hs''). split_and!; [done| |by etrans].
    rewrite Hc'', Hc. replace (m_end b' - n - m_start b') with (Z.of_nat (length (content m b))) by lia.
    unfold blit. rewrite Nat2Z.id, take_app_length. f_equal.
    rewrite drop_ge by (rewrite length_app; lia). by rewrite app_nil_r.
  - intros Hf. destruct Hblk as [E|E]; [|done]. intros c Hcin. rewrite E. by apply Hf.
Qed.

Lemma room_step n b bs b' k :
  m_end b' <= m_end b + n -> 0 <= k -> room (n + k) b bs -> room k b' bs.
Proof. unfold room. lia. Qed.

(** ** The three parts of a buffer *)
Section parts.
Context (m : Mem) (bs : list Buffer) (b : Buffer) (Hi : inv m bs) (Hin : b ∈ bs).

Definition before_zero : list Z := take (Z.to_nat (m_zeroAreaStart b - m_start b)) (content m b).
Definition after_zero : list Z := drop (Z.to_nat (m_zeroAreaEnd b - m_start b)) (content m b).

Lemma parts_range d :
  m_heap m !! m_data b = Some d ->
  before_zero = range d b (m_start b) (m_zeroAreaStart b) /\
  after_zero = range d b (m_zeroAreaEnd b) (m_end b).
Proof using Hi Hin.
  intros Hd. destruct (inv_buf _ _ _ Hi Hin) as (z&d'&Hd'&[[??] [??] ? ? ? ? ? ? ?]).
  unfold before_zero, after_zero. rewrite (content_eq _ _ _ Hd). split.
  - pose proof (range_take d b (m_start b) (m_end b) (m_zeroAreaStart b - m_start b)) as <-;
      [f_equal; lia|lia|lia].
  - pose proof (range_drop d b (m_start b) (m_end b) (m_zeroAreaEnd b - m_start b)) as <-;
      [f_equal; lia|lia|lia].
Qed.

Lemma content_parts :
  content m b = before_zero ++ replicate (Z.to_nat (zlen b)) 0 ++ after_zero /\
  Z.of_nat (length before_zero) = m_zeroAreaStart b - m_start b /\
  Z.of_nat (length after_zero) = m_end b - m_zeroAreaEnd b /\
  Forall is_byte before_zero /\ Forall is_byte after_zero.
Proof using Hi Hin.
  destruct (inv_buf _ _ _ Hi Hin) as (z&d&Hd&[[??] [??] ? ? ? ? ? ? ?]).
  destruct (parts_range d Hd) as [-> ->]. rewrite (content_eq _ _ _ Hd), !length_range.
  split_and!; [|lia|lia|eapply range_bytes; [apply Hi|done]..].
  unfold zlen. rewrite (zeroes_range d b) by lia.
  rewrite <- range_app, <- range_app by lia. done.
Qed.

Lemma load_before :
  load_range (m_data b) (m_start b) (m_zeroAreaStart b - m_start b) m = Some before_zero.
Proof using Hi Hin.
  destruct (inv_buf _ _ _ Hi Hin) as (z&d&Hd&Hok). pose proof Hok as [[??] [??] ? ? ? ? ? ? ?].
  destruct (hi_block _ _ (proj1 Hi) _ _ Hd) as [_ [_ Hbl _ _]].
  rewrite (load_range_ok m bs b z d) by (done || unfold phys_end, zlen; lia).
  destruct (parts_range d Hd) as [-> _]. f_equal. apply slice_before; lia.
Qed.

Lemma load_after :
  load_range (m_data b) (m_zeroAreaStart b) (m_end b - m_zeroAreaEnd b) m = Some after_zero.
Proof using Hi Hin.
  destruct (inv_buf _ _ _ Hi Hin) as (z&d&Hd&Hok). pose proof Hok as [[??] [??] ? ? ? ? ? ? ?].
  destruct (hi_block _ _ (proj1 Hi) _ _ Hd) as [_ [_ Hbl _ _]].
  rewrite (load_range_ok m bs b z d) by (done || unfold phys_end, zlen; lia).
  destruct (parts_range d Hd) as [_ ->]. f_equal.
  pose proof (slice_after d b (m_zeroAreaEnd b) (m_end b)) as Hsa. unfold zlen in Hsa.
  rewrite <- Hsa by lia. f_equal; lia.
Qed.
End parts.

(** ** [CreateFullCopy] *)
Lemma CreateFullCopy_ok m bs b :
  inv m bs -> b ∈ bs -> Z.of_nat (length bs) + 3 < 4294967296 ->
  g_recommendedStart m + (m_end b - m_start b) + 101 < 4294967296 ->
  exists t m', CreateFullCopy b m = Some (t, m') /\ inv m' (t :: bs) /\
    content m' t = content m b /\ zlen t = 0 /\ same_bytes bs m m' /\
    ((zlen b = 0 /\ same_window t b) \/ fresh t bs) /\
    m_end t <= Z.max (m_end b) (g_recommendedStart m + (m_end b - m_start b)).
Proof.
  intros Hi Hin Hlen Hrec. destruct (inv_buf _ _ _ Hi Hin) as (z&d&Hd&Hok).
  pose proof Hok as [[Hs0 Hs] [Hz Hz'] He ? Hsz ? ? ? ?].
  unfold CreateFullCopy. rewrite (u32_small (m_zeroAreaEnd b - m_zeroAreaStart b)) by lia.
  destruct (Z.eqb_spec (m_zeroAreaEnd b - m_zeroAreaStart b) 0) as [E|E]; simpl.
  { destruct (copy_ok m bs b Hi Hin) as (t&m'&->&Hi'&Hw&Hc&Hsb); [lia|].
    exists t, m'. split_and!; try done; [|by left|].
    - destruct Hw as (_&_&_&H3&H4). unfold zlen. rewrite H3, H4. lia.
    - destruct Hw as (_&_&->&_). lia. }
  set (nz := m_zeroAreaEnd b - m_zeroAreaStart b) in *.
  assert (0 <= nz /\ nz = m_zeroAreaEnd b - m_zeroAreaStart b) as [Hnz Enz] by (split; [lia|done]).
  clearbody nz.
  destruct (content_parts m bs b Hi Hin) as (Hc&Hlb&Hla&Hby1&Hby2).
  destruct (Initialize_ok 0 m bs Hi) as (t0&m1&->&Hi1&Hc1&Hs1&Hz1&Hz1'&Hst1&_&Hf1); [lia|lia|lia|].
  assert (m_end t0 = m_start t0) as Het0.
  { assert (Z.of_nat (length (content m1 t0)) = m_end t0 - m_start t0) as Hl
      by (eapply length_content; [done|by left]). rewrite Hc1 in Hl. simpl in Hl. lia. }
  assert (zlen t0 = 0) as Hzl0 by (unfold zlen; lia).
  (* the zeroes *)
  destruct (prepend_ok nz m1 bs t0 Hi1) as (t1&m2&->&Hi2&Hw2&Ha2&Hf2&Hzl2&He2&Hfr2&Hsa2);
    [unfold room in *; lia|].
  rewrite Begin_iter. destruct (WriteU8_len_ok m2 bs t1 Hi2 (m_start t1) 0 nz) as (m3&->&Hwr3);
    [lia|done|done|].
  destruct (Hf2 (replicate (Z.to_nat nz) (u8 0)) m3 ltac:(rewrite length_replicate; lia) Hwr3) as (Hi3&Hc3&Hs3).
  rewrite Hc1, app_nil_r in Hc3.
  (* the part before *)
  rewrite (u32_small (m_zeroAreaStart b - m_start b)) by lia.
  destruct (prepend_ok (m_zeroAreaStart b - m_start b) m3 bs t1 Hi3)
    as (t2&m4&->&Hi4&Hw4&Ha4&Hf4&Hzl4&He4&Hfr4&Hsa4); [unfold room in *; lia|].
  assert (same_bytes bs m m4) as Hs4
    by (etrans; [exact Hs1|]; etrans; [exact Hs3|done]).
  rewrite (load_before m4 (t2 :: bs) b Hi4) by by right.
  replace (before_zero m4 b) with (before_zero m b) by (unfold before_zero; by rewrite (Hs4 b)).
  rewrite Begin_iter. rewrite <- Hlb in Hw4, Ha4.
  destruct (Write_bytes_ok m4 bs t2 Hi4 (m_start t2) (before_zero m b)) as (m5&->&Hwr5); [done..|].
  destruct (Hf4 _ _ Hlb Hwr5) as (Hi5&Hc5&Hs5).
  (* the part after *)
  rewrite (u32_small (m_end b - m_zeroAreaEnd b)) by lia.
  destruct (append_ok (m_end b - m_zeroAreaEnd b) m5 bs t2 Hi5)
    as (t3&m6&->&Hi6&->&Hw6&Ha6&Hf6&Hzl6&He6&Hfr6&Hsa6&_); [unfold room in *; lia|].
  assert (same_bytes bs m m6) as Hs6
    by (etrans; [exact Hs1|]; etrans; [exact Hs3|]; etrans; [exact Hs5|done]).
  rewrite (load_after m6 (t3 :: bs) b Hi6) by by right.
  replace (after_zero m6 b) with (after_zero m b) by (unfold after_zero; by rewrite (Hs6 b)).
  rewrite <- Hla in Hw6 at 2. rewrite <- Hla in Ha6 at 2.
  destruct (Write_bytes_ok m6 bs t3 Hi6 (m_end t3 - (m_end b - m_zeroAreaEnd b)) (after_zero m b))
    as (m7&->&Hwr7); [done..|].
  destruct (Hf6 _ _ Hla Hwr7) as (Hi7&Hc7&Hs7).
  exists t3, m7. split_and!; [done|done| |lia| |right; exact (Hfr6 (Hfr4 (Hfr2 Hf1)))|lia].
  - rewrite Hc7, Hc5, Hc3, Hc. change (u8 0) with 0. unfold zlen. rewrite <- Enz. by rewrite <- (assoc_L (++)).
  - etrans; [exact Hs1|]. etrans; [exact Hs3|]. etrans; [exact Hs5|exact Hs7].
Qed.

(** ** Fragments *)
Lemma CreateFragment_ok start n m bs b :
  inv m bs -> b ∈ bs -> Z.of_nat (length bs) + 1 < 4294967296 -> 0 <= start -> 0 <= n ->
  start + n <= m_end b - m_start b -> m_end b + start < 4294967296 ->
  exists f m', CreateFragment start n b m = Some (f, m') /\ inv m' (f :: bs) /\
    content m' f = take (Z.to_nat n) (drop (Z.to_nat start) (content m b)) /\ same_bytes bs m m'.
Proof.
  intros Hi Hin Hlen Hs Hn Hle Hlim. unfold CreateFragment.
  destruct (inv_buf _ _ _ Hi Hin) as (z&d&Hd&[[??] [??] ? ? ? ? ? ? ?]).
  destruct (copy_ok m bs b Hi Hin Hlen) as (t&m'&->&Hi1&Hw&Hc&Hsb).
  destruct Hw as (_&Hws&Hwe&_&_).
  destruct (RemoveAtStart_ok start m' bs t Hi1 Hs) as [Hi2 Hc2]; [lia|].
  rewrite (proj1 (GetSize_ok _ _ _ Hi Hin)). rewrite (u32_small (start + n)) by lia.
  rewrite u32_small by lia.
  destruct (RemoveAtEnd_ok (m_end b - m_start b - (start + n)) m' bs _ Hi2) as [Hi3 Hc3]; [lia|].
  eexists _, m'. split_and!; [done|done| |done]. rewrite Hc3, Hc2, Hc.
  pose proof (length_content _ _ _ Hi Hin). rewrite length_drop. f_equal. lia.
Qed.

(** ** [PeekData] *)
Lemma TransformIntoRealBuffer_ok m bs b :
  inv m (b :: bs) -> Z.of_nat (length bs) + 4 < 4294967296 ->
  g_recommendedStart m + (m_end b - m_start b) + 101 < 4294967296 ->
  exists b' m', TransformIntoRealBuffer b m = Some (b', m') /\ inv m' (b' :: bs) /\
    content m' b' = content m b /\ zlen b' = 0 /\ same_bytes bs m m' /\
    ((zlen b = 0 /\ m_data b' = m_data b) \/ fresh b' bs) /\
    m_end b' <= Z.max (m_end b) (g_recommendedStart m + (m_end b - m_start b)).
Proof.
  intros Hi Hlen Hrec. unfold TransformIntoRealBuffer.
  destruct (CreateFullCopy_ok m (b :: bs) b Hi) as (t&m1&->&Hi1&Hc1&Hzl&Hs1&Hblk&He1);
    [by left|rewrite length_cons; lia|done|].
  destruct (assign_ok m1 (t :: bs) b t) as (b'&m2&->&Hi2&Hw2&Hc2&Hs2);
    [eapply inv_perm; [apply Permutation_swap|done]|by left|].
  destruct (destroy_ok m2 (b' :: bs) t) as (m3&->&Hi3&Hs3);
    [eapply inv_perm; [apply Permutation_swap|done]|].
  exists b', m3. destruct Hw2 as (Hwd&Hws&Hwe&Hwz&Hwz').
  split_and!; [done|done| | | | |lia].
  - rewrite (Hs3 b') by by left. by rewrite Hc2, Hc1.
  - unfold zlen in *. by rewrite Hwz, Hwz'.
  - etrans; [eapply same_bytes_mono; [|exact Hs1]; set_solver|].
    etrans; [eapply same_bytes_mono; [|exact Hs2]; set_solver|].
    eapply same_bytes_mono; [|exact Hs3]; set_solver.
  - destruct Hblk as [[? (?&_)]|Hf]; [left; split; congruence|right].
    intros c Hc. rewrite Hwd. apply Hf. by right.
Qed.

Lemma load_content m bs b :
  inv m bs -> b ∈ bs -> zlen b = 0 ->
  load_range (m_data b) (m_start b) (GetSize b) m = Some (content m b).
Proof.
  intros Hi Hin Hz. rewrite (proj1 (GetSize_ok _ _ _ Hi Hin)).
  destruct (inv_buf _ _ _ Hi Hin) as (z&d&Hd&Hok). pose proof Hok as [[??] [??] ? ? ? ? ? ? ?].
  destruct (hi_block _ _ (proj1 Hi) _ _ Hd) as [_ [_ Hbl _ _]]. unfold zlen in *.
  rewrite (load_range_ok m bs b z d) by (done || unfold phys_end, zlen; lia).
  rewrite (content_eq _ _ _ Hd). f_equal. apply slice_range; [|lia..]. intros k Hk. unfold byte_at.
  repeat (case_match; norm_bool; try lia). f_equal. lia.
Qed.

(** ** Copying out *)
Section copy.
Context (m : Mem) (bs : list Buffer) (b : Buffer) (Hi : inv m bs) (Hin : b ∈ bs).

Lemma load_before_n n :
  0 <= n <= m_zeroAreaStart b - m_start b ->
  load_range (m_data b) (m_start b) n m = Some (take (Z.to_nat n) (content m b)).
Proof using Hi Hin.
  intros Hn. destruct (inv_buf _ _ _ Hi Hin) as (z&d&Hd&Hok).
  pose proof Hok as [[??] [??] ? ? ? ? ? ? ?].
  destruct (hi_block _ _ (proj1 Hi) _ _ Hd) as [_ [_ Hbl _ _]].
  rewrite (load_range_ok m bs b z d) by (done || unfold phys_end, zlen; lia).
  rewrite (content_eq _ _ _ Hd), <- range_take by lia. f_equal.
  rewrite <- slice_before by lia. f_equal. lia.
Qed.

Lemma load_after_n n :
  0 <= n <= m_end b - m_zeroAreaEnd b ->
  load_range (m_data b) (m_zeroAreaStart b) n m = Some (take (Z.to_nat n) (after_zero m b)).
Proof using Hi Hin.
  intros Hn. destruct (inv_buf _ _ _ Hi Hin) as (z&d&Hd&Hok).
  pose proof Hok as [[??] [??] ? ? ? ? ? ? ?].
  destruct (hi_block _ _ (proj1 Hi) _ _ Hd) as [_ [_ Hbl _ _]].
  rewrite (load_range_ok m bs b z d) by (done || unfold phys_end, zlen; lia).
  destruct (parts_range m bs b Hi Hin d Hd) as [_ ->]. rewrite <- range_take by lia. f_equal.
  pose proof (slice_after d b (m_zeroAreaEnd b) (m_zeroAreaEnd b + n)) as Hsa. unfold zlen in Hsa.
  rewrite <- Hsa by lia. f_equal; lia.
Qed.

Lemma copy_zeroes_ok fuel n :
  0 <= n < 4294967296 -> (Z.to_nat n <= fuel)%nat ->
  copy_zeroes fuel n = Some (replicate (Z.to_nat n) 0).
Proof using Type.
  revert n. induction fuel as [|fuel IH]; intros n Hn Hf; cbn [copy_zeroes];
    destruct (Z.leb_spec n 0); try lia; try by replace n with 0 by lia.
  rewrite u32_small by lia. rewrite IH by lia. rewrite <- replicate_add. do 2 f_equal. lia.
Qed.

(** The three parts of a prefix. *)
Lemma take_parts n n1 n2 n3 :
  0 <= n -> n1 = Z.min (m_zeroAreaStart b - m_start b) n ->
  n2 = Z.min (m_zeroAreaEnd b - m_zeroAreaStart b) (n - n1) ->
  n3 = Z.min (m_end b - m_zeroAreaEnd b) (n - n1 - n2) ->
  take (Z.to_nat n) (content m b) =
    take (Z.to_nat n1) (content m b) ++ replicate (Z.to_nat n2) 0 ++
    take (Z.to_nat n3) (after_zero m b).
Proof using Hi Hin.
  intros Hn En1 En2 En3. destruct (content_parts m bs b Hi Hin) as (Hc&Hl1&Hl2&_&_).
  destruct (inv_buf _ _ _ Hi Hin) as (z&d&Hd&[[??] [??] ? ? ? ? ? ? ?]).
  unfold zlen in *. rewrite Hc.
  rewrite (take_app_le _ _ (Z.to_nat n1)) by lia.
  destruct (decide (n <= m_zeroAreaStart b - m_start b)).
  - rewrite take_app_le by lia. replace n1 with n by lia. replace n2 with 0 by lia.
    replace n3 with 0 by lia. simpl. by rewrite app_nil_r.
  - rewrite take_app_ge by lia. rewrite (take_ge (before_zero m b)) by lia. f_equal.
    destruct (decide (n - n1 <= m_zeroAreaEnd b - m_zeroAreaStart b)).
    + rewrite take_app_le by (rewrite length_replicate; lia). rewrite take_replicate.
      replace n3 with 0 by lia. simpl. rewrite app_nil_r. f_equal. lia.
    + rewrite take_app_ge by (rewrite length_replicate; lia). rewrite length_replicate.
      replace n2 with (m_zeroAreaEnd b - m_zeroAreaStart b) by lia. f_equal.
      destruct (decide (n - n1 - n2 <= m_end b - m_zeroAreaEnd b)).
      * f_equal. lia.
      * by rewrite !take_ge by lia.
Qed.

Lemma CopyData_ok n :
  0 <= n < 4294967296 -> CopyData n b m = Some (take (Z.to_nat n) (content m b)).
Proof using Hi Hin.
  intros Hn. destruct (inv_buf _ _ _ Hi Hin) as (z&d&Hd&[[??] [??] ? ? ? ? ? ? ?]).
  remember (Z.min (m_zeroAreaStart b - m_start b) n) as n1 eqn:E1.
  remember (Z.min (m_zeroAreaEnd b - m_zeroAreaStart b) (n - n1)) as n2 eqn:E2.
  remember (Z.min (m_end b - m_zeroAreaEnd b) (n - n1 - n2)) as n3 eqn:E3.
  rewrite (take_parts n n1 n2 n3) by (done || lia). unfold CopyData.
  rewrite (u32_small (m_zeroAreaStart b - m_start b)) by lia.
  rewrite (u32_small (m_zeroAreaEnd b - m_zeroAreaStart b)) by lia.
  rewrite (u32_small (m_end b - m_zeroAreaEnd b)) by lia.
  rewrite <- E1, (u32_small (n - n1)) by lia. rewrite <- E2, (u32_small (n - n1 - n2)) by lia.
  rewrite <- E3.
  destruct (Z.leb_spec n 0).
  { replace n1 with 0 by lia. replace n2 with 0 by lia. by replace n3 with 0 by lia. }
  rewrite load_before_n by lia. destruct (Z.leb_spec (n - n1) 0).
  { replace n2 with 0 by lia. replace n3 with 0 by lia. simpl. by rewrite app_nil_r. }
  rewrite copy_zeroes_ok by lia. destruct (Z.leb_spec (n - n1 - n2) 0).
  { replace n3 with 0 by lia. simpl. by rewrite app_nil_r. }
  by rewrite load_after_n by lia.
Qed.

Lemma CopyData_stream_ok n :
  0 <= n < 4294967296 -> CopyData_stream n b m = Some (take (Z.to_nat n) (content m b)).
Proof using Hi Hin.
  intros Hn. destruct (inv_buf _ _ _ Hi Hin) as (z&d&Hd&[[??] [??] ? ? ? ? ? ? ?]).
  remember (Z.min (m_zeroAreaStart b - m_start b) n) as n1 eqn:E1.
  remember (Z.min (m_zeroAreaEnd b - m_zeroAreaStart b) (n - n1)) as n2 eqn:E2.
  remember (Z.min (m_end b - m_zeroAreaEnd b) (n - n1 - n2)) as n3 eqn:E3.
  rewrite (take_parts n n1 n2 n3) by (done || lia). unfold CopyData_stream.
  rewrite (u32_small (m_zeroAreaStart b - m_start b)) by lia.
  rewrite (u32_small (m_zeroAreaEnd b - m_zeroAreaStart b)) by lia.
  rewrite (u32_small (m_end b - m_zeroAreaEnd b)) by lia. rewrite <- E1.
  destruct (Z.leb_spec n 0).
  { replace n1 with 0 by lia. replace n2 with 0 by lia. by replace n3 with 0 by lia. }
  rewrite load_before_n by lia. destruct (Z.leb_spec n n1).
  { replace n2 with 0 by lia. replace n3 with 0 by lia. simpl. by rewrite app_nil_r. }
  replace (m_zeroAreaStart b - m_start b) with n1 by lia. rewrite (u32_small (n - n1)) by lia.
  rewrite <- E2, copy_zeroes_ok by lia. destruct (Z.leb_spec (n - n1) n2).
  { replace n3 with 0 by lia. simpl. by rewrite app_nil_r. }
  rewrite (u32_small (n - n1 - n2)) by lia. rewrite <- E3. by rewrite load_after_n by lia.
Qed.
End copy.

(** ** Concatenation *)

(** The condition of the optimisation for adjacent zero areas. *)
Definition adjacent_zeroes (o b : Buffer) (d : Data) : Prop :=
  m_count d = 1 /\ (m_end b = m_zeroAreaEnd b \/ m_zeroAreaStart b = m_zeroAreaEnd b) /\
  m_end b = m_dirtyEnd d /\ m_start o = m_zeroAreaStart o /\ 0 < zlen o.

(** Extending the zero area of a buffer that is alone on its block. *)
Lemma extend_zero_ok m bs b z d n zs ze :
  inv m (b :: bs) -> m_heap m !! m_data b = Some d -> buf_ok z d b -> m_count d = 1 ->
  (m_end b = m_zeroAreaEnd b \/ m_zeroAreaStart b = m_zeroAreaEnd b) ->
  0 <= n -> m_end b + n < 4294967296 -> ze = m_end b + n ->
  zs = (if m_zeroAreaStart b =? m_zeroAreaEnd b then m_end b else m_zeroAreaStart b) ->
  let b' := mkBuffer (m_data b) (m_maxZeroAreaStart b) zs ze (m_start b) ze in
  let m' := set_heap (<[m_data b := set_dirty (m_dirtyStart d) ze d]> (m_heap m)) m in
  inv m' (b' :: bs) /\ same_bytes bs m m' /\
  content m' b' = content m b ++ replicate (Z.to_nat n) 0.
Proof.
  intros Hi Hd Hok Hcnt Hadj Hn Hlim Eze Ezs b' m'.
  pose proof Hok as [[??] [??] ? ? ? ? ? ? ?].
  assert (m_zeroAreaStart b = m_zeroAreaEnd b /\ zs = m_end b \/
          m_zeroAreaEnd b = m_end b /\ zs = m_zeroAreaStart b) as Hcase.
  { destruct (Z.eqb_spec (m_zeroAreaStart b) (m_zeroAreaEnd b)); [by left|right]. split; [|done].
    by destruct Hadj as [?|?]. }
  destruct (dirty_update_ok m bs b b' z d (zlen b') (m_dirtyStart d) ze Hi Hd Hok) as [Hi' Hs'];
    [done| | |].
  { subst b'. unfold zlen. split; simpl; lia. }
  { intros c Hc Hcb. by destruct (proj1 (count_one_alone _ _ _ _ (proj1 Hi) Hd) Hcnt c Hc). }
  split_and!; [done|done|].
  rewrite (content_eq _ _ _ Hd). erewrite (content_eq m' b') by apply lookup_insert_eq.
  rewrite (range_app _ b' (m_start b') (m_end b) _) by (simpl; lia). f_equal.
  - apply range_ext; [done|]. intros k Hk. clear Ezs Hadj. subst b'. simpl in *. unfold byte_at. simpl.
    repeat (case_match; norm_bool; try lia); try done; f_equal; lia.
  - pose proof (zeroes_range (set_dirty (m_dirtyStart d) ze d) b' (m_end b) ze) as Hz.
    simpl in Hz |- *. rewrite <- Hz by lia. f_equal. lia.
Qed.

(** The general path: the buffer is made real, and the bytes of the other are copied behind it. *)
Lemma AddAtEnd_general_ok m bs b o :
  inv m (b :: bs) -> o ∈ bs -> (m_data b <> m_data o \/ zlen b <> 0) ->
  Z.of_nat (length bs) + 4 < 4294967296 ->
  g_recommendedStart m + m_end b + (m_end o - m_start o) + 101 < 4294967296 ->
  exists b' m',
    (let! (tmp, m1) := CreateFullCopy b m in
     let! (b1, m2) := assign b tmp m1 in
     let! m3 := destroy tmp m2 in
     let! (b2, m4) := AddAtEnd (GetSize o) b1 m3 in
     let! dst := Prev (GetSize o) (End_ b2) in
     let! (_, m5) := Write_range (Begin o) (End_ o) dst m4 in Some (b2, m5)) = Some (b', m') /\
    inv m' (b' :: bs) /\ content m' b' = content m b ++ content m o /\ same_bytes bs m m'.
Proof.
  intros Hi Ho Hbo Hlen Hlim.
  destruct (inv_buf _ _ b Hi) as (zb&d&Hd&Hokb); [by left|].
  destruct (inv_buf _ _ o Hi) as (zo&d_o&Hdo&Hoko); [by right|].
  pose proof Hokb as [[??] [??] ? ? ? ? ? ? ?]. pose proof Hoko as [[??] [??] ? ? ? ? ? ? ?].
  assert (0 <= g_recommendedStart m) by apply (hi_start _ _ (proj1 Hi)).
  destruct (TransformIntoRealBuffer_ok m bs b Hi) as (b1&m1&E1&Hi1&Hc1&Hzl1&Hs1&Hblk1&He1);
    [lia|lia|].
  unfold TransformIntoRealBuffer in E1.
  destruct (CreateFullCopy b m) as [[t mt]|]; [|done].
  destruct (assign b t mt) as [[b1' mt']|]; [|done].
  destruct (destroy t mt') as [mt''|]; [|done]. injection E1 as -> ->.
  pose proof (GetSize_ok m (b :: bs) o Hi ltac:(by right)) as [Hsz Hszc]. rewrite Hsz.
  destruct (append_ok (m_end o - m_start o) m1 bs b1 Hi1)
    as (b2&m2&->&Hi2&->&Hw2&Ha2&Hf2&Hzl2&He2&Hfr2&Hsa2&Hblk2); [unfold room; lia|].
  rewrite Begin_iter, End_iter.
  assert (m_data b2 <> m_data o) as Hne.
  { intros E. destruct Hblk2 as [E2'|Hf]; [|by destruct (Hf o Ho)].
    destruct Hblk1 as [[? ?]|Hf]; [destruct Hbo; congruence|]. destruct (Hf o Ho). congruence. }
  destruct (Write_range_ok m2 bs b2 o (m_start o) (m_end o) (m_end b2 - (m_end o - m_start o))
    Hi2 Ho) as (m3&d3&Hd3&->&Hwr); [done|lia|lia|done|done|right; left; congruence|].
  destruct (Hf2 (range d3 o (m_start o) (m_end o)) m3) as (Hi3&Hc3&Hs3);
    [rewrite length_range; lia|done|].
  exists b2, m3. split_and!; [done|done| |by etrans]. rewrite Hc3, Hc1. f_equal.
  rewrite <- (content_eq _ _ _ Hd3). rewrite (Hsa2 o Ho). by apply Hs1.
Qed.

(** C5: Appending a buffer to another gives the concatenation of their contents and leaves every
    other buffer as it was, on the optimised path (adjacent zero areas) provided no byte follows
    the zero area of the appended buffer, and on the general path provided the two buffers do not
    share a block without zero area. *)
Lemma AddAtEnd_buffer_ok m bs b o d :
  inv m (b :: bs) -> o ∈ bs -> m_heap m !! m_data b = Some d ->
  (adjacent_zeroes o b d -> m_end o = m_zeroAreaEnd o) ->
  (m_data b <> m_data o \/ zlen b <> 0) -> Z.of_nat (length bs) + 4 < 4294967296 ->
  g_recommendedStart m + m_end b + (m_end o - m_start o) + 101 < 4294967296 ->
  exists b' m', AddAtEnd_buffer o b m = Some (b', m') /\ inv m' (b' :: bs) /\
    content m' b' = content m b ++ content m o /\ same_bytes bs m m'.
Proof.
  intros Hi Ho Hd Hopt Hbo Hlen Hlim.
  destruct (inv_buf _ _ b Hi) as (zb&d'&Hd'&Hokb); [by left|]. simplify_eq.
  destruct (inv_buf _ _ o Hi) as (zo&d_o&Hdo&Hoko); [by right|].
  pose proof Hokb as [[??] [??] ? ? ? ? ? ? ?]. pose proof Hoko as [[??] [??] ? ? ? ? ? ? ?].
  assert (0 <= g_recommendedStart m) by apply (hi_start _ _ (proj1 Hi)).
  unfold AddAtEnd_buffer. rewrite Hd.
  rewrite (u32_small (m_zeroAreaEnd o - m_zeroAreaStart o)) by lia.
  rewrite (u32_small (m_end o - m_zeroAreaEnd o)) by lia.
  destruct (_ && _) eqn:Hc.
  - assert (adjacent_zeroes o b d) as Hadj
      by (unfold adjacent_zeroes, zlen; rewrite !andb_true_iff, orb_true_iff in Hc; lia).
    pose proof (Hopt Hadj) as Heo. rewrite Heo, Z.sub_diag. destruct Hadj as (Hcnt&Hz&Hde&Hos&Hzl).
    rewrite (u32_small (m_end b + _)) by lia. unfold update. rewrite Hd.
    set (zs := if m_zeroAreaStart b =? m_zeroAreaEnd b then m_end b else m_zeroAreaStart b).
    set (ze := m_end b + (m_zeroAreaEnd o - m_zeroAreaStart o)).
    destruct (extend_zero_ok m bs b zb d (m_zeroAreaEnd o - m_zeroAreaStart o) zs ze
      Hi Hd Hokb Hcnt Hz) as (Hi1&Hs1&Hc1); [lia|lia|done|done|].
    set (b1 := mkBuffer _ _ _ _ _ _) in *. set (m1 := set_heap _ m) in *.
    assert (fresh b1 bs) as Hfr1 by exact (proj1 (count_one_alone _ _ _ _ (proj1 Hi) Hd) Hcnt).
    destruct (append_ok 0 m1 bs b1 Hi1) as (b2&m2&->&Hi2&->&Hw2&Ha2&Hf2&Hzl2&He2&Hfr2&Hsa2&_);
      [unfold room; simpl; lia|].
    rewrite !End_iter, (iter_Prev m1 (b1 :: bs) o Hi1) by (by right || lia). rewrite Z.sub_0_r.
    rewrite <- (Z.sub_diag (m_end o)) in Hw2 at 2. rewrite <- (Z.sub_diag (m_end o)) in Ha2 at 2.
    destruct (Write_range_ok m2 bs b2 o (m_end o) (m_end o) (m_end b2 - 0) Hi2 Ho)
      as (m3&d3&Hd3&->&Hwr); [|lia|lia|done|done|by right; right|].
    { intros E. by destruct (Hfr2 Hfr1 o Ho). }
    destruct (Hf2 (range d3 o (m_end o) (m_end o)) m3) as (Hi3&Hc3&Hs3);
      [rewrite length_range; lia|done|].
    exists b2, m3. split_and!; [done|done| |by etrans]. rewrite Hc3, Hc1.
    rewrite <- (assoc_L (++)). f_equal.
    destruct (content_parts m (b :: bs) o Hi ltac:(by right)) as (->&Hl1&Hl2&_&_).
    assert (before_zero m o = []) as -> by (apply nil_length_inv; lia).
    assert (after_zero m o = []) as -> by (apply nil_length_inv; lia).
    unfold range. rewrite Z.sub_diag. simpl. by rewrite !app_nil_r.
  - by apply AddAtEnd_general_ok.
Qed.
