(* ===== verification/BufferSer.v ===== *)
(** * Serialization of buffers and the IP checksum *)

From S2P Require Import Buffer BufferSpec BufferIter BufferOps.

(** ** Serialization *)
Lemma round4_eq n : 0 <= n < 4294967292 -> round4 n = 4 * ((n + 3) / 4).
Proof.
  intros Hn. unfold round4. rewrite u32_small by lia.
  change (u32 (Z.lnot 3)) with (Z.shiftl (Z.ones 30) 2).
  replace (4 * ((n + 3) / 4)) with (Z.shiftl (Z.shiftr (n + 3) 2) 2)
    by (rewrite Z.shiftl_mul_pow2, Z.shiftr_div_pow2 by lia; change (2 ^ 2) with 4; lia).
  apply Z.bits_inj'. intros i Hi. rewrite Z.land_spec.
  destruct (decide (i < 2)).
  - rewrite !Z.shiftl_spec_low by lia. by rewrite andb_false_r.
  - rewrite !Z.shiftl_spec_high, Z.shiftr_spec by lia. replace (i - 2 + 2) with i by lia.
    destruct (decide (i < 32)).
    + rewrite Z.ones_spec_low by lia. by rewrite andb_true_r.
    + rewrite Z.ones_spec_high by lia. rewrite andb_false_r. symmetry. apply Z.bits_above_log2; [lia|].
      apply Z.log2_lt_pow2; [lia|]. apply Z.lt_le_trans with (2 ^ 32); [lia|].
      apply Z.pow_le_mono_r; lia.
Qed.

Lemma round4_bounds n : 0 <= n < 4294967292 -> n <= round4 n <= n + 3 /\ 4 * (round4 n / 4) = round4 n.
Proof. intros Hn. rewrite round4_eq by done. split; lia. Qed.

Lemma slice_blit_other l off src o2 n :
  0 <= off -> off + Z.of_nat (length src) <= Z.of_nat (length l) -> 0 <= o2 -> 0 <= n ->
  o2 + n <= Z.of_nat (length l) -> o2 + n <= off \/ off + Z.of_nat (length src) <= o2 ->
  slice (blit l off src) o2 n = slice l o2 n.
Proof.
  intros. assert (length (blit l off src) = length l) as Hlen by by apply length_blit.
  apply get_ext.
  - pose proof (length_slice (blit l off src) o2 n). pose proof (length_slice l o2 n). lia.
  - intros i Hi. rewrite length_slice in Hi by lia. rewrite !get_slice, get_blit by lia.
    rewrite decide_False; [done|lia].
Qed.

Lemma word_bytes v : word v = reverse (bytes_be 4 v).
Proof. by rewrite bytes_be_4. Qed.
Lemma length_word v : length (word v) = 4%nat.
Proof. done. Qed.

(** What a well-formed serialization holds: three lengths and the two stored parts. *)
Record wire (l : list Z) (zeroes : Z) (a c : list Z) : Prop := {
  wire_zero : slice l 0 4 = word zeroes;
  wire_alen : slice l 4 4 = word (Z.of_nat (length a));
  wire_a : slice l 8 (Z.of_nat (length a)) = a;
  wire_clen : slice l (8 + round4 (Z.of_nat (length a))) 4 = word (Z.of_nat (length c));
  wire_c : slice l (12 + round4 (Z.of_nat (length a))) (Z.of_nat (length c)) = c;
  wire_length :
    12 + round4 (Z.of_nat (length a)) + round4 (Z.of_nat (length c)) <= Z.of_nat (length l)
}.

Section serialize.
Context (m : Mem) (bs : list Buffer) (b : Buffer) (Hi : inv m bs) (Hin : b ∈ bs).
Context (Hsize : m_end b - m_start b + 20 < 4294967296).

Lemma GetSerializedSize_ok :
  GetSerializedSize b =
    12 + round4 (Z.of_nat (length (before_zero m b))) + round4 (Z.of_nat (length (after_zero m b))).
Proof using Hi Hin Hsize.
  destruct (content_parts m bs b Hi Hin) as (_&Hl1&Hl2&_&_).
  destruct (inv_buf _ _ _ Hi Hin) as (z&d&Hd&[[??] [??] ? ? ? ? ? ? ?]).
  unfold GetSerializedSize. cbv zeta. rewrite !(u32_small (m_zeroAreaStart b - m_start b)) by lia.
  rewrite !(u32_small (m_end b - m_zeroAreaEnd b)) by lia. rewrite Hl1, Hl2.
  destruct (round4_bounds (m_zeroAreaStart b - m_start b)) as [? _]; [lia|].
  destruct (round4_bounds (m_end b - m_zeroAreaEnd b)) as [? _]; [lia|].
  wsimp. lia.
Qed.

Lemma Serialize_ok out maxSize :
  maxSize <= Z.of_nat (length out) -> GetSerializedSize b <= maxSize ->
  exists out', Serialize out maxSize b m = Some (1, out') /\
    wire out' (zlen b) (before_zero m b) (after_zero m b) /\ length out' = length out.
Proof using Hi Hin Hsize.
  rewrite GetSerializedSize_ok. intros Hout Hmax.
  destruct (content_parts m bs b Hi Hin) as (_&Hl1&Hl2&_&_).
  pose proof (load_before m bs b Hi Hin) as Hlb. pose proof (load_after m bs b Hi Hin) as Hla.
  destruct (inv_buf _ _ _ Hi Hin) as (z&d&Hd&[[??] [??] ? ? ? ? ? ? ?]).
  unfold Serialize. cbv zeta. rewrite !(u32_small (m_zeroAreaEnd b - m_zeroAreaStart b)) by lia.
  rewrite !(u32_small (m_zeroAreaStart b - m_start b)) by lia.
  rewrite !(u32_small (m_end b - m_zeroAreaEnd b)) by lia. rewrite Hlb, Hla, <- Hl1, <- Hl2.
  set (A := before_zero m b) in *. set (C := after_zero m b) in *.
  destruct (round4_bounds (Z.of_nat (length A))) as [HA HA4]; [lia|].
  destruct (round4_bounds (Z.of_nat (length C))) as [HC _]; [lia|].
  set (ra := round4 (Z.of_nat (length A))) in *. set (rc := round4 (Z.of_nat (length C))) in *.
  assert (ra = round4 (Z.of_nat (length A)) /\ rc = round4 (Z.of_nat (length C))) as [Era Erc] by done.
  clearbody ra rc. rewrite HA4.
  wsimp. rewrite !(proj2 (Z.ltb_ge maxSize _)) by lia.
  eexists. split; [done|].
  set (o1 := blit out 0 _). set (o2 := blit o1 4 _). set (o3 := blit o2 8 _).
  set (o4 := blit o3 _ _). set (o5 := blit o4 _ _).
  assert (length o1 = length out) as E1 by (apply length_blit; rewrite ?length_word; lia).
  assert (length o2 = length out) as E2 by (rewrite <- E1; apply length_blit; rewrite ?length_word; lia).
  assert (length o3 = length out) as E3 by (rewrite <- E2; apply length_blit; lia).
  assert (length o4 = length out) as E4 by (rewrite <- E3; apply length_blit; rewrite ?length_word; lia).
  assert (length o5 = length out) as E5 by (rewrite <- E4; apply length_blit; lia).
  assert (forall l off src i n, off + Z.of_nat (length src) <= Z.of_nat (length l) ->
    0 <= off -> 0 <= i -> 0 <= n ->
    i + n <= off -> slice (blit l off src) i n = slice l i n) as Hother
    by (intros; apply slice_blit_other; lia).
  split; [|done]. split.
  - subst o5 o4 o3 o2. rewrite 4!Hother by (rewrite ?length_word; lia).
    by apply (slice_blit out 0 (word _)); rewrite ?length_word; lia.
  - subst o5 o4 o3. rewrite 3!Hother by (rewrite ?length_word; lia).
    by apply (slice_blit o1 4 (word _)); rewrite ?length_word; lia.
  - subst o5 o4. rewrite 2!Hother by (rewrite ?length_word; lia).
    by apply (slice_blit o2 8 A); lia.
  - rewrite <- Era. subst o5. rewrite Hother by (rewrite ?length_word; lia).
    by apply (slice_blit o3 _ (word _)); rewrite ?length_word; lia.
  - rewrite <- Era. replace (12 + ra) with (8 + ra + 4) by lia. by apply (slice_blit o4 _ C); lia.
  - rewrite <- Era, <- Erc. lia.
Qed.
End serialize.

Lemma read_word_ok l i v :
  slice l i 4 = word v -> 0 <= i -> i + 4 <= Z.of_nat (length l) -> 0 <= v < 4294967296 ->
  read_word l i = Some v.
Proof.
  intros Hs Hi Hl Hv. unfold read_word, slice_at.
  rewrite (proj2 (andb_true_iff _ _)) by lia. simpl. rewrite Hs, word_bytes, reverse_involutive.
  rewrite big_endian_u32, Z.mod_small by done. done.
Qed.

Lemma slice_at_ok l i a :
  slice l i (Z.of_nat (length a)) = a -> 0 <= i -> i + Z.of_nat (length a) <= Z.of_nat (length l) ->
  slice_at l i (Z.of_nat (length a)) = Some a.
Proof.
  intros Hs Hi Hl. unfold slice_at. destruct (Z.leb_spec (Z.of_nat (length a)) 0).
  - f_equal. symmetry. apply nil_length_inv. lia.
  - rewrite (proj2 (andb_true_iff _ _)) by lia. by rewrite Hs.
Qed.

Lemma Deserialize_ok l n a c size m bs :
  wire l n a c -> Forall is_byte a -> Forall is_byte c -> 0 <= n ->
  size = 16 + round4 (Z.of_nat (length a)) + round4 (Z.of_nat (length c)) ->
  inv m bs -> Z.of_nat (length bs) + 2 < 4294967296 ->
  g_recommendedStart m + Z.of_nat (length a) + n + Z.of_nat (length c) + 101 < 4294967296 ->
  exists b m', Deserialize l size m = Some (1, b, m') /\ inv m' (b :: bs) /\
    content m' b = a ++ replicate (Z.to_nat n) 0 ++ c /\ same_bytes bs m m'.
Proof.
  intros [W1 W2 W3 W4 W5 W6] Ha Hc Hn Hsize Hi Hlen Hlim.
  pose proof (hi_start _ _ (proj1 Hi)) as Hrec.
  destruct (round4_bounds (Z.of_nat (length a))) as [HA HA4]; [lia|].
  destruct (round4_bounds (Z.of_nat (length c))) as [HC _]; [lia|].
  unfold Deserialize. cbv zeta. rewrite (read_word_ok l 0 n), (read_word_ok l 4 _ W2) by (done || lia).
  destruct (Initialize_ok n m bs Hi) as (b0&m1&->&Hi1&Hc1&Hs1&Hz1&Hz1'&Hst1&_&_); [lia|lia|lia|].
  assert (Z.of_nat (length (content m1 b0)) = m_end b0 - m_start b0) as Hl0
    by (eapply length_content; [done|by left]). rewrite Hc1, length_replicate in Hl0.
  destruct (prepend_ok (Z.of_nat (length a)) m1 bs b0 Hi1)
    as (b1&m2&->&Hi2&Hw2&Ha2&Hf2&Hzl2&He2&_&_); [unfold room; lia|].
  rewrite HA4, (slice_at_ok l 8 a), Begin_iter by (done || lia).
  destruct (Write_bytes_ok m2 bs b1 Hi2 (m_start b1) a) as (m3&->&Hwr3); [done..|].
  destruct (Hf2 a m3) as (Hi3&Hc3&Hs3); [done..|].
  rewrite (read_word_ok l _ _ W4) by lia.
  destruct (append_ok (Z.of_nat (length c)) m3 bs b1 Hi3)
    as (b2&m4&->&Hi4&->&Hw4&Ha4&Hf4&_&_&_&_&_); [unfold room; lia|].
  replace (8 + round4 (Z.of_nat (length a)) + 4) with (12 + round4 (Z.of_nat (length a))) by lia.
  rewrite (slice_at_ok l _ c W5) by lia.
  destruct (Write_bytes_ok m4 bs b2 Hi4 (m_end b2 - Z.of_nat (length c)) c) as (m5&->&Hwr5); [done..|].
  destruct (Hf4 c m5) as (Hi5&Hc5&Hs5); [done..|].
  set (ra := round4 _) in *. set (rc := round4 (Z.of_nat (length c))) in *. subst size. clearbody ra rc.
  wsimp. rewrite !(proj2 (Z.leb_le _ _)) by lia.
  replace (16 + ra + rc - 4 - 4 - 4 - ra - 4 - rc) with 0 by lia. simpl.
  exists b2, m5. split_and!; [done|done| |].
  - by rewrite Hc5, Hc3, Hc1, <- (assoc_L (++)).
  - etrans; [exact Hs1|]. etrans; [exact Hs3|exact Hs5].
Qed.

(** ** The IP checksum *)

(** The sum of the 16-bit words of a sequence of bytes; an odd byte counts as a low byte. *)
Fixpoint sum16 (l : list Z) : Z :=
  match l with
  | a :: (b :: l') => a + 256 * b + sum16 l'
  | [a] => a
  | [] => 0
  end.

Lemma list_ind2 (P : list Z -> Prop) :
  P [] -> (forall a, P [a]) -> (forall a b l, P l -> P (a :: b :: l)) -> forall l, P l.
Proof.
  intros H0 H1 H2. fix IH 1. intros [|a [|b l]]; [exact H0|apply H1|apply H2, IH].
Qed.

Lemma sum16_bounds l : Forall is_byte l -> 0 <= sum16 l <= 65535 * (Z.of_nat (length l) + 1) / 2.
Proof.
  unfold is_byte. induction l as [|a|a b l IH] using list_ind2; intros Hl; simpl length; simpl sum16.
  - lia.
  - inversion Hl; subst. lia.
  - inversion Hl as [|?? Ha Hl']; subst. inversion Hl' as [|?? Hb Hl'']; subst. specialize (IH Hl''). lia.
Qed.

Lemma word_le a b : is_byte a -> is_byte b -> big_endian u16 (reverse [a; b]) = a + 256 * b.
Proof.
  unfold is_byte. intros Ha Hb. change (reverse [a; b]) with [b; a].
  replace [b; a] with (bytes_be 2 (a + 256 * b)) by (simpl; repeat f_equal; lia).
  rewrite big_endian_u16. apply Z.mod_small. lia.
Qed.

(** Folding the carries keeps the sum modulo [2^16 - 1], and only zero gives zero. *)
Lemma fold_carries_ok s :
  0 <= s < 4294967296 ->
  exists r, fold_carries 3 s = Some r /\ 0 <= r <= 65535 /\ (r = 0 <-> s = 0) /\
    exists q, s = r + 65535 * q.
Proof.
  intros Hs.
  assert (forall x, Z.shiftr x 16 = x / 65536) as Hsh
    by (intros; rewrite Z.shiftr_div_pow2 by lia; done).
  assert (forall x, Z.land x 65535 = x mod 65536) as Hla
    by (intros; change 65535 with (Z.ones 16); rewrite Z.land_ones by lia; done).
  cbn [fold_carries]. rewrite !Hsh, !Hla.
  destruct (Z.eqb_spec (s / 65536) 0).
  { exists s. split_and!; [done|lia..|exists 0; lia]. }
  rewrite (u32_small (s mod 65536 + s / 65536)) by lia.
  set (s1 := s mod 65536 + s / 65536).
  assert (0 < s1 <= 131070 /\ s = s1 + 65535 * (s / 65536)) as [H1 E1] by (subst s1; lia).
  clearbody s1. rewrite ?Hsh, ?Hla. destruct (Z.eqb_spec (s1 / 65536) 0).
  { exists s1. split_and!; [done|lia..|eexists; exact E1]. }
  rewrite (u32_small (s1 mod 65536 + s1 / 65536)) by lia.
  set (s2 := s1 mod 65536 + s1 / 65536).
  assert (0 < s2 <= 65535 /\ s1 = s2 + 65535 * (s1 / 65536)) as [H2 E2] by (subst s2; lia).
  clearbody s2. rewrite ?Hsh. rewrite (proj2 (Z.eqb_eq (s2 / 65536) 0)) by lia.
  exists s2. split_and!; [done|lia..|]. exists (s / 65536 + s1 / 65536). lia.
Qed.

Section checksum.
Context (m : Mem) (bs : list Buffer) (b : Buffer) (Hi : inv m bs) (Hin : b ∈ bs).

Lemma content_bytes : Forall is_byte (content m b).
Proof using Hi Hin.
  destruct (inv_buf _ _ _ Hi Hin) as (z&d&Hd&_). rewrite (content_eq _ _ _ Hd).
  eapply range_bytes; [apply Hi|done].
Qed.

Lemma slice_cons l i n :
  0 <= i -> 0 < n -> i + n <= Z.of_nat (length l) ->
  slice l i n = get l i :: slice l (i + 1) (n - 1).
Proof using Type.
  intros Hs Hn Hl. unfold slice. replace (Z.to_nat n) with (S (Z.to_nat (n - 1))) by lia.
  rewrite (drop_S l (get l i) (Z.to_nat i)).
  - simpl. do 3 f_equal. lia.
  - rewrite lookup_get by lia. do 2 f_equal. lia.
Qed.

Lemma sum_words_ok n s i :
  m_start b <= i -> i + 2 * Z.of_nat n <= m_end b -> 0 <= s -> s + 65535 * Z.of_nat n < 4294967296 ->
  sum_words n s (iter_of b i) m =
    Some (s + sum16 (slice (content m b) (i - m_start b) (2 * Z.of_nat n)),
          iter_of b (i + 2 * Z.of_nat n)).
Proof using Hi Hin.
  pose proof (length_content _ _ _ Hi Hin) as Hlen. pose proof content_bytes as Hby.
  revert s i. induction n as [|n IH]; intros s i Hs He Hs0 Hlim; cbn [sum_words].
  - simpl. by rewrite !Z.add_0_r.
  - unfold ReadU16. rewrite (read_le_ok m bs b Hi Hin) by lia. cbv iota beta.
    rewrite (slice_cons _ (i - m_start b) (Z.of_nat 2)) by lia.
    rewrite (slice_cons _ (i - m_start b + 1) (Z.of_nat 2 - 1)) by lia.
    change (slice _ _ (Z.of_nat 2 - 1 - 1)) with (@nil Z).
    pose proof (get_byte _ (i - m_start b) Hby) as Hb1.
    pose proof (get_byte _ (i - m_start b + 1) Hby) as Hb2.
    rewrite word_le by done. unfold is_byte in *. rewrite u32_small by lia.
    rewrite IH by lia. f_equal. f_equal; [|f_equal; lia].
    rewrite (slice_cons _ (i - m_start b) (2 * Z.of_nat (S n))) by lia.
    rewrite (slice_cons _ (i - m_start b + 1) (2 * Z.of_nat (S n) - 1)) by lia. simpl sum16.
    replace (i + Z.of_nat 2 - m_start b) with (i - m_start b + 1 + 1) by lia.
    replace (2 * Z.of_nat (S n) - 1 - 1) with (2 * Z.of_nat n) by lia. lia.
Qed.

(** The checksum of an even number of bytes. *)
Lemma CalculateIpChecksum_even n i :
  m_start b <= i -> i + 2 * Z.of_nat n <= m_end b -> Z.of_nat n <= 32767 ->
  exists r, CalculateIpChecksum (2 * Z.of_nat n) 0 (iter_of b i) m =
      Some (65535 - r, iter_of b (i + 2 * Z.of_nat n)) /\ 0 <= r <= 65535 /\
    (r = 0 <-> sum16 (slice (content m b) (i - m_start b) (2 * Z.of_nat n)) = 0) /\
    exists q, sum16 (slice (content m b) (i - m_start b) (2 * Z.of_nat n)) = r + 65535 * q.
Proof using Hi Hin.
  intros Hs He Hn. unfold CalculateIpChecksum.
  replace (Z.to_nat (2 * Z.of_nat n / 2)) with n by lia. rewrite sum_words_ok by lia.
  assert (Z.land (2 * Z.of_nat n) 1 =? 1 = false) as ->.
  { change 1 with (Z.ones 1) at 1. rewrite Z.land_ones by lia. change (2 ^ 1) with 2. lia. }
  pose proof (length_content _ _ _ Hi Hin) as Hlen.
  pose proof (sum16_bounds (slice (content m b) (i - m_start b) (2 * Z.of_nat n))
    (Forall_slice _ _ _ _ content_bytes)) as Hb.
  rewrite length_slice in Hb by lia. rewrite Z.add_0_l.
  destruct (fold_carries_ok (sum16 (slice (content m b) (i - m_start b) (2 * Z.of_nat n))))
    as (r&->&Hr&H0&Hq); [lia|].
  exists r. split_and!; try done; try lia. do 2 f_equal. unfold u16. rewrite Z.lnot_eq_pred_opp.
  symmetry. apply Z.mod_unique with (-1); lia.
Qed.
End checksum.
