(* ===== verification/Buffers.v ===== *)
(** * What the buffers guarantee

    The theorems on [Buffer] in one place, each with a concrete instance, followed by three
    situations in which the code departs from what its interface promises. *)

From S2P Require Import Buffer BufferSpec BufferIter BufferOps BufferSer.

(** ** Guarantees *)


(** C6: Prepending room to a buffer and writing bytes there makes the content the bytes followed
    by the old content, keeps the invariant of the shared blocks, and changes no other buffer,
    whether the block is shared, grown or copied. *)
Theorem AddAtStart_write l m bs b :
  inv m (b :: bs) -> room (Z.of_nat (length l)) b bs -> Forall is_byte l ->
  exists b1 m1 it m2, AddAtStart (Z.of_nat (length l)) b m = Some (b1, m1) /\
    Write_bytes l (Begin b1) m1 = Some (it, m2) /\ inv m2 (b1 :: bs) /\
    content m2 b1 = l ++ content m b /\ same_bytes bs m m2.
Proof.
  intros Hi Hr Hl. destruct (prepend_ok _ m bs b Hi Hr) as (b1&m1&->&Hi1&Hw&Ha&Hf&_&_&_&Hs1).
  destruct (Write_bytes_ok m1 bs b1 Hi1 (m_start b1) l Hw Ha Hl) as (m2&E&Hwr).
  destruct (Hf l m2 eq_refl Hwr) as (?&?&?). exists b1, m1. rewrite Begin_iter, E. by eauto 10.
Qed.

(** C7: Appending room to a buffer and writing bytes there makes the content the old content
    followed by the bytes, keeps the invariant of the shared blocks, and changes no other buffer.
    *)
Theorem AddAtEnd_write l m bs b :
  inv m (b :: bs) -> room (Z.of_nat (length l)) b bs -> Forall is_byte l ->
  exists b1 m1 i it m2, AddAtEnd (Z.of_nat (length l)) b m = Some (b1, m1) /\
    Prev (Z.of_nat (length l)) (End_ b1) = Some i /\
    Write_bytes l i m1 = Some (it, m2) /\ inv m2 (b1 :: bs) /\
    content m2 b1 = content m b ++ l /\ same_bytes bs m m2.
Proof.
  intros Hi Hr Hl. destruct (append_ok _ m bs b Hi Hr) as (b1&m1&->&Hi1&Hp&Hw&Ha&Hf&_).
  destruct (Write_bytes_ok m1 bs b1 Hi1 _ l Hw Ha Hl) as (m2&E&Hwr).
  destruct (Hf l m2 eq_refl Hwr) as (?&?&?). eexists b1, m1, _. rewrite Hp, E. by eauto 10.
Qed.


(** C20: PeekData returns the content as one array, materialising the zero area if needed; neither
    the content of the buffer nor any other buffer changes. *)
Theorem PeekData_content m bs b :
  inv m (b :: bs) -> Z.of_nat (length bs) + 4 < 4294967296 ->
  g_recommendedStart m + (m_end b - m_start b) + 101 < 4294967296 ->
  exists b' m', PeekData b m = Some (content m b, b', m') /\ inv m' (b' :: bs) /\
    content m' b' = content m b /\ same_bytes bs m m'.
Proof.
  intros Hi Hlen Hrec. unfold PeekData.
  destruct (TransformIntoRealBuffer_ok m bs b Hi Hlen Hrec) as (b'&m'&->&Hi'&Hc&Hz&Hs&_).
  rewrite (load_content m' (b' :: bs) b' Hi') by (done || by left). rewrite Hc. eauto 10.
Qed.

(** C21: Both CopyData methods copy exactly the first bytes of the content, as many as asked for
    and available, and write nothing beyond. *)
Theorem CopyData_prefix n m bs b :
  inv m bs -> b ∈ bs -> 0 <= n < 4294967296 ->
  CopyData n b m = Some (take (Z.to_nat n) (content m b)) /\
  CopyData_stream n b m = Some (take (Z.to_nat n) (content m b)).
Proof. intros Hi Hin Hn. split; [by eapply CopyData_ok|by eapply CopyData_stream_ok]. Qed.

(** C9: A buffer serialized into enough room and deserialized, possibly in another process, has
    the content it had, and the other buffers of the receiving process are unchanged. *)
Theorem Serialize_roundtrip out maxSize m bs b m2 bs2 :
  inv m bs -> b ∈ bs -> m_end b - m_start b + 20 < 4294967296 ->
  maxSize <= Z.of_nat (length out) -> GetSerializedSize b <= maxSize ->
  inv m2 bs2 -> Z.of_nat (length bs2) + 2 < 4294967296 ->
  g_recommendedStart m2 + (m_end b - m_start b) + 101 < 4294967296 ->
  exists out' b' m', Serialize out maxSize b m = Some (1, out') /\
    Deserialize out' (GetSerializedSize b + 4) m2 = Some (1, b', m') /\
    inv m' (b' :: bs2) /\ content m' b' = content m b /\ same_bytes bs2 m2 m'.
Proof.
  intros Hi Hin Hsz Hout Hmax Hi2 Hlen Hrec.
  destruct (Serialize_ok m bs b Hi Hin Hsz out maxSize Hout Hmax) as (out'&->&Hw&_).
  destruct (content_parts m bs b Hi Hin) as (Hc&Hl1&Hl2&Hb1&Hb2).
  destruct (inv_buf _ _ _ Hi Hin) as (z&d&Hd&[[??] [??] ? ? ? ? ? ? ?]).
  unfold zlen in *.
  destruct (Deserialize_ok out' (m_zeroAreaEnd b - m_zeroAreaStart b) (before_zero m b) (after_zero m b)
    (GetSerializedSize b + 4) m2 bs2 Hw Hb1 Hb2) as (b'&m'&E&Hi'&Hc'&Hs');
    [lia|rewrite (GetSerializedSize_ok m bs b) by done; lia|done|done|lia|].
  exists out', b', m'. split_and!; [done|exact E|done| |done]. by rewrite Hc', Hc.
Qed.

(** *** The checksum *)
Lemma sum16_app k s t : length s = (2 * k)%nat -> sum16 (s ++ t) = sum16 s + sum16 t.
Proof.
  revert s. induction k as [|k IH]; intros s Hs; [by destruct s|].
  destruct s as [|a [|b s]]; simpl in Hs; [lia|lia|]. simpl. rewrite IH by lia. lia.
Qed.

(** Replacing a zero word by [x + 256 y] adds it to the sum. *)
Lemma sum16_blit s k x y :
  0 <= k -> 2 * k + 2 <= Z.of_nat (length s) -> slice s (2 * k) 2 = [0; 0] ->
  sum16 (blit s (2 * k) [x; y]) = sum16 s + (x + 256 * y).
Proof.
  intros Hk Hl Hz. set (s1 := take (Z.to_nat (2 * k)) s). set (s2 := drop (Z.to_nat (2 * k) + 2) s).
  assert (length s1 = (2 * Z.to_nat k)%nat) as Hl1 by (subst s1; rewrite length_take; lia).
  assert (s = s1 ++ [0; 0] ++ s2) as E.
  { rewrite <- Hz. unfold slice. subst s1 s2. rewrite <- drop_drop.
    change (Z.to_nat 2) with 2%nat. by rewrite !take_drop. }
  clearbody s1 s2. subst s. unfold blit. rewrite take_app_length' by lia.
  change (length [x; y]) with 2%nat.
  rewrite drop_app_ge by lia. replace (Z.to_nat (2 * k) + 2 - length s1)%nat with 2%nat by lia.
  rewrite (sum16_app (Z.to_nat k) s1 ([x; y] ++ _)), (sum16_app (Z.to_nat k) s1 ([0; 0] ++ s2)) by done.
  cbn [app drop sum16]. rewrite drop_0. lia.
Qed.

Lemma slice_blit_inner l off n k a :
  0 <= off -> 0 <= n -> off + n <= Z.of_nat (length l) -> 0 <= k ->
  k + Z.of_nat (length a) <= n ->
  slice (blit l (off + k) a) off n = blit (slice l off n) k a.
Proof.
  intros. pose proof (length_slice l off n) as Hsl.
  assert (length (blit l (off + k) a) = length l) as Hbl by (apply length_blit; lia).
  pose proof (length_slice (blit l (off + k) a) off n) as Hsl2.
  assert (length (blit (slice l off n) k a) = length (slice l off n)) as Hbl2
    by (apply length_blit; lia).
  apply get_ext; [lia|]. intros i Hi.
  rewrite get_slice, !get_blit by lia. repeat case_decide; try lia; [f_equal; lia|].
  by rewrite get_slice by lia.
Qed.

(** C22: Storing the Internet checksum of an even range in the two bytes of it that were zero when
    it was computed makes the checksum of the range zero. *)
Theorem checksum_verifies m bs b i k n :
  inv m (b :: bs) -> m_start b <= i -> i + 2 * Z.of_nat n <= m_end b -> Z.of_nat n <= 32767 ->
  0 <= k < Z.of_nat n -> writable b (i + 2 * k) 2 -> apart b (i + 2 * k) 2 bs ->
  slice (content m b) (i - m_start b + 2 * k) 2 = [0; 0] ->
  exists c it it1 m' it2, CalculateIpChecksum (2 * Z.of_nat n) 0 (iter_of b i) m = Some (c, it) /\
    WriteU16 c (iter_of b (i + 2 * k)) m = Some (it1, m') /\
    CalculateIpChecksum (2 * Z.of_nat n) 0 (iter_of b i) m' = Some (0, it2) /\
    inv m' (b :: bs) /\ same_bytes bs m m'.
Proof.
  intros Hi Hs He Hn Hk Hw Ha Hz. assert (b ∈ b :: bs) as Hin by by left.
  destruct (CalculateIpChecksum_even m (b :: bs) b Hi Hin n i Hs He Hn) as (r&->&Hr&H0&q&Hq).
  pose proof (length_content _ _ _ Hi Hin) as Hlen.
  assert (forall j, 0 <= j -> is_byte (byte_of (65535 - r) j)) as Hby
    by (intros; rewrite byte_of_eq by done; apply Z.mod_pos_bound; lia).
  destruct (write_each_ok m bs b (i + 2 * k) [byte_of (65535 - r) 0; byte_of (65535 - r) 1] Hi Hw Ha)
    as (m'&Hwr&Hi'&Hc'&Hs'); [repeat constructor; apply Hby; lia|].
  destruct (CalculateIpChecksum_even m' (b :: bs) b Hi' Hin n i Hs He Hn) as (r'&E'&Hr'&H0'&q'&Hq').
  rewrite Hc' in H0', Hq'. replace (i + 2 * k - m_start b) with (i - m_start b + 2 * k) in * by lia.
  rewrite slice_blit_inner in H0', Hq' by (simpl length; lia).
  set (s := slice (content m b) (i - m_start b) (2 * Z.of_nat n)) in *.
  assert (Z.of_nat (length s) = 2 * Z.of_nat n) as Hls by (apply length_slice; lia).
  assert (slice s (2 * k) 2 = [0; 0]) as Hzs.
  { rewrite <- Hz. subst s. apply get_ext.
    - pose proof (length_slice (content m b) (i - m_start b + 2 * k) 2).
      pose proof (length_slice (slice (content m b) (i - m_start b) (2 * Z.of_nat n)) (2 * k) 2). lia.
    - intros j Hj. rewrite length_slice in Hj by lia. rewrite !get_slice by lia. f_equal. lia. }
  rewrite sum16_blit in H0', Hq' by (done || lia). rewrite !byte_of_eq in H0', Hq' by lia.
  change (256 ^ 0) with 1 in *. change (256 ^ 1) with 256 in *.
  fold s in H0. rewrite Z.div_1_r in *.
  replace ((65535 - r) mod 256 + 256 * ((65535 - r) / 256 mod 256)) with (65535 - r) in * by lia.
  assert (0 <= sum16 s) as Hs0 by (apply sum16_bounds, Forall_slice; eapply content_bytes; done).
  assert (r' = 65535) as -> by lia.
  eexists _, _, _, m', _. split_and!; [done|exact Hwr|exact E'|done|done].
Qed.

(** ** Situations outside the contract *)

(** Two buffers with zero areas, of 10 and 5 bytes; the second ends with the bytes 1 and 2. *)
Definition concat_example : option (list Z * list Z * list Z) :=
  let! (a, m) := Initialize 10 (initial_mem (fun _ i => 100 + i)) in
  let! (o, m) := Initialize 5 m in
  let! (o, m) := AddAtEnd 2 o m in
  let! i := Prev 2 (End_ o) in
  let! (_, m) := Write_bytes [1; 2] i m in
  let before := content m a in
  let other := content m o in
  let! (a, m) := AddAtEnd_buffer o a m in Some (before, other, content m a).

(** In the optimised path of [AddAtEnd] the destination iterator is behind a zero area, which
    [Write (Iterator, Iterator)] does not subtract from its index: the bytes that follow the other
    buffer's zero area are written to the wrong place of the block, and the new buffer ends with
    whatever the block held. *)
Theorem AddAtEnd_buffer_corrupts :
  exists before other after, concat_example = Some (before, other, after) /\
    length after = length (before ++ other) /\ after <> before ++ other /\
    drop 15 other = [] /\ drop 5 other = [1; 2] /\ drop 15 after = [100; 101].
Proof. eexists _, _, _. split; [vm_compute; reflexivity|]. repeat split; discriminate. Qed.

(** A buffer and its copy; the copy grows by the byte 5, then the byte 9 is written at the end
    iterator of the original. *)
Definition end_write_example : option (list Z * list Z * bool) :=
  let! (b, m) := Initialize 0 (initial_mem (fun _ _ => 0)) in
  let! (b, m) := AddAtEnd 2 b m in
  let! (c, m) := copy b m in
  let! (c, m) := AddAtEnd 1 c m in
  let! i := Prev 1 (End_ c) in
  let! (_, m) := WriteU8 5 i m in
  let before := content m c in
  let! (_, m) := WriteU8 9 (End_ b) m in Some (before, content m c, IsEnd (End_ b)).

(** [Check] accepts the position just after the last byte, so the assertion of [WriteU8] lets a
    write at the end through, and the write changes a byte of the other buffer. *)
Theorem WriteU8_at_end_corrupts :
  end_write_example = Some ([0; 0; 5], [0; 0; 9], true).
Proof. vm_compute. reflexivity. Qed.

(** Appending a copy of a buffer that has no zero area fails the assertion that the two iterators
    are on different blocks. *)
Definition self_append_example : option (Buffer * Buffer * Mem) :=
  let! (b, m) := Initialize 0 (initial_mem (fun _ _ => 0)) in
  let! (b, m) := AddAtEnd 4 b m in
  let! (c, m) := copy b m in Some (b, c, m).

Theorem AddAtEnd_copy_fails :
  exists b c m, self_append_example = Some (b, c, m) /\ content m c = content m b /\
    AddAtEnd_buffer c b m = None.
Proof. eexists _, _, _. split; [vm_compute; reflexivity|]. split; vm_compute; reflexivity. Qed.

(** ** Instances

    A buffer with a header of six bytes in front of four zeroes, and a copy of it. *)
Definition ex_junk : Z -> Z -> Z := fun _ i => i.

Definition ex_state : option (Buffer * Buffer * Mem) :=
  let! (b, m) := Initialize 4 (initial_mem ex_junk) in
  let! (b, m) := AddAtStart 6 b m in
  let! (_, m) := Write_bytes [1; 2; 0; 0; 5; 6] (Begin b) m in
  let! (c, m) := copy b m in Some (b, c, m).

Lemma ex_inv :
  exists b c m, ex_state = Some (b, c, m) /\ inv m [b; c] /\
    content m b = [1; 2; 0; 0; 5; 6; 0; 0; 0; 0] /\ content m c = content m b.
Proof.
  unfold ex_state.
  assert (inv (initial_mem ex_junk) []) as Hi0.
  { split; [apply heap_inv_initial|]. intros p. exists 0. by intros b ?%elem_of_nil. }
  destruct (Initialize_ok 4 _ [] Hi0) as (b&m&E1&Hi1&Hc1&_); [simpl; lia..|]. rewrite E1.
  assert (room 6 b []) as Hr by (vm_compute in E1; injection E1 as <- <-; vm_compute; naive_solver).
  destruct (prepend_ok 6 m [] b Hi1 Hr) as (b2&m2&->&Hi2&Hw2&Ha2&Hf2&_).
  destruct (Write_bytes_ok m2 [] b2 Hi2 (m_start b2) [1; 2; 0; 0; 5; 6]) as (m3&E3&Hw3);
    [done|done|repeat constructor; lia|]. rewrite Begin_iter, E3.
  destruct (Hf2 [1; 2; 0; 0; 5; 6] m3 eq_refl Hw3) as (Hi3&Hc3&_).
  destruct (copy_ok m3 [b2] b2 Hi3) as (c&m4&->&Hi4&_&Hc4&Hs4); [by left|done|].
  exists b2, c, m4. split_and!; [done| | |].
  - eapply inv_perm; [apply Permutation_swap|done].
  - rewrite (Hs4 b2) by by left. by rewrite Hc3, Hc1.
  - rewrite Hc4. symmetry. apply Hs4. by left.
Qed.

(** The same state, computed. *)
Definition ex_b : Buffer := match ex_state with Some (b, _, _) => b | None => mkBuffer 0 0 0 0 0 0 end.
Definition ex_c : Buffer := match ex_state with Some (_, c, _) => c | None => mkBuffer 0 0 0 0 0 0 end.
Definition ex_m : Mem := match ex_state with Some (_, _, m) => m | None => initial_mem ex_junk end.

Lemma ex_ok :
  inv ex_m [ex_b; ex_c] /\ content ex_m ex_b = [1; 2; 0; 0; 5; 6; 0; 0; 0; 0] /\
  content ex_m ex_c = content ex_m ex_b.
Proof. destruct ex_inv as (b&c&m&E&?&?&?). unfold ex_m, ex_b, ex_c. by rewrite E. Qed.

Lemma ex_b_window :
  m_start ex_b = 0 /\ m_zeroAreaStart ex_b = 6 /\ m_zeroAreaEnd ex_b = 10 /\ m_end ex_b = 10 /\
  m_start ex_c = 0 /\ m_zeroAreaStart ex_c = 6 /\ m_zeroAreaEnd ex_c = 10 /\ m_end ex_c = 10 /\
  g_recommendedStart ex_m = 0.
Proof. vm_compute. repeat split. Qed.


Lemma AddAtStart_write_witness :
  exists b1 m1 it m2, AddAtStart 3 ex_b ex_m = Some (b1, m1) /\
    Write_bytes [7; 8; 9] (Begin b1) m1 = Some (it, m2) /\ inv m2 [b1; ex_c] /\
    content m2 b1 = [7; 8; 9] ++ content ex_m ex_b /\ same_bytes [ex_c] ex_m m2.
Proof.
  apply (AddAtStart_write [7; 8; 9] ex_m [ex_c] ex_b);
    [apply ex_ok|vm_compute; naive_solver|repeat constructor; lia].
Defined.

Lemma AddAtEnd_write_witness :
  exists b1 m1 i it m2, AddAtEnd 3 ex_b ex_m = Some (b1, m1) /\ Prev 3 (End_ b1) = Some i /\
    Write_bytes [7; 8; 9] i m1 = Some (it, m2) /\ inv m2 [b1; ex_c] /\
    content m2 b1 = content ex_m ex_b ++ [7; 8; 9] /\ same_bytes [ex_c] ex_m m2.
Proof.
  apply (AddAtEnd_write [7; 8; 9] ex_m [ex_c] ex_b);
    [apply ex_ok|vm_compute; naive_solver|repeat constructor; lia].
Defined.


Lemma PeekData_content_witness :
  exists b' m', PeekData ex_b ex_m = Some (content ex_m ex_b, b', m') /\ inv m' [b'; ex_c] /\
    content m' b' = content ex_m ex_b /\ same_bytes [ex_c] ex_m m'.
Proof. apply PeekData_content; [apply ex_ok|done|done]. Defined.

Lemma AddAtEnd_buffer_ok_witness :
  exists b' m', AddAtEnd_buffer ex_c ex_b ex_m = Some (b', m') /\ inv m' [b'; ex_c] /\
    content m' b' = content ex_m ex_b ++ content ex_m ex_c /\ same_bytes [ex_c] ex_m m'.
Proof.
  destruct (m_heap ex_m !! m_data ex_b) as [d|] eqn:Hd; [|by vm_compute in Hd].
  apply (AddAtEnd_buffer_ok ex_m [ex_c] ex_b ex_c d);
    [apply ex_ok|by left|done|by intros _|right; by vm_compute|done|done].
Defined.

Lemma CopyData_prefix_witness :
  CopyData 7 ex_b ex_m = Some [1; 2; 0; 0; 5; 6; 0] /\
  CopyData_stream 7 ex_b ex_m = Some [1; 2; 0; 0; 5; 6; 0].
Proof.
  assert (take (Z.to_nat 7) (content ex_m ex_b) = [1; 2; 0; 0; 5; 6; 0]) as <- by by vm_compute.
  apply (CopyData_prefix 7 ex_m [ex_b; ex_c]); [apply ex_ok|by left|lia].
Defined.

Lemma Serialize_roundtrip_witness :
  exists out' b' m', Serialize (replicate 40 9) 40 ex_b ex_m = Some (1, out') /\
    Deserialize out' (GetSerializedSize ex_b + 4) ex_m = Some (1, b', m') /\
    inv m' [b'; ex_b; ex_c] /\ content m' b' = content ex_m ex_b /\
    same_bytes [ex_b; ex_c] ex_m m'.
Proof.
  apply (Serialize_roundtrip (replicate 40 9) 40 ex_m [ex_b; ex_c] ex_b ex_m [ex_b; ex_c]);
    [apply ex_ok|by left|done|done|by vm_compute|apply ex_ok|done|done].
Defined.

(** The buffer alone on its block, so that its header can be written. *)
Definition ex_alone : Mem := match destroy ex_c ex_m with Some m => m | None => ex_m end.

Lemma ex_alone_ok : inv ex_alone [ex_b] /\ content ex_alone ex_b = [1; 2; 0; 0; 5; 6; 0; 0; 0; 0].
Proof.
  destruct ex_ok as (Hi&Hc&_).
  destruct (destroy_ok ex_m [ex_b] ex_c) as (m&E&Hi'&Hs);
    [eapply inv_perm; [apply Permutation_swap|done]|].
  unfold ex_alone. rewrite E. split; [done|]. rewrite (Hs ex_b); [done|by left].
Qed.

Lemma checksum_verifies_witness :
  exists c it it1 m' it2, CalculateIpChecksum 6 0 (iter_of ex_b 0) ex_alone = Some (c, it) /\
    WriteU16 c (iter_of ex_b 2) ex_alone = Some (it1, m') /\
    CalculateIpChecksum 6 0 (iter_of ex_b 0) m' = Some (0, it2) /\
    inv m' [ex_b] /\ same_bytes [] ex_alone m'.
Proof.
  apply (checksum_verifies ex_alone [] ex_b 0 1 3);
    [apply ex_alone_ok|by vm_compute|by vm_compute|lia|lia|vm_compute; naive_solver
    |by intros c ?%elem_of_nil|by vm_compute].
Defined.

