(* ===== verification/SeqNum.v ===== *)
(** * Sequence counters ([src/network/utils/sequence-number.h], [lollipop-counter.h])

    The two class templates, for any width: [half] is [2^(w-1)], so [SequenceNumber32] is the
    case [half = 2^31]. *)

From S2P Require Export Prelude.

(** ** SequenceNumber *)
Module SequenceNumber.
Section width.
Context (half : Z).

(** [NUMERIC_TYPE] and [SIGNED_TYPE] arithmetic *)
Definition wrap (z : Z) : Z := z mod (2 * half).
Definition signed (z : Z) : Z := (z + half) mod (2 * half) - half.
Definition maxValue : Z := 2 * half - 1.
Definition halfMaxValue : Z := maxValue / 2.

Definition add (a b : Z) : Z := wrap (a + b).
Definition sub (a delta : Z) : Z := wrap (a - delta).
Definition incr (a : Z) : Z := wrap (a + 1).
Definition decr (a : Z) : Z := wrap (a - 1).

(** [operator-] of two sequence numbers *)
Definition diff (a b : Z) : Z :=
  if b <? a then
    let d := wrap (a - b) in
    if d <? halfMaxValue then signed d else signed (- signed (wrap (maxValue - a + 1 + b)))
  else
    let d := wrap (b - a) in
    if d <? halfMaxValue then signed (- signed d) else signed (wrap (maxValue - b + 1 + a)).

(** [operator>], as RFC 3626 defines it, and the other comparisons *)
Definition gt (a b : Z) : bool :=
  ((b <? a) && (wrap (a - b) <=? halfMaxValue)) || ((a <? b) && (halfMaxValue <? wrap (b - a))).
Definition eq (a b : Z) : bool := a =? b.
Definition ne (a b : Z) : bool := negb (a =? b).
Definition le (a b : Z) : bool := negb (gt a b).
Definition ge (a b : Z) : bool := gt a b || eq a b.
Definition lt (a b : Z) : bool := negb (gt a b) && negb (a =? b).

Context (Hhalf : 1 < half).

Lemma wrap_small z : 0 <= z < 2 * half -> wrap z = z.
Proof using Type. apply Z.mod_small. Qed.
Lemma wrap_range z : 0 <= wrap z < 2 * half.
Proof using Hhalf. apply Z.mod_pos_bound. lia. Qed.
Lemma signed_small z : - half <= z < half -> signed z = z.
Proof using Hhalf. intros. unfold signed. rewrite Z.mod_small by lia. lia. Qed.
Lemma halfMaxValue_eq : halfMaxValue = half - 1.
Proof using Hhalf. unfold halfMaxValue, maxValue. lia. Qed.

(** Two wrapped integers less than [half] apart. *)
Lemma wrap_diff x y :
  - half < x - y < half ->
  wrap x - wrap y = x - y \/ wrap x - wrap y = x - y - 2 * half \/ wrap x - wrap y = x - y + 2 * half.
Proof using Hhalf.
  intros H. pose proof (wrap_range x). pose proof (wrap_range y). unfold wrap in *.
  pose proof (Z.div_mod x (2 * half) ltac:(lia)). pose proof (Z.div_mod y (2 * half) ltac:(lia)).
  set (qx := x / (2 * half)) in *. set (qy := y / (2 * half)) in *. clearbody qx qy.
  set (rx := x mod (2 * half)) in *. set (ry := y mod (2 * half)) in *. clearbody rx ry.
  assert (qx - qy = 0 \/ qx - qy = 1 \/ qx - qy = -1) as Hq by nia.
  destruct Hq as [Hq|[Hq|Hq]]; [left|right; left|right; right]; nia.
Qed.

(** Within a window of [half], sequence numbers compare like the integers they stand for. *)
Lemma gt_window x y : - half < x - y < half -> gt (wrap x) (wrap y) = (y <? x).
Proof using Hhalf.
  intros H. pose proof (wrap_diff x y H) as Hd. pose proof (wrap_range x). pose proof (wrap_range y).
  unfold gt. rewrite halfMaxValue_eq.
  destruct (Z.ltb_spec (wrap y) (wrap x)) as [Hlt|Hle].
  - rewrite (wrap_small (wrap x - wrap y)) by lia. lia.
  - destruct (Z.ltb_spec (wrap x) (wrap y)); [|lia].
    rewrite (wrap_small (wrap y - wrap x)) by lia. lia.
Qed.

Lemma eq_window x y : - half < x - y < half -> eq (wrap x) (wrap y) = (x =? y).
Proof using Hhalf. 
  intros H. pose proof (wrap_diff x y H). pose proof (wrap_range x). pose proof (wrap_range y).
  unfold eq. lia.
Qed.
Lemma lt_window x y : - half < x - y < half -> lt (wrap x) (wrap y) = (x <? y).
Proof using Hhalf.
  intros H. unfold lt. rewrite gt_window by done. pose proof (eq_window x y H) as He.
  unfold eq in He. rewrite He. lia.
Qed.
Lemma le_window x y : - half < x - y < half -> le (wrap x) (wrap y) = (x <=? y).
Proof using Hhalf. intros H. unfold le. rewrite gt_window by done. lia. Qed.
Lemma ge_window x y : - half < x - y < half -> ge (wrap x) (wrap y) = (y <=? x).
Proof using Hhalf. intros H. unfold ge. rewrite gt_window, eq_window by done. lia. Qed.

Lemma diff_window x y : - half < x - y < half -> diff (wrap x) (wrap y) = x - y.
Proof using Hhalf.
  intros H. pose proof (wrap_diff x y H) as Hd. pose proof (wrap_range x). pose proof (wrap_range y).
  unfold diff. rewrite halfMaxValue_eq. unfold maxValue.
  set (a := wrap x) in *. set (b := wrap y) in *. clearbody a b.
  destruct (Z.ltb_spec b a).
  - rewrite (wrap_small (a - b)) by lia. destruct (Z.ltb_spec (a - b) (half - 1)).
    + rewrite signed_small by lia. lia.
    + rewrite (wrap_small (2 * half - 1 - a + 1 + b)) by lia.
      destruct (decide (x - y = half - 1 /\ a - b = half - 1)) as [[E1 E2]|].
      * replace (2 * half - 1 - a + 1 + b) with (half + 1) by lia.
        assert (signed (half + 1) = 1 - half) as ->.
        { unfold signed. replace (half + 1 + half) with (1 + 1 * (2 * half)) by lia.
          rewrite Z.mod_add by lia. destruct (decide (half = 1)) as [->|]; [done|].
          rewrite Z.mod_small by lia. lia. }
        rewrite signed_small by lia. lia.
      * rewrite (signed_small (2 * half - 1 - a + 1 + b)) by lia. rewrite signed_small by lia. lia.
  - rewrite (wrap_small (b - a)) by lia. destruct (Z.ltb_spec (b - a) (half - 1)).
    + rewrite (signed_small (b - a)) by lia. rewrite signed_small by lia. lia.
    + rewrite (wrap_small (2 * half - 1 - b + 1 + a)) by lia.
      destruct (decide (y - x = half - 1 /\ b - a = half - 1)) as [[E1 E2]|].
      * replace (2 * half - 1 - b + 1 + a) with (half + 1) by lia.
        assert (signed (half + 1) = 1 - half) as ->; [|lia].
        unfold signed. replace (half + 1 + half) with (1 + 1 * (2 * half)) by lia.
        rewrite Z.mod_add by lia. destruct (decide (half = 1)) as [->|]; [done|].
        rewrite Z.mod_small by lia. lia.
      * rewrite signed_small by lia. lia.
Qed.

Lemma add_window x n : add (wrap x) (wrap n) = wrap (x + n).
Proof using Type. unfold add, wrap. by rewrite <- Zplus_mod. Qed.

(** Of two different numbers exactly one is greater, at any distance. *)
Lemma gt_antisym a b :
  0 <= a < 2 * half -> 0 <= b < 2 * half -> a <> b -> gt a b = negb (gt b a).
Proof using Hhalf.
  intros Ha Hb Hne. unfold gt. rewrite halfMaxValue_eq.
  destruct (Z.ltb_spec b a) as [?|?], (Z.ltb_spec a b) as [?|?]; cbn [andb orb].
  all: try (exfalso; lia).
  all: rewrite ?(wrap_small (a - b)), ?(wrap_small (b - a)) by lia.
  all: repeat match goal with |- context [?x <? ?y] => destruct (Z.ltb_spec x y) end.
  all: repeat match goal with |- context [?x <=? ?y] => destruct (Z.leb_spec x y) end.
  all: cbn; try done; exfalso; lia.
Qed.
End width.
End SequenceNumber.

(** ** LollipopCounter *)
Module LollipopCounter.
Section width.
(** [digits] is the width of [T], [half] its half range. *)
Context (digits : Z).
Definition half : Z := 2 ^ (digits - 1).

Record Lollipop := mkLollipop { m_value : Z; m_sequenceWindow : Z }.

Definition T (z : Z) : Z := z mod (2 * half).
Definition m_maxValue : Z := 2 * half - 1.
Definition m_circularRegion : Z := Z.shiftr m_maxValue 1.

Definition create : Lollipop :=
  let w := T (Z.shiftl 1 (digits / 2)) in mkLollipop (T (m_maxValue - w + 1)) w.
Definition create_val (val : Z) : Lollipop := mkLollipop val (T (Z.shiftl 1 (digits / 2))).

(** The window of the left operand stays. *)
Definition assign (l o : Lollipop) : Lollipop := mkLollipop (m_value o) (m_sequenceWindow l).
Definition Reset (l : Lollipop) : Lollipop :=
  mkLollipop (T (m_maxValue - m_sequenceWindow l + 1)) (m_sequenceWindow l).
Definition SetSequenceWindowSize (numberOfBits : Z) (l : Lollipop) : option Lollipop :=
  ASSERT negb (digits <=? numberOfBits) ;;
  let w := T (Z.shiftl 1 numberOfBits) in Some (mkLollipop (T (m_maxValue - w + 1)) w).

Definition AbsoluteMagnitudeOfDifference (l o : Lollipop) : Z :=
  let absDiffDirect := T (Z.max (m_value l) (m_value o) - Z.min (m_value l) (m_value o)) in
  let absDiffWrapped :=
    T (Z.min (m_value l) (m_value o) + m_circularRegion + 1 - Z.max (m_value l) (m_value o)) in
  Z.min absDiffDirect absDiffWrapped.

Definition same_region (l o : Lollipop) : bool :=
  ((m_value l <=? m_circularRegion) && (m_value o <=? m_circularRegion)) ||
  ((m_circularRegion <? m_value l) && (m_circularRegion <? m_value o)).

Definition IsComparable (l o : Lollipop) : option bool :=
  ASSERT m_sequenceWindow l =? m_sequenceWindow o ;;
  Some (if same_region l o then
          negb (m_sequenceWindow l <? AbsoluteMagnitudeOfDifference l o)
        else true).

Definition IsInit (l : Lollipop) : bool := m_circularRegion <? m_value l.

Definition eq (l r : Lollipop) : option bool :=
  ASSERT m_sequenceWindow l =? m_sequenceWindow r ;; Some (m_value l =? m_value r).

Definition gt (l r : Lollipop) : option bool :=
  ASSERT m_sequenceWindow l =? m_sequenceWindow r ;;
  Some
    (if m_value l =? m_value r then false
     else if same_region l r then
       if m_sequenceWindow l <? AbsoluteMagnitudeOfDifference l r then false
       else
         let serialRegion := T (Z.shiftr m_circularRegion 1 + 1) in
         ((m_value l <? m_value r) && (serialRegion <? m_value r - m_value l)) ||
         ((m_value r <? m_value l) && (m_value l - m_value r <? serialRegion))
     else
       let lhsIsHigher := (m_circularRegion <? m_value l) && (m_value r <=? m_circularRegion) in
       let difference :=
         if lhsIsHigher then T (m_value l - m_value r) else T (m_value r - m_value l) in
       let distance := T (m_maxValue - difference + 1) in
       if m_sequenceWindow l <? distance then lhsIsHigher else negb lhsIsHigher).

Definition lt (l r : Lollipop) : option bool :=
  let! c := IsComparable l r in
  if negb c then Some false
  else
    let! g := gt l r in
    if g then Some false
    else let! e := eq l r in Some (negb e).

(** [operator++] *)
Definition incr (l : Lollipop) : Lollipop :=
  let v := T (m_value l + 1) in
  mkLollipop (if v =? T (m_circularRegion + 1) then 0 else v) (m_sequenceWindow l).

Fixpoint incr_n (n : nat) (l : Lollipop) : Lollipop :=
  match n with O => l | S n => incr_n n (incr l) end.

Context (Hdigits : 2 <= digits).

Lemma half_even : exists h, half = 2 * h /\ 0 < h.
Proof using Hdigits.
  exists (2 ^ (digits - 2)). unfold half. split; [|lia].
  rewrite <- Z.pow_succ_r by lia. f_equal. lia.
Qed.

Lemma circular_eq : m_circularRegion = half - 1.
Proof using Hdigits.
  unfold m_circularRegion, m_maxValue. rewrite Z.shiftr_div_pow2 by lia. change (2 ^ 1) with 2.
  destruct half_even as (h&->&?). lia.
Qed.

Lemma T_small z : 0 <= z < 2 * half -> T z = z.
Proof using Type. apply Z.mod_small. Qed.

(** After [n] increments: around the circular region, or down from the linear one. *)
Lemma incr_n_value n l :
  0 <= m_value l < 2 * half -> Z.of_nat n < half ->
  m_sequenceWindow (incr_n n l) = m_sequenceWindow l /\
  m_value (incr_n n l) =
    (if m_value l <? half then
       if m_value l + Z.of_nat n <? half then m_value l + Z.of_nat n
       else m_value l + Z.of_nat n - half
     else if m_value l + Z.of_nat n <? 2 * half then m_value l + Z.of_nat n
          else m_value l + Z.of_nat n - 2 * half).
Proof using Hdigits.
  destruct half_even as (h&Hh&Hh0).
  revert l. induction n as [|n IH]; intros l Hl Hn; cbn [incr_n].
  - split; [done|]. rewrite Z.add_0_r. repeat (case_match; norm_bool; try lia).
  - unfold incr at 1 2. rewrite circular_eq. replace (half - 1 + 1) with half by lia.
    rewrite (T_small half) by lia.
    destruct (decide (m_value l = 2 * half - 1)) as [E|E].
    + assert (T (m_value l + 1) = 0) as ->.
      { rewrite E. unfold T. replace (2 * half - 1 + 1) with (2 * half) by lia.
        apply Z.mod_same. lia. }
      rewrite (proj2 (Z.eqb_neq 0 half)) by lia.
      destruct (IH (mkLollipop 0 (m_sequenceWindow l))) as [-> ->]; [simpl; lia|lia|].
      split; [done|]. simpl. repeat (case_match; norm_bool; try lia).
    + rewrite (T_small (m_value l + 1)) by lia.
      destruct (Z.eqb_spec (m_value l + 1) half) as [E2|E2].
      * destruct (IH (mkLollipop 0 (m_sequenceWindow l))) as [-> ->]; [simpl; lia|lia|].
        split; [done|]. simpl. repeat (case_match; norm_bool; try lia).
      * destruct (IH (mkLollipop (m_value l + 1) (m_sequenceWindow l))) as [-> ->]; [simpl; lia|lia|].
        split; [done|]. simpl. repeat (case_match; norm_bool; try lia).
Qed.

(** Within the sequence window an incremented counter is greater, in both regions and across
    their border. *)
Lemma gt_incr_n n l :
  0 <= m_value l < 2 * half -> m_sequenceWindow l < half / 2 ->
  (1 <= n)%nat -> Z.of_nat n <= m_sequenceWindow l ->
  gt (incr_n n l) l = Some true /\ gt l (incr_n n l) = Some false /\
  lt l (incr_n n l) = Some true.
Proof using Hdigits.
  intros Hl Hw Hn Hnw. destruct half_even as (h&Hh&Hh0).
  destruct (incr_n_value n l Hl) as [Hew Hev]; [lia|].
  set (r := incr_n n l) in *. clearbody r.
  assert (Z.shiftr (half - 1) 1 = h - 1) as Hsr.
  { rewrite Z.shiftr_div_pow2 by lia. change (2 ^ 1) with 2. lia. }
  unfold lt, IsComparable, gt, eq, same_region, AbsoluteMagnitudeOfDifference.
  rewrite circular_eq, Hsr, Hew, Z.eqb_refl. unfold m_maxValue.
  rewrite (T_small (h - 1 + 1)) by lia.
  destruct l as [v w], r as [u w']. cbn [m_value m_sequenceWindow] in *.
  assert (v < half /\ v + Z.of_nat n < half /\ u = v + Z.of_nat n \/
          v < half /\ u = v + Z.of_nat n - half /\ half <= v + Z.of_nat n \/
          half <= v /\ u = v + Z.of_nat n /\ u < 2 * half \/
          half <= v /\ u = v + Z.of_nat n - 2 * half /\ 2 * half <= v + Z.of_nat n) as Hc
    by (repeat (case_match; norm_bool); lia).
  clear Hev. destruct Hc as [(?&?&?)|[(?&?&?)|[(?&?&?)|(?&?&?)]]].
  all: rewrite ?(Z.max_l u v), ?(Z.max_r u v), ?(Z.min_l u v), ?(Z.min_r u v),
    ?(Z.max_l v u), ?(Z.max_r v u), ?(Z.min_l v u), ?(Z.min_r v u) by lia.
  all: rewrite ?(proj2 (Z.eqb_neq u v)), ?(proj2 (Z.eqb_neq v u)) by lia.
  all: repeat first
    [ progress ztest | progress cbn [andb orb negb]
    | match goal with |- context [T ?z] => rewrite (T_small z) by lia end ].
  all: rewrite ?Z.min_l by lia.
  all: repeat first [ progress ztest | progress cbn [andb orb negb] ].
  all: done.
Qed.
End width.
End LollipopCounter.

(** ** What the counters promise *)

(** C23: Two sequence numbers that stand for integers less than half the range apart are ordered
    by every comparison operator, and subtracted, exactly as those integers are, at any width and
    across the wrap-around. *)
Theorem sequence_window (half x y : Z) :
  1 < half -> - half < x - y < half ->
  let a := SequenceNumber.wrap half x in
  let b := SequenceNumber.wrap half y in
  SequenceNumber.gt half a b = (y <? x) /\ SequenceNumber.lt half a b = (x <? y) /\
  SequenceNumber.ge half a b = (y <=? x) /\ SequenceNumber.le half a b = (x <=? y) /\
  SequenceNumber.eq a b = (x =? y) /\ SequenceNumber.diff half a b = x - y.
Proof.
  intros Hh Hw a b. split_and!.
  - by apply SequenceNumber.gt_window.
  - by apply SequenceNumber.lt_window.
  - by apply SequenceNumber.ge_window.
  - by apply SequenceNumber.le_window.
  - by apply (SequenceNumber.eq_window half).
  - by apply SequenceNumber.diff_window.
Qed.

Lemma sequence_window_witness :
  let a := SequenceNumber.wrap (2 ^ 31) (2 ^ 32 + 5) in
  let b := SequenceNumber.wrap (2 ^ 31) (2 ^ 32 - 3) in
  (a, b) = (5, 4294967293) /\ SequenceNumber.diff (2 ^ 31) a b = 8.
Proof.
  intros a b. split; [reflexivity|].
  destruct (sequence_window (2 ^ 31) (2 ^ 32 + 5) (2 ^ 32 - 3)) as (_&_&_&_&_&H); [lia|lia|exact H].
Defined.


