(* ===== verification/TcpRxBuffer.v ===== *)
(** * The TCP receive buffer ([src/internet/model/tcp-rx-buffer.{h,cc}])

    Sequence numbers are [SequenceNumber32] ([SeqNum], half range [2^31]).  [m_data], a
    [std::map] from the sequence number of its first byte to a packet, is the list of its entries
    in the map's order, the order of [SequenceNumber32::operator<]; a packet is the list of its
    bytes.  [None] is a failed [NS_ASSERT] or the dereference of [end()]. *)

From S2P Require Export SeqNum.

Definition HALF : Z := 2147483648.
Notation sq := (SequenceNumber.wrap HALF).
Notation seq_add := (SequenceNumber.add HALF).
Notation seq_diff := (SequenceNumber.diff HALF).
Notation seq_lt := (SequenceNumber.lt HALF).
Notation seq_le := (SequenceNumber.le HALF).
Notation seq_gt := (SequenceNumber.gt HALF).
Notation seq_ge := (SequenceNumber.ge HALF).
Notation seq_eq := SequenceNumber.eq.

Notation len p := (Z.of_nat (length p)).

Module TcpRxBuffer.
(** A packet of the buffer is its bytes; [fragment] is [Packet::CreateFragment] on them. *)
Definition fragment (start length : Z) (p : list Z) : list Z :=
  take (Z.to_nat length) (drop (Z.to_nat start) p).

Record RxBuffer := mkRx {
  m_sackList : list (Z * Z);
  m_nextRxSeq : Z;
  m_finSeq : Z;
  m_gotFin : bool;
  m_size : Z;
  m_maxBuffer : Z;
  m_availBytes : Z;
  m_data : list (Z * list Z);
}.

Definition create (n : Z) : RxBuffer := mkRx [] n 0 false 0 32768 0 [].

Definition set_sack (l : list (Z * Z)) (s : RxBuffer) : RxBuffer :=
  mkRx l (m_nextRxSeq s) (m_finSeq s) (m_gotFin s) (m_size s) (m_maxBuffer s) (m_availBytes s) (m_data s).
Definition set_next (n : Z) (s : RxBuffer) : RxBuffer :=
  mkRx (m_sackList s) n (m_finSeq s) (m_gotFin s) (m_size s) (m_maxBuffer s) (m_availBytes s) (m_data s).
Definition set_data (size avail : Z) (d : list (Z * list Z)) (s : RxBuffer) : RxBuffer :=
  mkRx (m_sackList s) (m_nextRxSeq s) (m_finSeq s) (m_gotFin s) size (m_maxBuffer s) avail d.

Definition NextRxSequence (s : RxBuffer) : Z := m_nextRxSeq s.
Definition SetNextRxSequence (n : Z) (s : RxBuffer) : RxBuffer := set_next n s.
Definition MaxBufferSize (s : RxBuffer) : Z := m_maxBuffer s.
Definition SetMaxBufferSize (n : Z) (s : RxBuffer) : RxBuffer :=
  mkRx (m_sackList s) (m_nextRxSeq s) (m_finSeq s) (m_gotFin s) (m_size s) n (m_availBytes s) (m_data s).
Definition Size (s : RxBuffer) : Z := m_size s.
Definition Available (s : RxBuffer) : Z := m_availBytes s.
Definition GetSackListSize (s : RxBuffer) : Z := len (m_sackList s).
Definition GetSackList (s : RxBuffer) : list (Z * Z) := m_sackList s.

Definition IncNextRxSequence (s : RxBuffer) : option RxBuffer :=
  ASSERT m_size s =? 0 ;; Some (set_next (SequenceNumber.incr HALF (m_nextRxSeq s)) s).

Definition MaxRxSequence (s : RxBuffer) : Z :=
  if m_gotFin s then m_finSeq s
  else match m_data s with
       | (k, _) :: _ =>
           if seq_gt (m_nextRxSeq s) k then seq_add k (m_maxBuffer s)
           else seq_add (m_nextRxSeq s) (m_maxBuffer s)
       | [] => seq_add (m_nextRxSeq s) (m_maxBuffer s)
       end.

Definition SetFinSequence (f : Z) (s : RxBuffer) : RxBuffer :=
  mkRx (m_sackList s)
       (if seq_eq (m_nextRxSeq s) f then SequenceNumber.incr HALF (m_nextRxSeq s) else m_nextRxSeq s)
       f true (m_size s) (m_maxBuffer s) (m_availBytes s) (m_data s).

Definition Finished (s : RxBuffer) : bool := m_gotFin s && seq_lt (m_finSeq s) (m_nextRxSeq s).

(** ** The map *)
Definition key_same (a b : Z) : bool := negb (seq_lt a b) && negb (seq_lt b a).

Fixpoint data_find (k : Z) (l : list (Z * list Z)) : bool :=
  match l with [] => false | (k', _) :: l' => key_same k k' || data_find k l' end.

(** [m_data[k] = p] *)
Fixpoint data_insert (k : Z) (p : list Z) (l : list (Z * list Z)) : list (Z * list Z) :=
  match l with
  | [] => [(k, p)]
  | (k', p') :: l' =>
      if seq_lt k k' then (k, p) :: (k', p') :: l'
      else if seq_lt k' k then (k', p') :: data_insert k p l'
      else (k', p) :: l'
  end.

Fixpoint data_erase (k : Z) (l : list (Z * list Z)) : list (Z * list Z) :=
  match l with
  | [] => []
  | (k', p') :: l' => if k =? k' then l' else (k', p') :: data_erase k l'
  end.

(** ** The SACK list *)

(** The merging loop of [UpdateSackList]: the list is [beg], the blocks examined since the last
    merge and the blocks left. *)
Fixpoint merge_blocks (fuel : nat) (beg : Z * Z) (seen rest : list (Z * Z)) : option (list (Z * Z)) :=
  match fuel with
  | O => None
  | S fuel =>
      match rest with
      | [] => Some (beg :: seen)
      | current :: rest' =>
          if seq_eq (fst beg) (snd current) then
            ASSERT seq_lt (fst current) (snd beg) ;;
            merge_blocks fuel (fst current, snd beg) [] (seen ++ rest')
          else if seq_eq (snd beg) (fst current) then
            ASSERT seq_lt (fst beg) (snd current) ;;
            merge_blocks fuel (fst beg, snd current) [] (seen ++ rest')
          else merge_blocks fuel beg (seen ++ [current]) rest'
      end
  end.

(** Between two merges the loop examines each block once, and a merge removes a block. *)
Definition merge_fuel (n : nat) : nat := S (S n * S n).

Definition pop_back {A} (l : list A) : list A := take (length l - 1) l.

Definition UpdateSackList (head tail : Z) (s : RxBuffer) : option RxBuffer :=
  ASSERT seq_gt head (m_nextRxSeq s) ;;
  let! l := merge_blocks (merge_fuel (length (m_sackList s))) (head, tail) [] (m_sackList s) in
  Some (set_sack (if (4 <? length l)%nat then pop_back l else l) s).

Fixpoint ClearSackList (seq : Z) (l : list (Z * Z)) : option (list (Z * Z)) :=
  match l with
  | [] => Some []
  | block :: l' =>
      ASSERT seq_lt (fst block) (snd block) ;;
      let! r := ClearSackList seq l' in
      Some (if seq_le (snd block) seq then r else block :: r)
  end.

(** ** Add *)

(** The loop that removes the overlapped bytes: what stays of the map, the trimmed bounds of the
    packet and [m_size]. *)
Fixpoint overlap (l : list (Z * list Z)) (head tail size : Z) : list (Z * list Z) * Z * Z * Z :=
  match l with
  | [] => ([], head, tail, size)
  | (k, p) :: l' =>
      if seq_le k tail then
        let lastByte := seq_add k (len p) in
        if seq_gt lastByte head then
          if seq_gt k head && seq_lt lastByte tail then overlap l' head tail (size ⊖ len p)
          else
            let head' := if seq_le k head then lastByte else head in
            let tail' := if seq_ge lastByte tail then k else tail in
            let '(r, h, t, n) := overlap l' head' tail' size in ((k, p) :: r, h, t, n)
        else let '(r, h, t, n) := overlap l' head tail size in ((k, p) :: r, h, t, n)
      else ((k, p) :: l', head, tail, size)
  end.

(** The loop that moves [m_nextRxSeq] over the packets that follow it. *)
Fixpoint advance (l : list (Z * list Z)) (next avail : Z) (sack : list (Z * Z))
  : option (Z * Z * list (Z * Z)) :=
  match l with
  | [] => Some (next, avail, sack)
  | (k, p) :: l' =>
      if seq_lt k next then advance l' next avail sack
      else if seq_gt k next then Some (next, avail, sack)
      else
        let next' := seq_add k (len p) in
        let! sack' := ClearSackList next' sack in
        advance l' next' (avail ⊕ len p) sack'
  end.

(** The bounds of the packet trimmed to the window. *)
Definition trim (seq : Z) (p : list Z) (s : RxBuffer) : Z * Z :=
  let tail := seq_add seq (len p) in
  let head := if seq_lt seq (m_nextRxSeq s) then m_nextRxSeq s else seq in
  match m_data s with
  | [] => (head, tail)
  | (k, _) :: _ =>
      let maxSeq := seq_add k (m_maxBuffer s) in
      let tail := if seq_lt maxSeq tail then maxSeq else tail in
      (if seq_lt tail head then tail else head, tail)
  end.

(** [seq] is the sequence number of the packet's TCP header. *)
Definition Add (p : list Z) (seq : Z) (s : RxBuffer) : option (bool * RxBuffer) :=
  let '(head, tail) := trim seq p s in
  let '(kept, head, tail, size) := overlap (m_data s) head tail (m_size s) in
  if seq_ge head tail then Some (false, set_data size (m_availBytes s) kept s)
  else
    let start := u32 (seq_diff head seq) in
    let length_ := u32 (seq_diff tail head) in
    let p := fragment start length_ p in
    ASSERT length_ =? len p ;;
    ASSERT negb (data_find head kept) ;;
    let s := set_data size (m_availBytes s) (data_insert head p kept) s in
    let! s := if seq_gt head (m_nextRxSeq s) then UpdateSackList head tail s else Some s in
    let size := m_size s ⊕ len p in
    let! (next, avail, sack) := advance (m_data s) (m_nextRxSeq s) (m_availBytes s) (m_sackList s) in
    let next := if m_gotFin s && seq_eq next (m_finSeq s) then SequenceNumber.incr HALF next else next in
    Some (true, set_next next (set_sack sack (set_data size avail (m_data s) s))).

(** ** Extract *)

(** The extraction loop: the bytes taken and the state left. *)
Fixpoint extract_loop (l : list (Z * list Z)) (extractSize size avail : Z) (next : Z)
  : option (list Z * list (Z * list Z) * Z * Z) :=
  if extractSize =? 0 then Some ([], l, size, avail)
  else
    match l with
    | [] => None
    | (k, p) :: l' =>
        ASSERT seq_le k next ;;
        if len p <=? extractSize then
          let! (out, r, sz, av) :=
            extract_loop l' (extractSize - len p) (size ⊖ len p) (avail ⊖ len p) next in
          Some (p ++ out, r, sz, av)
        else
          Some (fragment 0 extractSize p,
                data_erase k
                  (data_insert (seq_add k extractSize)
                     (fragment extractSize (len p - extractSize) p) ((k, p) :: l')),
                size ⊖ extractSize, avail ⊖ extractSize)
    end.

(** [None] inside is the null packet. *)
Definition Extract (maxSize : Z) (s : RxBuffer) : option (option (list Z) * RxBuffer) :=
  let extractSize := Z.min maxSize (m_availBytes s) in
  if extractSize =? 0 then Some (None, s)
  else
    ASSERT negb (length (m_data s) =? 0)%nat ;;
    let! (out, d, size, avail) :=
      extract_loop (m_data s) extractSize (m_size s) (m_availBytes s) (m_nextRxSeq s) in
    Some (if (length out =? 0)%nat then None else Some out, set_data size avail d s).
End TcpRxBuffer.
