(* ===== verification/RxSpec.v ===== *)
(** * The receive buffer on the stream

    The buffer of [TcpRxBuffer] against the byte stream the peer sends: positions of the stream
    are integers, a sequence number is a position modulo [2^32], and the map of the code is a
    chain of disjoint intervals of positions.  The loops of [Add] are shown to compute their
    counterparts on intervals. *)

From S2P Require Export TcpRxBuffer.
Import TcpRxBuffer.

(** ** The stream and its pieces *)
Section bytes.
Context (stream : Z -> Z).

Definition bytes (a n : Z) : list Z := stream <$> seqZ a n.

Lemma length_bytes a n : 0 <= n -> len (bytes a n) = n.
Proof using Type. intros. unfold bytes. rewrite length_fmap, length_seqZ. lia. Qed.

Lemma bytes_app a n m : 0 <= n -> 0 <= m -> bytes a (n + m) = bytes a n ++ bytes (a + n) m.
Proof using Type. intros. unfold bytes. by rewrite <- fmap_app, seqZ_app. Qed.

Lemma fragment_bytes st ln a n :
  0 <= st -> 0 <= ln -> st + ln <= n -> fragment st ln (bytes a n) = bytes (a + st) ln.
Proof using Type.
  intros. unfold fragment. replace n with (st + (ln + (n - st - ln))) by lia.
  rewrite (bytes_app a st), (bytes_app (a + st) ln) by lia.
  rewrite drop_app_length' by (pose proof (length_bytes a st); lia).
  by rewrite take_app_length' by (pose proof (length_bytes (a + st) ln); lia).
Qed.

Definition conc (l : list (Z * Z)) : list (Z * list Z) :=
  (fun '(a, n) => (sq a, bytes a n)) <$> l.
End bytes.

(** ** Intervals of the stream *)
Fixpoint chain (lo : Z) (l : list (Z * Z)) : Prop :=
  match l with
  | [] => True
  | (a, n) :: l' => lo <= a /\ 0 < n /\ chain (a + n) l'
  end.

Definition covered (l : list (Z * Z)) (x : Z) : Prop :=
  Exists (fun '(a, n) => a <= x < a + n) l.

Fixpoint total (l : list (Z * Z)) : Z :=
  match l with [] => 0 | (_, n) :: l' => n + total l' end.

Lemma covered_nil x : covered [] x <-> False.
Proof. apply Exists_nil. Qed.
Lemma covered_cons a n l x : covered ((a, n) :: l) x <-> a <= x < a + n \/ covered l x.
Proof. apply Exists_cons. Qed.

Lemma chain_weaken lo lo' l : chain lo l -> lo' <= lo -> chain lo' l.
Proof. destruct l as [|[a n] l]; simpl; [done|]. intuition lia. Qed.

Lemma chain_covered lo l x : chain lo l -> covered l x -> lo <= x.
Proof.
  revert lo. induction l as [|[a n] l IH]; intros lo; [by rewrite covered_nil|].
  rewrite covered_cons. intros (?&?&Hc) [?|Hx]; [lia|]. specialize (IH _ Hc Hx). lia.
Qed.

Lemma chain_elem lo l a n : chain lo l -> (a, n) ∈ l -> lo <= a /\ 0 < n.
Proof.
  revert lo. induction l as [|[a' n'] l IH]; intros lo; simpl; [by intros _ ?%elem_of_nil|].
  intros (?&?&Hc) [[= -> ->]|Hin]%elem_of_cons; [done|].
  pose proof (IH _ Hc Hin). lia.
Qed.

Lemma chain_total lo l : chain lo l -> 0 <= total l.
Proof.
  revert lo. induction l as [|[a n] l IH]; intros lo; simpl; [done|]. intros (?&?&H).
  specialize (IH _ H). lia.
Qed.

(** ** The overlap loop on intervals *)
Fixpoint trim_over (l : list (Z * Z)) (h t : Z) : list (Z * Z) * Z * Z :=
  match l with
  | [] => ([], h, t)
  | (a, n) :: l' =>
      if a <=? t then
        if h <? a + n then
          if (h <? a) && (a + n <? t) then trim_over l' h t
          else
            let '(r, h', t') :=
              trim_over l' (if a <=? h then a + n else h) (if t <=? a + n then a else t) in
            ((a, n) :: r, h', t')
        else let '(r, h', t') := trim_over l' h t in ((a, n) :: r, h', t')
      else ((a, n) :: l', h, t)
  end.

(** What is left of the packet is new, and with what is left of the map covers the same. *)
Definition trimmed (lo : Z) (l : list (Z * Z)) (h t : Z) (r : list (Z * Z)) (h' t' : Z) : Prop :=
  h <= h' /\ t' <= t /\
  (h' < t' ->
     chain lo r /\ (forall x, h' <= x < t' -> ~ covered r x) /\
     (forall x, covered r x \/ h' <= x < t' <-> covered l x \/ h <= x < t)) /\
  (t' <= h' -> r = l /\ forall x, h <= x < t -> covered l x).

(** The head of the list stays. *)
Lemma trimmed_cons lo a n l h2 t2 h t r h' t' :
  lo <= a -> 0 < n -> h <= h2 -> t2 <= t ->
  (h2 <= t2 -> a + n <= h2 \/ t2 <= a) ->
  (forall x, h <= x < t <-> h2 <= x < t2 \/ h <= x < t /\ a <= x < a + n) ->
  trimmed (a + n) l h2 t2 r h' t' -> trimmed lo ((a, n) :: l) h t ((a, n) :: r) h' t'.
Proof.
  intros Hlo Hn Hh Ht Hsep Hint (?&?&Hlt&Hge). split_and!; [lia|lia| |].
  - intros H1. destruct (Hlt H1) as (Hc&Hd&He). simpl. split_and!; [done|done|done| |].
    + intros x Hx. rewrite covered_cons. intros [?|?]; [lia|]. by apply (Hd x Hx).
    + intros x. rewrite !covered_cons. specialize (He x). specialize (Hint x). tauto.
  - intros H1. destruct (Hge H1) as [-> Hc]. split; [done|]. intros x Hx. rewrite covered_cons.
    apply Hint in Hx as [Hx|[_ Hx]]; [right; by apply Hc|by left].
Qed.

Lemma trim_over_spec l lo h t r h' t' :
  chain lo l -> trim_over l h t = (r, h', t') -> trimmed lo l h t r h' t'.
Proof.
  revert lo h t r h' t'. induction l as [|[a n] l IH]; intros lo h t r h' t'; simpl.
  { intros _ [= <- <- <-]. split_and!; [lia|lia| |].
    - intros. repeat split; try tauto. intros x Hx. rewrite covered_nil; tauto.
    - intros. split; [done|]. intros. lia. }
  intros (Hlo&Hn&Hc). destruct (Z.leb_spec a t) as [Hat|Hat].
  2:{ intros [= <- <- <-]. split_and!; [lia|lia| |].
      - intros Hht. split_and!; [done| |tauto]. intros x Hx.
        rewrite covered_cons. intros [?|H]; [lia|]. apply (chain_covered _ _ _ Hc) in H. lia.
      - intros. split; [done|]. intros. lia. }
  destruct (Z.ltb_spec h (a + n)) as [Han|Han].
  2:{ destruct trim_over as [[r1 h1] t1] eqn:E. intros [= <- <- <-].
      eapply trimmed_cons; revgoals; [by eapply IH|lia..]. }
  destruct (Z.ltb_spec h a) as [Hha|Hha], (Z.ltb_spec (a + n) t) as [Hnt|Hnt]; cbn [andb].
  { intros E. destruct (IH _ _ _ _ _ _ Hc E) as (?&?&Hlt&Hge). split_and!; [lia|lia| |].
    - intros H1. destruct (Hlt H1) as (Hr&Hd&He).
      split_and!; [eapply chain_weaken; [exact Hr|lia]|done|].
      intros x. rewrite He, covered_cons. intuition lia.
    - intros H1. destruct (Hge H1) as [-> Hcov].
      assert (covered l a) as Ha by (apply Hcov; lia).
      apply (chain_covered _ _ _ Hc) in Ha. lia. }
  all: destruct trim_over as [[r1 h1] t1] eqn:E; intros [= <- <- <-].
  all: eapply trimmed_cons; revgoals; [by eapply IH|..].
  all: repeat match goal with |- context [?a <=? ?b] => destruct (Z.leb_spec a b) end; lia.
Qed.

(** ** Inserting the trimmed packet *)
Fixpoint insert_at (a n : Z) (l : list (Z * Z)) : list (Z * Z) :=
  match l with
  | [] => [(a, n)]
  | (a', n') :: l' => if a <? a' then (a, n) :: (a', n') :: l' else (a', n') :: insert_at a n l'
  end.

Lemma insert_at_covered a n l x : covered (insert_at a n l) x <-> a <= x < a + n \/ covered l x.
Proof.
  induction l as [|[a' n'] l IH]; simpl; [by rewrite covered_cons, covered_nil|].
  destruct (a <? a'); rewrite !covered_cons, ?IH, ?covered_cons; tauto.
Qed.

Lemma insert_at_chain lo a n l :
  chain lo l -> lo <= a -> 0 < n -> (forall x, a <= x < a + n -> ~ covered l x) ->
  chain lo (insert_at a n l).
Proof.
  revert lo. induction l as [|[a' n'] l IH]; intros lo; simpl; [done|].
  intros (?&?&Hc) ?? Hnew.
  assert (a + n <= a' \/ a' + n' <= a) as Hsep.
  { destruct (decide (a + n <= a')); [by left|right].
    destruct (decide (a' + n' <= a)); [done|].
    exfalso. apply (Hnew (Z.max a a')); [lia|]. rewrite covered_cons. left. lia. }
  destruct (Z.ltb_spec a a'); simpl; split_and!; try lia; [done|].
  apply IH; [done|lia|done|]. intros x Hx Hcov. apply (Hnew x Hx). rewrite covered_cons. by right.
Qed.

Lemma insert_at_total a n l : total (insert_at a n l) = n + total l.
Proof. induction l as [|[a' n'] l IH]; simpl; [done|]. case_match; simpl; lia. Qed.

(** ** Advancing over the packets in order *)
Fixpoint advance_to (l : list (Z * Z)) (N : Z) : Z :=
  match l with
  | [] => N
  | (a, n) :: l' => if a <? N then advance_to l' N else if N <? a then N else advance_to l' (a + n)
  end.

Lemma advance_to_spec l lo N :
  chain lo l -> (forall a n, (a, n) ∈ l -> a < N -> a + n <= N) ->
  N <= advance_to l N /\ (forall x, N <= x < advance_to l N -> covered l x) /\
  ~ covered l (advance_to l N).
Proof.
  revert lo N. induction l as [|[a n] l IH]; intros lo N; simpl.
  { intros _ _. split_and!; [lia|intros; lia|rewrite covered_nil; tauto]. }
  intros (?&?&Hc) Hal.
  destruct (Z.ltb_spec a N) as [HaN|HaN]; [|destruct (Z.ltb_spec N a) as [HNa|HNa]].
  - assert (a + n <= N) by (apply Hal; [left|done]).
    destruct (IH (a + n) N Hc) as (?&Hcov&Hnot); [intros ????; by apply Hal; [right|]|].
    split_and!; [done| |].
    + intros x Hx. rewrite covered_cons. right. by apply Hcov.
    + rewrite covered_cons. intros [?|?]; [lia|done].
  - split_and!; [lia|intros; lia|]. rewrite covered_cons. intros [?|Hx]; [lia|].
    apply (chain_covered _ _ _ Hc) in Hx. lia.
  - assert (a = N) as -> by lia.
    destruct (IH (N + n) (N + n) Hc) as (?&Hcov&Hnot).
    { intros a' n' Hin ?. pose proof (chain_elem _ _ _ _ Hc Hin). lia. }
    split_and!; [lia| |].
    + intros x Hx. rewrite covered_cons. destruct (decide (x < N + n)); [left; lia|right].
      apply Hcov. lia.
    + rewrite covered_cons. intros [?|?]; [lia|done].
Qed.

(** ** The loops of the code compute those on intervals *)

(** Sequence numbers of positions less than [2^31] apart compare like the positions. *)
Section compare.
Context (x y : Z) (Hw : - 2147483648 < x - y < 2147483648).
Lemma sq_lt : seq_lt (sq x) (sq y) = (x <? y).
Proof using Hw. by apply SequenceNumber.lt_window. Qed.
Lemma sq_le : seq_le (sq x) (sq y) = (x <=? y).
Proof using Hw. by apply SequenceNumber.le_window. Qed.
Lemma sq_gt : seq_gt (sq x) (sq y) = (y <? x).
Proof using Hw. by apply SequenceNumber.gt_window. Qed.
Lemma sq_ge : seq_ge (sq x) (sq y) = (y <=? x).
Proof using Hw. by apply SequenceNumber.ge_window. Qed.
Lemma sq_eq : seq_eq (sq x) (sq y) = (x =? y).
Proof using Hw. by apply (SequenceNumber.eq_window HALF). Qed.
Lemma sq_diff : seq_diff (sq x) (sq y) = x - y.
Proof using Hw. by apply SequenceNumber.diff_window. Qed.
End compare.

Lemma sq_add x n : seq_add (sq x) n = sq (x + n).
Proof. unfold SequenceNumber.add, SequenceNumber.wrap. by rewrite Zplus_mod_idemp_l. Qed.

Lemma sq_incr x : SequenceNumber.incr HALF (sq x) = sq (x + 1).
Proof. unfold SequenceNumber.incr, SequenceNumber.wrap. by rewrite Zplus_mod_idemp_l. Qed.

Ltac sq_simp :=
  repeat first
    [ rewrite sq_add | rewrite sq_incr
    | match goal with
      | |- context [seq_lt (sq ?x) (sq ?y)] => rewrite (sq_lt x y) by lia
      | |- context [seq_le (sq ?x) (sq ?y)] => rewrite (sq_le x y) by lia
      | |- context [seq_gt (sq ?x) (sq ?y)] => rewrite (sq_gt x y) by lia
      | |- context [seq_ge (sq ?x) (sq ?y)] => rewrite (sq_ge x y) by lia
      | |- context [seq_eq (sq ?x) (sq ?y)] => rewrite (sq_eq x y) by lia
      | |- context [seq_diff (sq ?x) (sq ?y)] => rewrite (sq_diff x y) by lia
      end ].

Definition within (lo hi : Z) (l : list (Z * Z)) : Prop :=
  Forall (fun '(a, n) => lo <= a /\ 0 < n /\ a + n <= hi) l.

Lemma within_total lo hi l : within lo hi l -> 0 <= total l.
Proof. induction 1 as [|[a n] l (?&?&?) _ IH]; simpl; lia. Qed.

Section refine.
Context (stream : Z -> Z) (lo hi : Z) (Hwin : hi - lo < 2147483648).
Notation conc := (conc stream).
Notation bytes := (bytes stream).

Lemma conc_cons a n l : conc ((a, n) :: l) = (sq a, bytes a n) :: conc l.
Proof using Type. done. Qed.

Lemma overlap_conc l h t size :
  within lo hi l -> lo <= h <= hi -> lo <= t <= hi -> total l <= size < 4294967296 ->
  overlap (conc l) (sq h) (sq t) size =
    let '(r, h', t') := trim_over l h t in (conc r, sq h', sq t', size - (total l - total r)).
Proof using Hwin.
  revert h t size. induction l as [|[a n] l IH]; intros h t size Hl Hh Ht Hs.
  { simpl. by rewrite Z.sub_diag, Z.sub_0_r. }
  apply Forall_cons in Hl as [(?&?&?) Hl]. rewrite conc_cons. cbn [overlap trim_over total] in *.
  rewrite length_bytes by lia. sq_simp.
  pose proof (within_total _ _ _ Hl).
  destruct (Z.leb_spec a t); [|simpl; by rewrite Z.sub_diag, Z.sub_0_r].
  destruct (Z.ltb_spec h (a + n)).
  - destruct ((h <? a) && (a + n <? t)).
    + wsimp. rewrite IH by (try done; lia). destruct trim_over as [[r h'] t'].
      f_equal. lia.
    + replace (if a <=? h then sq (a + n) else sq h) with (sq (if a <=? h then a + n else h))
        by (by case_match).
      replace (if t <=? a + n then sq a else sq t) with (sq (if t <=? a + n then a else t))
        by (by case_match).
      rewrite IH by (first [done|lia|case_match; lia]). destruct trim_over as [[r h'] t'].
      simpl. f_equal. lia.
  - rewrite IH by (first [done|lia]). destruct trim_over as [[r h'] t'].
    simpl. f_equal. lia.
Qed.

Lemma data_insert_conc l a n :
  within lo hi l -> lo <= a <= hi -> 0 <= n -> ~ covered l a ->
  data_find (sq a) (conc l) = false /\
  data_insert (sq a) (bytes a n) (conc l) = conc (insert_at a n l).
Proof using Hwin.
  intros Hl Ha Hn. induction Hl as [|[a' n'] l (?&?&?) Hl IH]; [done|].
  rewrite covered_cons, conc_cons. intros Hnot. destruct IH as [IHf IHi]; [tauto|].
  cbn [data_find data_insert insert_at]. unfold key_same. sq_simp.
  assert (a <> a') by (intros ->; apply Hnot; lia).
  destruct (Z.ltb_spec a a'), (Z.ltb_spec a' a); try lia; cbn [negb andb orb]; [done|].
  by rewrite IHf, IHi.
Qed.

End refine.

(** *** The SACK list *)
Definition conc_blocks (l : list (Z * Z)) : list (Z * Z) := (fun '(a, b) => (sq a, sq b)) <$> l.

(** A block of the list: all its bytes are held. *)
Definition held (hi : Z) (l : list (Z * Z)) (N : Z) (b : Z * Z) : Prop :=
  N < fst b < snd b /\ snd b <= hi /\ forall x, fst b <= x < snd b -> covered l x.

Section sack.
Context (lo hi : Z) (Hwin : hi - lo < 2147483648).

Lemma ClearSackList_conc seq bl l N :
  lo <= N -> lo <= seq <= hi -> Forall (held hi l N) bl ->
  ClearSackList (sq seq) (conc_blocks bl) = Some (conc_blocks (filter (fun b => seq < snd b) bl)).
Proof using Hwin.
  intros HN Hseq. induction 1 as [|[a b] bl (?&?&?) Hbl IH]; [done|].
  change (conc_blocks ((a, b) :: bl)) with ((sq a, sq b) :: conc_blocks bl).
  cbn [ClearSackList fst snd] in *. sq_simp. rewrite IH. ztest.
  rewrite filter_cons. simpl. destruct (Z.leb_spec b seq); case_decide; try lia; done.
Qed.

Lemma merge_blocks_conc fuel l N beg seen rest :
  lo <= N -> held hi l N beg -> Forall (held hi l N) seen -> Forall (held hi l N) rest ->
  let n := (length seen + length rest)%nat in
  (n * n + length rest < fuel)%nat ->
  exists beg' bl,
    merge_blocks fuel (sq (fst beg), sq (snd beg)) (conc_blocks seen) (conc_blocks rest) =
      Some (conc_blocks (beg' :: bl)) /\
    fst beg' <= fst beg /\ snd beg <= snd beg' /\
    held hi l N beg' /\ Forall (held hi l N) bl /\ (length bl <= n)%nat.
Proof using Hwin.
  intros HN. revert beg seen rest.
  induction fuel as [|fuel IH]; intros [a b] seen rest Hb Hs Hr n Hn; [lia|].
  destruct rest as [|[c d] rest]; cbn [merge_blocks].
  { exists (a, b), seen. split_and!; try done; lia. }
  change (conc_blocks ((c, d) :: rest)) with ((sq c, sq d) :: conc_blocks rest).
  apply Forall_cons in Hr as [Hc Hr]. pose proof Hb as (?&?&Hcb). pose proof Hc as (?&?&Hcc).
  cbn [fst snd length] in *. sq_simp.
  assert (forall a' b', held hi l N (a', b') -> a' <= a -> b <= b' ->
    exists beg' bl, merge_blocks fuel (sq a', sq b') [] (conc_blocks seen ++ conc_blocks rest) =
      Some (conc_blocks (beg' :: bl)) /\ fst beg' <= a /\ b <= snd beg' /\
    held hi l N beg' /\ Forall (held hi l N) bl /\ (length bl <= n)%nat) as Hmerge.
  { intros a' b' Hh Ha' Hb'.
    destruct (IH (a', b') [] (seen ++ rest)) as (beg'&bl&He&?&?&?&?&?); [done|done|by apply Forall_app| |].
    - cbn [length]. rewrite length_app. unfold n in *. clear -Hn. nia.
    - exists beg', bl. unfold conc_blocks in *. rewrite fmap_app in He. cbn [length fst snd] in *.
      rewrite length_app in *. split_and!; try done; lia. }
  destruct (Z.eqb_spec a d) as [->|].
  { ztest. apply Hmerge; [|lia|lia]. split_and!; [cbn; lia..|]. cbn. intros x Hx.
    destruct (decide (x < d)); [apply Hcc|apply Hcb]; lia. }
  destruct (Z.eqb_spec b c) as [->|].
  { ztest. apply Hmerge; [|lia|lia]. split_and!; [cbn; lia..|]. cbn. intros x Hx.
    destruct (decide (x < c)); [apply Hcb|apply Hcc]; lia. }
  destruct (IH (a, b) (seen ++ [(c, d)]) rest) as (beg'&bl&He&?&?&?&?&?); [done| |done| |].
  - by apply Forall_app, conj, Forall_singleton.
  - rewrite length_app. cbn [length]. unfold n in *. clear -Hn. nia.
  - exists beg', bl. unfold conc_blocks in *. rewrite fmap_app in He. cbn [length fst snd] in *.
    rewrite length_app in *. cbn [length] in *. split_and!; try done; lia.
Qed.

Lemma UpdateSackList_conc s l N al h t :
  lo <= N -> m_nextRxSeq s = sq N -> m_sackList s = conc_blocks al -> Forall (held hi l N) al ->
  (length al <= 4)%nat -> held hi l N (h, t) ->
  exists b bl, UpdateSackList (sq h) (sq t) s = Some (set_sack (conc_blocks (b :: bl)) s) /\
    fst b <= h /\ t <= snd b /\ Forall (held hi l N) (b :: bl) /\ (length (b :: bl) <= 4)%nat.
Proof using Hwin.
  intros HN Hnext Hsack Hal Hlen Hh. pose proof Hh as (?&?&?). cbn [fst snd] in *.
  unfold UpdateSackList. rewrite Hnext, Hsack. sq_simp. ztest.
  destruct (merge_blocks_conc (merge_fuel (length (conc_blocks al))) l N (h, t) [] al)
    as (b&bl&He&?&?&?&?&Hlb); [done|done|done|done| |].
  { unfold merge_fuel, conc_blocks. rewrite length_fmap. cbn [length]. lia. }
  cbn [fst snd] in *. change (conc_blocks []) with (@nil (Z * Z)) in He. rewrite He.
  cbn [length] in Hlb.
  destruct (Nat.ltb_spec 4 (length (conc_blocks (b :: bl)))) as [Hlt|Hge].
  - exists b, (take 3 bl). unfold conc_blocks, pop_back in *. rewrite length_fmap in *.
    cbn [length] in *. assert (length bl = 4%nat) as Hl4 by lia. rewrite Hl4.
    split_and!; [|done|done|constructor; [done|by apply Forall_take]|rewrite length_take; lia].
    rewrite <- fmap_take. done.
  - unfold conc_blocks in *. rewrite length_fmap in *.
    exists b, bl. split_and!; [done|done|done|by constructor|done].
Qed.

End sack.

(** *** Advancing *)

(** The SACK list after [m_nextRxSeq] has moved from [N] to [N']. *)
Definition clear_to (N N' : Z) (al : list (Z * Z)) : list (Z * Z) :=
  if N' =? N then al else filter (fun b => N' < snd b) al.

Lemma clear_to_twice N N1 N2 al :
  N < N1 -> N1 <= N2 -> clear_to N1 N2 (clear_to N N1 al) = clear_to N N2 al.
Proof.
  intros. unfold clear_to. ztest. destruct (Z.eqb_spec N2 N1) as [->|]; [done|].
  apply list_filter_filter_l. lia.
Qed.

Lemma clear_to_elem N N' al b :
  b ∈ clear_to N N' al -> b ∈ al /\ (N' <> N -> N' < snd b).
Proof.
  unfold clear_to. destruct (Z.eqb_spec N' N) as [->|]; [done|].
  rewrite list_elem_of_filter. tauto.
Qed.

Lemma clear_to_Forall (P : Z * Z -> Prop) N N' al : Forall P al -> Forall P (clear_to N N' al).
Proof. rewrite !Forall_forall. intros HP b [Hb _]%clear_to_elem. by apply HP. Qed.

Lemma advance_to_ge l lo' N : chain lo' l -> N <= advance_to l N.
Proof.
  revert lo' N. induction l as [|[a n] l IH]; intros lo' N; simpl; [lia|]. intros (?&?&Hc).
  specialize (fun N => IH _ N Hc). destruct (Z.ltb_spec a N), (Z.ltb_spec N a); try lia; [done|].
  specialize (IH (a + n)). lia.
Qed.

Section advancing.
Context (stream : Z -> Z) (lo hi : Z) (Hwin : hi - lo < 2147483648).
Notation conc := (conc stream).

Lemma advance_conc l0 l lo' N0 N avail al :
  within lo hi l -> lo <= N <= hi -> lo <= N0 -> Forall (held hi l0 N0) al -> chain lo' l ->
  0 <= avail -> avail + total l < 4294967296 ->
  advance (conc l) (sq N) avail (conc_blocks al) =
    Some (sq (advance_to l N), avail + (advance_to l N - N),
          conc_blocks (clear_to N (advance_to l N) al)).
Proof using Hwin.
  intros Hl. revert lo' N avail al. induction Hl as [|[a n] l (?&?&?) Hl IH];
    intros lo' N avail al HN HN0 Hal Hc Hav Htot.
  { simpl. unfold clear_to. rewrite Z.eqb_refl, Z.sub_diag, Z.add_0_r. done. }
  rewrite conc_cons. cbn [advance advance_to total] in *. destruct Hc as (?&_&Hc).
  pose proof (within_total _ _ _ Hl). rewrite length_bytes by lia. sq_simp.
  destruct (Z.ltb_spec a N); [by eapply IH; [..|lia]|].
  destruct (Z.ltb_spec N a).
  { unfold clear_to. rewrite Z.eqb_refl, Z.sub_diag, Z.add_0_r. done. }
  assert (a = N) as -> by lia.
  rewrite (ClearSackList_conc lo hi Hwin _ _ l0 N0) by (done || lia).
  assert (filter (fun b => N + n < snd b) al = clear_to N (N + n) al) as ->
    by (unfold clear_to; by ztest).
  wsimp. rewrite (IH (N + n)); [|lia|done|by apply clear_to_Forall|done|lia|lia].
  pose proof (advance_to_ge l _ (N + n) Hc).
  rewrite clear_to_twice by lia. do 3 f_equal. lia.
Qed.
End advancing.
