(* ===== verification/RxOps.v ===== *)
(** * The receive buffer: what each operation does to the stream

    The relation [rx_ok] between a state of [TcpRxBuffer] and the bytes of the stream it holds, and
    that [Add], [Extract] and [SetFinSequence] keep it. *)

From S2P Require Export RxSpec.
Import TcpRxBuffer.

Definition WINDOW : Z := 1073741824.   (* 2^30 *)
Definition OLD : Z := 536870912.       (* 2^29 *)

(** ** More on intervals *)
Lemma within_sublist lo hi l k : sublist l k -> within lo hi k -> within lo hi l.
Proof. intros Hs. by apply Forall_sublist'. Qed.

Lemma covered_sublist l k x : sublist l k -> covered l x -> covered k x.
Proof.
  intros Hs. unfold covered. rewrite !Exists_exists. intros (i&Hi&?). exists i. split; [|done].
  by eapply elem_of_sublist.
Qed.

Lemma covered_elem l a n x : (a, n) ∈ l -> a <= x < a + n -> covered l x.
Proof. intros. apply Exists_exists. by exists (a, n). Qed.

Lemma trim_over_bounds l lo hi h t r h' t' :
  within lo hi l -> lo <= h <= hi -> lo <= t <= hi -> trim_over l h t = (r, h', t') ->
  sublist r l /\ lo <= h' <= hi /\ lo <= t' <= hi.
Proof.
  intros Hl. revert h t r h' t'. induction Hl as [|[a n] l (?&?&?) Hl IH];
    intros h t r h' t' Hh Ht; cbn [trim_over]; [by intros [= <- <- <-]|].
  destruct (a <=? t); [|by intros [= <- <- <-]].
  destruct (h <? a + n).
  - destruct (_ && _).
    + intros E. destruct (IH _ _ _ _ _ Hh Ht E) as (?&?&?). split; [by apply sublist_cons|done].
    + destruct trim_over as [[r1 h1] t1] eqn:E. intros [= <- <- <-].
      eapply IH in E as (?&?&?); [|destruct (a <=? h); lia|destruct (t <=? a + n); lia]. split; [by apply sublist_skip|done].
  - destruct trim_over as [[r1 h1] t1] eqn:E. intros [= <- <- <-].
    eapply IH in E as (?&?&?); [|done..]. split; [by apply sublist_skip|done].
Qed.

Lemma trim_over_head l lo h t r h' t' :
  chain lo l -> h < lo -> trim_over l h t = (r, h', t') -> h' = h.
Proof.
  revert lo t r h' t'. induction l as [|[a n] l IH]; intros lo t r h' t'; simpl.
  { by intros _ _ [= <- <- <-]. }
  intros (?&?&Hc) Hlo. destruct (a <=? t); [|by intros [= <- <- <-]].
  destruct (Z.ltb_spec h (a + n)); [|lia]. ztest.
  destruct (true && _); [by apply (IH _ _ _ _ _ Hc); lia|].
  destruct trim_over as [[r1 h1] t1] eqn:E. intros [= <- <- <-].
  by apply (IH _ _ _ _ _ Hc) in E; [|lia].
Qed.

(** The first byte stored is new. *)
Lemma trim_over_new l lo h t r h' t' :
  chain lo l -> trim_over l h t = (r, h', t') -> h' < t' -> ~ covered l h'.
Proof.
  revert lo h t r h' t'. induction l as [|[a n] l IH]; intros lo h t r h' t'; simpl.
  { intros _ _ _. rewrite covered_nil. tauto. }
  intros (?&?&Hc). rewrite covered_cons.
  destruct (Z.leb_spec a t); [|intros [= <- <- <-] ? [?|Hx]; [lia|]].
  2:{ apply (chain_covered _ _ _ Hc) in Hx. lia. }
  destruct (Z.ltb_spec h (a + n)).
  - destruct (Z.ltb_spec h a), (Z.ltb_spec (a + n) t); cbn [andb].
    { intros E Hlt. pose proof (IH _ _ _ _ _ _ Hc E Hlt).
      apply (trim_over_head _ _ _ _ _ _ _ Hc) in E; [|lia]. intros [?|?]; [lia|done]. }
    all: destruct trim_over as [[r1 h1] t1] eqn:E; intros [= <- <- <-] Hlt;
      pose proof (IH _ _ _ _ _ _ Hc E Hlt);
      destruct (trim_over_spec _ _ _ _ _ _ _ Hc E) as (?&?&_&_);
      repeat match goal with H : context [?a <=? ?b] |- _ => destruct (Z.leb_spec a b) end;
      intros [?|?]; try done; lia.
  - destruct trim_over as [[r1 h1] t1] eqn:E; intros [= <- <- <-] Hlt.
    pose proof (IH _ _ _ _ _ _ Hc E Hlt).
    destruct (trim_over_spec _ _ _ _ _ _ _ Hc E) as (?&?&_&_).
    intros [?|?]; [lia|done].
Qed.

Lemma within_total_le lo hi l : chain lo l -> within lo hi l -> lo <= hi -> total l <= hi - lo.
Proof.
  intros Hc Hw. revert lo Hc Hw. induction l as [|[a n] l IH]; intros lo Hc Hw Hlh; simpl; [lia|].
  destruct Hc as (?&?&Hc). apply Forall_cons in Hw as [(?&?&?) Hw].
  specialize (IH (a + n) Hc). enough (total l <= hi - (a + n)) by lia. apply IH; [|lia].
  clear IH. apply Forall_forall. intros [a' n'] Hin.
  pose proof (chain_elem _ _ _ _ Hc Hin). rewrite Forall_forall in Hw.
  specialize (Hw _ Hin). simpl in Hw. lia.
Qed.

Lemma length_clear_to N N' al : (length (clear_to N N' al) <= length al)%nat.
Proof. unfold clear_to. case_match; [done|]. apply length_filter. Qed.

Lemma held_mono hi hi' l l' N b :
  hi <= hi' -> (forall x, N < x -> covered l x -> covered l' x) -> held hi l N b -> held hi' l' N b.
Proof.
  intros ? Hl (?&?&Hb). split_and!; [lia..|]. intros x Hx. apply Hl; [lia|by apply Hb].
Qed.

Lemma insert_at_elem a n l i : i ∈ insert_at a n l -> i = (a, n) \/ i ∈ l.
Proof.
  induction l as [|[a' n'] l IH]; simpl; [by intros ->%list_elem_of_singleton; left|].
  destruct (a <? a').
  - intros [->|?]%elem_of_cons; [by left|by right].
  - intros [->|Hi]%elem_of_cons; [right; left|]. destruct (IH Hi); [by left|right; by right].
Qed.

Lemma insert_at_front lo a n l : chain lo l -> a < lo -> insert_at a n l = (a, n) :: l.
Proof. destruct l as [|[a' n'] l]; [done|]. intros (?&?&?) ?. cbn. by ztest. Qed.

(** What is left when [e] bytes are taken from the front. *)
Fixpoint take_out (l : list (Z * Z)) (e : Z) : list (Z * Z) :=
  match l with
  | [] => []
  | (a, n) :: l' =>
      if e =? 0 then (a, n) :: l' else if n <=? e then take_out l' (e - n) else (a + e, n - e) :: l'
  end.

Lemma take_out_spec l R e hi :
  chain R l -> within R hi l -> (forall x, R <= x < R + e -> covered l x) -> 0 <= e ->
  chain (R + e) (take_out l e) /\ within (R + e) hi (take_out l e) /\
  total (take_out l e) = total l - e /\
  forall x, covered (take_out l e) x <-> covered l x /\ R + e <= x.
Proof.
  revert R e. induction l as [|[a n] l IH]; intros R e Hc Hw Hcov He.
  { assert (e = 0) as -> by (destruct (decide (e = 0)); [done|];
      destruct (proj1 (covered_nil R)); apply Hcov; lia).
    cbn. split_and!; [done|by constructor|done|]. intros x. rewrite covered_nil. tauto. }
  cbn [take_out total]. destruct (Z.eqb_spec e 0) as [->|Hne].
  { rewrite Z.add_0_r, Z.sub_0_r. split_and!; [done..|]. intros x.
    split; [|tauto]. intros Hx. split; [done|]. by eapply chain_covered. }
  destruct Hc as (HRa&Hn&Hc). apply Forall_cons in Hw as [(_&_&?) Hw].
  assert (a = R) as ->.
  { pose proof (Hcov R ltac:(lia)) as HR. rewrite covered_cons in HR. destruct HR as [?|HR]; [lia|].
    apply (chain_covered _ _ _ Hc) in HR. lia. }
  assert (within (R + n) hi l) as Hw'.
  { apply Forall_forall. intros [a' n'] Hin. pose proof (chain_elem _ _ _ _ Hc Hin).
    unfold within in Hw. rewrite Forall_forall in Hw. specialize (Hw _ Hin). simpl in Hw. lia. }
  destruct (Z.leb_spec n e).
  - destruct (IH (R + n) (e - n) Hc Hw') as (H1&H2&H3&H4); [|lia|].
    { intros x Hx. pose proof (Hcov x ltac:(lia)) as Hcx. rewrite covered_cons in Hcx.
      destruct Hcx; [lia|done]. }
    replace (R + n + (e - n)) with (R + e) in * by lia. split_and!; [done|done|lia|].
    intros x. rewrite H4, covered_cons. split; [tauto|]. intros [[?|?] ?]; [lia|tauto].
  - cbn [chain total]. replace (R + e + (n - e)) with (R + n) by lia.
    split_and!; [lia|lia|done| |lia|].
    + constructor; [split_and!; lia|]. eapply Forall_impl; [done|]. intros [a' n']. cbn. lia.
    + intros x. rewrite !covered_cons. split.
      * intros [?|Hx]; [split; [left|]; lia|]. split; [by right|].
        apply (chain_covered _ _ _ Hc) in Hx. lia.
      * intros [[?|?] ?]; [left; lia|by right].
Qed.

(** ** The buffer against the stream *)

(** The buffer holds the bytes of [stream] at the positions that [l] covers: the reader has taken
    those before [R], the next byte missing is at [N]; [fin] is the position of the FIN, when it
    has been received. *)
Record rx_ok (stream : Z -> Z) (s : RxBuffer) (R N : Z) (fin : option Z) (l : list (Z * Z)) : Prop := {
  ok_chain : chain R l;
  ok_within : within R (R + WINDOW) l;
  ok_data : m_data s = conc stream l;
  ok_N : R <= N;
  ok_inorder : forall x, R <= x < N -> covered l x;
  ok_missing : ~ covered l N;
  ok_next : m_nextRxSeq s = sq (if decide (fin = Some N) then N + 1 else N);
  ok_avail : m_availBytes s = N - R;
  ok_size : m_size s = total l;
  ok_max : 0 <= m_maxBuffer s < OLD;
  ok_gotFin : m_gotFin s = bool_decide (is_Some fin);
  ok_fin : forall F, fin = Some F ->
    m_finSeq s = sq F /\ N <= F <= R + WINDOW /\ forall x, covered l x -> x < F;
  ok_sack : exists al, m_sackList s = conc_blocks al /\ (length al <= 4)%nat /\
    Forall (held (R + WINDOW) l N) al;
}.

(** The positions of the packet of [n] bytes at [h] that the buffer accepts. *)
Definition accepted (s : RxBuffer) (l : list (Z * Z)) (N h n x : Z) : Prop :=
  h <= x < h + n /\ N <= x /\
  match l with [] => True | (a, _) :: _ => x < a + m_maxBuffer s end.

Section ok.
Context (stream : Z -> Z).
Notation bytes := (bytes stream).
Notation conc := (conc stream).
Notation rx_ok := (rx_ok stream).

Lemma ok_N_le s R N fin l : rx_ok s R N fin l -> N <= R + WINDOW.
Proof using Type.
  intros H. destruct (decide (R < N)) as [Hlt|]; [|unfold WINDOW; pose proof (ok_N _ _ _ _ _ _ H); lia].
  pose proof (ok_inorder _ _ _ _ _ _ H (N - 1) ltac:(lia)) as Hc.
  apply Exists_exists in Hc as ([a n]&Hin&?). pose proof (ok_within _ _ _ _ _ _ H) as Hw.
  unfold within in Hw; rewrite Forall_forall in Hw. specialize (Hw _ Hin). simpl in Hw. lia.
Qed.

Lemma trim_ok s R N fin l h n :
  rx_ok s R N fin l -> R - OLD <= h -> 0 <= n -> h + n <= R + WINDOW ->
  (forall F, fin = Some F -> h + n <= F) ->
  exists hd tl, trim (sq h) (bytes h n) s = (sq hd, sq tl) /\
    R - OLD <= hd <= R + WINDOW + 1 /\ R - OLD <= tl <= R + WINDOW + 1 /\
    (forall x, hd <= x < tl <-> accepted s l N h n x) /\
    (hd < tl -> h <= hd /\ N <= hd /\ tl <= h + n /\ fin <> Some N).
Proof using Type.
  intros Hok Hh Hn Hhn HF. pose proof (ok_N_le _ _ _ _ _ Hok). destruct Hok.
  unfold trim, accepted. rewrite ok_next0, ok_data0, length_bytes by done.
  set (M := if decide (fin = Some N) then N + 1 else N).
  assert (M = N /\ fin <> Some N \/ M = N + 1 /\ h + n <= N) as HM.
  { unfold M. destruct (decide (fin = Some N)) as [E|]; [right|by left]. split; [done|by apply HF]. }
  clearbody M. unfold OLD, WINDOW in *. sq_simp.
  replace (if h <? M then sq M else sq h) with (sq (if h <? M then M else h)) by (by destruct (h <? M)).
  set (hd := if h <? M then M else h).
  assert (hd = Z.max h M) as Hhd by (unfold hd; destruct (Z.ltb_spec h M); lia). clearbody hd.
  destruct l as [|[a k] l].
  { exists hd, (h + n). destruct HM as [[-> ?]|[-> ?]]; split_and!; try (done || lia).
    all: intros; split_and!; (done || lia). }
  rewrite conc_cons. apply Forall_cons in ok_within0 as [(?&?&?) _]. sq_simp.
  replace (if a + m_maxBuffer s <? h + n then sq (a + m_maxBuffer s) else sq (h + n))
    with (sq (if a + m_maxBuffer s <? h + n then a + m_maxBuffer s else h + n)) by (by destruct (_ <? _)).
  set (tl := if a + m_maxBuffer s <? h + n then a + m_maxBuffer s else h + n).
  assert (tl = Z.min (a + m_maxBuffer s) (h + n)) as Htl
    by (unfold tl; destruct (Z.ltb_spec (a + m_maxBuffer s) (h + n)); lia). clearbody tl.
  sq_simp. exists (if tl <? hd then tl else hd), tl.
  split; [by destruct (_ <? _)|].
  destruct HM as [[-> ?]|[-> ?]], (Z.ltb_spec tl hd); split_and!; try (done || lia).
  all: intros; split_and!; (done || lia).
Qed.

(** Bytes new to the buffer are stored at [h, t), then [m_nextRxSeq] moves to [N']. *)
Lemma rx_store_ok s R N fin l r h t :
  rx_ok s R N fin l -> fin <> Some N ->
  chain R r -> sublist r l -> N <= h -> h < t -> t <= R + WINDOW ->
  (forall x, h <= x < t -> ~ covered r x) ->
  (forall x, covered l x -> covered r x \/ h <= x < t) ->
  (forall F, fin = Some F -> t <= F) ->
  let L := insert_at h (t - h) r in
  let s1 := set_data (total r) (m_availBytes s) (conc L) s in
  let N' := advance_to L N in
  N <= N' <= R + WINDOW /\
  exists s2 sack,
    (if seq_gt (sq h) (m_nextRxSeq s1) then UpdateSackList (sq h) (sq t) s1 else Some s1) =
      Some (set_sack (conc_blocks s2) s1) /\
    advance (conc L) (m_nextRxSeq s1) (m_availBytes s1) (conc_blocks s2) =
      Some (sq N', N' - R, conc_blocks sack) /\
    (N < h -> exists b bl, s2 = b :: bl /\ fst b <= h /\ t <= snd b /\ sack = s2) /\
    forall s', m_data s' = conc L -> m_maxBuffer s' = m_maxBuffer s -> m_gotFin s' = m_gotFin s ->
      m_finSeq s' = m_finSeq s -> m_size s' = total L -> m_availBytes s' = N' - R ->
      m_sackList s' = conc_blocks sack ->
      m_nextRxSeq s' = sq (if decide (fin = Some N') then N' + 1 else N') ->
      rx_ok s' R N' fin L.
Proof using Type.
  intros Hok HfinN Hr Hsub HNh Hht HtW Hnew Hcov HtF L s1 N'.
  pose proof (ok_N_le _ _ _ _ _ Hok) as HNW. destruct Hok.
  assert (within R (R + WINDOW) r) as Hwr by (by eapply within_sublist).
  assert (chain R L) as HcL.
  { apply insert_at_chain; [done|lia|lia|]. intros x Hx. apply Hnew. lia. }
  assert (forall x, covered L x <-> h <= x < t \/ covered r x) as HcovL.
  { intros x. unfold L. rewrite insert_at_covered. by replace (h + (t - h)) with t by lia. }
  assert (within R (R + WINDOW) L) as HwL.
  { apply Forall_forall. intros [a n] Hin. pose proof (chain_elem _ _ _ _ HcL Hin).
    split_and!; [lia..|].
    assert (covered L (a + n - 1)) as Hx by (eapply covered_elem; [done|lia]).
    apply HcovL in Hx as [?|Hx]; [lia|].
    apply Exists_exists in Hx as ([a' n']&Hin'&?). unfold within in Hwr.
    rewrite Forall_forall in Hwr. specialize (Hwr _ Hin'). simpl in Hwr. lia. }
  assert (forall x, covered l x -> covered L x) as Hmono
    by (intros x Hx; apply HcovL; destruct (Hcov x Hx); tauto).
  destruct (advance_to_spec L R N HcL) as (HN'&Hinord&Hmiss).
  { intros a n Hin HaN. apply insert_at_elem in Hin as [[= -> ->]|Hin]; [lia|].
    destruct (decide (a + n <= N)); [done|exfalso]. apply ok_missing0.
    eapply covered_sublist; [done|]. eapply covered_elem; [done|lia]. }
  fold N' in HN', Hinord, Hmiss.
  destruct ok_sack0 as (al&Hsack&Hlen&Hal).
  assert (Forall (held (R + WINDOW) L N) al) as HalL
    by (eapply Forall_impl; [done|]; intros b; apply held_mono; [lia|auto]).
  assert (0 <= total L /\ total L <= WINDOW) as [HtL HtLW].
  { split; [by eapply chain_total|].
    pose proof (within_total_le _ _ _ HcL HwL). unfold WINDOW in *. lia. }
  assert (exists s2,
    (if seq_gt (sq h) (m_nextRxSeq s1) then UpdateSackList (sq h) (sq t) s1 else Some s1) =
      Some (set_sack (conc_blocks s2) s1) /\ (length s2 <= 4)%nat /\
      Forall (held (R + WINDOW) L N) s2 /\
      (N < h -> exists b bl, s2 = b :: bl /\ fst b <= h /\ t <= snd b)) as (s2&He&Hlen2&Hs2&Hfirst).
  { change (m_nextRxSeq s1) with (m_nextRxSeq s). rewrite ok_next0, decide_False by done.
    unfold WINDOW in *. sq_simp. destruct (Z.ltb_spec N h).
    - destruct (UpdateSackList_conc R (R + 1073741824) ltac:(lia) s1 L N al h t)
        as (b&bl&He&?&?&?&?); [done| |done|done|done| |].
      + cbn. rewrite ok_next0. by rewrite decide_False.
      + split_and!; [cbn; lia..|]. cbn. intros x Hx. apply HcovL. by left.
      + exists (b :: bl). split_and!; [done|done|done|]. intros _. by exists b, bl.
    - exists al. split_and!; [|done|done|lia]. f_equal. unfold s1, set_sack, set_data. cbn.
      by rewrite <- Hsack. }
  split.
  { split; [done|]. destruct (decide (N < N')); [|lia].
    pose proof (Hinord (N' - 1) ltac:(lia)) as Hx. apply Exists_exists in Hx as ([a n]&Hin&?).
    unfold within in HwL. rewrite Forall_forall in HwL. specialize (HwL _ Hin). simpl in HwL. lia. }
  exists s2, (clear_to N N' s2). split_and!; [done| | |].
  - change (m_nextRxSeq s1) with (m_nextRxSeq s). change (m_availBytes s1) with (m_availBytes s).
    rewrite ok_next0, decide_False by done. unfold WINDOW in *.
    erewrite (advance_conc stream R (R + 1073741824)) with (N0 := N) (l0 := L);
      [|lia|done|lia|lia|done|done|lia|lia].
    fold N'. do 3 f_equal. lia.
  - intros Hlt. destruct (Hfirst Hlt) as (b&bl&->&?&?). exists b, bl. split_and!; [done..|].
    unfold clear_to. replace N' with N; [by rewrite Z.eqb_refl|].
    destruct (decide (N = N')) as [|Hne]; [done|exfalso].
    destruct (proj1 (HcovL N) (Hinord N ltac:(lia))) as [?|Hx]; [lia|].
    apply ok_missing0. by eapply covered_sublist.
  - intros s' Hd Hmb Hgf Hfs Hsz Hav Hsk Hnx.
    assert (forall F, fin = Some F -> N' <= F) as HN'F.
    { intros F HF. destruct (ok_fin0 F HF) as (_&?&Hlt). pose proof (HtF F HF).
      destruct (decide (N < N')); [|lia].
      destruct (proj1 (HcovL (N' - 1)) (Hinord (N' - 1) ltac:(lia))) as [?|Hx]; [lia|].
      pose proof (Hlt (N' - 1) (covered_sublist _ _ _ Hsub Hx)). lia. }
    constructor; try (done || lia || congruence).
    + intros x Hx. destruct (decide (x < N)); [apply Hmono, ok_inorder0; lia|apply Hinord; lia].
    + intros F HF. rewrite Hfs. destruct (ok_fin0 F HF) as (?&?&Hlt). pose proof (HtF F HF).
      pose proof (HN'F F HF). split_and!; [done|lia..|].
      intros x [?|Hx]%HcovL; [lia|]. by apply Hlt, (covered_sublist _ _ _ Hsub).
    + exists (clear_to N N' s2). split_and!; [done| |].
      * pose proof (length_clear_to N N' s2). lia.
      * apply Forall_forall. intros b [Hb Hgt]%clear_to_elem. rewrite Forall_forall in Hs2.
        destruct (Hs2 b Hb) as (?&?&Hcb). split_and!; try lia; [|done].
        destruct (decide (N' = N)) as [->|Hne]; [lia|]. specialize (Hgt Hne).
        destruct (decide (N' < fst b)); [done|exfalso]. apply Hmiss, Hcb. lia.
Qed.

(** [Add]: the buffer then covers what it covered and the accepted positions of the packet, and
    the first SACK block covers what an out-of-order packet brought. *)
Lemma Add_spec s R N fin l h n :
  rx_ok s R N fin l -> R - OLD <= h -> 0 <= n -> h + n <= R + WINDOW ->
  (forall F, fin = Some F -> h + n <= F) ->
  exists ret s' N' l',
    Add (bytes h n) (sq h) s = Some (ret, s') /\ rx_ok s' R N' fin l' /\ N <= N' /\
    (forall x, covered l' x <-> covered l x \/ accepted s l N h n x) /\
    (ret = true <-> exists x, accepted s l N h n x /\ ~ covered l x) /\
    (ret = true -> N < h ->
       exists a b bl, m_sackList s' = conc_blocks ((a, b) :: bl) /\
         forall x, accepted s l N h n x -> ~ covered l x -> a <= x < b).
Proof using Type.
  intros Hok Hh Hn HhW HF. pose proof (ok_N_le _ _ _ _ _ Hok) as HNW. pose proof (ok_N _ _ _ _ _ _ Hok) as HRN.
  destruct (trim_ok _ _ _ _ _ _ _ Hok Hh Hn HhW HF) as (hd&tl&Etrim&Hhd&Htl&Hacc&Hlt).
  assert (within (R - OLD) (R + WINDOW + 1) l) as Hw.
  { eapply Forall_impl; [by apply (ok_within _ _ _ _ _ _ Hok)|]. unfold OLD.
    intros [a k]; cbn; lia. }
  assert (total l <= WINDOW) as Htot.
  { pose proof (within_total_le _ _ _ (ok_chain _ _ _ _ _ _ Hok) (ok_within _ _ _ _ _ _ Hok)).
    unfold WINDOW in *. lia. }
  pose proof (chain_total _ _ (ok_chain _ _ _ _ _ _ Hok)) as Htot0.
  unfold Add. rewrite Etrim, (ok_data _ _ _ _ _ _ Hok), (ok_size _ _ _ _ _ _ Hok).
  destruct (trim_over l hd tl) as [[r h'] t'] eqn:Eover.
  unfold OLD, WINDOW in *.
  erewrite (overlap_conc stream (R - 536870912) (R + 1073741824 + 1)); [|lia|done|lia..].
  rewrite Eover.
  destruct (trim_over_bounds _ _ _ _ _ _ _ _ Hw Hhd Htl Eover) as (Hsub&Hh'&Ht').
  destruct (trim_over_spec _ _ _ _ _ _ _ (ok_chain _ _ _ _ _ _ Hok) Eover) as (?&?&Hyes&Hno).
  sq_simp. destruct (Z.leb_spec t' h') as [Hle|Hgt].
  { destruct (Hno Hle) as [-> Hcov]. eexists false, _, N, l. split_and!; [done| |done| | |done].
    - rewrite Z.sub_diag, Z.sub_0_r. rewrite <- (ok_size _ _ _ _ _ _ Hok).
      rewrite <- (ok_data _ _ _ _ _ _ Hok). by destruct s.
    - intros x. specialize (Hacc x). specialize (Hcov x). tauto.
    - split; [done|]. intros (x&Hx&Hnx). destruct Hnx. by apply Hcov, Hacc. }
  destruct (Hyes Hgt) as (Hr&Hnew&Heq). destruct (Hlt ltac:(lia)) as (?&?&?&HfinN).
  rewrite fragment_bytes by (wsimp; lia). wsimp.
  replace (h + (h' - h)) with h' by lia. rewrite length_bytes by lia. rewrite Z.eqb_refl.
  destruct (data_insert_conc stream (R - 536870912) (R + 1073741824 + 1) ltac:(lia) r h' (t' - h'))
    as [Hfind Hins]; [by eapply within_sublist|lia|lia|apply Hnew; lia|].
  rewrite Hfind, Hins. cbn [negb].
  replace (total l - (total l - total r)) with (total r) by lia.
  destruct (rx_store_ok s R N fin l r h' t') as (HN'&s2&sack&Hup&Hadv&Hfirst&Hstored);
    [done|done|done|done|lia|lia|unfold WINDOW; lia|done| | |].
  { intros x Hx. apply Heq. by left. }
  { intros F E. specialize (HF F E). lia. }
  cbv zeta in *. rewrite Hup.
  set (L := insert_at h' (t' - h') r) in *. set (N' := advance_to L N) in *.
  set (s1 := set_data (total r) (m_availBytes s) (conc L) s) in *.
  change (m_data (set_sack (conc_blocks s2) s1)) with (conc L).
  change (m_nextRxSeq (set_sack (conc_blocks s2) s1)) with (m_nextRxSeq s1).
  change (m_availBytes (set_sack (conc_blocks s2) s1)) with (m_availBytes s1).
  change (m_sackList (set_sack (conc_blocks s2) s1)) with (conc_blocks s2).
  rewrite Hadv.
  eexists true, _, N', L. split; [done|].
  assert (forall x, accepted s l N h n x <-> hd <= x < tl) as Hacc' by (intros x; by rewrite Hacc).
  assert (forall x, covered L x <-> covered l x \/ accepted s l N h n x) as HcovL.
  { intros x. unfold L. rewrite insert_at_covered, Hacc', <- Heq.
    replace (h' + (t' - h')) with t' by lia. tauto. }
  assert (chain R L) as HcL.
  { apply insert_at_chain; [done|lia|lia|]. intros x Hx. apply Hnew. lia. }
  split_and!; [|by eapply advance_to_ge|done| |].
  - apply Hstored; try done.
    + cbn. unfold L. rewrite insert_at_total. pose proof (chain_total _ _ Hr).
      pose proof (within_total_le _ _ _ Hr (within_sublist _ _ _ _ Hsub (ok_within _ _ _ _ _ _ Hok))).
      unfold WINDOW in *. wsimp. lia.
    + cbn. rewrite (ok_gotFin _ _ _ _ _ _ Hok).
      destruct fin as [F|]; cbn; [|by rewrite decide_False].
      destruct (ok_fin _ _ _ _ _ _ Hok F eq_refl) as (->&?&_).
      unfold WINDOW in *. sq_simp. destruct (Z.eqb_spec N' F) as [->|]; [by rewrite decide_True|].
      rewrite decide_False by congruence. done.
  - split; [intros _|done]. exists h'. split; [apply Hacc'; lia|].
    by eapply trim_over_new, Hgt; [apply (ok_chain _ _ _ _ _ _ Hok)|].
  - intros _ HNh. destruct (Hfirst ltac:(lia)) as ([a b]&bl&->&?&?&->). exists a, b, bl.
    split; [done|]. intros x Hx Hnx. cbn in *.
    assert (covered r x \/ h' <= x < t') as [Hrx|?] by (apply Heq; right; by apply Hacc').
    + destruct Hnx. by eapply covered_sublist.
    + lia.
Qed.

(** [Extract] *)
Lemma extract_loop_ok l R e size avail nx :
  chain R l -> within R (R + WINDOW) l -> (forall x, R <= x < R + e -> covered l x) ->
  0 <= e -> e <= avail < 4294967296 -> total l <= size < 4294967296 ->
  R + e <= nx <= R + WINDOW + 1 ->
  extract_loop (conc l) e size avail (sq nx) =
    Some (bytes R e, conc (take_out l e), size - e, avail - e).
Proof using Type.
  revert R e size avail. induction l as [|[a n] l IH]; intros R e size avail Hc Hw Hcov He Hav Hsz Hnx.
  { assert (e = 0) as -> by (destruct (decide (e = 0)); [done|];
      destruct (proj1 (covered_nil R)); apply Hcov; lia).
    cbn. by rewrite !Z.sub_0_r. }
  rewrite conc_cons. cbn [extract_loop take_out]. destruct (Z.eqb_spec e 0) as [->|Hne].
  { by rewrite !Z.sub_0_r. }
  destruct Hc as (HRa&Hn&Hc). apply Forall_cons in Hw as [(_&_&?) Hw].
  assert (a = R) as ->.
  { pose proof (Hcov R ltac:(lia)) as HR. rewrite covered_cons in HR. destruct HR as [?|HR]; [lia|].
    apply (chain_covered _ _ _ Hc) in HR. lia. }
  assert (e <= WINDOW \/ WINDOW < e) as [HeW|HeW] by lia.
  2:{ pose proof (Hcov (R + WINDOW) ltac:(unfold WINDOW in *; lia)) as HR.
      rewrite covered_cons in HR. destruct HR as [?|HR]; [lia|].
      apply Exists_exists in HR as ([a' n']&Hin&?). unfold within in Hw.
      rewrite Forall_forall in Hw. specialize (Hw _ Hin). simpl in Hw. lia. }
  pose proof (within_total _ _ _ Hw). cbn [total] in Hsz. unfold WINDOW in *.
  sq_simp. ztest. rewrite length_bytes by lia. destruct (Z.leb_spec n e).
  - wsimp. rewrite (IH (R + n)).
    + rewrite <- bytes_app by lia. replace (n + (e - n)) with e by lia.
      replace (size - n - (e - n)) with (size - e) by lia.
      by replace (avail - n - (e - n)) with (avail - e) by lia.
    + done.
    + apply Forall_forall. intros [a' n'] Hin. pose proof (chain_elem _ _ _ _ Hc Hin).
      rewrite Forall_forall in Hw. specialize (Hw _ Hin). simpl in Hw. lia.
    + intros x Hx. pose proof (Hcov x ltac:(lia)) as Hcx. rewrite covered_cons in Hcx.
      destruct Hcx; [lia|done].
    + lia.
    + lia.
    + lia.
    + lia.
  - rewrite !fragment_bytes by lia. wsimp. do 3 f_equal.
    cbn [data_insert]. sq_simp. ztest. cbn [data_erase]. rewrite Z.eqb_refl.
    destruct (data_insert_conc stream R (R + 1073741824) ltac:(lia) l (R + e) (n - e))
      as [_ ->]; [done|lia|lia| |].
    + intros Hx. apply (chain_covered _ _ _ Hc) in Hx. lia.
    + by rewrite Z.add_0_r, (insert_at_front (R + n)) by (done || lia).
Qed.

Lemma Extract_spec s R N fin l m :
  rx_ok s R N fin l -> 0 <= m ->
  let e := Z.min m (N - R) in
  exists s' l',
    Extract m s = Some (if e =? 0 then None else Some (bytes R e), s') /\
    rx_ok s' (R + e) N fin l' /\
    (forall x, covered l' x <-> covered l x /\ R + e <= x).
Proof using Type.
  intros Hok Hm e. pose proof (ok_N_le _ _ _ _ _ Hok) as HNW. pose proof Hok as Hok'.
  destruct Hok'. unfold Extract. rewrite ok_avail0. fold e.
  assert (0 <= e <= N - R) as He by lia.
  destruct (Z.eqb_spec e 0) as [E|Hne].
  { exists s, l. rewrite E, Z.add_0_r. split_and!; [done|done|]. intros x. split; [|tauto].
    intros Hx. split; [done|]. by eapply chain_covered. }
  assert (forall x, R <= x < R + e -> covered l x) as Hcov by (intros; apply ok_inorder0; lia).
  destruct (take_out_spec l R e (R + WINDOW) ok_chain0 ok_within0 Hcov) as (H1&H2&H3&H4); [lia|].
  pose proof (within_total_le _ _ _ ok_chain0 ok_within0).
  pose proof (chain_total _ _ ok_chain0).
  rewrite ok_data0. destruct (Nat.eqb_spec (length (conc l)) 0) as [Hl|_].
  { unfold RxSpec.conc in Hl. rewrite length_fmap in Hl. destruct l; [|done].
    destruct (proj1 (covered_nil R)). apply Hcov. lia. }
  cbn [negb]. rewrite ok_next0, ok_size0. unfold WINDOW in *.
  rewrite extract_loop_ok with (R := R);
    [|done|done|done|lia|lia|lia|unfold WINDOW; destruct (decide _); lia].
  assert (length (bytes R e) <> 0)%nat by (pose proof (length_bytes stream R e); lia).
  rewrite (proj2 (Nat.eqb_neq _ _)) by done.
  eexists _, (take_out l e). split_and!; [done| |done].
  constructor; cbn [set_data m_data m_nextRxSeq m_finSeq m_gotFin m_size m_maxBuffer m_availBytes m_sackList];
    try (done || lia).
  - eapply Forall_impl; [done|]. intros [a n]. unfold WINDOW. cbn. lia.
  - intros x Hx. apply H4. split; [apply ok_inorder0|]; lia.
  - intros Hx. apply H4 in Hx as [Hx _]. done.
  - intros F HF. destruct (ok_fin0 F HF) as (?&?&Hlt). split_and!; [done|unfold WINDOW; lia..|].
    intros x Hx. apply H4 in Hx as [Hx _]. by apply Hlt.
  - destruct ok_sack0 as (al&?&?&Hal). exists al. split_and!; [done|done|].
    eapply Forall_impl; [done|]. intros b. apply held_mono; [unfold WINDOW; lia|].
    intros x HNx Hx. apply H4. split; [done|lia].
Qed.

(** [SetFinSequence], when no byte beyond the FIN is held *)
Lemma SetFinSequence_spec s R N fin l F :
  rx_ok s R N fin l -> N <= F <= R + WINDOW -> (forall x, covered l x -> x < F) ->
  (forall F', fin = Some F' -> F' = F) ->
  rx_ok (SetFinSequence (sq F) s) R N (Some F) l.
Proof using Type.
  intros Hok HF Hcov Hfin. destruct Hok. constructor; try done.
  - cbn. rewrite ok_next0. unfold WINDOW in *.
    destruct (decide (fin = Some N)) as [E|E]; sq_simp.
    + rewrite (Hfin N E). rewrite decide_True by done. ztest. done.
    + destruct (Z.eqb_spec N F) as [->|]; [by rewrite decide_True|].
      by rewrite decide_False by congruence.
  - intros F' [= <-]. done.
Qed.

(** [Finished]: all the bytes before the FIN have arrived. *)
Lemma Finished_spec s R N fin l :
  rx_ok s R N fin l -> Finished s = bool_decide (fin = Some N).
Proof using Type.
  intros Hok. pose proof (ok_N_le _ _ _ _ _ Hok) as HNW. pose proof (ok_N _ _ _ _ _ _ Hok).
  unfold Finished. rewrite (ok_gotFin _ _ _ _ _ _ Hok), (ok_next _ _ _ _ _ _ Hok).
  destruct fin as [F|]; [|done]. destruct (ok_fin _ _ _ _ _ _ Hok F eq_refl) as (->&?&_).
  cbn [bool_decide]. unfold WINDOW in *. destruct (decide (Some F = Some N)) as [[= ->]|Hne].
  - rewrite (bool_decide_true (Some N = Some N)) by done. sq_simp. ztest. done.
  - rewrite (bool_decide_false (Some F = Some N)) by done. sq_simp.
    assert (F <> N) by congruence. ztest. apply andb_false_r.
Qed.

Lemma start_ok mb R :
  0 <= mb < OLD ->
  rx_ok (SetNextRxSequence (sq R) (SetMaxBufferSize mb (create 0))) R R None [].
Proof using Type.
  intros. constructor; cbn; try (done || lia).
  - by constructor.
  - rewrite covered_nil. tauto.
  - exists []. split_and!; [done|cbn; lia|by constructor].
Qed.

End ok.
