(* ===== verification/RxBuffers.v ===== *)
(** * The receive buffer: the stream it delivers

    Runs of the receive buffer against a peer and a network that deliver the segments of a stream in
    any way, and what the reader and the selective acknowledgements then show. *)

From S2P Require Export RxOps.
Import TcpRxBuffer.

(** A segment the peer may send when the reader has taken [out]: not older than [2^29] bytes, not
    further than [2^30], and not beyond the end [E] of the stream. *)
Definition sent (R0 E : Z) (out : list Z) (h n : Z) : Prop :=
  R0 + len out - OLD <= h /\ 0 <= n /\ h + n <= R0 + len out + WINDOW /\ h + n <= E.

(** The states of a buffer of [mb] bytes that receives the stream from position [R0], with the
    bytes the reader has taken and the FIN received or not: segments of any size arrive in any
    order, repeated or overlapping. *)
Inductive rx_run (stream : Z -> Z) (mb R0 E : Z) : list Z -> option Z -> RxBuffer -> Prop :=
| run_start :
    rx_run stream mb R0 E [] None (SetNextRxSequence (sq R0) (SetMaxBufferSize mb (create 0)))
| run_segment out fin s h n ret s' :
    rx_run stream mb R0 E out fin s -> sent R0 E out h n ->
    Add (bytes stream h n) (sq h) s = Some (ret, s') -> rx_run stream mb R0 E out fin s'
| run_read out fin s m r s' :
    rx_run stream mb R0 E out fin s -> 0 <= m -> Extract m s = Some (r, s') ->
    rx_run stream mb R0 E (out ++ default [] r) fin s'
| run_fin out fin s :
    rx_run stream mb R0 E out fin s -> E <= R0 + len out + WINDOW ->
    rx_run stream mb R0 E out (Some E) (SetFinSequence (sq E) s).

Lemma UpdateSackList_max h t s s' : UpdateSackList h t s = Some s' -> m_maxBuffer s' = m_maxBuffer s.
Proof.
  unfold UpdateSackList. destruct (seq_gt _ _); [|done].
  destruct merge_blocks; [|done]. by intros [= <-].
Qed.

Lemma Add_max p seq s b s' : Add p seq s = Some (b, s') -> m_maxBuffer s' = m_maxBuffer s.
Proof.
  unfold Add. destruct trim as [hd tl]. destruct overlap as [[[kept h] t] sz].
  destruct (seq_ge h t); [by intros [= <- <-]|].
  destruct (_ =? _); [|done]. destruct (negb _); [|done].
  set (s0 := set_data _ _ _ s). change (m_maxBuffer s) with (m_maxBuffer s0). clearbody s0.
  destruct (if seq_gt _ _ then _ else _) as [s1|] eqn:E1; [|done].
  destruct advance as [[[? ?] ?]|]; [|done]. intros [= <- <-]. cbn.
  destruct (seq_gt _ _); [by apply UpdateSackList_max in E1|by injection E1 as <-].
Qed.

Lemma Extract_max m s r s' : Extract m s = Some (r, s') -> m_maxBuffer s' = m_maxBuffer s.
Proof.
  unfold Extract. destruct (_ =? _); [by intros [= <- <-]|]. destruct (negb _); [|done].
  destruct extract_loop as [[[[? ?] ?] ?]|]; [|done]. by intros [= <- <-].
Qed.

Lemma next_le_end stream E s R N fin l :
  rx_ok stream s R N fin l -> R <= E -> (forall x, covered l x -> x < E) -> N <= E.
Proof.
  intros Hok HR Hl. destruct (decide (R < N)); [|pose proof (ok_N _ _ _ _ _ _ Hok); lia].
  pose proof (Hl _ (ok_inorder _ _ _ _ _ _ Hok (N - 1) ltac:(lia))). lia.
Qed.

Section run.
Context (stream : Z -> Z) (mb R0 E : Z) (Hmb : 0 <= mb < OLD) (HE : R0 <= E).
Notation rx_run := (rx_run stream mb R0 E).

Lemma rx_run_ok out fin s :
  rx_run out fin s ->
  out = bytes stream R0 (len out) /\ m_maxBuffer s = mb /\ (forall F, fin = Some F -> F = E) /\
  R0 + len out <= E /\
  exists N l, rx_ok stream s (R0 + len out) N fin l /\ (forall x, covered l x -> x < E).
Proof using Hmb HE.
  induction 1 as [|out fin s h n ret s' _ (Ho&Hm&Hf&HoE&N&l&Hok&Hl) (?&?&?&?) Hadd
                  |out fin s m r s' _ (Ho&Hm&Hf&HoE&N&l&Hok&Hl) Hm0 Hext
                  |out fin s _ (Ho&Hm&Hf&HoE&N&l&Hok&Hl) HEW].
  - split_and!; [done|done|done|cbn; lia|]. exists R0, []. cbn. rewrite Z.add_0_r.
    split; [by apply start_ok|]. intros x. rewrite covered_nil. tauto.
  - destruct (Add_spec stream s (R0 + len out) N fin l h n Hok) as (ret'&s2&N'&l'&He&Hok'&_&Hcov&_);
      [done|done|done|by intros F ->%Hf|].
    rewrite Hadd in He. injection He as -> ->.
    split_and!; [done|by rewrite (Add_max _ _ _ _ _ Hadd)|done|done|].
    exists N', l'. split; [done|]. intros x [Hx|(?&_)]%Hcov; [by apply Hl|lia].
  - destruct (Extract_spec stream s (R0 + len out) N fin l m Hok Hm0) as (s2&l'&He&Hok'&Hcov).
    set (e := Z.min m (N - (R0 + len out))) in *. pose proof (ok_N _ _ _ _ _ _ Hok).
    pose proof (next_le_end _ _ _ _ _ _ _ Hok HoE Hl).
    pose proof (Extract_max _ _ _ _ Hext) as Hmax. rewrite Hext in He. injection He as -> ->.
    assert (default [] (if e =? 0 then None else Some (bytes stream (R0 + len out) e)) =
      bytes stream (R0 + len out) e) as -> by (by destruct (Z.eqb_spec e 0) as [->|]).
    assert (len (out ++ bytes stream (R0 + len out) e) = len out + e) as Hlen.
    { rewrite length_app. pose proof (length_bytes stream (R0 + len out) e). lia. }
    rewrite Hlen. split_and!; [|congruence|done|lia|].
    + rewrite bytes_app by lia. by rewrite <- Ho.
    + exists N, l'. replace (R0 + (len out + e)) with (R0 + len out + e) by lia. split; [done|].
      intros x [Hx _]%Hcov. by apply Hl.
  - split_and!; [done|done|by intros F [= ->]|done|]. exists N, l. split; [|done].
    apply (SetFinSequence_spec _ _ _ _ fin); [done| |done|done]. split; [|done].
    by eapply next_le_end.
Qed.
End run.

(** ** What the receive buffer promises *)

(** C4: Whatever segments of the stream arrive at the TCP receive buffer, in whatever order,
    repeated, overlapping, across the wrap-around of the sequence numbers, what the reader takes
    is the stream from its first byte on; no operation runs into a failed assertion; and when the
    buffer says it is finished, what was read and what is available are the whole stream. *)
Theorem stream_delivered (stream : Z -> Z) (mb R0 E : Z) (out : list Z) (fin : option Z) (s : RxBuffer) :
  0 <= mb < OLD -> R0 <= E -> rx_run stream mb R0 E out fin s ->
  out = bytes stream R0 (len out) /\
  (forall h n, sent R0 E out h n -> is_Some (Add (bytes stream h n) (sq h) s)) /\
  (forall m, 0 <= m -> is_Some (Extract m s)) /\
  (Finished s = true -> len out + Available s = E - R0).
Proof.
  intros Hmb HE Hrun. destruct (rx_run_ok _ _ _ _ Hmb HE _ _ _ Hrun) as (Ho&Hm&Hf&HoE&N&l&Hok&Hl).
  split_and!; [done| | |].
  - intros h n (?&?&?&?).
    destruct (Add_spec stream s _ N fin l h n Hok) as (?&?&?&?&->&_);
      [done|done|done|by intros F ->%Hf|by eexists].
  - intros m Hm0. destruct (Extract_spec stream s _ N fin l m Hok Hm0) as (?&?&->&_). by eexists.
  - rewrite (Finished_spec _ _ _ _ _ _ Hok). intros HN%bool_decide_eq_true. apply Hf in HN as ->.
    unfold Available. rewrite (ok_avail _ _ _ _ _ _ Hok). lia.
Qed.


(** The byte at position [p] of the stream is held. *)
Definition stored (stream : Z -> Z) (s : RxBuffer) (p : Z) : Prop :=
  exists q pkt, (sq q, pkt) ∈ m_data s /\ q <= p < q + len pkt /\
    pkt !! Z.to_nat (p - q) = Some (stream p).

Lemma covered_stored stream s R N fin l p :
  rx_ok stream s R N fin l -> covered l p -> stored stream s p.
Proof.
  intros Hok Hp. apply Exists_exists in Hp as ([a n]&Hin&Hp).
  exists a, (bytes stream a n). rewrite length_bytes by lia. split_and!; [|lia..|].
  - rewrite (ok_data _ _ _ _ _ _ Hok). unfold conc. apply list_elem_of_fmap. by exists (a, n).
  - unfold bytes. rewrite list_lookup_fmap, lookup_seqZ_lt by lia. cbn. f_equal. f_equal. lia.
Qed.

(** C11: The receiver never acknowledges selectively what it does not hold: there are at most four
    SACK blocks, each a range of positions after the next one expected of which every byte is in
    the buffer. *)
Theorem sack_blocks_stored (stream : Z -> Z) (mb R0 E : Z) (out : list Z) (fin : option Z)
    (s : RxBuffer) :
  0 <= mb < OLD -> R0 <= E -> rx_run stream mb R0 E out fin s ->
  GetSackListSize s <= 4 /\
  forall blk, blk ∈ GetSackList s ->
    exists x y, blk = (sq x, sq y) /\ R0 + len out + Available s < x < y /\
      forall p, x <= p < y -> stored stream s p.
Proof.
  intros Hmb HE Hrun.
  destruct (rx_run_ok _ _ _ _ Hmb HE _ _ _ Hrun) as (Ho&Hm&Hf&HoE&N&l&Hok&Hl).
  destruct (ok_sack _ _ _ _ _ _ Hok) as (al&Hsack&Hlen&Hal).
  unfold GetSackListSize, GetSackList, Available. rewrite (ok_avail _ _ _ _ _ _ Hok), Hsack.
  unfold conc_blocks. rewrite length_fmap. split; [lia|].
  intros blk Hb. apply list_elem_of_fmap in Hb as ([x y]&->&Hin).
  rewrite Forall_forall in Hal. destruct (Hal _ Hin) as (?&_&Hh). cbn in *.
  exists x, y. split_and!; [done|lia..|]. intros p Hp. eapply covered_stored; [done|by apply Hh].
Qed.


(** C1: An out-of-order segment that contains a stored one replaces it in the buffer, but the SACK
    list keeps the old block beside the new one, so the blocks reported overlap. *)
Theorem embedded_segment_overlapping_sack :
  let s0 := SetNextRxSequence (sq 0) (SetMaxBufferSize 1000 (create 0)) in
  exists s1 s2,
    Add (bytes (fun p => p) 20 10) (sq 20) s0 = Some (true, s1) /\
    Add (bytes (fun p => p) 10 30) (sq 10) s1 = Some (true, s2) /\
    length (m_data s2) = 1%nat /\ GetSackList s2 = [(10, 40); (20, 30)].
Proof.
  eexists _, _. split; [vm_compute; reflexivity|]. split; [vm_compute; reflexivity|].
  split; vm_compute; reflexivity.
Qed.

(** C1: The window limits a segment only when the buffer holds something: into an empty buffer of
    ten bytes [Add] takes a segment of a hundred. *)
Theorem empty_buffer_untrimmed :
  let s0 := SetNextRxSequence (sq 0) (SetMaxBufferSize 10 (create 0)) in
  exists s1,
    Add (bytes (fun p => p) 0 100) (sq 0) s0 = Some (true, s1) /\
    MaxRxSequence s0 = 10 /\ Size s1 = 100 /\ MaxBufferSize s1 = 10.
Proof.
  eexists _. split; [vm_compute; reflexivity|]. split; [|split]; vm_compute; reflexivity.
Qed.

(** ** Witnesses: a stream whose sequence numbers wrap around *)
Definition ex_R0 : Z := 4294967292.
Definition ex_stream (p : Z) : Z := p mod 251.
Definition ex_rx0 : RxBuffer := SetNextRxSequence (sq ex_R0) (SetMaxBufferSize 1000 (create 0)).
Definition after_add (h n : Z) (s : RxBuffer) : RxBuffer :=
  match Add (bytes ex_stream h n) (sq h) s with Some (_, s') => s' | None => s end.
Definition ex_rx1 : RxBuffer := Eval vm_compute in after_add (ex_R0 + 5) 6 ex_rx0.
Definition ex_rx2 : RxBuffer := Eval vm_compute in after_add (ex_R0 - 1) 7 ex_rx1.

Lemma ex_run1 : rx_run ex_stream 1000 ex_R0 (ex_R0 + 11) [] None ex_rx1.
Proof.
  eapply (run_segment _ _ _ _ _ _ ex_rx0 (ex_R0 + 5) 6 true); [constructor| |by vm_compute].
  unfold sent, OLD, WINDOW, ex_R0. cbn. lia.
Qed.

Lemma ex_run2 : rx_run ex_stream 1000 ex_R0 (ex_R0 + 11) [] None ex_rx2.
Proof.
  eapply (run_segment _ _ _ _ _ _ ex_rx1 (ex_R0 - 1) 7 true); [exact ex_run1| |by vm_compute].
  unfold sent, OLD, WINDOW, ex_R0. cbn. lia.
Qed.

Lemma ex_run3 :
  rx_run ex_stream 1000 ex_R0 (ex_R0 + 11) (bytes ex_stream ex_R0 7) (Some (ex_R0 + 11))
    (SetFinSequence (sq (ex_R0 + 11)) (set_data 4 4 [(7 - 4, bytes ex_stream (ex_R0 + 7) 4)] ex_rx2)).
Proof.
  apply run_fin with (fin := None); [|unfold WINDOW, ex_R0; cbn; lia].
  eapply (run_read _ _ _ _ [] _ ex_rx2 7 (Some (bytes ex_stream ex_R0 7))); [exact ex_run2|lia|].
  by vm_compute.
Qed.

Lemma stream_delivered_witness :
  bytes ex_stream ex_R0 7 = (fun p => p mod 251) <$> seqZ 4294967292 7 /\
  bytes ex_stream ex_R0 7 = bytes ex_stream ex_R0 (len (bytes ex_stream ex_R0 7)).
Proof.
  split; [reflexivity|].
  apply (stream_delivered ex_stream 1000 ex_R0 (ex_R0 + 11) _ _ _
    ltac:(unfold OLD; lia) ltac:(lia) ex_run3).
Defined.


Lemma sack_blocks_stored_witness :
  GetSackList ex_rx1 = [(1, 7)] /\ GetSackListSize ex_rx1 <= 4.
Proof.
  split; [reflexivity|].
  apply (sack_blocks_stored ex_stream 1000 ex_R0 (ex_R0 + 11) [] None ex_rx1
    ltac:(unfold OLD; lia) ltac:(lia) ex_run1).
Defined.

