(* ===== verification/Int64x64.v ===== *)
(** * Fixed-point arithmetic ([src/core/model/int64x64-128.{h,cc}])

    [int64x64_t] is a Q64.64 number in a 128-bit integer, here the integer [_v] itself.  The
    arithmetic wraps at 128 bits ([u128], [i128]); [None] is a failed assertion, a division by zero
    or a loop that does not end within its fuel. *)

From S2P Require Export Prelude.

(** ** 128-bit integers *)
Definition TWO64 : Z := 18446744073709551616.
Definition TWO127 : Z := 170141183460469231731687303715884105728.
Definition TWO128 : Z := 340282366920938463463374607431768211456.
Definition u128 (z : Z) : Z := z mod 340282366920938463463374607431768211456.
Definition i128 (z : Z) : Z :=
  (z + 170141183460469231731687303715884105728) mod 340282366920938463463374607431768211456
  - 170141183460469231731687303715884105728.

Lemma u128_small z : 0 <= z < TWO128 -> u128 z = z.
Proof. apply Z.mod_small. Qed.
Lemma i128_small z : - TWO127 <= z < TWO127 -> i128 z = z.
Proof. intros. unfold i128, TWO127 in *. rewrite Z.mod_small; lia. Qed.

Definition HP128_MASK_HI_BIT : Z := 170141183460469231731687303715884105728.
Definition HP_MASK_LO : Z := 18446744073709551615.

(** ** int64x64_t: the value is its [_v] *)
Definition of_int (v : Z) : Z := i128 (Z.shiftl v 64).
Definition of_hi_lo (hi lo : Z) : Z := Z.lor (i128 (Z.shiftl hi 64)) lo.
Definition GetHigh (v : Z) : Z := i64 (Z.shiftr v 64).
Definition GetLow (v : Z) : Z := Z.land (u128 v) HP_MASK_LO.
Definition GetInt (v : Z) : Z :=
  let negative := v <? 0 in
  let value := u128 (if negative then - v else v) in
  let retval := i64 (Z.shiftr value 64) in
  if negative then i64 (- retval) else retval.

Definition add (a b : Z) : Z := i128 (a + b).
Definition sub (a b : Z) : Z := i128 (a - b).
Definition opp (a : Z) : Z := i128 (- a).
Definition Round (v : Z) : Z :=
  let negative := v <? 0 in
  let value := if negative then opp v else v in
  let retval := GetHigh (add value (of_hi_lo 0 (Z.shiftl 1 63))) in
  if negative then i64 (- retval) else retval.

(** The sign of the result and the magnitudes of the operands. *)
Definition output_sign (sa sb : Z) : bool * Z * Z :=
  let negA := sa <? 0 in
  let negB := sb <? 0 in
  (xorb negA negB, (if negA then u128 (- u128 sa) else u128 sa), (if negB then u128 (- u128 sb) else u128 sb)).

Definition Umul (a b : Z) : option Z :=
  let al := Z.land a HP_MASK_LO in
  let bl := Z.land b HP_MASK_LO in
  let ah := Z.shiftr a 64 in
  let bh := Z.shiftr b 64 in
  let res := Z.shiftr (u128 (al * bl)) 64 in
  let mid := u128 (u128 (ah * bl) + u128 (al * bh)) in
  let res := u128 (res + mid) in
  let high := u128 (ah * bh) in
  ASSERT high <=? Z.shiftl 1 63 ;;
  let high := u128 (Z.shiftl high 64) in
  ASSERT res <=? u128 (res + high) ;;
  Some (u128 (res + high)).

Definition Mul (v o : Z) : option Z :=
  let '(negative, a, b) := output_sign v o in
  let! result := Umul a b in
  if negative then
    ASSERT result <=? HP128_MASK_HI_BIT ;; Some (i128 (u128 (- result)))
  else
    ASSERT result <? HP128_MASK_HI_BIT ;; Some (i128 result).

(** *** Division *)
Definition DIGITS : Z := 64.

(** "Skip trailing zeros in divisor" *)
Fixpoint skip_zeros (fuel : nat) (den shift : Z) : option (Z * Z) :=
  if (shift <? DIGITS) && negb (Z.testbit den 0) then
    match fuel with
    | O => None
    | S fuel => skip_zeros fuel (Z.shiftr den 1) (shift + 1)
    end
  else Some (den, shift).

(** "Skip leading zeros in remainder" *)
Fixpoint skip_leading (fuel : nat) (digis rem shift : Z) : option (Z * Z) :=
  if (digis + shift <? DIGITS) && (Z.land rem HP128_MASK_HI_BIT =? 0) then
    match fuel with
    | O => None
    | S fuel => skip_leading fuel digis (u128 (Z.shiftl rem 1)) (shift + 1)
    end
  else Some (rem, shift).

(** "Cast off denominator bits" *)
Fixpoint cast_off (fuel : nat) (digis rem den shift : Z) : option (Z * Z) :=
  if (digis + shift <? DIGITS) && (negb (Z.testbit den 0) || (rem <? den)) then
    match fuel with
    | O => None
    | S fuel => cast_off fuel digis rem (Z.shiftr den 1) (shift + 1)
    end
  else Some (den, shift).

Fixpoint Udiv_loop (fuel : nat) (digis rem den shift result : Z) : option (Z * Z) :=
  if (digis <? DIGITS) && negb (rem =? 0) then
    match fuel with
    | O => None
    | S fuel =>
        let! (rem, shift) := skip_leading 64 digis rem shift in
        let! (den, shift) := cast_off 64 digis rem den shift in
        ASSERT negb (den =? 0) ;;
        let quo := rem / den in
        let rem := rem mod den in
        let result := u128 (u128 (Z.shiftl result shift) + quo) in
        Udiv_loop fuel (digis + shift) rem den 0 result
    end
  else Some (digis, result).

(** Every round of the loop finds at least one digit. *)
Definition Udiv (a b : Z) : option Z :=
  ASSERT negb (b =? 0) ;;
  let quo := a / b in
  let rem := a mod b in
  ASSERT rem <? b ;;
  let! (den, shift) := skip_zeros 64 b 0 in
  let! (digis, result) := Udiv_loop 65 0 rem den shift quo in
  Some (if digis <? DIGITS then u128 (Z.shiftl result (DIGITS - digis)) else result).

Definition Div (v o : Z) : option Z :=
  let '(negative, a, b) := output_sign v o in
  let! r := Udiv a b in
  let result := i128 r in Some (if negative then i128 (- result) else result).

(** *** Multiplication by an inverse *)
Definition UmulByInvert (a b : Z) : option Z :=
  ASSERT b <=? HP128_MASK_HI_BIT ;;
  let al := Z.land a HP_MASK_LO in
  let bl := Z.land b HP_MASK_LO in
  let ah := Z.shiftr a 64 in
  let bh := Z.shiftr b 64 in
  let high := u128 (ah * bh) in
  let mid := u128 (u128 (ah * bl) + u128 (al * bh)) in
  let mid := Z.shiftr mid 64 in
  Some (u128 (high + mid)).

Definition MulByInvert (v o : Z) : option Z :=
  let negResult := v <? 0 in
  let a := if negResult then u128 (- u128 v) else v in
  let! result := UmulByInvert a (u128 o) in
  Some (if negResult then i128 (u128 (- result)) else i128 result).

Definition Invert (v : Z) : option Z :=
  ASSERT 1 <? v ;;
  let! r := Udiv (Z.shiftl 1 64) v in
  let result := i128 r in
  let! tmp := MulByInvert (of_hi_lo (i64 v) 0) result in
  Some (if GetHigh tmp =? 1 then result else add result 1).

(** ** Multiplication is exact *)

(** The two halves of a number and their products. *)
Lemma halves a :
  0 <= a -> Z.land a HP_MASK_LO = a mod TWO64 /\ Z.shiftr a 64 = a / TWO64 /\
  a = a / TWO64 * TWO64 + a mod TWO64 /\ 0 <= a mod TWO64 < TWO64 /\ 0 <= a / TWO64.
Proof.
  intros. split_and!.
  - change HP_MASK_LO with (Z.ones 64). by rewrite Z.land_ones by lia.
  - by rewrite Z.shiftr_div_pow2 by lia.
  - rewrite Z.mul_comm. by apply Z.div_mod.
  - by apply Z.mod_pos_bound.
  - by apply Z.mod_pos_bound.
  - by apply Z.div_pos.
Qed.

Lemma mul_bounds x y X Y : 0 <= x <= X -> 0 <= y <= Y -> 0 <= x * y <= X * Y.
Proof. intros. nia. Qed.

Lemma Umul_cases a b :
  0 <= a <= TWO127 -> 0 <= b <= TWO127 ->
  (Umul a b = Some (a * b / TWO64) \/ Umul a b = None) /\
  (a * b / TWO64 <= TWO127 -> Umul a b = Some (a * b / TWO64)).
Proof.
  intros Ha Hb. unfold Umul.
  destruct (halves a) as (->&->&Ea&Hal&Hah); [lia|]. destruct (halves b) as (->&->&Eb&Hbl&Hbh); [lia|].
  set (al := a mod TWO64) in *. set (ah := a / TWO64) in *.
  set (bl := b mod TWO64) in *. set (bh := b / TWO64) in *. clearbody al ah bl bh.
  unfold TWO64, TWO127 in *.
  assert (ah <= 9223372036854775808 /\ bh <= 9223372036854775808) as [Hah' Hbh'] by lia.
  pose proof (mul_bounds al bl 18446744073709551615 18446744073709551615 ltac:(lia) ltac:(lia)) as Hw.
  pose proof (mul_bounds ah bl 9223372036854775808 18446744073709551615 ltac:(lia) ltac:(lia)) as Hy.
  pose proof (mul_bounds al bh 18446744073709551615 9223372036854775808 ltac:(lia) ltac:(lia)) as Hz.
  pose proof (mul_bounds ah bh 9223372036854775808 9223372036854775808 ltac:(lia) ltac:(lia)) as Hx.
  assert (a * b = (ah * bh * 18446744073709551616 + (ah * bl + al * bh)) * 18446744073709551616 + al * bl)
    as -> by (rewrite Ea, Eb; ring).
  rewrite Z.div_add_l by lia.
  set (w := al * bl) in *. set (y := ah * bl) in *. set (z := al * bh) in *. set (x := ah * bh) in *.
  clearbody w x y z. clear Ea Eb. cbn in Hw, Hx, Hy, Hz.
  rewrite (u128_small w), (u128_small y), (u128_small z), (u128_small x) by (unfold TWO128; lia).
  rewrite (u128_small (y + z)) by (unfold TWO128; lia).
  rewrite Z.shiftr_div_pow2 by lia. change (2 ^ 64) with 18446744073709551616.
  assert (0 <= w / 18446744073709551616 < 18446744073709551616) by lia.
  set (v := w / 18446744073709551616) in *. clearbody v.
  rewrite (u128_small (v + (y + z))) by (unfold TWO128; lia).
  change (Z.shiftl 1 63) with 9223372036854775808.
  destruct (Z.leb_spec x 9223372036854775808); [|split; [by right|lia]].
  rewrite Z.shiftl_mul_pow2 by lia. change (2 ^ 64) with 18446744073709551616.
  rewrite (u128_small (x * _)) by (unfold TWO128; lia).
  destruct (Z.leb_spec (v + (y + z)) (u128 (v + (y + z) + x * 18446744073709551616))) as [Hle|Hlt].
  - assert (v + (y + z) + x * 18446744073709551616 < TWO128).
    { destruct (decide (v + (y + z) + x * 18446744073709551616 < TWO128)) as [|Hge]; [done|exfalso].
      revert Hle. unfold u128, TWO128 in *.
      replace (v + (y + z) + x * 18446744073709551616) with
        (v + (y + z) + x * 18446744073709551616 - 340282366920938463463374607431768211456
          + 1 * 340282366920938463463374607431768211456) by lia.
      rewrite Z.mod_add, Z.mod_small by lia. lia. }
    rewrite u128_small by lia. split; [left|intros _]; f_equal; lia.
  - split; [by right|]. intros. rewrite u128_small in Hlt; unfold TWO128; lia.
Qed.

Definition is_i128 (v : Z) : Prop := - TWO127 <= v < TWO127.

Lemma output_sign_abs x y :
  is_i128 x -> is_i128 y -> output_sign x y = (xorb (x <? 0) (y <? 0), Z.abs x, Z.abs y).
Proof.
  unfold is_i128, TWO127. intros. unfold output_sign.
  assert (forall z, is_i128 z -> (if z <? 0 then u128 (- u128 z) else u128 z) = Z.abs z) as H1.
  { unfold is_i128, TWO127, u128. intros z Hz. destruct (Z.ltb_spec z 0).
    - replace z with (z + 340282366920938463463374607431768211456
        + (-1) * 340282366920938463463374607431768211456) at 1 by lia.
      rewrite Z.mod_add, (Z.mod_small (z + _)) by lia.
      replace (- (z + 340282366920938463463374607431768211456)) with
        (- z + (-1) * 340282366920938463463374607431768211456) by lia.
      rewrite Z.mod_add, Z.mod_small by lia. lia.
    - rewrite Z.mod_small by lia. lia. }
  by rewrite !H1.
Qed.

Lemma i128_neg r : 0 <= r <= TWO127 -> i128 (u128 (- r)) = - r.
Proof.
  unfold TWO127, i128, u128. intros. destruct (decide (r = 0)) as [->|]; [done|].
  replace (- r) with (340282366920938463463374607431768211456 - r
    + (-1) * 340282366920938463463374607431768211456) at 1 by lia.
  rewrite Z.mod_add, (Z.mod_small (_ - r)) by lia.
  replace (340282366920938463463374607431768211456 - r + 170141183460469231731687303715884105728)
    with (170141183460469231731687303715884105728 - r + 1 * 340282366920938463463374607431768211456) by lia.
  rewrite Z.mod_add, Z.mod_small by lia. lia.
Qed.

Lemma Mul_spec x y :
  is_i128 x -> is_i128 y ->
  Mul x y = (if decide (is_i128 (Z.quot (x * y) TWO64)) then Some (Z.quot (x * y) TWO64) else None).
Proof.
  intros Hx Hy. unfold Mul. rewrite output_sign_abs by done.
  unfold is_i128 in Hx, Hy. unfold TWO127 in *.
  destruct (Umul_cases (Z.abs x) (Z.abs y)) as [Hc Hfit]; [unfold TWO127; lia..|].
  assert (0 <= Z.abs x * Z.abs y / TWO64) as Hpos by (apply Z.div_pos; [lia|done]).
  set (r := Z.abs x * Z.abs y / TWO64) in *.
  assert (Z.quot (x * y) TWO64 = if xorb (x <? 0) (y <? 0) then - r else r) as ->.
  { unfold r. rewrite <- Z.quot_div_nonneg by (done || lia). rewrite <- Z.abs_mul.
    destruct (Z.ltb_spec x 0), (Z.ltb_spec y 0); cbn [xorb].
    all: first [rewrite Z.abs_eq by nia; reflexivity|rewrite Z.abs_neq by nia; rewrite Z.quot_opp_l by done; lia]. }
  clearbody r. unfold is_i128, HP128_MASK_HI_BIT. destruct (xorb _ _).
  - case_decide as Hd.
    + unfold TWO127 in *. rewrite Hfit by lia. ztest. rewrite i128_neg; [done|unfold TWO127; lia].
    + destruct Hc as [->| ->]; [|done]. unfold TWO127 in Hd. ztest. done.
  - case_decide as Hd.
    + unfold TWO127 in *. rewrite Hfit by lia. ztest.
      rewrite i128_small; [done|unfold TWO127; lia].
    + destruct Hc as [->| ->]; [|done]. unfold TWO127 in Hd. ztest. done.
Qed.

(** ** Division *)
Lemma testbit0_even den : Z.testbit den 0 = negb (Z.even den).
Proof. by rewrite Z.bit0_odd, <- Z.negb_even. Qed.

Lemma shiftr1 z : Z.shiftr z 1 = z / 2.
Proof. by rewrite Z.shiftr_div_pow2 by lia. Qed.

Lemma skip_zeros_spec fuel den shift :
  0 < den -> 0 <= shift <= 64 -> 64 <= shift + Z.of_nat fuel ->
  exists den' s, skip_zeros fuel den shift = Some (den', s) /\ shift <= s <= 64 /\ 0 < den' /\
    den = den' * 2 ^ (s - shift) /\ (s = 64 \/ Z.even den' = false).
Proof.
  revert den shift. induction fuel as [|fuel IH]; intros den shift Hd Hs Hf; cbn [skip_zeros];
    unfold DIGITS; rewrite testbit0_even, negb_involutive.
  { destruct (Z.ltb_spec shift 64); [lia|]. exists den, shift. rewrite Z.sub_diag, Z.mul_1_r.
    split_and!; [done|lia|lia|done|done|left; lia]. }
  destruct (Z.ltb_spec shift 64); cbn [andb]; [destruct (Z.even den) eqn:He|].
  - apply Z.even_spec in He as [k ->]. rewrite shiftr1. replace (2 * k / 2) with k by lia.
    destruct (IH k (shift + 1)) as (d'&s&->&?&?&Hk&?); [lia..|]. exists d', s.
    split_and!; [done|lia|lia|done| |done]. rewrite Hk.
    replace (s - shift) with (1 + (s - (shift + 1))) by lia. rewrite Z.pow_add_r by lia. ring.
  - exists den, shift. rewrite Z.sub_diag, Z.mul_1_r. split_and!; [done|lia|lia|done|done|by right].
  - exists den, shift. rewrite Z.sub_diag, Z.mul_1_r. split_and!; [done|lia|lia|done|done|left; lia].
Qed.

Lemma high_bit rem :
  0 <= rem < TWO128 -> (Z.land rem HP128_MASK_HI_BIT =? 0) = (rem <? TWO127).
Proof.
  intros Hr. assert (Z.land rem HP128_MASK_HI_BIT = rem / TWO127 * TWO127) as ->.
  { change HP128_MASK_HI_BIT with (2 ^ 127). rewrite <- (Z.shiftl_1_l 127).
    apply Z.bits_inj'. intros i Hi. change TWO127 with (2 ^ 127).
    rewrite Z.land_spec, Z.shiftl_1_l, <- Z.shiftr_div_pow2, <- Z.shiftl_mul_pow2 by lia.
    rewrite Z.shiftl_spec by done. destruct (Z.lt_trichotomy i 127) as [|[->|]].
    - rewrite Z.pow2_bits_false by lia. rewrite (Z.testbit_neg_r _ (i - 127)) by lia.
      apply andb_false_r.
    - rewrite Z.pow2_bits_true, Z.shiftr_spec by lia. by rewrite andb_true_r.
    - rewrite Z.pow2_bits_false, Z.shiftr_spec by lia. rewrite andb_false_r. symmetry.
      replace (i - 127 + 127) with i by lia.
      apply Z.bits_above_log2; [lia|]. destruct (decide (rem = 0)) as [->|]; [cbn; lia|].
      apply Z.log2_lt_pow2; [lia|]. apply Z.lt_le_trans with (2 ^ 128); [apply Hr|].
      apply Z.pow_le_mono_r; lia. }
  unfold TWO127, TWO128 in *. destruct (Z.ltb_spec rem 170141183460469231731687303715884105728).
  - rewrite Z.div_small by lia. done.
  - apply Z.eqb_neq. assert (0 < rem / 170141183460469231731687303715884105728); lia.
Qed.

Lemma skip_leading_some fuel digis rem shift :
  0 < rem < TWO128 -> 64 <= digis + shift + Z.of_nat fuel ->
  exists rem' s, skip_leading fuel digis rem shift = Some (rem', s) /\
    0 < rem' < TWO128 /\ shift <= s /\ (digis + shift <= 64 -> digis + s <= 64) /\
    (s = shift -> rem' = rem).
Proof.
  revert rem shift. induction fuel as [|fuel IH]; intros rem shift Hr Hf; cbn [skip_leading];
    unfold DIGITS; rewrite high_bit by (unfold TWO128 in *; lia).
  - destruct (Z.ltb_spec (digis + shift) 64); [lia|]. exists rem, shift. split_and!; done || lia.
  - destruct (Z.ltb_spec (digis + shift) 64); cbn [andb];
      [|exists rem, shift; split_and!; done || lia].
    destruct (Z.ltb_spec rem TWO127); [|exists rem, shift; split_and!; done || lia].
    rewrite Z.shiftl_mul_pow2 by lia. change (2 ^ 1) with 2.
    unfold TWO127, TWO128 in *. rewrite u128_small by (unfold TWO128; lia).
    destruct (IH (rem * 2) (shift + 1)) as (r'&s&->&?&?&?&?); [lia..|].
    exists r', s. split_and!; try done; lia.
Qed.

(** When the shifted remainder fits, the loop finds all the digits. *)
Lemma skip_leading_full fuel rem shift :
  0 < rem -> 0 <= shift <= 64 -> rem < 2 ^ (64 + shift) -> 64 <= shift + Z.of_nat fuel ->
  skip_leading fuel 0 rem shift = Some (rem * 2 ^ (64 - shift), 64).
Proof.
  revert rem shift. induction fuel as [|fuel IH]; intros rem shift Hr Hs Hlt Hf; cbn [skip_leading].
  - assert (shift = 64) as -> by lia. cbn. by rewrite Z.mul_1_r.
  - unfold DIGITS. destruct (Z.ltb_spec (0 + shift) 64); cbn [andb].
    2:{ assert (shift = 64) as -> by lia. cbn. by rewrite Z.mul_1_r. }
    assert (rem < TWO127).
    { apply Z.lt_le_trans with (1 := Hlt). change TWO127 with (2 ^ 127). apply Z.pow_le_mono_r; lia. }
    unfold TWO127 in *. rewrite high_bit by (unfold TWO128; lia).
    rewrite (proj2 (Z.ltb_lt rem TWO127)) by done.
    rewrite Z.shiftl_mul_pow2 by lia. change (2 ^ 1) with 2.
    rewrite u128_small by (unfold TWO128; lia). rewrite IH; [|lia|lia| |lia].
    + replace (64 - shift) with (1 + (64 - (shift + 1))) by lia.
      rewrite (Z.pow_add_r 2 1) by lia. do 2 f_equal. ring.
    + replace (64 + (shift + 1)) with (64 + shift + 1) by lia.
      rewrite Z.pow_add_r by lia. lia.
Qed.

Lemma cast_off_done fuel digis rem den shift :
  64 <= digis + shift -> cast_off fuel digis rem den shift = Some (den, shift).
Proof. intros. destruct fuel; cbn [cast_off]; unfold DIGITS; by ztest. Qed.

Lemma cast_off_some fuel digis rem den shift :
  0 < rem -> 0 < den -> 64 <= digis + shift + Z.of_nat fuel ->
  exists den' s, cast_off fuel digis rem den shift = Some (den', s) /\
    0 < den' /\ shift <= s /\ (digis + shift <= 64 -> digis + s <= 64) /\
    (digis + shift < 64 -> rem < den -> shift < s).
Proof.
  revert den shift. induction fuel as [|fuel IH]; intros den shift Hr Hd Hf; cbn [cast_off];
    unfold DIGITS; rewrite testbit0_even, negb_involutive.
  - destruct (Z.ltb_spec (digis + shift) 64); [lia|]. exists den, shift. split_and!; done || lia.
  - destruct (Z.ltb_spec (digis + shift) 64); cbn [andb];
      [|exists den, shift; split_and!; done || lia].
    destruct (Z.even den || (rem <? den)) eqn:Ec.
    + rewrite shiftr1. assert (0 < den / 2).
      { apply orb_true_iff in Ec as [He|Hlt%Z.ltb_lt]; [|lia].
        apply Z.even_spec in He as [k ->]. lia. }
      destruct (IH (den / 2) (shift + 1)) as (d'&s&->&?&?&?&?); [lia..|].
      exists d', s. split_and!; done || lia.
    + apply orb_false_iff in Ec as [_ Hge%Z.ltb_ge]. exists den, shift. split_and!; done || lia.
Qed.

Lemma Udiv_loop_some fuel digis rem den shift result :
  0 <= digis -> 0 <= shift -> digis + shift <= 64 -> 64 < digis + Z.of_nat fuel -> 0 <= rem < TWO128 -> 0 < den ->
  (0 < shift \/ rem < den) ->
  exists d r, Udiv_loop fuel digis rem den shift result = Some (d, r) /\ digis <= d <= 64.
Proof.
  revert digis rem den shift result.
  induction fuel as [|fuel IH]; intros digis rem den shift result H1 H2 H3 Hf Hr Hd Hs;
    cbn [Udiv_loop]; unfold DIGITS; destruct (Z.ltb_spec digis 64); cbn [andb]; try lia.
  all: try (exists digis, result; split; [done|lia]).
  destruct (Z.eqb_spec rem 0) as [->|Hne]; cbn [negb]; [exists digis, result; split; [done|lia]|].
  destruct (skip_leading_some 64 digis rem shift) as (rem'&s1&->&?&?&?&Heq); [lia..|].
  destruct (cast_off_some 64 digis rem' den s1) as (den'&s2&->&?&?&?&Hlt); [lia..|].
  rewrite (proj2 (Z.eqb_neq den' 0)) by lia. cbn [negb].
  pose proof (Z.mod_pos_bound rem' den' ltac:(lia)). pose proof (Z.mod_le rem' den').
  assert (0 < s2).
  { destruct (decide (0 < s1)); [lia|]. assert (s1 = shift) as Es by lia.
    rewrite (Heq Es) in Hlt. apply Z.le_lt_trans with s1; [lia|apply Hlt; lia]. }
  destruct (IH (digis + s2) (rem' mod den') den' 0 (u128 (u128 (Z.shiftl result s2) + rem' / den')))
    as (d&r&->&?); [lia..|]. exists d, r. split; [done|lia].
Qed.

Lemma Udiv_total a b : 0 <= a < TWO128 -> 0 < b < TWO128 -> is_Some (Udiv a b).
Proof.
  intros Ha Hb. unfold Udiv. rewrite (proj2 (Z.eqb_neq b 0)) by lia. cbn [negb].
  pose proof (Z.mod_pos_bound a b ltac:(lia)). rewrite (proj2 (Z.ltb_lt _ b)) by lia.
  destruct (skip_zeros_spec 64 b 0) as (den&s&->&?&?&Hb'&?); [lia..|].
  rewrite Z.sub_0_r in Hb'.
  destruct (Udiv_loop_some 65 0 (a mod b) den s (a / b)) as (d&r&->&?); [lia..| |by eexists].
  destruct (decide (0 < s)); [by left|right]. assert (s = 0) as -> by lia.
  rewrite Z.mul_1_r in Hb'. lia.
Qed.

Lemma Udiv_exact a b s :
  0 <= a < TWO128 -> 0 < b -> 0 <= s <= 64 -> b mod 2 ^ s = 0 -> b <= 2 ^ (64 + s) ->
  a * TWO64 / b < TWO128 -> Udiv a b = Some (a * TWO64 / b).
Proof.
  intros Ha Hb Hs Hdiv Hle Hfit. unfold Udiv. rewrite (proj2 (Z.eqb_neq b 0)) by lia. cbn [negb].
  pose proof (Z.mod_pos_bound a b ltac:(lia)) as Hm. rewrite (proj2 (Z.ltb_lt _ b)) by lia.
  destruct (skip_zeros_spec 64 b 0) as (den&s2&->&?&?&Hb'&Hodd); [lia..|].
  rewrite Z.sub_0_r in Hb'. pose proof (Z.div_mod a b ltac:(lia)) as Hab.
  set (q := a / b) in *. set (r := a mod b) in *.
  assert (s <= s2) as Hs2.
  { destruct Hodd as [->|Hodd]; [lia|]. destruct (decide (s <= s2)) as [|Hgt]; [done|exfalso].
    replace s with (s2 + 1 + (s - s2 - 1)) in Hdiv by lia. rewrite !Z.pow_add_r in Hdiv by lia.
    apply Z.mod_divide in Hdiv as [k Hk]; [|assert (0 < 2 ^ s2 * 2 ^ 1 * 2 ^ (s - s2 - 1)) by
      (apply Z.mul_pos_pos; [apply Z.mul_pos_pos|]; lia); lia].
    assert (den = 2 * (k * 2 ^ (s - s2 - 1))) as Hden.
    { apply (Z.mul_reg_r _ _ (2 ^ s2)); [lia|]. rewrite <- Hb', Hk. change (2 ^ 1) with 2. ring. }
    rewrite Hden, Z.even_mul in Hodd. done. }
  assert (0 <= q) by (apply Z.div_pos; lia).
  assert (a * TWO64 / b = q * TWO64 + r * TWO64 / b) as Hq.
  { rewrite Hab. replace ((b * q + r) * TWO64) with (q * TWO64 * b + r * TWO64) by ring.
    by rewrite Z.div_add_l by lia. }
  assert (0 <= r * TWO64 / b) by (apply Z.div_pos; [unfold TWO64; lia|lia]).
  cbn [Udiv_loop]. unfold DIGITS. ztest. cbn [andb].
  destruct (Z.eqb_spec r 0) as [Hr0|Hr0]; cbn [negb].
  - ztest. rewrite Z.shiftl_mul_pow2 by lia. change (2 ^ (64 - 0)) with TWO64.
    rewrite u128_small by (unfold TWO64, TWO128 in *; lia). rewrite Hq, Hr0. f_equal.
    rewrite Z.mul_0_l, Z.div_0_l by lia. lia.
  - rewrite skip_leading_full; [|lia|lia| |lia].
    2:{ apply Z.lt_le_trans with b; [lia|]. apply Z.le_trans with (1 := Hle).
        apply Z.pow_le_mono_r; lia. }
    rewrite cast_off_done by lia. rewrite (proj2 (Z.eqb_neq den 0)) by lia. cbn [negb].
    assert (r * 2 ^ (64 - s2) / den = r * TWO64 / b) as ->.
    { rewrite Hb'. rewrite <- (Z.div_mul_cancel_r _ den (2 ^ s2)) by lia.
      f_equal. rewrite <- Z.mul_assoc, <- Z.pow_add_r by lia.
      by replace (64 - s2 + s2) with 64 by lia. }
    rewrite Z.shiftl_mul_pow2 by lia. change (2 ^ 64) with TWO64.
    rewrite (u128_small (q * TWO64)) by (unfold TWO64, TWO128 in *; lia).
    rewrite u128_small by (unfold TWO64, TWO128 in *; lia).
    rewrite <- Hq. destruct (negb _); reflexivity.
Qed.

(** ** Inverses *)
Lemma UmulByInvert_whole k b :
  0 <= k <= 9223372036854775808 -> 0 <= b <= TWO127 ->
  UmulByInvert (k * TWO64) b = Some (k * b / TWO64).
Proof.
  intros Hk Hb. unfold UmulByInvert, HP128_MASK_HI_BIT. unfold TWO127 in Hb. ztest.
  destruct (halves (k * TWO64)) as (->&->&_&_&_); [unfold TWO64; lia|].
  destruct (halves b) as (->&->&Eb&Hbl&Hbh); [lia|].
  rewrite Z.mod_mul, Z.div_mul by done.
  set (bl := b mod TWO64) in *. set (bh := b / TWO64) in *. clearbody bl bh.
  unfold TWO64 in *. assert (bh <= 9223372036854775808) by lia.
  pose proof (mul_bounds k bl 9223372036854775808 18446744073709551615 ltac:(lia) ltac:(lia)) as Hy.
  pose proof (mul_bounds k bh 9223372036854775808 9223372036854775808 ltac:(lia) ltac:(lia)) as Hx.
  cbn in Hx, Hy. rewrite Z.mul_0_l.
  rewrite (u128_small (k * bh)), (u128_small (k * bl)), (u128_small 0) by (unfold TWO128; lia).
  rewrite (u128_small (_ + 0)) by (unfold TWO128; lia). rewrite Z.add_0_r.
  rewrite Z.shiftr_div_pow2 by lia. change (2 ^ 64) with 18446744073709551616.
  replace (k * b) with (k * bh * 18446744073709551616 + k * bl) by (rewrite Eb; ring).
  rewrite Z.div_add_l by lia. rewrite u128_small; [done|]. unfold TWO128.
  assert (0 <= k * bl / 18446744073709551616 < 18446744073709551616) by lia. lia.
Qed.

(** The inverse of [v] is [2^128 / v] rounded up. *)
Definition ceil_inverse (v b : Z) : Prop := TWO128 <= b * v < TWO128 + v.

Section inverse.
Context (v b : Z) (Hv : 2 <= v < 9223372036854775808) (Hb : ceil_inverse v b).

Lemma inverse_bounds : 0 < b <= TWO127.
Proof using Hv Hb. unfold ceil_inverse, TWO127, TWO128 in *. nia. Qed.

Lemma inverse_floor k : 0 <= k <= 9223372036854775808 -> k * b / TWO64 / TWO64 = k / v.
Proof using Hv Hb.
  intros Hk. rewrite Z.div_div by done. symmetry.
  pose proof (Z.div_mod k v ltac:(lia)) as Ek. pose proof (Z.mod_pos_bound k v ltac:(lia)) as Hm.
  assert (0 <= k / v) by (apply Z.div_pos; lia).
  set (q := k / v) in *. set (m := k mod v) in *. clearbody q m.
  unfold ceil_inverse in Hb. set (e := b * v - TWO128).
  assert (b * v = TWO128 + e /\ 0 <= e < v) as [Ebv He] by (unfold e; lia). clearbody e.
  apply (Z.div_unique _ _ _ (q * e + m * b)).
  - left. unfold TWO64. change (18446744073709551616 * 18446744073709551616) with TWO128.
    assert (0 < b) by apply inverse_bounds.
    split; [nia|].
    assert (m * b <= (v - 1) * b) by nia.
    assert ((q + 1) * e < b); [|nia].
    apply (Z.mul_lt_mono_pos_r v); [lia|]. rewrite Ebv.
    assert ((q + 1) * v <= 18446744073709551616) by lia.
    apply Z.le_lt_trans with (18446744073709551616 * e); [nia|]. unfold TWO128. lia.
  - change (TWO64 * TWO64) with TWO128. rewrite Ek.
    replace ((v * q + m) * b) with (q * (b * v) + m * b) by ring. rewrite Ebv. ring.
Qed.

Lemma inverse_round k :
  0 <= k <= 9223372036854775808 ->
  (k * b / TWO64 + 9223372036854775808) / TWO64 = (2 * k + v) / (2 * v).
Proof using Hv Hb.
  intros Hk. rewrite <- Z.div_add by done. rewrite Z.div_div by done.
  change (9223372036854775808 * TWO64) with TWO127. change (TWO64 * TWO64) with TWO128.
  pose proof (Z.div_mod (2 * k + v) (2 * v) ltac:(lia)) as Ek.
  pose proof (Z.mod_pos_bound (2 * k + v) (2 * v) ltac:(lia)) as Hm.
  set (q := (2 * k + v) / (2 * v)) in *. set (m := (2 * k + v) mod (2 * v)) in *. clearbody q m.
  unfold ceil_inverse in Hb. set (e := b * v - TWO128).
  assert (b * v = TWO128 + e /\ 0 <= e < v) as [Ebv He] by (unfold e; lia). clearbody e.
  symmetry. apply (Z.div_unique _ _ _ (k * b + TWO127 - TWO128 * q)); [|ring].
  assert ((k * b + TWO127 - TWO128 * q) * (2 * v) = TWO128 * m + 2 * k * e) as Hr.
  { replace ((k * b + TWO127 - TWO128 * q) * (2 * v)) with
      (2 * k * (b * v) + (2 * TWO127) * v - TWO128 * (2 * v * q)) by ring.
    change (2 * TWO127) with TWO128. replace (2 * v * q) with (2 * k + v - m) by lia.
    rewrite Ebv. ring. }
  assert (0 <= 2 * k * e < TWO128) as Hke.
  { split; [nia|]. apply Z.le_lt_trans with (18446744073709551616 * e); [nia|]. unfold TWO128. lia. }
  assert (0 <= TWO128 * m + 2 * k * e < TWO128 * (2 * v)) as Hr2.
  { split; [unfold TWO128 in *; nia|]. apply Z.lt_le_trans with (TWO128 * m + TWO128); [lia|].
    unfold TWO128. lia. }
  left. split.
  - apply (Z.mul_le_mono_pos_r _ _ (2 * v)); lia.
  - apply (Z.mul_lt_mono_pos_r (2 * v)); lia.
Qed.

Lemma inverse_close k :
  0 <= k <= 9223372036854775808 -> k * TWO64 / v <= k * b / TWO64 <= k * TWO64 / v + 1.
Proof using Hv Hb.
  intros Hk. unfold ceil_inverse in Hb. set (e := b * v - TWO128).
  assert (b * v = TWO128 + e /\ 0 <= e < v) as [Ebv He] by (unfold e; lia). clearbody e.
  assert (k * b * v = k * TWO64 * TWO64 + k * e) as E.
  { rewrite <- Z.mul_assoc, Ebv. change TWO128 with (TWO64 * TWO64). ring. }
  assert (0 <= k * e < TWO64 * v) as Hke.
  { split; [nia|]. apply Z.le_lt_trans with (9223372036854775808 * e); [nia|]. unfold TWO64. lia. }
  split.
  - apply Z.div_le_lower_bound; [done|]. 
    pose proof (Z.mul_div_le (k * TWO64) v ltac:(lia)).
    apply (Z.mul_le_mono_pos_r _ _ v); [lia|]. rewrite E. unfold TWO64 in *. nia.
  - enough (k * b / TWO64 < k * TWO64 / v + 2) by lia. apply Z.div_lt_upper_bound; [done|].
    pose proof (Z.mul_succ_div_gt (k * TWO64) v ltac:(lia)).
    apply (Z.mul_lt_mono_pos_r v); [lia|]. rewrite E. unfold TWO64 in *. nia.
Qed.
End inverse.

Lemma MulByInvert_whole k inv :
  - 9223372036854775808 <= k <= 9223372036854775808 -> 0 <= u128 inv <= TWO127 ->
  (Z.abs k * u128 inv / TWO64 < TWO127 \/ k < 0 /\ Z.abs k * u128 inv / TWO64 <= TWO127) ->
  is_i128 (k * TWO64) ->
  MulByInvert (k * TWO64) inv = Some (Z.sgn k * (Z.abs k * u128 inv / TWO64)).
Proof.
  intros Hk Hb Hfit Hi. unfold MulByInvert.
  assert (0 <= Z.abs k * u128 inv / TWO64) by (apply Z.div_pos; [nia|done]).
  destruct (Z.ltb_spec (k * TWO64) 0) as [Hneg|Hpos].
  - assert (k < 0) by (unfold TWO64 in *; lia).
    pose proof (output_sign_abs (k * TWO64) 0 Hi ltac:(done)) as Ho.
    unfold output_sign in Ho. rewrite (proj2 (Z.ltb_lt _ _)) in Ho by done.
    injection Ho as ->. replace (Z.abs (k * TWO64)) with (Z.abs k * TWO64) by (unfold TWO64; lia).
    rewrite UmulByInvert_whole by (done || lia). rewrite i128_neg by lia.
    rewrite Z.sgn_neg by lia. f_equal; lia.
  - assert (0 <= k) by (unfold TWO64 in *; lia).
    rewrite Z.abs_eq in * by lia. rewrite UmulByInvert_whole by (done || lia).
    rewrite i128_small by (unfold TWO127 in *; lia). f_equal.
    destruct (decide (k = 0)) as [->|]; [done|]. rewrite Z.sgn_pos by lia. lia.
Qed.

Lemma Invert_spec v :
  2 <= v < 9223372036854775808 ->
  exists inv, Invert v = Some inv /\ ceil_inverse v (u128 inv).
Proof.
  intros Hv. unfold Invert. ztest. change (Z.shiftl 1 64) with TWO64.
  assert (TWO64 * TWO64 / v <= TWO127).
  { apply Z.div_le_upper_bound; [lia|]. unfold TWO64, TWO127. lia. }
  assert (0 <= TWO64 * TWO64 / v) by (apply Z.div_pos; [done|lia]).
  rewrite (Udiv_exact _ _ 0); [|done|lia|lia|by rewrite Z.mod_1_r|cbn; lia|unfold TWO127, TWO128 in *; lia].
  set (r := TWO64 * TWO64 / v) in *.
  assert (u128 (i128 r) = r) as Hur.
  { unfold TWO127 in *. unfold u128, i128. destruct (decide (r = 170141183460469231731687303715884105728)) as [->|];
      [done|]. rewrite (Z.mod_small (r + _)) by lia.
    replace (r + _ - _) with r by lia. rewrite Z.mod_small by lia. done. }
  assert (of_hi_lo (i64 v) 0 = v * TWO64) as ->.
  { unfold of_hi_lo. rewrite i64_small by lia. rewrite Z.lor_0_r, Z.shiftl_mul_pow2 by lia.
    change (2 ^ 64) with TWO64. rewrite i128_small; [done|]. unfold TWO127, TWO64. lia. }
  pose proof (Z.mul_div_le (TWO64 * TWO64) v ltac:(lia)) as Hle. fold r in Hle.
  pose proof (Z.mul_succ_div_gt (TWO64 * TWO64) v ltac:(lia)) as Hgt. fold r in Hgt.
  change (TWO64 * TWO64) with TWO128 in Hle, Hgt.
  assert (0 <= v * r / TWO64 <= TWO64) as Hq.
  { split; [apply Z.div_pos; [nia|done]|]. apply Z.div_le_upper_bound; [done|].
    change (TWO64 * TWO64) with TWO128. lia. }
  rewrite MulByInvert_whole; [|lia|by rewrite Hur| |].
  2:{ left. rewrite Hur, Z.abs_eq by lia. unfold TWO64, TWO127 in *. lia. }
  2:{ unfold is_i128, TWO127, TWO64. lia. }
  rewrite Hur, Z.abs_eq, Z.sgn_pos, Z.mul_1_l by lia.
  unfold GetHigh. rewrite Z.shiftr_div_pow2 by lia. change (2 ^ 64) with TWO64.
  rewrite i64_small by (unfold TWO64 in *; lia).
  destruct (Z.eqb_spec (v * r / TWO64 / TWO64) 1) as [E|E]; eexists; (split; [done|]).
  - rewrite Hur. unfold ceil_inverse. rewrite Z.div_div in E by done.
    change (TWO64 * TWO64) with TWO128 in E. assert (TWO128 <= v * r); [|lia].
    pose proof (Z.mul_div_le (v * r) TWO128 ltac:(done)). rewrite E in *. lia.
  - assert (v * r < TWO128).
    { destruct (decide (v * r < TWO128)); [done|]. assert (v * r = TWO128) as Evr by lia.
      rewrite Evr in E. done. }
    assert (r < TWO127).
    { destruct (decide (r = TWO127)) as [Er|]; [|lia]. rewrite Er in *. unfold TWO127, TWO128 in *. lia. }
    assert (r + 1 < TWO127 \/ r + 1 = TWO127) as Hr1 by lia.
    assert (u128 (add (i128 r) 1) = r + 1) as ->; [|unfold ceil_inverse; lia].
    rewrite i128_small by (unfold TWO127 in *; lia). unfold add, u128, i128.
    destruct Hr1 as [Hr1| ->]; [|done]. unfold TWO127 in *.
    rewrite (Z.mod_small (r + 1 + _)) by lia.
    replace (r + 1 + _ - _) with (r + 1) by lia. rewrite Z.mod_small by lia. done.
Qed.

(** ** Time: integral numbers of ns converted to a larger unit *)

Section integral.
Context (m : Z) (Hm : 0 <= m <= TWO127 - TWO64).

Lemma high_range : 0 <= m / TWO64 <= 9223372036854775807.
Proof using Hm. unfold TWO127, TWO64 in *. lia. Qed.

Lemma GetInt_pos : GetInt m = m / TWO64.
Proof using Hm.
  pose proof high_range. unfold GetInt. ztest. rewrite Z.shiftr_div_pow2 by lia.
  rewrite u128_small by (unfold TWO127, TWO128, TWO64 in *; lia).
  change (2 ^ 64) with TWO64. apply i64_small. lia.
Qed.

Lemma GetInt_neg : GetInt (- m) = - (m / TWO64).
Proof using Hm.
  destruct (decide (m = 0)) as [->|]; [done|].
  pose proof high_range. unfold GetInt. rewrite (proj2 (Z.ltb_lt (- m) 0)) by lia.
  rewrite Z.shiftr_div_pow2, Z.opp_involutive by lia.
  rewrite u128_small by (unfold TWO127, TWO128, TWO64 in *; lia).
  change (2 ^ 64) with TWO64. set (h := m / TWO64) in *. clearbody h.
  rewrite (i64_small h) by lia. apply i64_small. lia.
Qed.

Lemma rounded_high :
  GetHigh (add m (of_hi_lo 0 (Z.shiftl 1 63))) = (m + 9223372036854775808) / TWO64.
Proof using Hm.
  change (of_hi_lo 0 (Z.shiftl 1 63)) with 9223372036854775808. unfold GetHigh, add.
  unfold TWO127, TWO64 in *. rewrite i128_small by (unfold TWO127; lia).
  rewrite Z.shiftr_div_pow2 by lia. change (2 ^ 64) with 18446744073709551616.
  apply i64_small. lia.
Qed.

Lemma Round_pos : Round m = (m + 9223372036854775808) / TWO64.
Proof using Hm. unfold Round. rewrite (proj2 (Z.ltb_ge m 0)) by lia. apply rounded_high. Qed.

Lemma Round_neg : Round (- m) = - ((m + 9223372036854775808) / TWO64).
Proof using Hm.
  destruct (decide (m = 0)) as [->|]; [done|].
  unfold Round. rewrite (proj2 (Z.ltb_lt (- m) 0)) by lia. unfold opp.
  rewrite Z.opp_involutive, i128_small by (unfold TWO127, TWO64 in *; lia).
  rewrite rounded_high. apply i64_small. unfold TWO127, TWO64 in *. lia.
Qed.
End integral.

(** The conversion of a whole number by [MulByInvert]: the integral part and the rounded value are
    those of the exact quotient, and the error is below the last digit. *)
Lemma convert_spec v inv k :
  2 <= v < 9223372036854775808 -> ceil_inverse v (u128 inv) ->
  - 9223372036854775808 <= k < 9223372036854775808 ->
  exists r, MulByInvert (of_int k) inv = Some r /\
    GetInt r = Z.quot k v /\
    Round r = Z.sgn k * ((2 * Z.abs k + v) / (2 * v)) /\
    Z.abs k * TWO64 / v <= Z.abs r <= Z.abs k * TWO64 / v + 1.
Proof.
  intros Hv Hinv Hk. pose proof (inverse_bounds v _ Hv Hinv) as Hb.
  assert (0 <= Z.abs k <= 9223372036854775808) as Habs by lia.
  assert (of_int k = k * TWO64) as ->.
  { unfold of_int. rewrite Z.shiftl_mul_pow2 by lia. change (2 ^ 64) with TWO64.
    apply i128_small. unfold TWO127, TWO64. lia. }
  assert (is_i128 (k * TWO64)) as Hi by (unfold is_i128, TWO127, TWO64; lia).
  assert (Z.quot k v = Z.sgn k * (Z.abs k / v)) as ->.
  { rewrite Z.quot_div, (Z.sgn_pos v), (Z.abs_eq v) by lia. ring. }
  assert (0 <= Z.abs k / v <= 4611686018427387904) as Hq.
  { split; [apply Z.div_pos; lia|]. apply Z.div_le_upper_bound; lia. }
  assert (0 <= (2 * Z.abs k + v) / (2 * v) <= 4611686018427387905) as Hq2.
  { split; [apply Z.div_pos; lia|]. apply Z.div_le_upper_bound; lia. }
  assert (0 <= Z.abs k * u128 inv / TWO64) as Hpos.
  { apply Z.div_pos; [apply Z.mul_nonneg_nonneg; lia|done]. }
  pose proof (inverse_floor v _ Hv Hinv (Z.abs k) Habs) as Hfl.
  pose proof (inverse_round v _ Hv Hinv (Z.abs k) Habs) as Hrd.
  pose proof (inverse_close v _ Hv Hinv (Z.abs k) Habs) as Hcl.
  assert (k = 0 -> Z.abs k * u128 inv / TWO64 = 0 /\ Z.abs k * TWO64 / v = 0) as Hz.
  { intros ->. split; [done|]. apply Z.div_0_l. lia. }
  pose proof (MulByInvert_whole k inv) as Hmul.
  set (m := Z.abs k * u128 inv / TWO64) in *. set (q := Z.abs k / v) in *.
  set (q2 := (2 * Z.abs k + v) / (2 * v)) in *. set (c := Z.abs k * TWO64 / v) in *.
  clearbody m q q2 c. clear Hinv Hv.
  assert (m < TWO127 - TWO64) as Hlt by (unfold TWO64, TWO127 in *; lia).
  rewrite Hmul; [|lia|lia|left; unfold TWO64 in *; lia|done]. clear Hmul Hi Hb.
  eexists. split; [done|].
  destruct (Z.sgn_spec k) as [[Hk0 ->]|[[Hk0 ->]|[Hk0 ->]]].
  - rewrite !Z.mul_1_l. rewrite GetInt_pos, Round_pos by lia. split_and!; [done|done|lia|lia].
  - destruct (Hz (eq_sym Hk0)) as [-> ->]. cbn. split_and!; [done|done|lia|lia].
  - replace (-1 * m) with (- m) by lia. rewrite GetInt_neg, Round_neg by lia. split_and!; lia.
Qed.

(** ** What the arithmetic promises *)

(** C27: The product of two Q64.64 numbers is the exact product truncated to 64 fraction bits when
    that fits in 128 bits, and the overflow assertion fails otherwise. *)
Theorem Mul_truncates (x y : Z) :
  is_i128 x -> is_i128 y ->
  let p := Z.quot (x * y) TWO64 in
  Mul x y = if decide (is_i128 p) then Some p else None.
Proof. intros. by apply Mul_spec. Qed.

Lemma Mul_truncates_witness :
  Mul (of_int (-3)) (of_hi_lo 2 (Z.shiftl 1 63)) = Some (- (7 * TWO64 + TWO64 / 2)).
Proof.
  assert (is_i128 (of_int (-3)) /\ is_i128 (of_hi_lo 2 (Z.shiftl 1 63))) as [H1 H2]
    by (by vm_compute).
  rewrite (Mul_truncates _ _ H1 H2). vm_compute. reflexivity.
Defined.

(** C26: Division ends for every operand and nonzero divisor: every round of its loop finds a
    digit and never divides by zero. When the divisor without its trailing zero bits fits in 64
    bits, as for whole numbers and for divisors below one, the quotient is the exact one truncated
    to 64 fraction bits. *)
Theorem Div_terminates_exact (x y : Z) :
  is_i128 x -> is_i128 y -> y <> 0 ->
  is_Some (Div x y) /\
  forall s, 0 <= s <= 64 -> Z.abs y mod 2 ^ s = 0 -> Z.abs y <= 2 ^ (64 + s) ->
    Z.abs (Z.quot (x * TWO64) y) < TWO127 ->
    Div x y = Some (Z.quot (x * TWO64) y).
Proof.
  intros Hx Hy Hne. unfold Div. rewrite output_sign_abs by done. unfold is_i128 in Hx, Hy.
  unfold TWO127 in Hx, Hy. split.
  - destruct (Udiv_total (Z.abs x) (Z.abs y)) as [r ->]; [unfold TWO128; lia..|]. by eexists.
  - intros s Hs Hdiv Hle Hfit.
    assert (Z.quot (x * TWO64) y = Z.sgn x * Z.sgn y * (Z.abs x * TWO64 / Z.abs y)) as Hq.
    { rewrite Z.quot_div, Z.sgn_mul, Z.abs_mul by done. change (Z.sgn TWO64) with 1.
      change (Z.abs TWO64) with TWO64. ring. }
    rewrite Hq in Hfit |- *. clear Hq. pose proof (Udiv_exact (Z.abs x) (Z.abs y) s) as HU.
    assert (0 <= Z.abs x * TWO64 / Z.abs y) as Hpos
      by (apply Z.div_pos; [apply Z.mul_nonneg_nonneg; [lia|done]|lia]).
    assert (x = 0 -> Z.abs x * TWO64 / Z.abs y = 0) as Hx0
      by (intros ->; apply Z.div_0_l; lia).
    set (r := Z.abs x * TWO64 / Z.abs y) in *. clearbody r.
    assert (r < TWO127) as Hlt.
    { destruct (decide (x = 0)) as [E|]; [rewrite Hx0 by done; done|].
      assert (Z.sgn x = 1 \/ Z.sgn x = -1) as [E|E] by lia;
        assert (Z.sgn y = 1 \/ Z.sgn y = -1) as [E'|E'] by lia; rewrite E, E' in Hfit; lia. }
    unfold TWO127, TWO128 in *. clear Hfit. rewrite HU; [|lia|lia|done|done|done|lia].
    clear HU Hdiv Hle. f_equal.
    rewrite (i128_small r) by (unfold TWO127; lia).
    destruct (Z.ltb_spec x 0), (Z.ltb_spec y 0); cbn [xorb].
    all: rewrite ?(i128_small (- r)) by (unfold TWO127; lia).
    all: rewrite ?(Z.sgn_neg x), ?(Z.sgn_neg y), ?(Z.sgn_pos y) by lia.
    all: destruct (decide (x = 0)) as [->|]; [rewrite Hx0 by done; lia|].
    all: rewrite ?(Z.sgn_pos x) by lia; lia.
Qed.

Lemma Div_terminates_exact_witness :
  Div (of_int 7) (of_int (-2)) = Some (Z.quot (of_int 7 * TWO64) (of_int (-2))).
Proof.
  assert (is_i128 (of_int 7) /\ is_i128 (of_int (-2))) as [H1 H2] by (by vm_compute).
  destruct (Div_terminates_exact _ _ H1 H2 ltac:(done)) as [_ H].
  apply (H 64); vm_compute; done.
Defined.
