(* ===== verification/TimeUnits.v ===== *)
(** * Units of time ([src/core/model/nstime.h], [time.cc])

    The conversion table that [Time::SetResolution] fills and the conversions of [Time] between
    units, on the fixed-point numbers of [Int64x64].  A time is its [int64_t m_data]; the list of
    marked times that a change of resolution converts is not modelled. *)

From S2P Require Export Int64x64.

Inductive Unit := Y | D | H | MIN | S_ | MS | US | NS | PS | FS.
Definition all_units : list Unit := [Y; D; H; MIN; S_; MS; US; NS; PS; FS].

Definition UNIT_POWER (u : Unit) : Z :=
  match u with
  | Y => 17 | D => 17 | H => 17 | MIN => 16 | S_ => 15 | MS => 12 | US => 9 | NS => 6 | PS => 3 | FS => 0
  end.
Definition UNIT_COEFF (u : Unit) : Z :=
  match u with Y => 315360 | D => 864 | H => 36 | MIN => 6 | _ => 1 end.

Record Information := mkInformation {
  toMul : bool;
  fromMul : bool;
  factor : Z;
  timeTo : Z;
  timeFrom : Z;
  isValid : bool;
}.

Definition INT64_MAX : Z := 9223372036854775807.

(** One entry of [SetResolution]: unit [i] when the resolution is [unit].  The powers of ten and
    the products are computed in [double]s; all those up to [2^63] are exact. *)
Definition SetResolution_info (unit i : Unit) : option Information :=
  let shift := UNIT_POWER i - UNIT_POWER unit in
  let! quotient :=
    if UNIT_COEFF unit <? UNIT_COEFF i then
      let q := UNIT_COEFF i / UNIT_COEFF unit in
      ASSERT q * UNIT_COEFF unit =? UNIT_COEFF i ;; Some q
    else if UNIT_COEFF i <? UNIT_COEFF unit then
      let q := UNIT_COEFF unit / UNIT_COEFF i in
      ASSERT q * UNIT_COEFF i =? UNIT_COEFF unit ;; Some q
    else Some 1 in
  let fac := 10 ^ Z.abs shift * quotient in
  if INT64_MAX <? fac then Some (mkInformation false false 0 0 0 false)
  else if (shift =? 0) && (quotient =? 1) then
    Some (mkInformation true true fac (of_int 1) (of_int 1) true)
  else if UNIT_COEFF unit * 10 ^ UNIT_POWER unit <? UNIT_COEFF i * 10 ^ UNIT_POWER i then
    let! inv := Invert fac in Some (mkInformation false true fac inv (of_int fac) true)
  else
    ASSERT UNIT_COEFF i * 10 ^ UNIT_POWER i <? UNIT_COEFF unit * 10 ^ UNIT_POWER unit ;;
    let! inv := Invert fac in Some (mkInformation true false fac (of_int fac) inv true).

(** The methods of [Time]; a time is its [m_data], in the current resolution, and [info] the entry
    of the unit asked for. *)
Definition To (info : Information) (m_data : Z) : option Z :=
  ASSERT isValid info ;;
  if toMul info then Mul (of_int m_data) (timeTo info) else MulByInvert (of_int m_data) (timeTo info).
Definition ToInteger (info : Information) (m_data : Z) : option Z :=
  ASSERT isValid info ;;
  if toMul info then Some (i64 (m_data * factor info))
  else ASSERT negb (factor info =? 0) ;; Some (i64 (Z.quot m_data (factor info))).
Definition FromInteger (info : Information) (value : Z) : option Z :=
  ASSERT isValid info ;;
  if fromMul info then Some (i64 (u64 (value * u64 (factor info))))
  else ASSERT negb (u64 (factor info) =? 0) ;; Some (i64 (value / u64 (factor info))).
Definition From_ (info : Information) (value : Z) : option Z :=
  ASSERT isValid info ;;
  let! retval :=
    if fromMul info then Mul value (timeFrom info) else MulByInvert value (timeFrom info) in
  Some (Round retval).
Definition RoundTo (info : Information) (m_data : Z) : option Z :=
  let! v := To info m_data in From_ info (of_int (Round v)).

Definition Min : Z := -9223372036854775808.
Definition Max : Z := 9223372036854775807.
Definition IsZero (t : Z) : bool := t =? 0.
Definition IsNegative (t : Z) : bool := t <=? 0.
Definition IsPositive (t : Z) : bool := 0 <=? t.
Definition IsStrictlyNegative (t : Z) : bool := t <? 0.
Definition IsStrictlyPositive (t : Z) : bool := 0 <? t.
Definition Compare (t o : Z) : Z := if t <? o then -1 else if t =? o then 0 else 1.

(** The femtoseconds of a unit. *)
Definition unit_value (u : Unit) : Z := UNIT_COEFF u * 10 ^ UNIT_POWER u.

(** What an entry must say of the ratio of two units. *)
Definition info_ok (unit i : Unit) : bool :=
  match SetResolution_info unit i with
  | Some info =>
      if isValid info then
        (0 <? factor info) && (factor info <=? INT64_MAX) &&
        Bool.eqb (fromMul info) (unit_value unit <=? unit_value i) &&
        Bool.eqb (toMul info) (unit_value i <=? unit_value unit) &&
        (if fromMul info then unit_value i =? factor info * unit_value unit
         else unit_value unit =? factor info * unit_value i) &&
        (if fromMul info then timeFrom info =? of_int (factor info) else true) &&
        (if toMul info then timeTo info =? of_int (factor info) else true)
      else
        (INT64_MAX * unit_value unit <? unit_value i) || (INT64_MAX * unit_value i <? unit_value unit)
  | None => false
  end.

Lemma all_infos_ok : forallb (fun unit => forallb (info_ok unit) all_units) all_units = true.
Proof. vm_compute. reflexivity. Qed.

Lemma info_ok_all unit i : info_ok unit i = true.
Proof.
  pose proof all_infos_ok as Hall. rewrite forallb_forall in Hall.
  assert (forall u, List.In u all_units) as Hin by (intros []; cbn; tauto).
  specialize (Hall unit (Hin unit)). rewrite forallb_forall in Hall. apply Hall, Hin.
Qed.

(** ** Whole numbers *)
Definition is_i64 (t : Z) : Prop := -9223372036854775808 <= t <= INT64_MAX.

Lemma of_int_whole k : is_i64 k -> of_int k = k * TWO64.
Proof.
  unfold is_i64, INT64_MAX. intros. unfold of_int. rewrite Z.shiftl_mul_pow2 by lia.
  change (2 ^ 64) with TWO64. apply i128_small. unfold TWO127, TWO64. lia.
Qed.

Lemma Mul_whole k f :
  is_i64 k -> is_i64 f -> is_i64 (k * f) -> Mul (of_int k) (of_int f) = Some (of_int (k * f)).
Proof.
  intros Hk Hf Hkf. rewrite !of_int_whole by done.
  assert (forall z, is_i64 z -> is_i128 (z * TWO64)) as Hi
    by (unfold is_i64, INT64_MAX, is_i128, TWO127, TWO64; lia).
  rewrite Mul_spec by auto.
  replace (k * TWO64 * (f * TWO64)) with (k * f * TWO64 * TWO64) by ring.
  rewrite Z.quot_mul by done. by rewrite decide_True by auto.
Qed.

Lemma Round_whole k : is_i64 k -> k <> -9223372036854775808 -> Round (of_int k) = k.
Proof.
  intros Hk Hne. pose proof Hk as Hk'. unfold is_i64, INT64_MAX in Hk'. rewrite of_int_whole by done.
  destruct (decide (0 <= k)).
  - rewrite Round_pos by (unfold TWO127, TWO64; intros; lia).
    rewrite Z.add_comm, Z.div_add by done. done.
  - replace (k * TWO64) with (- (- k * TWO64)) by ring.
    rewrite Round_neg by (unfold TWO127, TWO64; lia). rewrite Z.add_comm, Z.div_add by done.
    change (9223372036854775808 / TWO64) with 0. lia.
Qed.

Lemma quot_i64 t f : is_i64 t -> 2 <= f -> is_i64 (Z.quot t f).
Proof.
  unfold is_i64, INT64_MAX. intros Ht Hf.
  pose proof (Z.quot_abs t f ltac:(lia)) as Hq. rewrite (Z.abs_eq f) in Hq by lia.
  enough (0 <= Z.quot (Z.abs t) f <= 4611686018427387904) by lia.
  split; [apply Z.quot_pos; lia|]. rewrite Z.quot_div_nonneg by lia. apply Z.div_le_upper_bound; lia.
Qed.

(** The entries as propositions. *)
Lemma info_ratio unit i info :
  SetResolution_info unit i = Some info -> isValid info = true ->
  0 < factor info <= INT64_MAX /\
  (fromMul info = true <-> unit_value unit <= unit_value i) /\
  (toMul info = true <-> unit_value i <= unit_value unit) /\
  (if fromMul info then unit_value i = factor info * unit_value unit /\ timeFrom info = of_int (factor info)
   else unit_value unit = factor info * unit_value i) /\
  (toMul info = true -> timeTo info = of_int (factor info)).
Proof.
  intros Hi Hv. pose proof (info_ok_all unit i) as Hok. unfold info_ok in Hok. rewrite Hi, Hv in Hok.
  rewrite !andb_true_iff in Hok. destruct Hok as ((((((Hf1&Hf2)&Hfm)&Htm)&Hr)&Htf)&Htt).
  apply Z.ltb_lt in Hf1. apply Z.leb_le in Hf2. apply Bool.eqb_prop in Hfm, Htm.
  split_and!; [done|done| | | |].
  - rewrite Hfm. apply Z.leb_le.
  - rewrite Htm. apply Z.leb_le.
  - destruct (fromMul info); [split; by apply Z.eqb_eq|by apply Z.eqb_eq].
  - intros Hm. rewrite Hm in Htt. by apply Z.eqb_eq.
Qed.

(** For a unit larger than the resolution the entry holds an inverse. *)
Lemma info_inverse unit i info :
  SetResolution_info unit i = Some info -> isValid info = true -> toMul info = false ->
  2 <= factor info < 9223372036854775808 /\ fromMul info = true /\
  timeFrom info = of_int (factor info) /\ ceil_inverse (factor info) (u128 (timeTo info)).
Proof.
  intros Hi Hv Hm. destruct (info_ratio _ _ _ Hi Hv) as (Hf&Hfrom&Hto&Hr&_).
  assert (unit_value unit < unit_value i) as Hlt.
  { destruct (decide (unit_value i <= unit_value unit)) as [Hle|]; [|lia].
    apply Hto in Hle. congruence. }
  assert (fromMul info = true) as Hfm by (apply Hfrom; lia).
  rewrite Hfm in Hr. destruct Hr as [Hval Htf].
  assert (0 < unit_value unit) by (destruct unit; done).
  assert (2 <= factor info) by nia. unfold INT64_MAX in Hf. split_and!; [lia|lia|done|done|].
  unfold SetResolution_info in Hi.
  destruct (if UNIT_COEFF unit <? UNIT_COEFF i then _ else _) as [q|]; [|done].
  destruct (INT64_MAX <? _); [by injection Hi as <-|].
  destruct (_ && _); [injection Hi as <-; done|].
  destruct (UNIT_COEFF unit * _ <? _).
  - destruct (Invert _) as [inv|] eqn:Einv; [|done]. injection Hi as <-. cbn in *.
    destruct (Invert_spec _ ltac:(unfold INT64_MAX in *; split; [eassumption|lia])) as (inv'&Einv'&?).
    congruence.
  - destruct (_ <? _); [|done]. destruct (Invert _); [|done]. injection Hi as <-. done.
Qed.

(** ** What the conversions promise *)

(** C25: Whatever the resolution, converting a time to a larger unit through the 128-bit inverse
    of the conversion table is exact: the integral part is the quotient truncated towards zero, as
    the integer conversion gives it, and RoundTo gives the nearest multiple of the unit, halves
    away from zero. *)
Theorem time_conversion_exact (unit i : Unit) (info : Information) (t : Z) :
  SetResolution_info unit i = Some info -> isValid info = true -> unit_value unit < unit_value i ->
  is_i64 t ->
  exists r, To info t = Some r /\
    unit_value i = factor info * unit_value unit /\
    GetInt r = Z.quot t (factor info) /\ ToInteger info t = Some (Z.quot t (factor info)) /\
    (2 * Z.abs t + factor info < 2 * INT64_MAX ->
     RoundTo info t = Some (Z.sgn t * ((2 * Z.abs t + factor info) / (2 * factor info)) * factor info)).
Proof.
  intros Hi Hv Hlt Ht. destruct (info_ratio _ _ _ Hi Hv) as (_&Hfrom&Hto&Hr&_).
  assert (toMul info = false) as Hm.
  { destruct (toMul info); [|done]. destruct Hto as [Hle _]. specialize (Hle eq_refl). lia. }
  destruct (info_inverse _ _ _ Hi Hv Hm) as (Hf&Hfm&Htf&Hinv).
  rewrite Hfm in Hr. destruct Hr as [Hval _].
  destruct (convert_spec (factor info) (timeTo info) t Hf Hinv ltac:(unfold is_i64, INT64_MAX in *; lia)) as (r&Er&Hint&Hround&_).
  assert (To info t = Some r) as Hto' by (unfold To; by rewrite Hv, Hm).
  exists r. split_and!; [done|done|done| |].
  - unfold ToInteger. rewrite Hv, Hm. rewrite (proj2 (Z.eqb_neq (factor info) 0)) by lia. cbn [negb].
    f_equal. apply i64_small. pose proof (quot_i64 t (factor info) Ht (proj1 Hf)) as Hq.
    unfold is_i64, INT64_MAX in Hq. lia.
  - intros Hfit. unfold RoundTo. rewrite Hto', Hround. unfold From_. rewrite Hv, Hfm, Htf.
    pose proof (Z.mul_div_le (2 * Z.abs t + factor info) (2 * factor info) ltac:(lia)) as Hle.
    assert (0 <= (2 * Z.abs t + factor info) / (2 * factor info)) as Hn0 by (apply Z.div_pos; lia).
    set (n := (2 * Z.abs t + factor info) / (2 * factor info)) in *. clearbody n.
    assert (is_i64 (Z.sgn t * n * factor info) /\ Z.sgn t * n * factor info <> -9223372036854775808) as [H1 H2].
    { clear Hinv Hround. unfold is_i64, INT64_MAX in *.
      assert (0 <= n * factor info) by (apply Z.mul_nonneg_nonneg; lia).
      destruct (Z.sgn_spec t) as [[_ ->]|[[_ ->]|[_ ->]]]; lia. }
    assert (is_i64 (Z.sgn t * n)) as H3.
    { clear Hinv Hround. unfold is_i64, INT64_MAX in *. assert (n <= n * factor info) by nia.
      destruct (Z.sgn_spec t) as [[_ ->]|[[_ ->]|[_ ->]]]; lia. }
    assert (is_i64 (factor info)) by (unfold is_i64, INT64_MAX; lia).
    rewrite Mul_whole by done. by rewrite Round_whole.
Qed.

(** C28: A whole number of a unit not smaller than the resolution becomes a time and reads back as
    the same number. *)
Theorem time_units_roundtrip (unit i : Unit) (info : Information) (k : Z) :
  SetResolution_info unit i = Some info -> isValid info = true -> unit_value unit <= unit_value i ->
  Z.abs (k * factor info) <= INT64_MAX ->
  From_ info (of_int k) = Some (k * factor info) /\ ToInteger info (k * factor info) = Some k.
Proof.
  intros Hi Hv Hle Hk. destruct (info_ratio _ _ _ Hi Hv) as (Hf&Hfrom&Hto&Hr&_).
  assert (fromMul info = true) as Hfm by by apply Hfrom. rewrite Hfm in Hr. destruct Hr as [Hval Htf].
  assert (is_i64 k) as Hki by (unfold is_i64, INT64_MAX in *; nia).
  unfold From_, ToInteger. rewrite Hv, Hfm, Htf.
  rewrite Mul_whole by first [done|unfold is_i64, INT64_MAX in *; lia].
  rewrite Round_whole by (unfold is_i64, INT64_MAX in *; lia). split; [done|].
  destruct (toMul info) eqn:Hm.
  - assert (unit_value i = unit_value unit) by (pose proof (proj1 Hto eq_refl); lia).
    assert (0 < unit_value unit) by (destruct unit; done).
    assert (factor info = 1) as -> by nia. rewrite i64_small; [f_equal; lia|].
    unfold is_i64, INT64_MAX in *. lia.
  - rewrite (proj2 (Z.eqb_neq (factor info) 0)) by lia. cbn [negb].
    rewrite Z.quot_mul by lia. unfold is_i64, INT64_MAX in *. by rewrite i64_small by lia.
Qed.

Lemma time_conversion_exact_witness :
  exists info r, SetResolution_info NS S_ = Some info /\ To info (-1500000001) = Some r /\
    GetInt r = -1 /\ RoundTo info (-1500000001) = Some (-2000000000).
Proof.
  eexists. destruct (time_conversion_exact NS S_ _ (-1500000001) ltac:(vm_compute; reflexivity)
    ltac:(reflexivity) ltac:(reflexivity) ltac:(unfold is_i64, INT64_MAX; lia))
    as (r&Hr&_&Hint&_&Hround).
  exists r. split; [vm_compute; reflexivity|]. split; [exact Hr|]. split; [exact Hint|].
  apply Hround. unfold INT64_MAX. cbn. lia.
Defined.

Lemma time_units_roundtrip_witness :
  exists info, SetResolution_info US D = Some info /\
    From_ info (of_int (-30)) = Some (-2592000000000) /\ ToInteger info (-2592000000000) = Some (-30).
Proof.
  eexists. split; [vm_compute; reflexivity|].
  exact (time_units_roundtrip US D _ (-30) ltac:(vm_compute; reflexivity) ltac:(reflexivity)
    ltac:(by vm_compute) ltac:(unfold INT64_MAX; cbn; lia)).
Defined.
